(** * Production schedule reflow: a shallow embedding and its properties

    The development follows the TypeScript sources of the reflow engine:
    - [Luxon]             the part of the date library the engine relies on;
    - [JsMap]             insertion-ordered maps, as JavaScript's [Map];
    - [IntervalUtils]     src/utils/interval-utils.ts;
    - [DateUtils]         src/utils/date-utils.ts, the allocator the driver imports;
    - [DateUtilsV1]       the earlier revision of the same module;
    - [Dag]               src/reflow/dag.ts;
    - [ConstraintChecker] src/reflow/constraint-checker.ts;
    - [ConstraintCheckerV1] the maintenance check of its earlier revision;
    - [Reflow]            src/reflow/reflow.service.ts;
    - [Ranged]            the allocator and the driver with the range of the date
                          library written out;
    - [Scenarios]         src/sample-data/scenarios.ts;
    - [Cases], [FurtherCases] further inputs, written like the sample scenarios.

    Instants are milliseconds since the epoch, as in the date library, and the
    ISO strings at the boundary keep the instant they denote and how they are
    spelled. The date library represents the instants up to [maxInstant] either
    side of the epoch only, and what it builds past them is an invalid date:
    the functions of [Luxon] are the library's where their results are within
    that range, and [Ranged] has the search for a shift window, the allocator
    and the driver with the range written out. The properties that depend on
    it, that a search or a run returns and what makes it throw, are stated of
    the functions of [Ranged], on the runs that stay within the range
    ([searchInRange], [allocatorInRange], [reflowInRange]), where they are the
    functions of [DateUtils] and [Reflow]. Durations are whole numbers of
    minutes. Loops that JavaScript runs until a condition fails take a [fuel]
    argument; a run that exhausts it yields [OutOfFuel], which is neither a
    value nor a thrown error, and a run that does not exhaust it gives the same
    outcome with any larger fuel. The order of the properties is: intervals and
    maps, the calendar, the shift window resolver, the allocator, the
    topological sort, the driver. *)

From Stdlib Require Import ZArith List String Bool Lia Permutation Sorted Relations.
Import ListNotations.
Open Scope Z_scope.

(** ** Results of computations that may throw *)

Inductive result (A : Type) : Type :=
| Ok (a : A)
| Throw (msg : string)
| OutOfFuel.

Arguments Ok {A} a.
Arguments Throw {A} msg.
Arguments OutOfFuel {A}.

Definition bind {A B : Type} (r : result A) (k : A -> result B) : result B :=
  match r with
  | Ok a => k a
  | Throw msg => Throw msg
  | OutOfFuel => OutOfFuel
  end.

Notation "x <- c ;; k" := (bind c (fun x => k))
  (at level 61, c at next level, right associativity).

Definition returns {A : Type} (r : result A) : Prop := exists a, r = Ok a.
Definition throws {A : Type} (r : result A) : Prop := exists msg, r = Throw msg.

(** ** The date library *)

Module Luxon.

(** A [DateTime] in the UTC zone is its number of milliseconds since
    1970-01-01T00:00:00.000Z. *)
Definition DateTime : Type := Z.

Definition msPerMinute : Z := 60000.
Definition msPerHour : Z := 3600000.
Definition msPerDay : Z := 86400000.

(** The instants the library represents are those within 100,000,000 days
    of the epoch; a [DateTime] built past them is invalid: it has no weekday
    and it is neither before nor after any other. *)
Definition maxInstant : Z := 8640000000000000.

Definition validInstant (dt : DateTime) : bool :=
  (- maxInstant <=? dt) && (dt <=? maxInstant).

(** [dt.plus({ minutes: m })] and [dt.plus({ days: d })]. *)
Definition plusMinutes (dt : DateTime) (m : Z) : DateTime := dt + m * msPerMinute.
Definition plusDays (dt : DateTime) (d : Z) : DateTime := dt + d * msPerDay.

(** [dt.startOf("day")]. *)
Definition startOfDay (dt : DateTime) : DateTime := (dt / msPerDay) * msPerDay.

(** [dt.weekday]: Monday is 1, Sunday is 7. Day 0 of the epoch is a Thursday. *)
Definition weekday (dt : DateTime) : Z := (dt / msPerDay + 3) mod 7 + 1.

(** [day.set({ hour: h, minute: 0, second: 0, millisecond: 0 })]. *)
Definition setHour (day : DateTime) (h : Z) : DateTime := startOfDay day + h * msPerHour.

(** [Math.floor(a.diff(b, "minutes").minutes)]. *)
Definition floorDiffMinutes (a b : DateTime) : Z := (a - b) / msPerMinute.

(** An ISO-8601 string is kept as what the engine can observe of it: the
    instant [DateTime.fromISO] reads from it, and which of the spellings of
    that instant it is. Spelling [0] is the one [toISO] prints
    (2026-03-02T08:00:00.000Z); the sample data is written in another one,
    without the milliseconds (2026-03-02T08:00:00Z). Two strings are equal
    under [===] when both components agree. *)
Record ISODateString : Type := mkISO { iso_instant : DateTime; iso_spelling : nat }.

Definition fromISO (s : ISODateString) : DateTime := iso_instant s.
Definition toISO (dt : DateTime) : ISODateString := mkISO dt 0.

Definition iso_eqb (a b : ISODateString) : bool :=
  (iso_instant a =? iso_instant b) && Nat.eqb (iso_spelling a) (iso_spelling b).

(** Days from the civil date to the epoch, for writing dates down. *)
Definition daysFromCivil (y m d : Z) : Z :=
  let y' := if m <=? 2 then y - 1 else y in
  let era := y' / 400 in
  let yoe := y' - era * 400 in
  let mp := (m + 9) mod 12 in
  let doy := (153 * mp + 2) / 5 + d - 1 in
  let doe := yoe * 365 + yoe / 4 - yoe / 100 + doy in
  era * 146097 + doe - 719468.

Definition utc (y m d hh mm : Z) : DateTime :=
  daysFromCivil y m d * msPerDay + hh * msPerHour + mm * msPerMinute.

(** The string [y-m-dThh:mm:00Z], the spelling used by the sample data. *)
Definition isoZ (y m d hh mm : Z) : ISODateString := mkISO (utc y m d hh mm) 1.

End Luxon.
Import Luxon.

(** ** JavaScript maps: insertion-ordered, one entry per key *)

Module JsMap.

Definition t (V : Type) : Type := list (string * V).

Fixpoint get {V : Type} (m : t V) (k : string) : option V :=
  match m with
  | [] => None
  | (k', v) :: m' => if String.eqb k' k then Some v else get m' k
  end.

Definition has {V : Type} (m : t V) (k : string) : bool :=
  match get m k with Some _ => true | None => false end.

(** [m.set(k, v)]: an existing key keeps its position. *)
Fixpoint set {V : Type} (m : t V) (k : string) (v : V) : t V :=
  match m with
  | [] => [(k, v)]
  | (k', v') :: m' =>
      if String.eqb k' k then (k', v) :: m' else (k', v') :: set m' k v
  end.

(** [new Map(entries)]. *)
Definition ofEntries {V : Type} (entries : list (string * V)) : t V :=
  fold_left (fun m kv => set m (fst kv) (snd kv)) entries [].

Definition keys {V : Type} (m : t V) : list string := map fst m.
Definition values {V : Type} (m : t V) : list V := map snd m.

End JsMap.

(** ** src/utils/interval-utils.ts *)

Module IntervalUtils.

(** [start] is inclusive, [end_] exclusive. *)
Record Interval : Type := mkInterval {
  start : DateTime;
  end_ : DateTime;
  reason : option string
}.

Definition overlaps (a b : Interval) : bool :=
  (start a <? end_ b) && (start b <? end_ a).

(** [Array.prototype.sort] is stable; the comparator orders by [start]. *)
Fixpoint insertByStart (x : Interval) (l : list Interval) : list Interval :=
  match l with
  | [] => [x]
  | y :: l' => if start y <? start x then y :: insertByStart x l' else x :: y :: l'
  end.

Definition sortIntervals (intervals : list Interval) : list Interval :=
  fold_right insertByStart [] intervals.

Fixpoint pushOutOfBlocked (cursor : DateTime) (blocked : list Interval) : DateTime :=
  match blocked with
  | [] => cursor
  | b :: blocked' =>
      if (cursor >=? start b) && (cursor <? end_ b) then end_ b
      else pushOutOfBlocked cursor blocked'
  end.

End IntervalUtils.
Import IntervalUtils.

(** ** src/reflow/types.ts *)

(** The hours of a shift and the minutes of a work order are [number]s in
    types.ts; here they are whole numbers, so that the development speaks of
    the inputs whose durations are whole numbers of minutes. *)
Record Shift : Type := mkShift {
  dayOfWeek : Z;   (* 0-6, Sunday = 0 *)
  startHour : Z;
  endHour : Z
}.

Record MaintenanceWindow : Type := mkMaintenanceWindow {
  mw_startDate : ISODateString;
  mw_endDate : ISODateString;
  mw_reason : option string
}.

Record WorkCenter : Type := mkWorkCenter {
  wc_docId : string;
  wc_name : string;
  shifts : list Shift;
  maintenanceWindows : list MaintenanceWindow
}.

Record WorkOrder : Type := mkWorkOrder {
  docId : string;
  workOrderNumber : string;
  manufacturingOrderId : string;
  workCenterId : string;
  startDate : ISODateString;
  endDate : ISODateString;
  durationMinutes : Z;
  isMaintenance : bool;
  dependsOnWorkOrderIds : list string;
  setupTimeMinutes : option Z
}.

Record ReflowInput : Type := mkReflowInput {
  workOrders : list WorkOrder;
  workCenters : list WorkCenter
}.

Record Change : Type := mkChange {
  ch_workOrderId : string;
  ch_workOrderNumber : string;
  ch_reason : string;
  oldStart : ISODateString;
  newStart : ISODateString;
  oldEnd : ISODateString;
  newEnd : ISODateString;
  deltaMinutes : Z
}.

Record Metrics : Type := mkMetrics {
  totalDelayMinutes : Z;
  movedCount : Z
}.

Record ReflowResult : Type := mkReflowResult {
  updatedWorkOrders : list WorkOrder;
  changes : list Change;
  explanation : list string;
  metrics : Metrics
}.

(** ** src/utils/date-utils.ts *)

Module DateUtils.

Definition shiftIntervalForDay (day : DateTime) (shift : Shift) : Interval :=
  mkInterval (setHour day (startHour shift)) (setHour day (endHour shift)) None.

(** The shift windows of the day [d] days after the cursor's, by start. *)
Definition dayWindows (cursor : DateTime) (shifts : list Shift) (d : Z) : list Interval :=
  let day := startOfDay (plusDays cursor d) in
  let dow := weekday day mod 7 in
  sortIntervals
    (map (shiftIntervalForDay day) (filter (fun s => dayOfWeek s =? dow) shifts)).

(** The inner loop of the cursor's own day. *)
Fixpoint firstEndingAfter (cursor : DateTime) (ws : list Interval) : option Interval :=
  match ws with
  | [] => None
  | w :: ws' =>
      if cursor <? end_ w
      then Some (mkInterval (if cursor <? start w then start w else cursor) (end_ w) None)
      else firstEndingAfter cursor ws'
  end.

(** The loop [for (let d = 0; d < 14; d++)], entered at [d] with [n] rounds left. *)
Fixpoint searchDays (cursor : DateTime) (shifts : list Shift) (d : Z) (n : nat)
  : result Interval :=
  match n with
  | O => Throw "No shift window found in search horizon."
  | S n' =>
      match dayWindows cursor shifts d with
      | [] => searchDays cursor shifts (d + 1) n'
      | w0 :: _ =>
          if d =? 0 then
            match firstEndingAfter cursor (dayWindows cursor shifts d) with
            | Some w => Ok w
            | None => searchDays cursor shifts (d + 1) n'
            end
          else Ok (mkInterval (start w0) (end_ w0) None)
      end
  end.

Definition findNextShiftWindow (cursor : DateTime) (shifts : list Shift) : result Interval :=
  match shifts with
  | [] => Throw "No shifts defined for work center."
  | _ => searchDays cursor shifts 0 14
  end.

(** The scan for the next block that could cut the current shift segment. *)
Fixpoint nextBlock (cursor shiftEnd : DateTime) (blockedSorted : list Interval)
  : option Interval :=
  match blockedSorted with
  | [] => None
  | b :: rest =>
      if end_ b <=? cursor then nextBlock cursor shiftEnd rest
      else if start b >=? shiftEnd then None
      else Some b
  end.

Record LoopState : Type := mkLoopState {
  cursor : DateTime;
  remaining : Z;
  scheduledStart : option DateTime
}.

(** One round of the body of [while (remaining > 0)]; every [continue] and
    the fall-through at the end of the body hand back the next state. *)
Definition loopBody (shifts : list Shift) (blockedSorted : list Interval)
    (st : LoopState) : result LoopState :=
  shiftWindow <- findNextShiftWindow (cursor st) shifts ;;
  let cursor1 := if cursor st <? start shiftWindow then start shiftWindow else cursor st in
  let cursor2 := pushOutOfBlocked cursor1 blockedSorted in
  let cursor3 := if cursor2 <? start shiftWindow then start shiftWindow else cursor2 in
  if cursor3 >=? end_ shiftWindow then
    Ok (mkLoopState (plusMinutes (end_ shiftWindow) 1) (remaining st) (scheduledStart st))
  else
    let scheduledStart' :=
      match scheduledStart st with
      | Some s => Some s
      | None => Some cursor3
      end in
    let shiftEnd := end_ shiftWindow in
    let next := nextBlock cursor3 shiftEnd blockedSorted in
    let freeEnd :=
      match next with
      | Some b =>
          if start b >? cursor3
          then (if start b <? shiftEnd then start b else shiftEnd)
          else shiftEnd
      | None => shiftEnd
      end in
    if freeEnd <=? cursor3 then
      match next with
      | Some b => Ok (mkLoopState (end_ b) (remaining st) scheduledStart')
      | None => Ok (mkLoopState (plusMinutes shiftEnd 1) (remaining st) scheduledStart')
      end
    else
      let freeMinutes := floorDiffMinutes freeEnd cursor3 in
      if freeMinutes <=? 0 then
        Ok (mkLoopState (plusMinutes freeEnd 1) (remaining st) scheduledStart')
      else
        let used := Z.min (remaining st) freeMinutes in
        Ok (mkLoopState
              (pushOutOfBlocked (plusMinutes cursor3 used) blockedSorted)
              (remaining st - used)
              scheduledStart').

Fixpoint allocLoop (fuel : nat) (shifts : list Shift) (blockedSorted : list Interval)
    (st : LoopState) : result LoopState :=
  if remaining st >? 0 then
    match fuel with
    | O => OutOfFuel
    | S fuel' =>
        st' <- loopBody shifts blockedSorted st ;;
        allocLoop fuel' shifts blockedSorted st'
    end
  else Ok st.

Record Params : Type := mkParams {
  p_startISO : ISODateString;
  p_durationMinutes : Z;
  p_shifts : list Shift;
  p_blocked : list Interval
}.

Record Span : Type := mkSpan { startISO : ISODateString; endISO : ISODateString }.

Definition scheduleWithShiftsAndBlocks (fuel : nat) (params : Params) : result Span :=
  let cursor0 := fromISO (p_startISO params) in
  let blockedSorted := sortIntervals (p_blocked params) in
  let cursor1 := pushOutOfBlocked cursor0 blockedSorted in
  st <- allocLoop fuel (p_shifts params) blockedSorted
          (mkLoopState cursor1 (p_durationMinutes params) None) ;;
  let scheduledStart' :=
    match scheduledStart st with
    | Some s => s
    | None => fromISO (p_startISO params)
    end in
  Ok (mkSpan (toISO scheduledStart') (toISO (cursor st))).

End DateUtils.

(** ** The earlier revision of the date utilities *)

Module DateUtilsV1.

Definition shiftIntervalForDay (day : DateTime) (shift : Shift) : Interval :=
  mkInterval (setHour day (startHour shift)) (setHour day (endHour shift)) None.

Definition dayShifts (cursor : DateTime) (shifts : list Shift) (d : Z) : list Interval :=
  let day := startOfDay (plusDays cursor d) in
  let dow := weekday day mod 7 in
  sortIntervals
    (map (shiftIntervalForDay day) (filter (fun s => dayOfWeek s =? dow) shifts)).

Fixpoint firstEndingAfter (cursor : DateTime) (ws : list Interval) : option Interval :=
  match ws with
  | [] => None
  | w :: ws' =>
      if cursor <? end_ w
      then Some (mkInterval (if cursor <? start w then start w else cursor) (end_ w) None)
      else firstEndingAfter cursor ws'
  end.

Fixpoint searchDays (cursor : DateTime) (shifts : list Shift) (d : Z) (n : nat)
  : result Interval :=
  match n with
  | O => Throw "No shift window found in search horizon."
  | S n' =>
      match dayShifts cursor shifts d with
      | [] => searchDays cursor shifts (d + 1) n'
      | w :: _ =>
          if d =? 0 then
            match firstEndingAfter cursor (dayShifts cursor shifts d) with
            | Some w' => Ok w'
            | None => searchDays cursor shifts (d + 1) n'
            end
          else Ok (mkInterval (start w) (end_ w) None)
      end
  end.

Definition findNextShiftWindow (cursor : DateTime) (shifts : list Shift) : result Interval :=
  match shifts with
  | [] => Throw "No shifts defined for work center."
  | _ => searchDays cursor shifts 0 14
  end.

Fixpoint nextBlock (cursor shiftEnd : DateTime) (blockedSorted : list Interval)
  : option Interval :=
  match blockedSorted with
  | [] => None
  | b :: rest =>
      if end_ b <=? cursor then nextBlock cursor shiftEnd rest
      else if start b >=? shiftEnd then None
      else Some b
  end.

(** Here [scheduledStart] is fixed before the loop, so the loop state is the
    cursor and the remaining minutes. *)
Definition loopBody (shifts : list Shift) (blockedSorted : list Interval)
    (st : DateTime * Z) : result (DateTime * Z) :=
  let (cursor, remaining) := st in
  shiftWindow <- findNextShiftWindow cursor shifts ;;
  let cursor1 := pushOutOfBlocked cursor blockedSorted in
  if cursor1 >=? end_ shiftWindow then
    Ok (plusMinutes (end_ shiftWindow) 1, remaining)
  else
    let shiftEnd := end_ shiftWindow in
    let next := nextBlock cursor1 shiftEnd blockedSorted in
    let freeEnd :=
      match next with
      | Some b =>
          if start b >? cursor1
          then (if start b <? shiftEnd then start b else shiftEnd)
          else shiftEnd
      | None => shiftEnd
      end in
    if freeEnd <=? cursor1 then
      match next with
      | Some b => Ok (end_ b, remaining)
      | None => Ok (plusMinutes shiftEnd 1, remaining)
      end
    else
      let freeMinutes := floorDiffMinutes freeEnd cursor1 in
      if freeMinutes <=? 0 then
        Ok (plusMinutes freeEnd 1, remaining)
      else
        let used := Z.min remaining freeMinutes in
        Ok (pushOutOfBlocked (plusMinutes cursor1 used) blockedSorted, remaining - used).

Fixpoint allocLoop (fuel : nat) (shifts : list Shift) (blockedSorted : list Interval)
    (st : DateTime * Z) : result (DateTime * Z) :=
  if snd st >? 0 then
    match fuel with
    | O => OutOfFuel
    | S fuel' =>
        st' <- loopBody shifts blockedSorted st ;;
        allocLoop fuel' shifts blockedSorted st'
    end
  else Ok st.

Definition scheduleWithShiftsAndBlocks (fuel : nat) (params : DateUtils.Params)
  : result DateUtils.Span :=
  let cursor0 := fromISO (DateUtils.p_startISO params) in
  let blockedSorted := sortIntervals (DateUtils.p_blocked params) in
  let cursor1 := pushOutOfBlocked cursor0 blockedSorted in
  let scheduledStart := cursor1 in
  st <- allocLoop fuel (DateUtils.p_shifts params) blockedSorted
          (cursor1, DateUtils.p_durationMinutes params) ;;
  Ok (DateUtils.mkSpan (toISO scheduledStart) (toISO (fst st))).

End DateUtilsV1.

(** ** src/reflow/dag.ts *)

Module Dag.

Definition Graph : Type := (JsMap.t Z * JsMap.t (list string))%type.

(** [new Set(workOrders.map((w) => w.docId))], kept as a map to [tt]. *)
Definition nodesOf (workOrders : list WorkOrder) : JsMap.t unit :=
  JsMap.ofEntries (map (fun w => (docId w, tt)) workOrders).

Definition initGraph (nodes : JsMap.t unit) : Graph :=
  fold_left
    (fun (g : Graph) id => (JsMap.set (fst g) id 0, JsMap.set (snd g) id []))
    (JsMap.keys nodes) ([], []).

(** The inner loop over [wo.data.dependsOnWorkOrderIds]. *)
Fixpoint addParents (nodes : JsMap.t unit) (child : string) (parents : list string)
    (g : Graph) : result Graph :=
  match parents with
  | [] => Ok g
  | parentId :: rest =>
      if negb (JsMap.has nodes parentId) then
        Throw ("Dependency references missing work order: " ++ parentId)%string
      else
        match JsMap.get (snd g) parentId with
        | None => Throw "TypeError: adj.get(parentId) is undefined"
        | Some children =>
            let adj := JsMap.set (snd g) parentId (children ++ [child]) in
            let deg := match JsMap.get (fst g) child with Some n => n | None => 0 end in
            addParents nodes child rest (JsMap.set (fst g) child (deg + 1), adj)
        end
  end.

Fixpoint addEdges (nodes : JsMap.t unit) (workOrders : list WorkOrder) (g : Graph)
    : result Graph :=
  match workOrders with
  | [] => Ok g
  | wo :: rest =>
      g' <- addParents nodes (docId wo) (dependsOnWorkOrderIds wo) g ;;
      addEdges nodes rest g'
  end.

Definition initialQueue (inDegree : JsMap.t Z) : list string :=
  map fst (filter (fun e => snd e =? 0) inDegree).

(** The loop over the children of a popped node. *)
Fixpoint relax (children : list string) (inDegree : JsMap.t Z) (queue : list string)
    : JsMap.t Z * list string :=
  match children with
  | [] => (inDegree, queue)
  | child :: rest =>
      let deg := match JsMap.get inDegree child with Some n => n | None => 0 end in
      let inDegree' := JsMap.set inDegree child (deg - 1) in
      let queue' :=
        match JsMap.get inDegree' child with
        | Some 0 => queue ++ [child]
        | _ => queue
        end in
      relax rest inDegree' queue'
  end.

(** [while (queue.length)]. *)
Fixpoint drain (fuel : nat) (adj : JsMap.t (list string)) (inDegree : JsMap.t Z)
    (queue result_ : list string) : result (list string) :=
  match queue with
  | [] => Ok result_
  | id :: queue' =>
      match fuel with
      | O => OutOfFuel
      | S fuel' =>
          match JsMap.get adj id with
          | None => Throw "TypeError: adj.get(id) is not iterable"
          | Some children =>
              let '(inDegree', queue'') := relax children inDegree queue' in
              drain fuel' adj inDegree' queue'' (result_ ++ [id])
          end
      end
  end.

Definition topoSortWorkOrders (fuel : nat) (workOrders : list WorkOrder)
    : result (list string) :=
  let nodes := nodesOf workOrders in
  g <- addEdges nodes workOrders (initGraph nodes) ;;
  result_ <- drain fuel (snd g) (fst g) (initialQueue (fst g)) [] ;;
  if negb (Nat.eqb (List.length result_) (List.length workOrders)) then
    Throw "Circular dependency detected (graph is not a DAG)."
  else Ok result_.

End Dag.

(** ** src/reflow/constraint-checker.ts *)

Module ConstraintChecker.

Definition buildMaintenanceIntervals (workCenter : WorkCenter) : list Interval :=
  map (fun m =>
         mkInterval (fromISO (mw_startDate m)) (fromISO (mw_endDate m))
           (Some (match mw_reason m with Some r => r | None => "maintenance"%string end)))
      (maintenanceWindows workCenter).

Definition buildOrderInterval (order : WorkOrder) : Interval :=
  mkInterval (fromISO (startDate order)) (fromISO (endDate order))
    (Some ("workOrder:" ++ workOrderNumber order)%string).

Definition groupByCenter (workOrders : list WorkOrder) : JsMap.t (list WorkOrder) :=
  fold_left
    (fun byCenter wo =>
       let list_ := match JsMap.get byCenter (workCenterId wo) with
                    | Some l => l
                    | None => []
                    end in
       JsMap.set byCenter (workCenterId wo) (list_ ++ [wo]))
    workOrders [].

(** [for (let i = 1; i < intervals.length; i++)] over consecutive pairs. *)
Fixpoint firstConsecutiveOverlap (intervals : list Interval) : option (Interval * Interval) :=
  match intervals with
  | a :: ((b :: _) as rest) =>
      if overlaps a b then Some (a, b) else firstConsecutiveOverlap rest
  | _ => None
  end.

(** How a template literal prints [interval.reason]. *)
Definition reasonText (i : Interval) : string :=
  match reason i with Some r => r | None => "undefined" end.

Fixpoint checkCenters (groups : list (string * list WorkOrder)) : result unit :=
  match groups with
  | [] => Ok tt
  | (wcId, orders) :: rest =>
      match firstConsecutiveOverlap (sortIntervals (map buildOrderInterval orders)) with
      | Some (a, b) =>
          Throw ("Overlap detected on workCenter=" ++ wcId ++ ": " ++ reasonText a
                 ++ " overlaps " ++ reasonText b)%string
      | None => checkCenters rest
      end
  end.

Definition validateNoWorkCenterOverlaps (workOrders : list WorkOrder) : result unit :=
  checkCenters (groupByCenter workOrders).

Definition boundaryInside (start_ end' : DateTime) (mw : MaintenanceWindow) : bool :=
  let mStart := fromISO (mw_startDate mw) in
  let mEnd := fromISO (mw_endDate mw) in
  let startsInside := (start_ >=? mStart) && (start_ <? mEnd) in
  let endsInside := (end' >? mStart) && (end' <=? mEnd) in
  startsInside || endsInside.

Fixpoint validateMaintenanceLoop (wcMap : JsMap.t WorkCenter) (workOrders : list WorkOrder)
    : result unit :=
  match workOrders with
  | [] => Ok tt
  | wo :: rest =>
      match JsMap.get wcMap (workCenterId wo) with
      | None => Throw ("Missing work center: " ++ workCenterId wo)%string
      | Some wc =>
          let start_ := fromISO (startDate wo) in
          let end' := fromISO (endDate wo) in
          if existsb (boundaryInside start_ end') (maintenanceWindows wc) then
            Throw ("Maintenance boundary violated for workOrder=" ++ workOrderNumber wo
                   ++ " on center=" ++ wc_name wc)%string
          else validateMaintenanceLoop wcMap rest
      end
  end.

Definition validateMaintenanceRespected (workOrders : list WorkOrder)
    (workCenters : list WorkCenter) : result unit :=
  validateMaintenanceLoop
    (JsMap.ofEntries (map (fun w => (wc_docId w, w)) workCenters)) workOrders.

End ConstraintChecker.
Import ConstraintChecker.

(** ** The earlier revision of the constraint checker

    [buildMaintenanceIntervals], [buildOrderInterval] and
    [validateNoWorkCenterOverlaps] read as in the later revision; the
    maintenance check compared whole spans. *)

Module ConstraintCheckerV1.

Fixpoint validateMaintenanceLoop (wcMap : JsMap.t WorkCenter) (workOrders : list WorkOrder)
    : result unit :=
  match workOrders with
  | [] => Ok tt
  | wo :: rest =>
      match JsMap.get wcMap (workCenterId wo) with
      | None => Throw ("Missing work center: " ++ workCenterId wo)%string
      | Some wc =>
          let maint := buildMaintenanceIntervals wc in
          let woInt := buildOrderInterval wo in
          if existsb (fun m => overlaps woInt m) maint then
            Throw ("Maintenance violated for workOrder=" ++ workOrderNumber wo
                   ++ " on center=" ++ wc_name wc)%string
          else validateMaintenanceLoop wcMap rest
      end
  end.

Definition validateMaintenanceRespected (workOrders : list WorkOrder)
    (workCenters : list WorkCenter) : result unit :=
  validateMaintenanceLoop
    (JsMap.ofEntries (map (fun w => (wc_docId w, w)) workCenters)) workOrders.

End ConstraintCheckerV1.

(** ** src/reflow/reflow.service.ts *)

Module Reflow.

(** The mutable state of a run. The work orders of [woMap] are the cloned,
    mutated objects; [scheduled] maps ids to those same objects, so it is kept
    as its key set and read through [woMap]. *)
Record State : Type := mkState {
  woMap : JsMap.t WorkOrder;
  centerBooked : JsMap.t (list Interval);
  changesAcc : list Change;
  scheduled : JsMap.t unit
}.

Definition scheduledGet (st : State) (id : string) : option WorkOrder :=
  if JsMap.has (scheduled st) id then JsMap.get (woMap st) id else None.

Definition seedBooked (workCenters : list WorkCenter) : JsMap.t (list Interval) :=
  fold_left (fun m wc => JsMap.set m (wc_docId wc) (buildMaintenanceIntervals wc))
    workCenters [].

(** The loop that locks the maintenance work orders into the bookings. *)
Fixpoint lockMaintenance (orders : list WorkOrder) (booked : JsMap.t (list Interval))
    : result (JsMap.t (list Interval)) :=
  match orders with
  | [] => Ok booked
  | wo :: rest =>
      if negb (isMaintenance wo) then lockMaintenance rest booked
      else
        match JsMap.get booked (workCenterId wo) with
        | None => Throw ("Missing center bookings: " ++ workCenterId wo)%string
        | Some l =>
            lockMaintenance rest
              (JsMap.set booked (workCenterId wo)
                 (sortIntervals (l ++ [buildOrderInterval wo])))
        end
  end.

(** The loop over the parents, folding the latest parent end. *)
Fixpoint latestParentEnd (st : State) (parents : list string) (latest : DateTime)
    : result DateTime :=
  match parents with
  | [] => Ok latest
  | parentId :: rest =>
      match scheduledGet st parentId with
      | None => Throw ("Parent not scheduled yet (unexpected): " ++ parentId)%string
      | Some parent =>
          let parentEnd := fromISO (endDate parent) in
          latestParentEnd st rest (if parentEnd >? latest then parentEnd else latest)
      end
  end.

Definition setDates (wo : WorkOrder) (s e : ISODateString) : WorkOrder :=
  mkWorkOrder (docId wo) (workOrderNumber wo) (manufacturingOrderId wo) (workCenterId wo)
    s e (durationMinutes wo) (isMaintenance wo) (dependsOnWorkOrderIds wo)
    (setupTimeMinutes wo).

Definition changeReason : string :=
  "Reflow: dependencies / shifts / maintenance / conflicts".

(** The body of [for (const id of topoIds)]. *)
Definition placeOrder (fuel : nat) (wcMap : JsMap.t WorkCenter) (st : State) (id : string)
    : result State :=
  match JsMap.get (woMap st) id with
  | None => Throw "TypeError: wo is undefined"
  | Some wo =>
      match JsMap.get wcMap (workCenterId wo) with
      | None => Throw ("Work center missing: " ++ workCenterId wo)%string
      | Some wc =>
          if isMaintenance wo then
            Ok (mkState (woMap st) (centerBooked st) (changesAcc st)
                  (JsMap.set (scheduled st) id tt))
          else
            let originalStart := startDate wo in
            let originalEnd := endDate wo in
            let earliest0 := fromISO (startDate wo) in
            earliest <-
              (match dependsOnWorkOrderIds wo with
               | [] => Ok earliest0
               | parents => latestParentEnd st parents earliest0
               end) ;;
            let totalMinutes :=
              durationMinutes wo
              + match setupTimeMinutes wo with Some n => n | None => 0 end in
            let blocked :=
              sortIntervals
                (match JsMap.get (centerBooked st) (wc_docId wc) with
                 | Some l => l
                 | None => []
                 end) in
            span <- DateUtils.scheduleWithShiftsAndBlocks fuel
                      (DateUtils.mkParams (toISO earliest) totalMinutes (shifts wc) blocked) ;;
            let wo' := setDates wo (DateUtils.startISO span) (DateUtils.endISO span) in
            let bookedNow :=
              match JsMap.get (centerBooked st) (wc_docId wc) with
              | Some l => l
              | None => []
              end in
            let centerBooked' :=
              JsMap.set (centerBooked st) (wc_docId wc)
                (sortIntervals (bookedNow ++ [buildOrderInterval wo'])) in
            let changes' :=
              if negb (iso_eqb originalStart (startDate wo'))
                 || negb (iso_eqb originalEnd (endDate wo'))
              then
                changesAcc st ++
                  [mkChange (docId wo') (workOrderNumber wo') changeReason
                     originalStart (startDate wo') originalEnd (endDate wo')
                     (floorDiffMinutes (fromISO (endDate wo')) (fromISO originalEnd))]
              else changesAcc st in
            Ok (mkState (JsMap.set (woMap st) id wo') centerBooked' changes'
                  (JsMap.set (scheduled st) id tt))
      end
  end.

Fixpoint placeAll (fuel : nat) (wcMap : JsMap.t WorkCenter) (st : State)
    (topoIds : list string) : result State :=
  match topoIds with
  | [] => Ok st
  | id :: rest =>
      st' <- placeOrder fuel wcMap st id ;;
      placeAll fuel wcMap st' rest
  end.

Definition explanationLines : list string :=
  [ "Orders are processed in dependency order (topological sort). Maintenance work orders are locked and occupy capacity."%string;
    "Each work order is scheduled using working-minutes allocation inside shift windows, skipping maintenance windows and existing bookings."%string ].

(** [topoIds.map((id) => scheduled.get(id)!).filter(Boolean)]. *)
Definition collectUpdated (st : State) (topoIds : list string) : list WorkOrder :=
  flat_map (fun id => match scheduledGet st id with Some wo => [wo] | None => [] end)
    topoIds.

Definition sumDelays (changes : list Change) : Z :=
  fold_left (fun sum c => sum + Z.max 0 (deltaMinutes c)) changes 0.

Definition reflow (fuel : nat) (input : ReflowInput) : result ReflowResult :=
  let wcMap := JsMap.ofEntries (map (fun w => (wc_docId w, w)) (workCenters input)) in
  let woMap0 := JsMap.ofEntries (map (fun w => (docId w, w)) (workOrders input)) in
  topoIds <- Dag.topoSortWorkOrders fuel (JsMap.values woMap0) ;;
  booked <- lockMaintenance (JsMap.values woMap0) (seedBooked (workCenters input)) ;;
  st <- placeAll fuel wcMap (mkState woMap0 booked [] []) topoIds ;;
  Ok (mkReflowResult
        (collectUpdated st topoIds)
        (changesAcc st)
        explanationLines
        (mkMetrics (sumDelays (changesAcc st)) (Z.of_nat (List.length (changesAcc st))))).

End Reflow.

(** ** The engine with the range of the date library written out *)

(** The date utilities and the driver once more, with what the library does
    past the last instant it represents: [cursor.plus({ days: d })] is then an
    invalid date, whose weekday is not a number, so that no shift is on that
    day and the search goes on to the next. Where the library would go on to
    compute with an invalid date (a cursor, a start or a blocked interval
    that is one, or a window of a day within the range whose bounds are past
    it), these functions give no outcome. On the runs within the range they
    are the functions of [DateUtils] and [Reflow]. *)
Module Ranged.

(** An outcome, or none. *)
Definition outcome (A : Type) : Type := option (result A).

Definition andThen {A B : Type} (r : outcome A) (k : A -> outcome B) : outcome B :=
  match r with
  | Some (Ok a) => k a
  | Some (Throw msg) => Some (Throw msg)
  | Some OutOfFuel => Some OutOfFuel
  | None => None
  end.

Definition validBounds (w : Interval) : bool :=
  validInstant (start w) && validInstant (end_ w).

(** The loop [for (let d = 0; d < 14; d++)], entered at [d] with [n] rounds left. *)
Fixpoint searchDays (cursor : DateTime) (shifts : list Shift) (d : Z) (n : nat)
  : outcome Interval :=
  match n with
  | O => Some (Throw "No shift window found in search horizon.")
  | S n' =>
      if validInstant (plusDays cursor d) then
        let dayWindows := DateUtils.dayWindows cursor shifts d in
        if forallb validBounds dayWindows then
          match dayWindows with
          | [] => searchDays cursor shifts (d + 1) n'
          | w0 :: _ =>
              if d =? 0 then
                match DateUtils.firstEndingAfter cursor dayWindows with
                | Some w => Some (Ok w)
                | None => searchDays cursor shifts (d + 1) n'
                end
              else Some (Ok (mkInterval (start w0) (end_ w0) None))
          end
        else None
      else searchDays cursor shifts (d + 1) n'
  end.

Definition findNextShiftWindow (cursor : DateTime) (shifts : list Shift) : outcome Interval :=
  match shifts with
  | [] => Some (Throw "No shifts defined for work center.")
  | _ => if validInstant cursor then searchDays cursor shifts 0 14 else None
  end.

(** The body of [while (remaining > 0)] after the search for the window. *)
Definition restOfRound (shiftWindow : Interval) (blockedSorted : list Interval)
    (st : DateUtils.LoopState) : DateUtils.LoopState :=
  let cursor1 :=
    if DateUtils.cursor st <? start shiftWindow then start shiftWindow
    else DateUtils.cursor st in
  let cursor2 := pushOutOfBlocked cursor1 blockedSorted in
  let cursor3 := if cursor2 <? start shiftWindow then start shiftWindow else cursor2 in
  if cursor3 >=? end_ shiftWindow then
    DateUtils.mkLoopState (plusMinutes (end_ shiftWindow) 1) (DateUtils.remaining st)
      (DateUtils.scheduledStart st)
  else
    let scheduledStart' :=
      match DateUtils.scheduledStart st with
      | Some s => Some s
      | None => Some cursor3
      end in
    let shiftEnd := end_ shiftWindow in
    let next := DateUtils.nextBlock cursor3 shiftEnd blockedSorted in
    let freeEnd :=
      match next with
      | Some b =>
          if start b >? cursor3
          then (if start b <? shiftEnd then start b else shiftEnd)
          else shiftEnd
      | None => shiftEnd
      end in
    if freeEnd <=? cursor3 then
      match next with
      | Some b => DateUtils.mkLoopState (end_ b) (DateUtils.remaining st) scheduledStart'
      | None =>
          DateUtils.mkLoopState (plusMinutes shiftEnd 1) (DateUtils.remaining st)
            scheduledStart'
      end
    else
      let freeMinutes := floorDiffMinutes freeEnd cursor3 in
      if freeMinutes <=? 0 then
        DateUtils.mkLoopState (plusMinutes freeEnd 1) (DateUtils.remaining st)
          scheduledStart'
      else
        let used := Z.min (DateUtils.remaining st) freeMinutes in
        DateUtils.mkLoopState
          (pushOutOfBlocked (plusMinutes cursor3 used) blockedSorted)
          (DateUtils.remaining st - used)
          scheduledStart'.

Definition loopBody (shifts : list Shift) (blockedSorted : list Interval)
    (st : DateUtils.LoopState) : outcome DateUtils.LoopState :=
  andThen (findNextShiftWindow (DateUtils.cursor st) shifts)
    (fun shiftWindow => Some (Ok (restOfRound shiftWindow blockedSorted st))).

Fixpoint allocLoop (fuel : nat) (shifts : list Shift) (blockedSorted : list Interval)
    (st : DateUtils.LoopState) : outcome DateUtils.LoopState :=
  if DateUtils.remaining st >? 0 then
    match fuel with
    | O => Some OutOfFuel
    | S fuel' =>
        andThen (loopBody shifts blockedSorted st)
          (fun st' => allocLoop fuel' shifts blockedSorted st')
    end
  else Some (Ok st).

Definition scheduleWithShiftsAndBlocks (fuel : nat) (params : DateUtils.Params)
    : outcome DateUtils.Span :=
  let cursor0 := fromISO (DateUtils.p_startISO params) in
  if validInstant cursor0 && forallb validBounds (DateUtils.p_blocked params) then
    let blockedSorted := sortIntervals (DateUtils.p_blocked params) in
    let cursor1 := pushOutOfBlocked cursor0 blockedSorted in
    andThen
      (allocLoop fuel (DateUtils.p_shifts params) blockedSorted
         (DateUtils.mkLoopState cursor1 (DateUtils.p_durationMinutes params) None))
      (fun st =>
         let scheduledStart' :=
           match DateUtils.scheduledStart st with
           | Some s => s
           | None => fromISO (DateUtils.p_startISO params)
           end in
         Some (Ok (DateUtils.mkSpan (toISO scheduledStart') (toISO (DateUtils.cursor st)))))
  else None.

(** The body of [for (const id of topoIds)]. *)
Definition placeOrder (fuel : nat) (wcMap : JsMap.t WorkCenter) (st : Reflow.State)
    (id : string) : outcome Reflow.State :=
  match JsMap.get (Reflow.woMap st) id with
  | None => Some (Throw "TypeError: wo is undefined")
  | Some wo =>
      match JsMap.get wcMap (workCenterId wo) with
      | None => Some (Throw ("Work center missing: " ++ workCenterId wo)%string)
      | Some wc =>
          if isMaintenance wo then
            Some (Ok (Reflow.mkState (Reflow.woMap st) (Reflow.centerBooked st)
                        (Reflow.changesAcc st) (JsMap.set (Reflow.scheduled st) id tt)))
          else
            let originalStart := startDate wo in
            let originalEnd := endDate wo in
            let earliest0 := fromISO (startDate wo) in
            andThen
              (Some (match dependsOnWorkOrderIds wo with
                     | [] => Ok earliest0
                     | parents => Reflow.latestParentEnd st parents earliest0
                     end))
              (fun earliest =>
            let totalMinutes :=
              durationMinutes wo
              + match setupTimeMinutes wo with Some n => n | None => 0 end in
            let blocked :=
              sortIntervals
                (match JsMap.get (Reflow.centerBooked st) (wc_docId wc) with
                 | Some l => l
                 | None => []
                 end) in
            andThen
              (scheduleWithShiftsAndBlocks fuel
                 (DateUtils.mkParams (toISO earliest) totalMinutes (shifts wc) blocked))
              (fun span =>
            let wo' :=
              Reflow.setDates wo (DateUtils.startISO span) (DateUtils.endISO span) in
            let bookedNow :=
              match JsMap.get (Reflow.centerBooked st) (wc_docId wc) with
              | Some l => l
              | None => []
              end in
            let centerBooked' :=
              JsMap.set (Reflow.centerBooked st) (wc_docId wc)
                (sortIntervals (bookedNow ++ [buildOrderInterval wo'])) in
            let changes' :=
              if negb (iso_eqb originalStart (startDate wo'))
                 || negb (iso_eqb originalEnd (endDate wo'))
              then
                Reflow.changesAcc st ++
                  [mkChange (docId wo') (workOrderNumber wo') Reflow.changeReason
                     originalStart (startDate wo') originalEnd (endDate wo')
                     (floorDiffMinutes (fromISO (endDate wo')) (fromISO originalEnd))]
              else Reflow.changesAcc st in
            Some (Ok (Reflow.mkState (JsMap.set (Reflow.woMap st) id wo') centerBooked'
                        changes' (JsMap.set (Reflow.scheduled st) id tt)))))
      end
  end.

Fixpoint placeAll (fuel : nat) (wcMap : JsMap.t WorkCenter) (st : Reflow.State)
    (topoIds : list string) : outcome Reflow.State :=
  match topoIds with
  | [] => Some (Ok st)
  | id :: rest =>
      andThen (placeOrder fuel wcMap st id) (fun st' => placeAll fuel wcMap st' rest)
  end.

Definition reflow (fuel : nat) (input : ReflowInput) : outcome ReflowResult :=
  let wcMap := JsMap.ofEntries (map (fun w => (wc_docId w, w)) (workCenters input)) in
  let woMap0 := JsMap.ofEntries (map (fun w => (docId w, w)) (workOrders input)) in
  andThen (Some (Dag.topoSortWorkOrders fuel (JsMap.values woMap0))) (fun topoIds =>
  andThen (Some (Reflow.lockMaintenance (JsMap.values woMap0)
                   (Reflow.seedBooked (workCenters input)))) (fun booked =>
  andThen (placeAll fuel wcMap (Reflow.mkState woMap0 booked [] []) topoIds) (fun st =>
  Some (Ok (mkReflowResult
              (Reflow.collectUpdated st topoIds)
              (Reflow.changesAcc st)
              Reflow.explanationLines
              (mkMetrics (Reflow.sumDelays (Reflow.changesAcc st))
                 (Z.of_nat (List.length (Reflow.changesAcc st))))))))).

End Ranged.

(** ** src/sample-data/scenarios.ts *)

Module Scenarios.

Definition dayShift : list Shift :=
  [ mkShift 1 8 17; mkShift 2 8 17; mkShift 3 8 17; mkShift 4 8 17; mkShift 5 8 17 ].

Definition wc1 : WorkCenter :=
  mkWorkCenter "wc1" "Extrusion Line 1" dayShift
    [ mkMaintenanceWindow (isoZ 2026 3 3 10 0) (isoZ 2026 3 3 13 0)
        (Some "Planned maintenance"%string) ].

Definition wc2 : WorkCenter :=
  mkWorkCenter "wc2" "Extrusion Line 2" dayShift [].

Definition wo (docId_ workOrderNumber_ workCenterId_ : string)
    (startDate_ endDate_ : ISODateString) (durationMinutes_ : Z) (isMaintenance_ : bool)
    (dependsOn : list string) : WorkOrder :=
  mkWorkOrder docId_ workOrderNumber_ "MO-1" workCenterId_ startDate_ endDate_
    durationMinutes_ isMaintenance_ dependsOn None.

Definition scenario1_delayCascade : ReflowInput :=
  mkReflowInput
    [ wo "A" "A" "wc1" (isoZ 2026 3 2 8 0) (isoZ 2026 3 2 10 0) (6 * 60) false [];
      wo "B" "B" "wc1" (isoZ 2026 3 2 10 0) (isoZ 2026 3 2 12 0) (2 * 60) false ["A"%string];
      wo "C" "C" "wc1" (isoZ 2026 3 2 12 0) (isoZ 2026 3 2 14 0) (2 * 60) false ["B"%string] ]
    [ wc1 ].

Definition scenario2_shiftSpanning : ReflowInput :=
  mkReflowInput
    [ wo "S1" "S1" "wc2" (isoZ 2026 3 2 16 0) (isoZ 2026 3 2 18 0) 120 false [] ]
    [ wc2 ].

Definition scenario3_maintenanceConflict : ReflowInput :=
  mkReflowInput
    [ wo "M1" "M1" "wc1" (isoZ 2026 3 3 8 30) (isoZ 2026 3 3 9 30) 60 true [];
      wo "P1" "P1" "wc1" (isoZ 2026 3 3 9 0) (isoZ 2026 3 3 12 0) 180 false [] ]
    [ wc1 ].

End Scenarios.

(** ** Further inputs, built like the sample scenarios *)

Module Cases.

Import Scenarios.

(** Four independent one-hour orders that all ask for Monday 08:00 on [wc2]. *)
Definition sameStartFour : ReflowInput :=
  mkReflowInput
    [ wo "X1" "X1" "wc2" (isoZ 2026 3 2 8 0) (isoZ 2026 3 2 9 0) 60 false [];
      wo "X2" "X2" "wc2" (isoZ 2026 3 2 8 0) (isoZ 2026 3 2 9 0) 60 false [];
      wo "X3" "X3" "wc2" (isoZ 2026 3 2 8 0) (isoZ 2026 3 2 9 0) 60 false [];
      wo "X4" "X4" "wc2" (isoZ 2026 3 2 8 0) (isoZ 2026 3 2 9 0) 60 false [] ]
    [ wc2 ].

(** An order listed first that sits at 10:00-11:00, then a two-hour order
    that asks for 09:00 on the same center. *)
Definition pausedAround : ReflowInput :=
  mkReflowInput
    [ wo "X" "X" "wc2" (isoZ 2026 3 2 10 0) (isoZ 2026 3 2 11 0) 60 false [];
      wo "Y" "Y" "wc2" (isoZ 2026 3 2 9 0) (isoZ 2026 3 2 11 0) 120 false [] ]
    [ wc2 ].

(** One hour of work that ends exactly where the maintenance window of [wc1]
    (Tuesday 10:00-13:00) begins. *)
Definition endsAtMaintenance : ReflowInput :=
  mkReflowInput
    [ wo "Q" "Q" "wc1" (isoZ 2026 3 3 9 0) (isoZ 2026 3 3 10 0) 60 false [] ]
    [ wc1 ].

(** Two pinned maintenance orders back to back, Tuesday 08:00-09:00 and
    09:00-10:00 on [wc1], whose maintenance window starts at 10:00, and a
    one-hour order that asks for 08:00. *)
Definition startsInMaintenance : ReflowInput :=
  mkReflowInput
    [ wo "M1" "M1" "wc1" (isoZ 2026 3 3 8 0) (isoZ 2026 3 3 9 0) 60 true [];
      wo "M2" "M2" "wc1" (isoZ 2026 3 3 9 0) (isoZ 2026 3 3 10 0) 60 true [];
      wo "T" "T" "wc1" (isoZ 2026 3 3 8 0) (isoZ 2026 3 3 9 0) 60 false [] ]
    [ wc1 ].

(** A maintenance order that names a production order as its parent. *)
Definition maintenanceChild : ReflowInput :=
  mkReflowInput
    [ wo "P" "P" "wc2" (isoZ 2026 3 2 8 0) (isoZ 2026 3 2 10 0) 120 false [];
      wo "M" "M" "wc2" (isoZ 2026 3 2 9 0) (isoZ 2026 3 2 9 30) 30 true ["P"%string] ]
    [ wc2 ].

(** An order that already sits where the engine puts it, written in the
    spelling of the sample data. *)
Definition alreadyInPlace : ReflowInput :=
  mkReflowInput
    [ wo "K" "K" "wc2" (isoZ 2026 3 2 8 0) (isoZ 2026 3 2 9 0) 60 false [] ]
    [ wc2 ].

(** An order whose recorded end is later than the work needs. *)
Definition endsEarlier : ReflowInput :=
  mkReflowInput
    [ wo "E" "E" "wc2" (isoZ 2026 3 2 8 0) (isoZ 2026 3 2 12 0) 60 false [] ]
    [ wc2 ].


Definition zeroInsideBlock : DateUtils.Params :=
  DateUtils.mkParams (isoZ 2026 3 3 10 0) 0 dayShift (buildMaintenanceIntervals wc1).

Definition hourBeforeBlock : DateUtils.Params :=
  DateUtils.mkParams (isoZ 2026 3 3 9 0) 60 dayShift (buildMaintenanceIntervals wc1).


Definition zeroBeforeShift : DateUtils.Params :=
  DateUtils.mkParams (isoZ 2026 3 2 7 0) 0 dayShift [].

(** Three blocks in a row, Monday 08:00-09:00, 09:00-10:00 and 10:00-11:00. *)
Definition threeBlocks : list Interval :=
  [ mkInterval (utc 2026 3 2 8 0) (utc 2026 3 2 9 0) None;
    mkInterval (utc 2026 3 2 9 0) (utc 2026 3 2 10 0) None;
    mkInterval (utc 2026 3 2 10 0) (utc 2026 3 2 11 0) None ].

Definition alongThreeBlocks : DateUtils.Params :=
  DateUtils.mkParams (isoZ 2026 3 2 8 0) 60 dayShift threeBlocks.

(** A Monday of two shifts back to back, 08:00-12:00 and 12:00-17:00, with
    the first one blocked from 07:00 to 12:00. *)
Definition splitMonday : list Shift := [ mkShift 1 8 12; mkShift 1 12 17 ].

Definition morningBlocked : DateUtils.Params :=
  DateUtils.mkParams (isoZ 2026 3 2 6 0) 60 splitMonday
    [ mkInterval (utc 2026 3 2 7 0) (utc 2026 3 2 12 0) None ].

(** Three hours of work from Tuesday 09:30 around the maintenance window. *)
Definition aroundMaintenance : DateUtils.Params :=
  DateUtils.mkParams (isoZ 2026 3 3 9 30) 180 dayShift (buildMaintenanceIntervals wc1).

End Cases.

(** ** Further inputs: dependencies, overlaps *)

Module FurtherCases.

Import Scenarios.

(** Two orders that wait for each other. *)
Definition mutualWait : list WorkOrder :=
  [ wo "A" "A" "wc1" (isoZ 2026 3 2 8 0) (isoZ 2026 3 2 9 0) 60 false ["B"%string];
    wo "B" "B" "wc1" (isoZ 2026 3 2 9 0) (isoZ 2026 3 2 10 0) 60 false ["A"%string] ].

(** An order that waits for one the input does not hold. *)
Definition danglingParent : list WorkOrder :=
  [ wo "A" "A" "wc1" (isoZ 2026 3 2 8 0) (isoZ 2026 3 2 9 0) 60 false [];
    wo "B" "B" "wc1" (isoZ 2026 3 2 9 0) (isoZ 2026 3 2 10 0) 60 false
      ["A"%string; "Z"%string] ].

(** The rank of the orders of the first sample scenario along its chain. *)
Definition chainRank (id : string) : nat :=
  if String.eqb id "A" then 0 else if String.eqb id "B" then 1 else 2.

(** Three orders on two centers, none overlapping another on its center. *)
Definition apartOrders : list WorkOrder :=
  [ wo "A" "A" "wc1" (isoZ 2026 3 2 8 0) (isoZ 2026 3 2 10 0) 120 false [];
    wo "B" "B" "wc2" (isoZ 2026 3 2 9 0) (isoZ 2026 3 2 11 0) 120 false [];
    wo "C" "C" "wc1" (isoZ 2026 3 2 10 0) (isoZ 2026 3 2 12 0) 120 false [] ].

(** The two orders that wait for each other, on the first sample center. *)
Definition mutualWaitInput : ReflowInput :=
  mkReflowInput mutualWait [wc1].

(** The last Friday of the range of the date library, +275760-09-12, at
    17:00, when the day shift ends: the range ends at the next midnight. *)
Definition lastFridayEvening : DateTime := maxInstant - 7 * msPerHour.

(** Two hours of work asked for at 16:00 of that Friday. *)
Definition lastFridayAfternoon : DateUtils.Params :=
  DateUtils.mkParams (toISO (maxInstant - 8 * msPerHour)) 120 dayShift [].

(** An hour of work on a table whose only shift is on day 7, which is no day
    of the week as the engine counts them (Sunday is 0). *)
Definition sundayAsSeven : DateUtils.Params :=
  DateUtils.mkParams (isoZ 2026 3 2 8 0) 60 [ mkShift 7 8 17 ] [].

End FurtherCases.

(** * Vocabulary of the statements *)

(** ** Intervals and working time *)

(** The order [sortIntervals] sorts by. *)
Definition byStart (a b : Interval) : Prop := start a <= start b.

Definition inWindow (w : Interval) (t : DateTime) : bool :=
  (start w <=? t) && (t <? end_ w).

(** An instant is working time when it lies inside a shift window of its day
    and outside every blocked interval. *)
Definition inShift (shifts : list Shift) (t : DateTime) : bool :=
  existsb
    (fun s =>
       (dayOfWeek s =? weekday (startOfDay t) mod 7)
       && inWindow (DateUtils.shiftIntervalForDay (startOfDay t) s) t)
    shifts.

Definition inBlock (blocked : list Interval) (t : DateTime) : bool :=
  existsb (fun b => inWindow b t) blocked.

Definition working (shifts : list Shift) (blocked : list Interval) (t : DateTime) : bool :=
  inShift shifts t && negb (inBlock blocked t).

(** The working milliseconds among the [n] instants from [t] on, and in [a, b). *)
Fixpoint countWorking (shifts : list Shift) (blocked : list Interval) (t : DateTime)
    (n : nat) : Z :=
  match n with
  | O => 0
  | S n' =>
      (if working shifts blocked t then 1 else 0)
      + countWorking shifts blocked (t + 1) n'
  end.

Definition workedMs (shifts : list Shift) (blocked : list Interval) (a b : DateTime) : Z :=
  countWorking shifts blocked a (Z.to_nat (b - a)).

(** Whole minutes. *)
Definition aligned (t : DateTime) : Prop := t mod msPerMinute = 0.

(** ** Well-formed inputs *)

(** Shifts as the data model has them. *)
Definition validShift (s : Shift) : Prop :=
  0 <= dayOfWeek s <= 6 /\ 0 <= startHour s /\ startHour s < endHour s /\ endHour s <= 24.

(** Shifts whose hours are as types.ts has them, and shift tables whose
    windows on a day are apart from each other unless they are the same. *)
Definition hourShift (s : Shift) : Prop :=
  0 <= startHour s /\ startHour s < endHour s /\ endHour s <= 23.

Definition apartShifts (shifts : list Shift) : Prop :=
  forall s1 s2, In s1 shifts -> In s2 shifts -> dayOfWeek s1 = dayOfWeek s2 ->
    (startHour s1 = startHour s2 /\ endHour s1 = endHour s2)
    \/ endHour s1 < startHour s2 \/ endHour s2 < startHour s1.

(** Blocked intervals that are non-empty and on whole minutes, and lists of
    them that are apart from each other (neither overlapping nor touching)
    unless they are the same. *)
Definition properBlock (b : Interval) : Prop :=
  start b < end_ b /\ aligned (start b) /\ aligned (end_ b).

Definition apartBlocks (blocked : list Interval) : Prop :=
  forall a b, In a blocked -> In b blocked ->
    (start a = start b /\ end_ a = end_ b)
    \/ end_ a < start b \/ end_ b < start a.

(** The calls the contract of the allocator speaks of: a positive number of
    minutes, a start on a whole minute, and blocked intervals that are
    non-empty, on whole minutes, and do not overlap each other. *)
Definition contractInput (params : DateUtils.Params) : Prop :=
  0 < DateUtils.p_durationMinutes params
  /\ aligned (fromISO (DateUtils.p_startISO params))
  /\ (forall b, In b (DateUtils.p_blocked params) -> properBlock b)
  /\ (forall a b, In a (DateUtils.p_blocked params) -> In b (DateUtils.p_blocked params) ->
                  a = b \/ overlaps a b = false).

(** Inputs of the driver: ids that identify, shifts as the data model has them. *)
Definition uniqueIds (input : ReflowInput) : Prop :=
  NoDup (map docId (workOrders input)).

Definition validShifts (input : ReflowInput) : Prop :=
  forall wc, In wc (workCenters input) -> forall s, In s (shifts wc) -> validShift s.

(** ** The allocation loop *)

(** [min(shiftEnd, nextBlockStart)] when the next block starts in the future,
    [shiftEnd] otherwise: the expression bound to [freeEnd] in the loop. *)
Definition freeSegmentEnd (cursor shiftEnd : DateTime) (next : option Interval) : DateTime :=
  match next with
  | Some b =>
      if start b >? cursor
      then (if start b <? shiftEnd then start b else shiftEnd)
      else shiftEnd
  | None => shiftEnd
  end.

(** The cursor and the recorded start of a loop state lie at or after [lo]. *)
Definition aboveLo (lo : DateTime) (st : DateUtils.LoopState) : Prop :=
  lo <= DateUtils.cursor st /\ forall s, DateUtils.scheduledStart st = Some s -> lo <= s.

(** The work that began at [s] is done at the cursor of [st]: some instant
    [e'] comes right after a working instant, nothing is worked from [e'] to
    the cursor, and the cursor is [e'] itself unless a block starts there. *)
Definition finishedAt (shifts : list Shift) (bs : list Interval) (s : DateTime)
    (st : DateUtils.LoopState) : Prop :=
  exists e',
    s < e' <= DateUtils.cursor st
    /\ working shifts bs (e' - 1) = true
    /\ (forall t, e' <= t < DateUtils.cursor st -> working shifts bs t = false)
    /\ ((forall b, In b bs -> start b <> e') -> DateUtils.cursor st = e').

(** The state of the allocation loop at the top of a round, for a call that
    asked for [d] minutes from [startT]: nothing is worked before the recorded
    start, and the working time from there to the cursor is what has been
    taken off [remaining]. *)
Definition allocInv (shifts : list Shift) (bs : list Interval) (startT : DateTime) (d : Z)
    (st : DateUtils.LoopState) : Prop :=
  aligned (DateUtils.cursor st)
  /\ startT <= DateUtils.cursor st
  /\ 0 <= DateUtils.remaining st
  /\ match DateUtils.scheduledStart st with
     | None =>
         DateUtils.remaining st = d
         /\ forall t, startT <= t < DateUtils.cursor st -> working shifts bs t = false
     | Some s =>
         startT <= s < DateUtils.cursor st
         /\ working shifts bs s = true
         /\ (forall t, startT <= t < s -> working shifts bs t = false)
         /\ workedMs shifts bs s (DateUtils.cursor st)
            = (d - DateUtils.remaining st) * msPerMinute
         /\ (DateUtils.remaining st = 0 -> finishedAt shifts bs s st)
     end.

(** ** The topological sort *)

(** [inDegree.get(id) ?? 0]. *)
Definition degreeOf (inDegree : JsMap.t Z) (id : string) : Z :=
  match JsMap.get inDegree id with Some n => n | None => 0 end.

(** The graph built from the work orders: its keys are node ids, its
    adjacency lists hold node ids, and the keys of [inDegree] do not repeat. *)
Definition graphOk (nodes : list string) (g : Dag.Graph) : Prop :=
  NoDup (JsMap.keys (fst g))
  /\ incl (JsMap.keys (fst g)) nodes
  /\ forall id cs, JsMap.get (snd g) id = Some cs -> incl cs nodes.

(** ** The driver *)

(** The ids and the instants of the orders of a result, in output order. *)
Definition spans (r : ReflowResult) : list (string * DateTime * DateTime) :=
  map (fun w => (docId w, fromISO (startDate w), fromISO (endDate w)))
    (updatedWorkOrders r).

(** The maps the driver builds from an input whose ids are unique. *)
Definition ordersById (input : ReflowInput) : JsMap.t WorkOrder :=
  map (fun w => (docId w, w)) (workOrders input).

Definition centersById (input : ReflowInput) : JsMap.t WorkCenter :=
  JsMap.ofEntries (map (fun w => (wc_docId w, w)) (workCenters input)).

(** The work order of the input with a given id. *)
Definition inputOrder (input : ReflowInput) (id : string) : option WorkOrder :=
  find (fun w => String.eqb (docId w) id) (workOrders input).

(** The change record of an order that went from [old] to [new]: none when
    both date strings are the same, else one. *)
Definition changeFor (old new : WorkOrder) : list Change :=
  if negb (iso_eqb (startDate old) (startDate new))
     || negb (iso_eqb (endDate old) (endDate new))
  then [mkChange (docId new) (workOrderNumber new) Reflow.changeReason
          (startDate old) (startDate new) (endDate old) (endDate new)
          (floorDiffMinutes (fromISO (endDate new)) (fromISO (endDate old)))]
  else [].

(** The change records owed to the ids [done], between the maps [m0] and [m]. *)
Definition changesOf (m0 m : JsMap.t WorkOrder) (done : list string) : list Change :=
  flat_map
    (fun id =>
       match JsMap.get m0 id, JsMap.get m id with
       | Some o, Some n => changeFor o n
       | _, _ => []
       end)
    done.

(** The state of the placement loop once the ids [done] have been processed,
    starting from the work orders [m0] and the bookings [b0]: placed orders
    differ from the given ones in their dates only, orders not yet processed
    and maintenance orders are as given, [scheduled] holds the ids processed,
    the change list is the one owed to them, and bookings have only grown. *)
Definition placedInv (m0 : JsMap.t WorkOrder) (b0 : JsMap.t (list Interval))
    (done : list string) (st : Reflow.State) : Prop :=
  (forall id w, JsMap.get (Reflow.woMap st) id = Some w ->
     exists w0, JsMap.get m0 id = Some w0
                /\ w = Reflow.setDates w0 (startDate w) (endDate w))
  /\ (forall id, ~ In id done -> JsMap.get (Reflow.woMap st) id = JsMap.get m0 id)
  /\ (forall id w0, JsMap.get m0 id = Some w0 -> isMaintenance w0 = true ->
        JsMap.get (Reflow.woMap st) id = Some w0)
  /\ (forall id, JsMap.has (Reflow.scheduled st) id = true <-> In id done)
  /\ (forall id, In id done -> exists w, JsMap.get (Reflow.woMap st) id = Some w)
  /\ Reflow.changesAcc st = changesOf m0 (Reflow.woMap st) done
  /\ (forall k l0, JsMap.get b0 k = Some l0 ->
        exists l, JsMap.get (Reflow.centerBooked st) k = Some l /\ incl l0 l).

(** Every production order among [done] starts at or after the end of each
    of its parents, which are among [done] too. *)
Definition parentsInv (done : list string) (st : Reflow.State) : Prop :=
  forall c wc, In c done -> JsMap.get (Reflow.woMap st) c = Some wc ->
    isMaintenance wc = false ->
    forall p, In p (dependsOnWorkOrderIds wc) ->
      In p done
      /\ exists wp, JsMap.get (Reflow.woMap st) p = Some wp
                    /\ fromISO (endDate wp) <= fromISO (startDate wc).

(** * Further vocabulary *)

(** ** The rounds of the allocation loop *)

(** The latest end among the blocked intervals, or [c] when none ends later. *)
Definition lastEnd (blocked : list Interval) (c : DateTime) : DateTime :=
  fold_right (fun b m => Z.max (end_ b) m) c blocked.

(** A bound on the rounds still to run from a loop state: the minutes that
    remain, two rounds for each minute up to the instant [h], and one round
    when the cursor is not on a whole minute. *)
Definition roundsLeft (h : DateTime) (st : DateUtils.LoopState) : Z :=
  DateUtils.remaining st
  + 2 * Z.max 0 ((h - DateUtils.cursor st + (msPerMinute - 1)) / msPerMinute)
  + (if DateUtils.cursor st mod msPerMinute =? 0 then 0 else 1).

(** The rounds that suffice for a call of the allocator. *)
Definition roundsBound (params : DateUtils.Params) : nat :=
  let s := fromISO (DateUtils.p_startISO params) in
  Z.to_nat
    (Z.max 0 (DateUtils.p_durationMinutes params)
     + 2 * ((lastEnd (DateUtils.p_blocked params) s - s) / msPerMinute + 1)
     + 1).

(** The state of the allocation loop of a call for [d] minutes from [lo]:
    the recorded start is at or after [lo], and the cursor is at least the
    minutes taken off [remaining] later. *)
Definition spanInv (lo : DateTime) (d : Z) (st : DateUtils.LoopState) : Prop :=
  lo <= DateUtils.cursor st
  /\ match DateUtils.scheduledStart st with
     | None => DateUtils.remaining st = d
     | Some s =>
         lo <= s
         /\ s + (d - DateUtils.remaining st) * msPerMinute <= DateUtils.cursor st
     end.

(** The recorded start, once there is one, lies in a shift. *)
Definition startInv (shifts : list Shift) (d : Z) (st : DateUtils.LoopState) : Prop :=
  match DateUtils.scheduledStart st with
  | None => DateUtils.remaining st = d
  | Some s => inShift shifts s = true
  end.

(** No shift of the table is on a day of the week. *)
Definition noWeekday (shifts : list Shift) : Prop :=
  forall s, In s shifts -> ~ 0 <= dayOfWeek s <= 6.

(** What [findNextShiftWindow] throws on such a table. *)
Definition noWindowMessage (shifts : list Shift) : string :=
  match shifts with
  | [] => "No shifts defined for work center."
  | _ => "No shift window found in search horizon."
  end.

(** ** The dependency graph *)

(** The dependency edges of the work orders, the parent first, in the order
    the sort reads them. *)
Definition edgesOf (workOrders : list WorkOrder) : list (string * string) :=
  flat_map (fun wo => map (fun p => (p, docId wo)) (dependsOnWorkOrderIds wo)) workOrders.

Definition mem (x : string) (l : list string) : bool := existsb (String.eqb x) l.

(** The edges into [x] whose parent is not among [acc]. *)
Definition pending (edges : list (string * string)) (acc : list string) (x : string) : Z :=
  Z.of_nat
    (List.length
       (filter (fun e => String.eqb (snd e) x && negb (mem (fst e) acc)) edges)).

(** The children of [p], one for each edge out of it, in the order of the edges. *)
Definition childrenOf (edges : list (string * string)) (p : string) : list string :=
  map snd (filter (fun e => String.eqb (fst e) p) edges).

(** [p] comes before an occurrence of [c] in [ids]. *)
Definition before (ids : list string) (p c : string) : Prop :=
  exists l1 l2, ids = l1 ++ c :: l2 /\ In p l1.

(** The first dependency, in the order of the input, that names no work order. *)
Definition firstUnknownParent (workOrders : list WorkOrder) : option string :=
  find (fun p => negb (mem p (map docId workOrders)))
    (flat_map dependsOnWorkOrderIds workOrders).

(** The work orders that depend on nothing. *)
Definition isRoot (wo : WorkOrder) : bool :=
  match dependsOnWorkOrderIds wo with [] => true | _ => false end.

(** The graph once the edges [edges] have been added: in-degrees count the
    edges, and every node has its adjacency list. *)
Definition graphCounts (nodes : JsMap.t unit) (edges : list (string * string))
    (g : Dag.Graph) : Prop :=
  (forall x, degreeOf (fst g) x = pending edges [] x)
  /\ (forall q, JsMap.has nodes q = true ->
        In q (JsMap.keys (fst g)) /\ JsMap.get (snd g) q = Some (childrenOf edges q)).

(** The state of the loop that drains the queue: [acc] and [queue] hold
    nodes, none twice; in-degrees count the parents not yet emitted; queued
    nodes have none; emitted nodes come after their parents; and a node whose
    count is zero is emitted or queued. *)
Definition kahnInv (nodes : list string) (edges : list (string * string))
    (inDegree : JsMap.t Z) (queue acc : list string) : Prop :=
  NoDup (acc ++ queue)
  /\ incl (acc ++ queue) nodes
  /\ (forall x, degreeOf inDegree x = pending edges acc x)
  /\ (forall x, In x queue -> pending edges acc x = 0)
  /\ (forall c p, In c acc -> In (p, c) edges -> before acc p c)
  /\ (forall x, In x nodes -> degreeOf inDegree x = 0 -> In x (acc ++ queue)).

(** A chain of dependencies: each id of the list is a parent of the next. *)
Fixpoint chain (edges : list (string * string)) (l : list string) : Prop :=
  match l with
  | a :: (b :: _) as t => In (a, b) edges /\ chain edges t
  | _ => True
  end.

(** ** Schedules without overlap *)

(** No two work orders on the same work center overlap. *)
Definition overlapFree (workOrders : list WorkOrder) : Prop :=
  ForallOrdPairs
    (fun a b =>
       workCenterId a = workCenterId b ->
       overlaps (buildOrderInterval a) (buildOrderInterval b) = false)
    workOrders.

(** The work orders on the center [k], in the order of the list. *)
Definition onCenter (k : string) (workOrders : list WorkOrder) : list WorkOrder :=
  filter (fun wo => String.eqb (workCenterId wo) k) workOrders.

(** The work center the engine finds under an id: [new Map(entries)] keeps,
    for a key given more than once, the value given last. *)
Definition centerOf (workCenters : list WorkCenter) (k : string) : option WorkCenter :=
  find (fun w => String.eqb (wc_docId w) k) (rev workCenters).

(** ** Further vocabulary of the driver *)

(** The working minutes the driver asks the allocator for. *)
Definition totalMinutes (wo : WorkOrder) : Z :=
  durationMinutes wo + match setupTimeMinutes wo with Some n => n | None => 0 end.

(** Every production order among [done] is the input order of its id with
    the dates of a span [Q] holds of. *)
Definition spansInv (Q : WorkOrder -> WorkCenter -> DateUtils.Span -> Prop)
    (wcMap : JsMap.t WorkCenter) (m0 : JsMap.t WorkOrder) (done : list string)
    (st : Reflow.State) : Prop :=
  forall id n,
    In id done -> JsMap.get (Reflow.woMap st) id = Some n -> isMaintenance n = false ->
    exists o wc,
      JsMap.get m0 id = Some o
      /\ JsMap.get wcMap (workCenterId o) = Some wc
      /\ Q o wc (DateUtils.mkSpan (startDate n) (endDate n)).

(** In [ids], every id comes after the ids its order depends on. *)
Definition parentsEarlier (m0 : JsMap.t WorkOrder) (ids : list string) : Prop :=
  forall l1 c l2 o p,
    ids = l1 ++ c :: l2 -> JsMap.get m0 c = Some o -> In p (dependsOnWorkOrderIds o) ->
    In p l1.

(** The faults of an input that make the driver throw, each with its error:
    an order on a work center the input does not hold, or a production order
    that asks for working minutes on a center without a shift on a day of the
    week. *)
Definition centerFault (input : ReflowInput) (msg : string) : Prop :=
  exists o,
    In o (workOrders input)
    /\ ((centerOf (workCenters input) (workCenterId o) = None
         /\ msg = ("Work center missing: " ++ workCenterId o)%string)
        \/ (exists wc,
              centerOf (workCenters input) (workCenterId o) = Some wc
              /\ isMaintenance o = false
              /\ 0 < totalMinutes o
              /\ noWeekday (shifts wc)
              /\ msg = noWindowMessage (shifts wc))).

(** Shift tables the allocator always finds a window in. *)
Definition servedShifts (input : ReflowInput) : Prop :=
  forall wc, In wc (workCenters input) ->
    (forall s, In s (shifts wc) -> hourShift s)
    /\ exists s, In s (shifts wc) /\ 0 <= dayOfWeek s <= 6.

(** The work orders the driver works on: [Array.from(woMap.values())], where
    [woMap] is built from the input by id. *)
Definition ordersKept (input : ReflowInput) : list WorkOrder :=
  JsMap.values (JsMap.ofEntries (map (fun w => (docId w, w)) (workOrders input))).

(** ** Whole minutes *)

(** An interval, a work order, and a loop state on whole minutes. *)
Definition alignedInterval (b : Interval) : Prop := aligned (start b) /\ aligned (end_ b).

Definition alignedOrder (wo : WorkOrder) : Prop :=
  aligned (fromISO (startDate wo)) /\ aligned (fromISO (endDate wo)).

Definition alignedState (st : DateUtils.LoopState) : Prop :=
  aligned (DateUtils.cursor st)
  /\ forall s, DateUtils.scheduledStart st = Some s -> aligned s.

(** The work orders and the bookings of a run are on whole minutes. *)
Definition alignedRun (st : Reflow.State) : Prop :=
  (forall id w, JsMap.get (Reflow.woMap st) id = Some w -> alignedOrder w)
  /\ (forall k l, JsMap.get (Reflow.centerBooked st) k = Some l ->
        forall b, In b l -> alignedInterval b).

(** The latest of [latest] and the ends of the parents, as the loop over
    the parents folds it. *)
Definition latestEnd (st : Reflow.State) (parents : list string) (latest : DateTime)
    : DateTime :=
  fold_left
    (fun m p =>
       match Reflow.scheduledGet st p with
       | Some w => Z.max m (fromISO (endDate w))
       | None => m
       end)
    parents latest.

(** The bookings of the center of [wc] in a state of the run. *)
Definition bookedOn (st : Reflow.State) (wc : WorkCenter) : list Interval :=
  match JsMap.get (Reflow.centerBooked st) (wc_docId wc) with
  | Some l => l
  | None => []
  end.

(** ** The bookings a placement sees *)






(** ** Runs within the range of the date library *)

(** The search for a shift window from [cursor] builds only instants the
    library represents: the cursor, each of the fourteen days, and the bounds
    of the windows of each day. *)
Definition searchInRange (cursor : DateTime) (shifts : list Shift) : bool :=
  validInstant cursor
  && forallb
       (fun d =>
          validInstant (plusDays cursor d)
          && forallb Ranged.validBounds (DateUtils.dayWindows cursor shifts d))
       (map Z.of_nat (seq 0 14)).

(** The cursors from which the loop of the allocator searches for a window,
    round after round, in a run of at most [fuel] rounds. *)
Fixpoint searchedFrom (fuel : nat) (shifts : list Shift) (blockedSorted : list Interval)
    (st : DateUtils.LoopState) : list DateTime :=
  if DateUtils.remaining st >? 0 then
    match fuel with
    | O => []
    | S fuel' =>
        DateUtils.cursor st
        :: match DateUtils.loopBody shifts blockedSorted st with
           | Ok st' => searchedFrom fuel' shifts blockedSorted st'
           | _ => []
           end
    end
  else [].

(** A call of the allocator stays within the range: its start and the bounds
    of its blocked intervals are instants the library represents, and so is
    what each search of its loop builds. *)
Definition allocatorInRange (fuel : nat) (params : DateUtils.Params) : bool :=
  validInstant (fromISO (DateUtils.p_startISO params))
  && forallb Ranged.validBounds (DateUtils.p_blocked params)
  && forallb (fun c => searchInRange c (DateUtils.p_shifts params))
       (searchedFrom fuel (DateUtils.p_shifts params)
          (sortIntervals (DateUtils.p_blocked params))
          (DateUtils.mkLoopState
             (pushOutOfBlocked (fromISO (DateUtils.p_startISO params))
                (sortIntervals (DateUtils.p_blocked params)))
             (DateUtils.p_durationMinutes params) None)).

(** The call of the allocator that the body of the placement loop makes for
    the order [id] in the state [st], when it makes one. *)
Definition allocatorCall (wcMap : JsMap.t WorkCenter) (st : Reflow.State) (id : string)
    : option DateUtils.Params :=
  match JsMap.get (Reflow.woMap st) id with
  | None => None
  | Some wo =>
      match JsMap.get wcMap (workCenterId wo) with
      | None => None
      | Some wc =>
          if isMaintenance wo then None
          else
            match Reflow.latestParentEnd st (dependsOnWorkOrderIds wo)
                    (fromISO (startDate wo)) with
            | Ok earliest =>
                Some (DateUtils.mkParams (toISO earliest) (totalMinutes wo) (shifts wc)
                        (sortIntervals (bookedOn st wc)))
            | _ => None
            end
      end
  end.

(** The calls of the allocator that the placement loop makes, in order, up to
    the order at which it stops. *)
Fixpoint allocatorCalls (fuel : nat) (wcMap : JsMap.t WorkCenter) (st : Reflow.State)
    (topoIds : list string) : list DateUtils.Params :=
  match topoIds with
  | [] => []
  | id :: rest =>
      match allocatorCall wcMap st id with Some params => [params] | None => [] end
      ++ match Reflow.placeOrder fuel wcMap st id with
         | Ok st' => allocatorCalls fuel wcMap st' rest
         | _ => []
         end
  end.

(** The calls of the allocator in a run of [reflow]. *)
Definition reflowCalls (fuel : nat) (input : ReflowInput) : list DateUtils.Params :=
  let wcMap := JsMap.ofEntries (map (fun w => (wc_docId w, w)) (workCenters input)) in
  let woMap0 := JsMap.ofEntries (map (fun w => (docId w, w)) (workOrders input)) in
  match Dag.topoSortWorkOrders fuel (JsMap.values woMap0) with
  | Ok topoIds =>
      match Reflow.lockMaintenance (JsMap.values woMap0)
              (Reflow.seedBooked (workCenters input)) with
      | Ok booked => allocatorCalls fuel wcMap (Reflow.mkState woMap0 booked [] []) topoIds
      | _ => []
      end
  | _ => []
  end.

(** A run of [reflow] stays within the range: each call of the allocator it
    makes does. *)
Definition reflowInRange (fuel : nat) (input : ReflowInput) : bool :=
  forallb (allocatorInRange fuel) (reflowCalls fuel input).

(** * Properties *)

(** ** The result monad *)

Lemma bind_Ok_inv {A B : Type} (r : result A) (k : A -> result B) (b : B) :
  bind r k = Ok b -> exists a, r = Ok a /\ k a = Ok b.
Proof.
  destruct r as [a| |]; simpl; intros H; try discriminate.
  exists a; split; [reflexivity | exact H].
Qed.

Lemma bind_Ok {A B : Type} (a : A) (k : A -> result B) : bind (Ok a) k = k a.
Proof. reflexivity. Qed.

Lemma returns_not_throws {A : Type} (r : result A) : returns r -> ~ throws r.
Proof. intros [a Ha] [m Hm]; congruence. Qed.

(** ** Interval primitives *)

Lemma insertByStart_perm x l : Permutation (insertByStart x l) (x :: l).
Proof.
  induction l as [|y l IH]; simpl.
  - reflexivity.
  - destruct (start y <? start x).
    + rewrite IH. apply perm_swap.
    + reflexivity.
Qed.

Lemma sortIntervals_perm l : Permutation (sortIntervals l) l.
Proof.
  induction l as [|x l IH]; simpl.
  - reflexivity.
  - unfold sortIntervals in *. simpl. rewrite insertByStart_perm. now constructor.
Qed.

Lemma sortIntervals_In l x : In x (sortIntervals l) <-> In x l.
Proof.
  split; apply Permutation_in; [|symmetry]; apply sortIntervals_perm.
Qed.

Lemma insertByStart_sorted x l :
  StronglySorted byStart l -> StronglySorted byStart (insertByStart x l).
Proof.
  induction 1 as [|y l Hl IH Hy]; simpl.
  - repeat constructor.
  - destruct (start y <? start x) eqn:E.
    + constructor; [exact IH|].
      apply Z.ltb_lt in E.
      rewrite Forall_forall in *. intros z Hz.
      apply (Permutation_in _ (insertByStart_perm x l)) in Hz.
      destruct Hz as [<-|Hz]; [unfold byStart; lia | now apply Hy].
    + apply Z.ltb_ge in E.
      constructor; [now constructor|].
      constructor; [exact E|].
      rewrite Forall_forall in *. intros z Hz.
      specialize (Hy z Hz). unfold byStart in *. lia.
Qed.

Lemma sortIntervals_sorted l : StronglySorted byStart (sortIntervals l).
Proof.
  induction l as [|x l IH]; simpl.
  - constructor.
  - apply insertByStart_sorted, IH.
Qed.

Lemma StronglySorted_app_r {A : Type} (R : A -> A -> Prop) (l1 l2 : list A) :
  StronglySorted R (l1 ++ l2) -> StronglySorted R l2.
Proof.
  induction l1 as [|x l1 IH]; simpl; [auto|].
  intros H. inversion H; subst. now apply IH.
Qed.

Lemma pushOutOfBlocked_ge cursor blocked : cursor <= pushOutOfBlocked cursor blocked.
Proof.
  induction blocked as [|b bs IH]; simpl; [lia|].
  destruct ((cursor >=? start b) && (cursor <? end_ b)) eqn:E; [|exact IH].
  apply andb_prop in E. destruct E as [_ E]. apply Z.ltb_lt in E. lia.
Qed.

(** [pushOutOfBlocked] either leaves a cursor that no block contains where it
    is, or moves it to the end of a block that contains it. *)
Lemma pushOutOfBlocked_cases cursor blocked :
  (pushOutOfBlocked cursor blocked = cursor
   /\ forall b, In b blocked -> ~ (start b <= cursor < end_ b))
  \/ (exists b, In b blocked /\ start b <= cursor < end_ b
                /\ pushOutOfBlocked cursor blocked = end_ b).
Proof.
  induction blocked as [|b bs IH]; simpl.
  - left. split; [reflexivity | intros b []].
  - destruct ((cursor >=? start b) && (cursor <? end_ b)) eqn:E.
    + right. exists b. apply andb_prop in E. destruct E as [E1 E2].
      apply Z.geb_le in E1. apply Z.ltb_lt in E2. repeat split; auto; lia.
    + destruct IH as [[IH1 IH2]|[b' [Hin [Hc Hp]]]].
      * left. split; [exact IH1|].
        intros b' [<-|Hin]; [|now apply IH2].
        apply andb_false_iff in E. destruct E as [E|E].
        -- rewrite Z.geb_leb in E. apply Z.leb_gt in E. lia.
        -- apply Z.ltb_ge in E. lia.
      * right. exists b'. auto.
Qed.

(** ** Insertion-ordered maps *)

Section JsMapFacts.

Context {V : Type}.
Implicit Types (m : JsMap.t V) (k : string) (v : V).

Lemma get_set_same m k v : JsMap.get (JsMap.set m k v) k = Some v.
Proof.
  induction m as [|[k' v'] m IH]; simpl.
  - now rewrite String.eqb_refl.
  - destruct (String.eqb k' k) eqn:E; simpl; rewrite E; [reflexivity | exact IH].
Qed.

Lemma get_set_other m k k' v : k <> k' -> JsMap.get (JsMap.set m k v) k' = JsMap.get m k'.
Proof.
  intros Hne. induction m as [|[k0 v0] m IH]; simpl.
  - apply String.eqb_neq in Hne. now rewrite Hne.
  - destruct (String.eqb k0 k) eqn:E; simpl.
    + apply String.eqb_eq in E. subst k0.
      apply String.eqb_neq in Hne. now rewrite Hne.
    + destruct (String.eqb k0 k'); [reflexivity | exact IH].
Qed.

Lemma get_In m k v : JsMap.get m k = Some v -> In (k, v) m.
Proof.
  induction m as [|[k' v'] m IH]; simpl; [discriminate|].
  destruct (String.eqb k' k) eqn:E.
  - apply String.eqb_eq in E. intros [= ->]. left. now subst.
  - intros H. right. now apply IH.
Qed.

Lemma get_None_keys m k : JsMap.get m k = None <-> ~ In k (JsMap.keys m).
Proof.
  induction m as [|[k' v'] m IH]; simpl.
  - split; [intros _ [] | reflexivity].
  - destruct (String.eqb k' k) eqn:E.
    + apply String.eqb_eq in E. split; [discriminate | intros H; exfalso; apply H; now left].
    + apply String.eqb_neq in E. rewrite IH. split; [intros H [?|?]; auto | tauto].
Qed.

Lemma get_Some_keys m k v : JsMap.get m k = Some v -> In k (JsMap.keys m).
Proof.
  intros H. apply get_In in H. unfold JsMap.keys.
  change k with (fst (k, v)). now apply in_map.
Qed.

Lemma keys_get m k : In k (JsMap.keys m) -> exists v, JsMap.get m k = Some v.
Proof.
  intros H. destruct (JsMap.get m k) as [v|] eqn:E; [now exists v|].
  apply get_None_keys in E. contradiction.
Qed.

Lemma has_true m k : JsMap.has m k = true <-> In k (JsMap.keys m).
Proof.
  unfold JsMap.has. split.
  - destruct (JsMap.get m k) eqn:E; [intros _; eapply get_Some_keys; eauto | discriminate].
  - intros H. apply keys_get in H. destruct H as [v ->]. reflexivity.
Qed.

Lemma In_get m k v : NoDup (JsMap.keys m) -> In (k, v) m -> JsMap.get m k = Some v.
Proof.
  induction m as [|[k' v'] m IH]; simpl; [intros _ []|].
  intros Hnd [[= -> ->]|Hin].
  - now rewrite String.eqb_refl.
  - inversion Hnd as [|? ? Hnotin Hnd']; subst.
    destruct (String.eqb k' k) eqn:E; [|now apply IH].
    apply String.eqb_eq in E. subst k'. exfalso. apply Hnotin.
    change k with (fst (k, v)). now apply in_map.
Qed.

Lemma set_fresh m k v : ~ In k (JsMap.keys m) -> JsMap.set m k v = m ++ [(k, v)].
Proof.
  induction m as [|[k' v'] m IH]; simpl; intros H; [reflexivity|].
  destruct (String.eqb k' k) eqn:E.
  - apply String.eqb_eq in E. exfalso. apply H. now left.
  - f_equal. apply IH. tauto.
Qed.

Lemma keys_set_present m k v : In k (JsMap.keys m) -> JsMap.keys (JsMap.set m k v) = JsMap.keys m.
Proof.
  induction m as [|[k' v'] m IH]; simpl; intros H; [contradiction|].
  destruct (String.eqb k' k) eqn:E; simpl; [reflexivity|].
  f_equal. apply IH. destruct H as [H|H]; [|exact H].
  apply String.eqb_neq in E. contradiction.
Qed.

Lemma keys_set m k v :
  JsMap.keys (JsMap.set m k v)
  = if JsMap.has m k then JsMap.keys m else JsMap.keys m ++ [k].
Proof.
  destruct (JsMap.has m k) eqn:E.
  - apply keys_set_present. now apply has_true.
  - rewrite set_fresh.
    + unfold JsMap.keys. now rewrite map_app.
    + intros H. apply has_true in H. congruence.
Qed.

Lemma In_keys_set m k k' v :
  In k' (JsMap.keys (JsMap.set m k v)) <-> k' = k \/ In k' (JsMap.keys m).
Proof.
  rewrite keys_set. destruct (JsMap.has m k) eqn:E.
  - apply has_true in E. split; [auto | intros [->|H]; auto].
  - rewrite in_app_iff. simpl. split; [intros [H|[H|[]]]; auto | intros [->|H]; auto].
Qed.

Lemma NoDup_keys_set m k v : NoDup (JsMap.keys m) -> NoDup (JsMap.keys (JsMap.set m k v)).
Proof.
  intros H. rewrite keys_set. destruct (JsMap.has m k) eqn:E; [exact H|].
  apply NoDup_app; [exact H | repeat constructor; intros [] |].
  intros x Hx [<-|[]]. apply has_true in Hx. congruence.
Qed.

Lemma fold_set_NoDup (es : list (string * V)) m :
  NoDup (JsMap.keys m) ->
  NoDup (JsMap.keys (fold_left (fun m kv => JsMap.set m (fst kv) (snd kv)) es m)).
Proof.
  revert m. induction es as [|e es IH]; intros m H; simpl; [exact H|].
  apply IH, NoDup_keys_set, H.
Qed.

Lemma NoDup_keys_ofEntries (es : list (string * V)) : NoDup (JsMap.keys (JsMap.ofEntries es)).
Proof. apply fold_set_NoDup. constructor. Qed.

Lemma fold_set_get (es : list (string * V)) m k v :
  JsMap.get (fold_left (fun m kv => JsMap.set m (fst kv) (snd kv)) es m) k = Some v ->
  In (k, v) es \/ JsMap.get m k = Some v.
Proof.
  revert m. induction es as [|[k' v'] es IH]; intros m H; simpl in *; [now right|].
  destruct (IH _ H) as [Hin|Hget]; [left; now right|].
  destruct (String.eqb k' k) eqn:E.
  - apply String.eqb_eq in E. subst k'. rewrite get_set_same in Hget.
    injection Hget as ->. left. now left.
  - apply String.eqb_neq in E. rewrite get_set_other in Hget by exact E. now right.
Qed.

Lemma get_ofEntries_In (es : list (string * V)) k v :
  JsMap.get (JsMap.ofEntries es) k = Some v -> In (k, v) es.
Proof.
  intros H. apply fold_set_get in H. destruct H as [H|H]; [exact H | discriminate].
Qed.

Lemma fold_set_keys (es : list (string * V)) m k :
  In k (JsMap.keys (fold_left (fun m kv => JsMap.set m (fst kv) (snd kv)) es m))
  <-> In k (map fst es) \/ In k (JsMap.keys m).
Proof.
  revert m. induction es as [|[k' v'] es IH]; intros m; simpl; [tauto|].
  rewrite IH, In_keys_set. simpl. split; [intros [?|[->|?]] | intros [[->|?]|?]]; auto.
Qed.

Lemma keys_ofEntries (es : list (string * V)) k :
  In k (JsMap.keys (JsMap.ofEntries es)) <-> In k (map fst es).
Proof.
  unfold JsMap.ofEntries. rewrite fold_set_keys. simpl. tauto.
Qed.

Lemma fold_set_fresh (es : list (string * V)) m :
  NoDup (map fst es) ->
  (forall k, In k (map fst es) -> ~ In k (JsMap.keys m)) ->
  fold_left (fun m kv => JsMap.set m (fst kv) (snd kv)) es m = m ++ es.
Proof.
  revert m. induction es as [|[k v] es IH]; intros m Hnd Hfresh; simpl.
  - now rewrite app_nil_r.
  - inversion Hnd as [|? ? Hnotin Hnd']; subst.
    rewrite set_fresh by (apply Hfresh; now left).
    rewrite IH; [now rewrite <- app_assoc | exact Hnd' |].
    intros k' Hk' Hin. unfold JsMap.keys in Hin. rewrite map_app, in_app_iff in Hin.
    destruct Hin as [Hin|[<-|[]]]; [|contradiction].
    apply (Hfresh k'); [now right | exact Hin].
Qed.

Lemma ofEntries_NoDup (es : list (string * V)) :
  NoDup (map fst es) -> JsMap.ofEntries es = es.
Proof.
  intros H. unfold JsMap.ofEntries. rewrite fold_set_fresh; auto.
Qed.

End JsMapFacts.

(** ** Calendar arithmetic *)

Lemma startOfDay_le (t : DateTime) : startOfDay t <= t < startOfDay t + msPerDay.
Proof.
  unfold startOfDay, msPerDay.
  pose proof (Z.div_mod t 86400000 ltac:(lia)).
  pose proof (Z.mod_pos_bound t 86400000 ltac:(lia)). lia.
Qed.

Lemma startOfDay_plusDays (t : DateTime) (d : Z) :
  startOfDay (plusDays t d) = startOfDay t + d * msPerDay.
Proof.
  unfold startOfDay, plusDays, msPerDay. rewrite Z.div_add by lia. lia.
Qed.

Lemma startOfDay_idem (t : DateTime) : startOfDay (startOfDay t) = startOfDay t.
Proof.
  unfold startOfDay, msPerDay. rewrite Z.div_mul by lia. reflexivity.
Qed.

Lemma ltb_max (c lo : Z) : (if c <? lo then lo else c) = Z.max c lo.
Proof. destruct (c <? lo) eqn:E; [apply Z.ltb_lt in E | apply Z.ltb_ge in E]; lia. Qed.

(** ** Alignment to whole minutes *)

Lemma aligned_add (a b : Z) : aligned a -> aligned b -> aligned (a + b).
Proof.
  unfold aligned, msPerMinute. intros Ha Hb.
  rewrite Z.add_mod by lia. rewrite Ha, Hb. reflexivity.
Qed.

Lemma aligned_mul (k : Z) : aligned (k * msPerMinute).
Proof. unfold aligned. apply Z.mod_mul. unfold msPerMinute. lia. Qed.

Lemma aligned_startOfDay (t : DateTime) : aligned (startOfDay t).
Proof.
  unfold aligned, startOfDay, msPerDay, msPerMinute.
  replace (t / 86400000 * 86400000) with ((t / 86400000 * 1440) * 60000) by lia.
  apply Z.mod_mul. lia.
Qed.

Lemma aligned_hours (h : Z) : aligned (h * msPerHour).
Proof.
  unfold aligned, msPerHour, msPerMinute.
  replace (h * 3600000) with ((h * 60) * 60000) by lia. apply Z.mod_mul. lia.
Qed.

Lemma aligned_setHour (day : DateTime) (h : Z) : aligned (setHour day h).
Proof. unfold setHour. apply aligned_add; [apply aligned_startOfDay | apply aligned_hours]. Qed.

Lemma aligned_max (a b : Z) : aligned a -> aligned b -> aligned (Z.max a b).
Proof. intros Ha Hb. destruct (Z.max_spec a b) as [[_ ->]|[_ ->]]; assumption. Qed.

Lemma aligned_plusMinutes (t m : Z) : aligned t -> aligned (plusMinutes t m).
Proof. intros H. unfold plusMinutes. apply aligned_add; [exact H | apply aligned_mul]. Qed.

(** Two whole minutes, one before the other, are at least a minute apart, and
    the floor of their distance in minutes loses nothing. *)
Lemma aligned_gap (a b : Z) :
  aligned a -> aligned b -> a < b ->
  0 < floorDiffMinutes b a /\ floorDiffMinutes b a * msPerMinute = b - a.
Proof.
  unfold aligned, floorDiffMinutes, msPerMinute. intros Ha Hb Hlt.
  assert (Hm : (b - a) mod 60000 = 0).
  { rewrite Zminus_mod, Ha, Hb. reflexivity. }
  pose proof (Z.div_mod (b - a) 60000 ltac:(lia)) as Hdm.
  rewrite Hm in Hdm. split; lia.
Qed.

(** ** The shift window resolver *)

Section Resolver.

Import DateUtils.

Variable cursor : DateTime.
Variable shifts : list Shift.

Lemma firstEndingAfter_Some (pre post : list Interval) (w : Interval) :
  (forall v, In v pre -> end_ v <= cursor) ->
  cursor < end_ w ->
  firstEndingAfter cursor (pre ++ w :: post)
  = Some (mkInterval (Z.max cursor (start w)) (end_ w) None).
Proof.
  induction pre as [|v pre IH]; simpl; intros Hpre Hw.
  - apply Z.ltb_lt in Hw. rewrite Hw.
    destruct (cursor <? start w) eqn:E.
    + apply Z.ltb_lt in E. now rewrite Z.max_r by lia.
    + apply Z.ltb_ge in E. now rewrite Z.max_l by lia.
  - assert (E : (cursor <? end_ v) = false) by (apply Z.ltb_ge, Hpre; now left).
    rewrite E. apply IH; auto.
Qed.

Lemma firstEndingAfter_None (ws : list Interval) :
  firstEndingAfter cursor ws = None <-> forall v, In v ws -> end_ v <= cursor.
Proof.
  induction ws as [|w ws IH]; simpl.
  - split; [intros _ v [] | reflexivity].
  - destruct (cursor <? end_ w) eqn:E.
    + split; [discriminate|]. intros H. apply Z.ltb_lt in E.
      specialize (H w (or_introl eq_refl)). lia.
    + apply Z.ltb_ge in E. rewrite IH. split.
      * intros H v [<-|Hv]; auto.
      * intros H v Hv. apply H. now right.
Qed.

(** A window returned for the cursor's day ends after the cursor and starts
    at the cursor or at the start of the shift. *)
Lemma firstEndingAfter_inv (ws : list Interval) (r : Interval) :
  firstEndingAfter cursor ws = Some r ->
  exists pre w post, ws = pre ++ w :: post
    /\ (forall v, In v pre -> end_ v <= cursor)
    /\ cursor < end_ w
    /\ r = mkInterval (Z.max cursor (start w)) (end_ w) None.
Proof.
  induction ws as [|w ws IH]; simpl; [discriminate|].
  destruct (cursor <? end_ w) eqn:E.
  - intros H. exists [], w, ws. apply Z.ltb_lt in E.
    repeat split; auto; [intros v []|].
    injection H as <-. f_equal.
    destruct (cursor <? start w) eqn:E'.
    + apply Z.ltb_lt in E'. lia.
    + apply Z.ltb_ge in E'. lia.
  - intros H. destruct (IH H) as (pre & w' & post & -> & Hpre & Hw & ->).
    exists (w :: pre), w', post. repeat split; auto.
    intros v [<-|Hv]; [now apply Z.ltb_ge|auto].
Qed.

(** Rounds of the day loop after the cursor's own day. *)
Lemma searchDays_future_empty (n : nat) (d : Z) :
  1 <= d ->
  (forall j, d <= j < d + Z.of_nat n -> dayWindows cursor shifts j = []) ->
  searchDays cursor shifts d n = Throw "No shift window found in search horizon.".
Proof.
  revert d. induction n as [|n IH]; intros d Hd Hempty; simpl; [reflexivity|].
  rewrite (Hempty d) by lia. apply IH; [lia|].
  intros j Hj. apply Hempty. lia.
Qed.

Lemma searchDays_future_first (n : nat) (d k : Z) (w : Interval) (rest : list Interval) :
  1 <= d -> d <= k < d + Z.of_nat n ->
  (forall j, d <= j < k -> dayWindows cursor shifts j = []) ->
  dayWindows cursor shifts k = w :: rest ->
  searchDays cursor shifts d n = Ok (mkInterval (start w) (end_ w) None).
Proof.
  revert d. induction n as [|n IH]; intros d Hd Hk Hempty Hw; [lia|].
  simpl. destruct (Z.eq_dec d k) as [->|Hne].
  - rewrite Hw. replace (k =? 0) with false by (symmetry; apply Z.eqb_neq; lia).
    reflexivity.
  - rewrite (Hempty d) by lia. apply IH; auto; try lia.
    intros j Hj. apply Hempty. lia.
Qed.

Lemma searchDays_today (n : nat) :
  searchDays cursor shifts 0 (S n)
  = match firstEndingAfter cursor (dayWindows cursor shifts 0) with
    | Some w => Ok w
    | None => searchDays cursor shifts 1 n
    end.
Proof.
  simpl. destruct (dayWindows cursor shifts 0) as [|w0 ws] eqn:E; reflexivity.
Qed.

Lemma dayWindows_nil (d : Z) : shifts = [] -> dayWindows cursor shifts d = [].
Proof. intros ->. reflexivity. Qed.

End Resolver.

(** ** Searches within the range of the date library *)

Section SearchWithinRange.

Import DateUtils.

Variable cursor : DateTime.
Variable shifts : list Shift.

Lemma validInstant_true (t : DateTime) :
  validInstant t = true <-> - maxInstant <= t <= maxInstant.
Proof.
  unfold validInstant. rewrite andb_true_iff, !Z.leb_le. tauto.
Qed.

Lemma searchInRange_days (d : Z) :
  searchInRange cursor shifts = true -> 0 <= d < 14 ->
  validInstant (plusDays cursor d) = true
  /\ forall w, In w (dayWindows cursor shifts d) ->
       validInstant (start w) = true /\ validInstant (end_ w) = true.
Proof.
  unfold searchInRange. rewrite andb_true_iff, forallb_forall. intros [_ H] Hd.
  assert (Hin : In d (map Z.of_nat (seq 0 14))).
  { apply in_map_iff. exists (Z.to_nat d). split; [lia|]. apply in_seq. lia. }
  apply H in Hin. apply andb_true_iff in Hin. destruct Hin as [H1 H2].
  split; [exact H1|]. intros w Hw. rewrite forallb_forall in H2.
  apply andb_true_iff. now apply H2.
Qed.

End SearchWithinRange.

Lemma andThen_Some {A B : Type} (r : result A) (k : A -> Ranged.outcome B)
    (k' : A -> result B) :
  (forall a, r = Ok a -> k a = Some (k' a)) ->
  Ranged.andThen (Some r) k = Some (bind r k').
Proof. intros H. destruct r as [a|m|]; simpl; [now apply H | reflexivity | reflexivity]. Qed.

Lemma searchDays_ranged (cursor : DateTime) (shifts : list Shift) (n : nat) :
  forall d,
    (forall j, d <= j < d + Z.of_nat n ->
       validInstant (plusDays cursor j) = true
       /\ forallb Ranged.validBounds (DateUtils.dayWindows cursor shifts j) = true) ->
    Ranged.searchDays cursor shifts d n = Some (DateUtils.searchDays cursor shifts d n).
Proof.
  induction n as [|n IH]; intros d H; [reflexivity|].
  cbn [Ranged.searchDays DateUtils.searchDays].
  destruct (H d ltac:(lia)) as [-> ->]. cbv zeta.
  assert (Hnext : Ranged.searchDays cursor shifts (d + 1) n
                  = Some (DateUtils.searchDays cursor shifts (d + 1) n)).
  { apply IH. intros j Hj. apply H. lia. }
  destruct (DateUtils.dayWindows cursor shifts d) as [|w0 ws]; [exact Hnext|].
  destruct (d =? 0); [|reflexivity].
  destruct (DateUtils.firstEndingAfter cursor (w0 :: ws)); [reflexivity | exact Hnext].
Qed.

(** On a search within the range, the search with the range written out is
    the search of [DateUtils]. *)
Lemma findNextShiftWindow_ranged (cursor : DateTime) (shifts : list Shift) :
  searchInRange cursor shifts = true ->
  Ranged.findNextShiftWindow cursor shifts
  = Some (DateUtils.findNextShiftWindow cursor shifts).
Proof.
  intros H. unfold Ranged.findNextShiftWindow, DateUtils.findNextShiftWindow.
  destruct shifts as [|s ss]; [reflexivity|].
  pose proof H as Hc. unfold searchInRange in Hc. apply andb_true_iff in Hc.
  destruct Hc as [-> _]. apply searchDays_ranged. intros j Hj.
  destruct (searchInRange_days cursor (s :: ss) j H ltac:(lia)) as [H1 H2].
  split; [exact H1|]. apply forallb_forall. intros w Hw.
  unfold Ranged.validBounds. destruct (H2 w Hw) as [-> ->]. reflexivity.
Qed.

Section ResolverSpec.

Import DateUtils.

Variable cursor : DateTime.
Variable shifts : list Shift.

Lemma searchDays_future_throws (n : nat) (d : Z) :
  1 <= d ->
  throws (searchDays cursor shifts d n) ->
  forall j, d <= j < d + Z.of_nat n -> dayWindows cursor shifts j = [].
Proof.
  revert d. induction n as [|n IH]; intros d Hd Hthrow j Hj; [lia|].
  simpl in Hthrow.
  destruct (dayWindows cursor shifts d) as [|w ws] eqn:E.
  - destruct (Z.eq_dec j d) as [->|Hne]; [exact E|].
    apply (IH (d + 1)); [lia | exact Hthrow | lia].
  - replace (d =? 0) with false in Hthrow by (symmetry; apply Z.eqb_neq; lia).
    destruct Hthrow as [m Hm]. discriminate.
Qed.

Lemma findNextShiftWindow_unfold :
  shifts <> [] -> findNextShiftWindow cursor shifts = searchDays cursor shifts 0 14.
Proof. destruct shifts; [congruence | reflexivity]. Qed.

Lemma dayWindows_sorted (d : Z) : StronglySorted byStart (dayWindows cursor shifts d).
Proof. apply sortIntervals_sorted. Qed.

Lemma dayWindows_perm (d : Z) :
  Permutation (dayWindows cursor shifts d)
    (map (shiftIntervalForDay (startOfDay (plusDays cursor d)))
       (filter (fun s => dayOfWeek s =? weekday (startOfDay (plusDays cursor d)) mod 7)
          shifts)).
Proof. apply sortIntervals_perm. Qed.

(** The search of [DateUtils], day by day. *)
Lemma findNextShiftWindow_by_days :
  let today := dayWindows cursor shifts 0 in
  (forall d,
      StronglySorted byStart (dayWindows cursor shifts d)
      /\ Permutation (dayWindows cursor shifts d)
           (map (shiftIntervalForDay (startOfDay (plusDays cursor d)))
              (filter
                 (fun s => dayOfWeek s =? weekday (startOfDay (plusDays cursor d)) mod 7)
                 shifts)))
  /\ (forall pre w post,
         today = pre ++ w :: post ->
         (forall v, In v pre -> end_ v <= cursor) ->
         cursor < end_ w ->
         findNextShiftWindow cursor shifts
         = Ok (mkInterval (Z.max cursor (start w)) (end_ w) None))
  /\ (forall d w rest,
         (forall v, In v today -> end_ v <= cursor) ->
         1 <= d < 14 ->
         (forall j, 1 <= j < d -> dayWindows cursor shifts j = []) ->
         dayWindows cursor shifts d = w :: rest ->
         findNextShiftWindow cursor shifts = Ok (mkInterval (start w) (end_ w) None)
         /\ forall v, In v (dayWindows cursor shifts d) -> start w <= start v)
  /\ (throws (findNextShiftWindow cursor shifts)
      <-> (forall v, In v today -> end_ v <= cursor)
          /\ (forall d, 1 <= d < 14 -> dayWindows cursor shifts d = []))
  /\ (shifts = [] -> throws (findNextShiftWindow cursor shifts)).
Proof.
  intros today. subst today. split; [|split; [|split; [|split]]].
  - intros d. split; [apply dayWindows_sorted | apply dayWindows_perm].
  - intros pre w post Htoday Hpre Hw.
    assert (Hne : shifts <> []).
    { intros ->. destruct pre; discriminate. }
    rewrite (findNextShiftWindow_unfold Hne), searchDays_today.
    rewrite Htoday, (firstEndingAfter_Some cursor pre post w Hpre Hw).
    reflexivity.
  - intros d w rest Htoday Hd Hempty Hw.
    assert (Hne : shifts <> []).
    { intros ->. rewrite dayWindows_nil in Hw by reflexivity. discriminate. }
    split.
    + rewrite (findNextShiftWindow_unfold Hne), searchDays_today.
      apply firstEndingAfter_None in Htoday. rewrite Htoday.
      apply (searchDays_future_first cursor shifts 13 1 d w rest); auto; lia.
    + pose proof (dayWindows_sorted d) as Hs. rewrite Hw in *.
      inversion Hs as [|? ? _ Hall]; subst.
      intros v [<-|Hv]; [lia|].
      rewrite Forall_forall in Hall. apply (Hall v Hv).
  - split.
    + intros Hthrow. destruct shifts as [|s ss] eqn:Es.
      * split; [intros v Hv; destruct Hv | intros d _; reflexivity].
      * rewrite <- Es in *.
        assert (Hne : shifts <> []) by (rewrite Es; discriminate).
        rewrite (findNextShiftWindow_unfold Hne), searchDays_today in Hthrow.
        destruct (firstEndingAfter cursor (dayWindows cursor shifts 0)) eqn:E.
        -- destruct Hthrow as [m Hm]. discriminate.
        -- split; [now apply firstEndingAfter_None|].
           intros d Hd. apply (searchDays_future_throws 13 1); [lia | exact Hthrow | lia].
    + intros [Htoday Hfuture]. destruct shifts as [|s ss] eqn:Es.
      * eexists. reflexivity.
      * rewrite <- Es in *.
        assert (Hne : shifts <> []) by (rewrite Es; discriminate).
        rewrite (findNextShiftWindow_unfold Hne), searchDays_today.
        apply firstEndingAfter_None in Htoday. rewrite Htoday.
        rewrite searchDays_future_empty; [eexists; reflexivity | lia |].
        intros j Hj. apply Hfuture. lia.
  - intros ->. eexists. reflexivity.
Qed.

(** C9. For every shift table and every cursor for which the fourteen days
    of the search and the bounds of their windows are instants the date
    library represents ([searchInRange]), [findNextShiftWindow] looks at the
    shift windows of each day sorted by start; on the cursor's own day it
    returns the first window whose end is after the cursor, cut to
    [max(cursor, start), end); if that day has none, it returns in full the
    earliest window of the first later day, among the next 13, that has any
    shift; and it throws exactly when none of these 14 days gives a window.
    On an empty shift table it throws whatever the cursor. *)
Theorem findNextShiftWindow_spec :
  (searchInRange cursor shifts = true ->
   let today := dayWindows cursor shifts 0 in
   (forall d,
       0 <= d < 14 ->
       StronglySorted byStart (dayWindows cursor shifts d)
       /\ Permutation (dayWindows cursor shifts d)
            (map (shiftIntervalForDay (startOfDay (plusDays cursor d)))
               (filter
                  (fun s => dayOfWeek s =? weekday (startOfDay (plusDays cursor d)) mod 7)
                  shifts)))
   /\ (forall pre w post,
          today = pre ++ w :: post ->
          (forall v, In v pre -> end_ v <= cursor) ->
          cursor < end_ w ->
          Ranged.findNextShiftWindow cursor shifts
          = Some (Ok (mkInterval (Z.max cursor (start w)) (end_ w) None)))
   /\ (forall d w rest,
          (forall v, In v today -> end_ v <= cursor) ->
          1 <= d < 14 ->
          (forall j, 1 <= j < d -> dayWindows cursor shifts j = []) ->
          dayWindows cursor shifts d = w :: rest ->
          Ranged.findNextShiftWindow cursor shifts
          = Some (Ok (mkInterval (start w) (end_ w) None))
          /\ forall v, In v (dayWindows cursor shifts d) -> start w <= start v)
   /\ ((exists msg, Ranged.findNextShiftWindow cursor shifts = Some (Throw msg))
       <-> (forall v, In v today -> end_ v <= cursor)
           /\ (forall d, 1 <= d < 14 -> dayWindows cursor shifts d = [])))
  /\ (shifts = [] ->
      exists msg, Ranged.findNextShiftWindow cursor shifts = Some (Throw msg)).
Proof.
  split.
  - intros Hr today. subst today.
    rewrite (findNextShiftWindow_ranged cursor shifts Hr).
    pose proof findNextShiftWindow_by_days as H. cbv zeta in H.
    destruct H as (H1 & H2 & H3 & H4 & _).
    split; [intros d _; apply H1|]. split; [|split].
    + intros pre w post Ht Hp Hw. now rewrite (H2 pre w post Ht Hp Hw).
    + intros d w rest Ht Hd He Hw. destruct (H3 d w rest Ht Hd He Hw) as [-> Hmin].
      split; [reflexivity | exact Hmin].
    + rewrite <- H4. unfold throws.
      split; intros [msg Hm]; exists msg; [now injection Hm | now rewrite Hm].
  - intros ->. eexists. reflexivity.
Qed.

End ResolverSpec.

Lemma findNextShiftWindow_spec_witness :
  searchInRange (utc 2026 3 6 17 0) Scenarios.dayShift = true
  /\ Ranged.findNextShiftWindow (utc 2026 3 6 17 0) Scenarios.dayShift
     = Some (Ok (mkInterval (utc 2026 3 9 8 0) (utc 2026 3 9 17 0) None))
  /\ forall v, In v (DateUtils.dayWindows (utc 2026 3 6 17 0) Scenarios.dayShift 3) ->
       utc 2026 3 9 8 0 <= start v.
Proof.
  split; [vm_compute; reflexivity|].
  destruct (findNextShiftWindow_spec (utc 2026 3 6 17 0) Scenarios.dayShift) as [H _].
  destruct (H ltac:(vm_compute; reflexivity)) as (_ & _ & H3 & _).
  apply (H3 3 (mkInterval (utc 2026 3 9 8 0) (utc 2026 3 9 17 0) None) []).
  - intros v Hv. vm_compute in Hv. destruct Hv as [<-|[]]. vm_compute. discriminate.
  - lia.
  - intros j Hj. assert (Hc : j = 1 \/ j = 2) by lia.
    destruct Hc as [-> | ->]; vm_compute; reflexivity.
  - vm_compute. reflexivity.
Defined.

(** C9, as stated for every cursor, fails in the last days of the range of
    the date library. Its last Friday at 17:00 is an instant the library
    represents; the shift of that day has ended, and the shift table has a
    shift on Mondays, three days on and well within the fourteen days. But
    every day after that Friday is past the last instant the library
    represents, so that no shift is found and the search throws. *)
Lemma findNextShiftWindow_spec_counterexample :
  validInstant FurtherCases.lastFridayEvening = true
  /\ weekday FurtherCases.lastFridayEvening = 5
  /\ (forall v,
        In v (DateUtils.dayWindows FurtherCases.lastFridayEvening Scenarios.dayShift 0) ->
        end_ v <= FurtherCases.lastFridayEvening)
  /\ (exists s, In s Scenarios.dayShift /\ dayOfWeek s = 1)
  /\ (forall d, 1 <= d -> validInstant (plusDays FurtherCases.lastFridayEvening d) = false)
  /\ Ranged.findNextShiftWindow FurtherCases.lastFridayEvening Scenarios.dayShift
     = Some (Throw "No shift window found in search horizon.").
Proof.
  split; [vm_compute; reflexivity|]. split; [vm_compute; reflexivity|]. split.
  { intros v Hv. vm_compute in Hv. destruct Hv as [<-|[]]. vm_compute. discriminate. }
  split; [exists (mkShift 1 8 17); split; [now left | reflexivity]|].
  split; [|vm_compute; reflexivity].
  intros d Hd. unfold validInstant. apply andb_false_iff. right. apply Z.leb_gt.
  unfold plusDays, FurtherCases.lastFridayEvening, maxInstant, msPerHour, msPerDay. lia.
Qed.

(** ** Where the resolved window lies *)

Section ResolverInversion.

Import DateUtils.

Variable cursor : DateTime.
Variable shifts : list Shift.

Lemma searchDays_future_inv (n : nat) (d : Z) (r : Interval) :
  1 <= d ->
  searchDays cursor shifts d n = Ok r ->
  exists k w rest,
    d <= k < d + Z.of_nat n
    /\ (forall j, d <= j < k -> dayWindows cursor shifts j = [])
    /\ dayWindows cursor shifts k = w :: rest
    /\ r = mkInterval (start w) (end_ w) None.
Proof.
  revert d. induction n as [|n IH]; intros d Hd H; simpl in H; [discriminate|].
  destruct (dayWindows cursor shifts d) as [|w ws] eqn:E.
  - destruct (IH (d + 1) ltac:(lia) H) as (k & w & rest & Hk & Hempty & Hw & ->).
    exists k, w, rest. repeat split; auto; try lia.
    intros j Hj. destruct (Z.eq_dec j d) as [->|]; [exact E | apply Hempty; lia].
  - replace (d =? 0) with false in H by (symmetry; apply Z.eqb_neq; lia).
    injection H as <-. exists d, w, ws. repeat split; auto; try lia.
Qed.

Lemma findNextShiftWindow_inv (r : Interval) :
  findNextShiftWindow cursor shifts = Ok r ->
  (exists pre w post,
      dayWindows cursor shifts 0 = pre ++ w :: post
      /\ (forall v, In v pre -> end_ v <= cursor)
      /\ cursor < end_ w
      /\ r = mkInterval (Z.max cursor (start w)) (end_ w) None)
  \/ (exists k w rest,
         1 <= k < 14
         /\ (forall v, In v (dayWindows cursor shifts 0) -> end_ v <= cursor)
         /\ (forall j, 1 <= j < k -> dayWindows cursor shifts j = [])
         /\ dayWindows cursor shifts k = w :: rest
         /\ r = mkInterval (start w) (end_ w) None).
Proof.
  intros H.
  assert (Hne : shifts <> []).
  { intros E. rewrite E in H. discriminate. }
  rewrite (findNextShiftWindow_unfold cursor shifts Hne), searchDays_today in H.
  destruct (firstEndingAfter cursor (dayWindows cursor shifts 0)) as [w'|] eqn:E.
  - left. injection H as ->. now apply firstEndingAfter_inv.
  - right. rewrite firstEndingAfter_None in E.
    destruct (searchDays_future_inv 13 1 r ltac:(lia) H) as (k & w & rest & Hk & He & Hw & ->).
    exists k, w, rest. repeat split; auto; lia.
Qed.

(** The windows of a day are the shifts of its weekday, set on that day. *)
Lemma dayWindows_In (d : Z) (w : Interval) :
  In w (dayWindows cursor shifts d) ->
  exists s, In s shifts
    /\ dayOfWeek s = weekday (startOfDay (plusDays cursor d)) mod 7
    /\ w = shiftIntervalForDay (startOfDay (plusDays cursor d)) s.
Proof.
  intros H. apply (Permutation_in _ (dayWindows_perm cursor shifts d)) in H.
  apply in_map_iff in H. destruct H as (s & <- & Hs).
  apply filter_In in Hs. destruct Hs as [Hs Hdow]. apply Z.eqb_eq in Hdow.
  exists s. auto.
Qed.

Lemma dayWindows_In_conv (d : Z) (s : Shift) :
  In s shifts ->
  dayOfWeek s = weekday (startOfDay (plusDays cursor d)) mod 7 ->
  In (shiftIntervalForDay (startOfDay (plusDays cursor d)) s) (dayWindows cursor shifts d).
Proof.
  intros Hs Hdow. apply (Permutation_in _ (Permutation_sym (dayWindows_perm cursor shifts d))).
  apply in_map. apply filter_In. split; [exact Hs | now apply Z.eqb_eq].
Qed.

Lemma shiftIntervalForDay_bounds (d : Z) (s : Shift) :
  start (shiftIntervalForDay (startOfDay (plusDays cursor d)) s)
  = startOfDay cursor + d * msPerDay + startHour s * msPerHour
  /\ end_ (shiftIntervalForDay (startOfDay (plusDays cursor d)) s)
     = startOfDay cursor + d * msPerDay + endHour s * msPerHour.
Proof.
  unfold shiftIntervalForDay, setHour. simpl.
  rewrite startOfDay_idem, startOfDay_plusDays. split; reflexivity.
Qed.

(** The window found ends after the cursor, when no shift ends before its day
    begins. *)
Lemma findNextShiftWindow_end_after (w : Interval) :
  (forall s, In s shifts -> 0 <= endHour s) ->
  findNextShiftWindow cursor shifts = Ok w ->
  cursor < end_ w.
Proof.
  intros Hv H. apply findNextShiftWindow_inv in H.
  destruct H as [(pre & w0 & post & _ & _ & Hw & ->)
                |(k & w0 & rest & Hk & _ & _ & Hw & ->)]; simpl; [exact Hw|].
  assert (Hin : In w0 (dayWindows cursor shifts k)) by (rewrite Hw; now left).
  apply dayWindows_In in Hin. destruct Hin as (s & Hs & _ & ->).
  destruct (shiftIntervalForDay_bounds k s) as [_ ->].
  pose proof (startOfDay_le cursor). specialize (Hv s Hs).
  unfold msPerDay, msPerHour in *. nia.
Qed.

End ResolverInversion.

(** ** Working time *)

Section WorkingTime.

Variable shifts : list Shift.
Variable blocked : list Interval.

Lemma inWindow_true (w : Interval) (t : DateTime) :
  inWindow w t = true <-> start w <= t < end_ w.
Proof. unfold inWindow. rewrite andb_true_iff, Z.leb_le, Z.ltb_lt. tauto. Qed.

Lemma inBlock_true (t : DateTime) :
  inBlock blocked t = true <-> exists b, In b blocked /\ start b <= t < end_ b.
Proof.
  unfold inBlock. rewrite existsb_exists.
  split; intros (b & Hb & H); exists b; (split; [exact Hb|]); now apply inWindow_true.
Qed.

Lemma inBlock_false (t : DateTime) :
  inBlock blocked t = false <-> forall b, In b blocked -> ~ (start b <= t < end_ b).
Proof.
  rewrite <- not_true_iff_false, inBlock_true. split.
  - intros H b Hb Ht. apply H. now exists b.
  - intros H (b & Hb & Ht). now apply (H b).
Qed.

Lemma inShift_true (t : DateTime) :
  inShift shifts t = true
  <-> exists s, In s shifts
        /\ dayOfWeek s = weekday (startOfDay t) mod 7
        /\ start (DateUtils.shiftIntervalForDay (startOfDay t) s) <= t
           < end_ (DateUtils.shiftIntervalForDay (startOfDay t) s).
Proof.
  unfold inShift. rewrite existsb_exists. split.
  - intros (s & Hs & H). apply andb_true_iff in H. destruct H as [H1 H2].
    exists s. rewrite Z.eqb_eq in H1. apply inWindow_true in H2. auto.
  - intros (s & Hs & H1 & H2). exists s. split; [exact Hs|].
    apply andb_true_iff. split; [now apply Z.eqb_eq | now apply inWindow_true].
Qed.

Lemma working_true (t : DateTime) :
  working shifts blocked t = true <-> inShift shifts t = true /\ inBlock blocked t = false.
Proof. unfold working. rewrite andb_true_iff, negb_true_iff. tauto. Qed.

Lemma working_false (t : DateTime) :
  working shifts blocked t = false <-> inShift shifts t = false \/ inBlock blocked t = true.
Proof. unfold working. rewrite andb_false_iff, negb_false_iff. tauto. Qed.

Lemma countWorking_none (n : nat) :
  forall t,
    (forall u, t <= u < t + Z.of_nat n -> working shifts blocked u = false) ->
    countWorking shifts blocked t n = 0.
Proof.
  induction n as [|n IH]; intros t H; simpl; [reflexivity|].
  rewrite (H t) by lia. rewrite IH; [reflexivity|].
  intros u Hu. apply H. lia.
Qed.

Lemma countWorking_all (n : nat) :
  forall t,
    (forall u, t <= u < t + Z.of_nat n -> working shifts blocked u = true) ->
    countWorking shifts blocked t n = Z.of_nat n.
Proof.
  induction n as [|n IH]; intros t H; simpl countWorking; [reflexivity|].
  rewrite (H t) by lia. rewrite IH; [lia|].
  intros u Hu. apply H. lia.
Qed.

Lemma countWorking_app (n m : nat) :
  forall t,
    countWorking shifts blocked t (n + m)
    = countWorking shifts blocked t n + countWorking shifts blocked (t + Z.of_nat n) m.
Proof.
  induction n as [|n IH]; intros t.
  - simpl. now rewrite Z.add_0_r.
  - change (S n + m)%nat with (S (n + m)). cbn [countWorking]. rewrite IH.
    replace (t + 1 + Z.of_nat n) with (t + Z.of_nat (S n)) by lia. lia.
Qed.

Lemma workedMs_split (a m b : DateTime) :
  a <= m <= b ->
  workedMs shifts blocked a b = workedMs shifts blocked a m + workedMs shifts blocked m b.
Proof.
  intros H. unfold workedMs.
  replace (Z.to_nat (b - a)) with (Z.to_nat (m - a) + Z.to_nat (b - m))%nat by lia.
  rewrite countWorking_app. do 2 f_equal. lia.
Qed.

Lemma workedMs_none (a b : DateTime) :
  (forall t, a <= t < b -> working shifts blocked t = false) ->
  workedMs shifts blocked a b = 0.
Proof.
  intros H. unfold workedMs. apply countWorking_none. intros u Hu. apply H. lia.
Qed.

Lemma workedMs_all (a b : DateTime) :
  a <= b ->
  (forall t, a <= t < b -> working shifts blocked t = true) ->
  workedMs shifts blocked a b = b - a.
Proof.
  intros Hab H. unfold workedMs. rewrite countWorking_all; [lia|].
  intros u Hu. apply H. lia.
Qed.

End WorkingTime.

Lemma inBlock_sortIntervals (blocked : list Interval) (t : DateTime) :
  inBlock (sortIntervals blocked) t = inBlock blocked t.
Proof.
  apply eq_true_iff_eq. rewrite !inBlock_true.
  split; intros (b & Hb & H); exists b; (split; [|exact H]); now apply sortIntervals_In.
Qed.

Lemma working_sortIntervals shifts (blocked : list Interval) (t : DateTime) :
  working shifts (sortIntervals blocked) t = working shifts blocked t.
Proof. unfold working. now rewrite inBlock_sortIntervals. Qed.

Lemma workedMs_sortIntervals shifts (blocked : list Interval) (a b : DateTime) :
  workedMs shifts (sortIntervals blocked) a b = workedMs shifts blocked a b.
Proof.
  unfold workedMs. generalize (Z.to_nat (b - a)) as n. intros n. revert a.
  induction n as [|n IH]; intros a; simpl; [reflexivity|].
  now rewrite working_sortIntervals, IH.
Qed.

(** ** The resolved window and the shift time around it *)

Lemma startOfDay_in_day (c t k : Z) :
  startOfDay c + k * msPerDay <= t < startOfDay c + (k + 1) * msPerDay ->
  startOfDay t = startOfDay c + k * msPerDay.
Proof.
  unfold startOfDay, msPerDay. intros H.
  assert (E : t / 86400000 = c / 86400000 + k).
  { symmetry. apply (Z.div_unique t 86400000 _ (t - (c / 86400000 + k) * 86400000)); lia. }
  rewrite E. lia.
Qed.

Section ResolvedWindow.

Import DateUtils.

Variable cursor : DateTime.
Variable shifts : list Shift.
Variable w : Interval.

Hypothesis hours : forall s, In s shifts -> hourShift s.
Hypothesis found : findNextShiftWindow cursor shifts = Ok w.

(** The instants of the day [k] days after the cursor's are in shift exactly
    when a window of [dayWindows] for that day holds them. *)
Lemma inShift_day (k : Z) (t : DateTime) :
  startOfDay t = startOfDay cursor + k * msPerDay ->
  inShift shifts t = true
  <-> exists v, In v (dayWindows cursor shifts k) /\ start v <= t < end_ v.
Proof.
  intros Hday.
  assert (Hd : startOfDay (plusDays cursor k) = startOfDay t)
    by (rewrite startOfDay_plusDays; lia).
  rewrite inShift_true. split.
  - intros (s & Hs & Hdow & Ht).
    exists (shiftIntervalForDay (startOfDay t) s). split; [|exact Ht].
    rewrite <- Hd. apply dayWindows_In_conv; [exact Hs | now rewrite Hd].
  - intros (v & Hv & Ht). apply dayWindows_In in Hv.
    destruct Hv as (s & Hs & Hdow & ->). rewrite Hd in *.
    exists s. auto.
Qed.

Lemma dayWindows_bounds (k : Z) (v : Interval) :
  In v (dayWindows cursor shifts k) ->
  exists s, In s shifts
    /\ dayOfWeek s = weekday (startOfDay (plusDays cursor k)) mod 7
    /\ start v = startOfDay cursor + k * msPerDay + startHour s * msPerHour
    /\ end_ v = startOfDay cursor + k * msPerDay + endHour s * msPerHour.
Proof.
  intros Hv. apply dayWindows_In in Hv. destruct Hv as (s & Hs & Hdow & ->).
  exists s. destruct (shiftIntervalForDay_bounds cursor k s) as [H1 H2]. auto.
Qed.

(** The window found, as the window [w0] of day [k] it comes from. *)
Lemma found_window :
  exists k w0,
    0 <= k < 14
    /\ In w0 (dayWindows cursor shifts k)
    /\ start w = Z.max cursor (start w0)
    /\ end_ w = end_ w0
    /\ cursor < end_ w0
    /\ (forall j v, 0 <= j < k -> In v (dayWindows cursor shifts j) -> end_ v <= cursor)
    /\ (forall v, In v (dayWindows cursor shifts k) ->
                  end_ v <= cursor \/ start w0 <= start v).
Proof.
  destruct (findNextShiftWindow_inv cursor shifts w found)
    as [(pre & w0 & post & Htoday & Hpre & Hw0 & ->)
       |(k & w0 & rest & Hk & Htoday & Hempty & Hwk & ->)].
  - exists 0, w0. split; [lia|]. split; [rewrite Htoday; apply in_elt|].
    split; [reflexivity|]. split; [reflexivity|]. split; [exact Hw0|].
    split; [intros j v Hj; lia|].
    intros v Hv. rewrite Htoday in Hv. apply in_app_iff in Hv.
    destruct Hv as [Hv|[<-|Hv]]; [left; now apply Hpre | right; lia|].
    right. pose proof (dayWindows_sorted cursor shifts 0) as Hs. rewrite Htoday in Hs.
    apply StronglySorted_app_r in Hs.
    inversion Hs as [|? ? _ Hall]; subst. rewrite Forall_forall in Hall. apply (Hall v Hv).
  - assert (Hin : In w0 (dayWindows cursor shifts k)) by (rewrite Hwk; now left).
    destruct (dayWindows_bounds k w0 Hin) as (s & Hs & _ & Hst & Hen).
    destruct (hours s Hs) as (Hh1 & Hh2 & Hh3).
    pose proof (startOfDay_le cursor) as Hc.
    assert (Hlt : cursor < start w0) by (unfold msPerDay, msPerHour in *; nia).
    exists k, w0. split; [lia|]. split; [exact Hin|]. simpl.
    split; [lia|]. split; [reflexivity|].
    split; [unfold msPerDay, msPerHour in *; nia|].
    split.
    + intros j v Hj Hv. destruct (Z.eq_dec j 0) as [->|Hj0]; [now apply Htoday|].
      rewrite Hempty in Hv by lia. contradiction.
    + intros v Hv. right. pose proof (dayWindows_sorted cursor shifts k) as Hsorted.
      rewrite Hwk in *. inversion Hsorted as [|? ? _ Hall]; subst.
      destruct Hv as [<-|Hv]; [lia|]. rewrite Forall_forall in Hall. apply (Hall v Hv).
Qed.

Lemma window_after : cursor <= start w < end_ w.
Proof.
  destruct found_window as (k & w0 & Hk & Hin & Hst & Hen & Hlt & _).
  destruct (dayWindows_bounds k w0 Hin) as (s & Hs & _ & Hst0 & Hen0).
  destruct (hours s Hs) as (Hh1 & Hh2 & Hh3).
  unfold msPerHour in *. lia.
Qed.

Lemma window_aligned : aligned cursor -> aligned (start w) /\ aligned (end_ w).
Proof.
  intros Hc. destruct found_window as (k & w0 & Hk & Hin & Hst & Hen & _).
  apply dayWindows_In in Hin. destruct Hin as (s & _ & _ & ->).
  rewrite Hst, Hen. simpl. split; [apply aligned_max; [exact Hc|]|]; apply aligned_setHour.
Qed.

(** No instant from the cursor to the start of the window is in a shift. *)
Lemma window_gap (t : DateTime) : cursor <= t < start w -> inShift shifts t = false.
Proof.
  intros Ht. apply not_true_iff_false. intros Hin.
  destruct found_window as (k & w0 & Hk & Hw0 & Hst & Hen & Hlt & Hbefore & Hday).
  destruct (dayWindows_bounds k w0 Hw0) as (s & Hs & _ & Hst0 & Hen0).
  destruct (hours s Hs) as (Hh1 & Hh2 & Hh3).
  pose proof (startOfDay_le cursor) as Hc. pose proof (startOfDay_le t) as Htd.
  assert (Ht0 : t < start w0) by lia.
  set (j := (startOfDay t - startOfDay cursor) / msPerDay).
  assert (Hj : startOfDay t = startOfDay cursor + j * msPerDay).
  { unfold j, startOfDay, msPerDay. rewrite <- Z.mul_sub_distr_r, Z.div_mul by lia. lia. }
  assert (Hjk : 0 <= j <= k) by (unfold msPerDay, msPerHour in *; nia).
  apply (inShift_day j t Hj) in Hin. destruct Hin as (v & Hv & Hvt).
  destruct (Z.eq_dec j k) as [->|Hne].
  - destruct (Hday v Hv) as [H|H]; lia.
  - specialize (Hbefore j v ltac:(lia) Hv). lia.
Qed.

(** Every instant of the window is in a shift. *)
Lemma window_inside (t : DateTime) : start w <= t < end_ w -> inShift shifts t = true.
Proof.
  intros Ht.
  destruct found_window as (k & w0 & Hk & Hw0 & Hst & Hen & Hlt & _).
  destruct (dayWindows_bounds k w0 Hw0) as (s & Hs & _ & Hst0 & Hen0).
  destruct (hours s Hs) as (Hh1 & Hh2 & Hh3).
  apply (inShift_day k t).
  - apply startOfDay_in_day. unfold msPerDay, msPerHour in *. lia.
  - exists w0. split; [exact Hw0 | lia].
Qed.

(** With windows apart, no instant of the hour after the window is in a shift. *)
Lemma window_after_end (t : DateTime) :
  apartShifts shifts ->
  end_ w <= t < end_ w + msPerHour -> inShift shifts t = false.
Proof.
  intros Hapart Ht. apply not_true_iff_false. intros Hin.
  destruct found_window as (k & w0 & Hk & Hw0 & Hst & Hen & Hlt & _).
  destruct (dayWindows_bounds k w0 Hw0) as (s & Hs & Hdow & Hst0 & Hen0).
  destruct (hours s Hs) as (Hh1 & Hh2 & Hh3).
  assert (Hday : startOfDay t = startOfDay cursor + k * msPerDay).
  { apply startOfDay_in_day. unfold msPerDay, msPerHour in *. lia. }
  apply (inShift_day k t Hday) in Hin. destruct Hin as (v & Hv & Hvt).
  destruct (dayWindows_bounds k v Hv) as (s' & Hs' & Hdow' & Hst' & Hen').
  destruct (Hapart s s' Hs Hs' ltac:(congruence)) as [[H1 H2]|[H|H]];
    unfold msPerHour in *; lia.
Qed.

End ResolvedWindow.

(** ** Fuel

    A run that does not exhaust its fuel gives the same outcome with more. *)

Lemma bind_fuel {A B : Type} (r r' : result A) (k k' : A -> result B) :
  bind r k <> OutOfFuel ->
  (r <> OutOfFuel -> r' = r) ->
  (forall a, r = Ok a -> k a <> OutOfFuel -> k' a = k a) ->
  bind r' k' = bind r k.
Proof.
  intros Hne Hr Hk. destruct r as [a| |]; simpl in *.
  - rewrite Hr by discriminate. simpl. now apply Hk.
  - rewrite Hr by discriminate. reflexivity.
  - congruence.
Qed.

Lemma allocLoop_fuel (f f' : nat) shifts blockedSorted st :
  (f <= f')%nat ->
  DateUtils.allocLoop f shifts blockedSorted st <> OutOfFuel ->
  DateUtils.allocLoop f' shifts blockedSorted st
  = DateUtils.allocLoop f shifts blockedSorted st.
Proof.
  revert f' st. induction f as [|f IH]; intros f' st Hle Hne.
  - destruct f'; simpl in *; destruct (DateUtils.remaining st >? 0); congruence.
  - destruct f' as [|f']; [lia|]. simpl in *.
    destruct (DateUtils.remaining st >? 0); [|reflexivity].
    apply bind_fuel; auto.
    intros a _ Ha. apply IH; [lia | exact Ha].
Qed.

Lemma scheduleWithShiftsAndBlocks_fuel (f f' : nat) params :
  (f <= f')%nat ->
  DateUtils.scheduleWithShiftsAndBlocks f params <> OutOfFuel ->
  DateUtils.scheduleWithShiftsAndBlocks f' params
  = DateUtils.scheduleWithShiftsAndBlocks f params.
Proof.
  intros Hle Hne. unfold DateUtils.scheduleWithShiftsAndBlocks in *.
  apply bind_fuel; auto.
  intros Hne'. now apply allocLoop_fuel.
Qed.

Lemma drain_fuel (f f' : nat) adj inDegree queue acc :
  (f <= f')%nat ->
  Dag.drain f adj inDegree queue acc <> OutOfFuel ->
  Dag.drain f' adj inDegree queue acc = Dag.drain f adj inDegree queue acc.
Proof.
  revert f' inDegree queue acc.
  induction f as [|f IH]; intros f' inDegree queue acc Hle Hne.
  - destruct queue; destruct f'; simpl in *; congruence.
  - destruct f' as [|f']; [lia|]. destruct queue as [|id queue]; simpl in *; auto.
    destruct (JsMap.get adj id); auto.
    destruct (Dag.relax l inDegree queue). apply IH; [lia | exact Hne].
Qed.

Lemma topoSortWorkOrders_fuel (f f' : nat) workOrders :
  (f <= f')%nat ->
  Dag.topoSortWorkOrders f workOrders <> OutOfFuel ->
  Dag.topoSortWorkOrders f' workOrders = Dag.topoSortWorkOrders f workOrders.
Proof.
  intros Hle Hne. unfold Dag.topoSortWorkOrders in *.
  apply bind_fuel; auto.
  intros g _ Hg. apply bind_fuel; auto.
  intros Hd. now apply drain_fuel.
Qed.

Lemma placeOrder_fuel (f f' : nat) wcMap st id :
  (f <= f')%nat ->
  Reflow.placeOrder f wcMap st id <> OutOfFuel ->
  Reflow.placeOrder f' wcMap st id = Reflow.placeOrder f wcMap st id.
Proof.
  intros Hle Hne. unfold Reflow.placeOrder in *.
  destruct (JsMap.get (Reflow.woMap st) id) as [wo|]; auto.
  destruct (JsMap.get wcMap (workCenterId wo)) as [wc|]; auto.
  destruct (isMaintenance wo); auto.
  apply bind_fuel; auto.
  intros earliest _ He. apply bind_fuel; auto.
  intros Hs. now apply scheduleWithShiftsAndBlocks_fuel.
Qed.

Lemma placeAll_fuel (f f' : nat) wcMap st ids :
  (f <= f')%nat ->
  Reflow.placeAll f wcMap st ids <> OutOfFuel ->
  Reflow.placeAll f' wcMap st ids = Reflow.placeAll f wcMap st ids.
Proof.
  intros Hle. revert st. induction ids as [|id ids IH]; intros st Hne; simpl in *; auto.
  apply bind_fuel; [exact Hne | |].
  - intros Hp. now apply placeOrder_fuel.
  - intros st' _ Hst'. now apply IH.
Qed.

Lemma reflow_fuel (f f' : nat) input :
  (f <= f')%nat ->
  Reflow.reflow f input <> OutOfFuel ->
  Reflow.reflow f' input = Reflow.reflow f input.
Proof.
  intros Hle Hne. unfold Reflow.reflow in *.
  apply bind_fuel; [exact Hne | |].
  - intros Ht. now apply topoSortWorkOrders_fuel.
  - intros topoIds _ H1. apply bind_fuel; [exact H1 | reflexivity |].
    intros booked _ H2. apply bind_fuel; [exact H2 | | reflexivity].
    intros Hp. now apply placeAll_fuel.
Qed.

(** Whatever fuel lets [reflow] return, the result is the same. *)
Lemma reflow_deterministic (f f' : nat) input r r' :
  Reflow.reflow f input = Ok r -> Reflow.reflow f' input = Ok r' -> r = r'.
Proof.
  intros H H'. destruct (Nat.le_ge_cases f f') as [Hle|Hle].
  - rewrite (reflow_fuel f f' input Hle) in H' by congruence. congruence.
  - rewrite (reflow_fuel f' f input Hle) in H by congruence. congruence.
Qed.

(** ** What a round of the allocation loop does *)

Section LoopBody.

Import DateUtils.

Variable shifts : list Shift.
Variable blockedSorted : list Interval.

Lemma nextBlock_Some cursor shiftEnd bs b :
  nextBlock cursor shiftEnd bs = Some b ->
  In b bs /\ cursor < end_ b /\ start b < shiftEnd.
Proof.
  induction bs as [|x bs IH]; simpl; [discriminate|].
  destruct (end_ x <=? cursor) eqn:E1.
  - intros H. destruct (IH H) as (? & ? & ?). auto.
  - destruct (start x >=? shiftEnd) eqn:E2; [discriminate|].
    intros [= <-]. apply Z.leb_gt in E1. rewrite Z.geb_leb in E2. apply Z.leb_gt in E2.
    auto.
Qed.

Lemma freeSegmentEnd_bounds cursor shiftEnd bs :
  cursor < shiftEnd ->
  cursor < freeSegmentEnd cursor shiftEnd (nextBlock cursor shiftEnd bs) <= shiftEnd.
Proof.
  intros H. unfold freeSegmentEnd.
  destruct (nextBlock cursor shiftEnd bs) as [b|]; [|lia].
  destruct (start b >? cursor) eqn:E1; [|lia].
  rewrite Z.gtb_ltb in E1. apply Z.ltb_lt in E1.
  destruct (start b <? shiftEnd) eqn:E2; [apply Z.ltb_lt in E2|]; lia.
Qed.

(** The three ways a round ends: the cursor was pushed to or past the end of
    the window; the free segment holds less than a minute; or minutes are
    consumed. The branch for [freeEnd <= cursor] is never taken. *)
Lemma loopBody_inv (st st' : LoopState) :
  loopBody shifts blockedSorted st = Ok st' ->
  exists w,
    findNextShiftWindow (cursor st) shifts = Ok w
    /\ let c1 := Z.max (cursor st) (start w) in
       let c2 := pushOutOfBlocked c1 blockedSorted in
       let c3 := Z.max c2 (start w) in
       let started :=
         Some (match scheduledStart st with Some s => s | None => c3 end) in
       let freeEnd := freeSegmentEnd c3 (end_ w) (nextBlock c3 (end_ w) blockedSorted) in
       let freeMinutes := floorDiffMinutes freeEnd c3 in
       (end_ w <= c3
        /\ st' = mkLoopState (plusMinutes (end_ w) 1) (remaining st) (scheduledStart st))
       \/ (c3 < end_ w /\ freeMinutes <= 0
           /\ st' = mkLoopState (plusMinutes freeEnd 1) (remaining st) started)
       \/ (c3 < end_ w /\ 0 < freeMinutes
           /\ st' = mkLoopState
                      (pushOutOfBlocked
                         (plusMinutes c3 (Z.min (remaining st) freeMinutes)) blockedSorted)
                      (remaining st - Z.min (remaining st) freeMinutes)
                      started).
Proof.
  unfold loopBody. intros H.
  apply bind_Ok_inv in H. destruct H as (w & Hw & H).
  exists w. split; [exact Hw|]. cbv zeta.
  rewrite !ltb_max in H.
  set (c3 := Z.max (pushOutOfBlocked (Z.max (cursor st) (start w)) blockedSorted) (start w))
    in *.
  destruct (c3 >=? end_ w) eqn:E1.
  - left. rewrite Z.geb_leb in E1. apply Z.leb_le in E1.
    split; [exact E1 | congruence].
  - rewrite Z.geb_leb in E1. apply Z.leb_gt in E1. right.
    change (match nextBlock c3 (end_ w) blockedSorted with
            | Some b =>
                if start b >? c3
                then if start b <? end_ w then start b else end_ w
                else end_ w
            | None => end_ w
            end)
      with (freeSegmentEnd c3 (end_ w) (nextBlock c3 (end_ w) blockedSorted)) in H.
    pose proof (freeSegmentEnd_bounds c3 (end_ w) blockedSorted E1) as Hfree.
    set (freeEnd := freeSegmentEnd c3 (end_ w) (nextBlock c3 (end_ w) blockedSorted)) in *.
    replace (freeEnd <=? c3) with false in H by (symmetry; apply Z.leb_gt; lia).
    destruct (floorDiffMinutes freeEnd c3 <=? 0) eqn:E2.
    + left. apply Z.leb_le in E2. split; [exact E1|]. split; [exact E2|].
      destruct (scheduledStart st); congruence.
    + right. apply Z.leb_gt in E2. split; [exact E1|]. split; [exact E2|].
      destruct (scheduledStart st); congruence.
Qed.

End LoopBody.

(** ** The allocator on a zero duration *)

Section ZeroDuration.

Import DateUtils.

Lemma fromISO_toISO (dt : DateTime) : fromISO (toISO dt) = dt.
Proof. reflexivity. Qed.

Lemma allocLoop_done (fuel : nat) shifts blockedSorted st :
  remaining st <= 0 -> allocLoop fuel shifts blockedSorted st = Ok st.
Proof.
  intros H.
  assert (E : (remaining st >? 0) = false) by (rewrite Z.gtb_ltb; apply Z.ltb_ge, H).
  destruct fuel; simpl; rewrite E; reflexivity.
Qed.

(** What the allocator returns on a zero duration, in full. *)
Lemma scheduleWithShiftsAndBlocks_zero_exact (fuel : nat) (params : Params) :
  p_durationMinutes params = 0 ->
  scheduleWithShiftsAndBlocks fuel params
  = Ok (mkSpan (toISO (fromISO (p_startISO params)))
          (toISO (pushOutOfBlocked (fromISO (p_startISO params))
                    (sortIntervals (p_blocked params))))).
Proof.
  intros H. unfold scheduleWithShiftsAndBlocks.
  rewrite allocLoop_done by (simpl; lia). reflexivity.
Qed.

(** What holds of a call with [durationMinutes = 0]: the allocator returns
    without running the loop body (it returns already with no fuel at all), and
    the start it returns is [startISO]; the end it returns is [startISO] as
    well whenever [startISO] lies in no blocked interval. *)
Theorem scheduleWithShiftsAndBlocks_zero (fuel : nat) (params : Params) :
  p_durationMinutes params = 0 ->
  exists span,
    scheduleWithShiftsAndBlocks fuel params = Ok span
    /\ scheduleWithShiftsAndBlocks 0 params = Ok span
    /\ fromISO (startISO span) = fromISO (p_startISO params)
    /\ ((forall b, In b (p_blocked params) ->
                   ~ (start b <= fromISO (p_startISO params) < end_ b)) ->
        fromISO (endISO span) = fromISO (p_startISO params)).
Proof.
  intros H. eexists. split; [|split; [|split]].
  - apply scheduleWithShiftsAndBlocks_zero_exact, H.
  - apply scheduleWithShiftsAndBlocks_zero_exact, H.
  - reflexivity.
  - intros Hfree. simpl.
    destruct (pushOutOfBlocked_cases (fromISO (p_startISO params))
                (sortIntervals (p_blocked params)))
      as [[Heq _]|(b & Hin & Hb & _)]; [exact Heq|].
    exfalso. apply (Hfree b); [now apply sortIntervals_In | exact Hb].
Qed.

Lemma scheduleWithShiftsAndBlocks_zero_witness :
  p_durationMinutes (mkParams (isoZ 2026 3 2 9 0) 0 Scenarios.dayShift []) = 0
  /\ exists span,
       scheduleWithShiftsAndBlocks 5 (mkParams (isoZ 2026 3 2 9 0) 0 Scenarios.dayShift [])
       = Ok span
       /\ fromISO (startISO span) = utc 2026 3 2 9 0
       /\ fromISO (endISO span) = utc 2026 3 2 9 0.
Proof.
  split; [reflexivity|].
  destruct (scheduleWithShiftsAndBlocks_zero 5
              (mkParams (isoZ 2026 3 2 9 0) 0 Scenarios.dayShift []) eq_refl)
    as (span & H1 & _ & H2 & H3).
  exists span. split; [exact H1|]. split; [exact H2|].
  apply H3. intros b [].
Defined.

(** C7. On a call with [durationMinutes = 0] whose [startISO] lies inside a
    blocked interval the allocator does not return [(startISO, startISO)]:
    the cursor is pushed to the end of the block before the loop, the start
    returned is [startISO] and the end returned is the pushed cursor. Here
    the start is Tuesday 10:00 and the end 13:00, three hours for no work,
    against the comment in the code, which has start and end both at the
    cursor for a zero duration. *)
Theorem zeroInsideBlock_end_moved :
  p_durationMinutes Cases.zeroInsideBlock = 0
  /\ exists span,
       scheduleWithShiftsAndBlocks 0 Cases.zeroInsideBlock = Ok span
       /\ fromISO (startISO span) = utc 2026 3 3 10 0
       /\ fromISO (endISO span) = utc 2026 3 3 13 0
       /\ fromISO (endISO span) <> fromISO (p_startISO Cases.zeroInsideBlock)
       /\ fromISO (endISO span) <> fromISO (startISO span).
Proof.
  split; [reflexivity|]. eexists. split; [reflexivity|].
  repeat split; vm_compute; congruence.
Qed.

End ZeroDuration.

(** ** The allocator never starts before [startISO] *)

Section LowerBound.

Import DateUtils.

Variable shifts : list Shift.
Variable blockedSorted : list Interval.
Hypothesis shifts_ok : forall s, In s shifts -> 0 <= endHour s.

Variable lo : DateTime.

Lemma loopBody_aboveLo (st st' : LoopState) :
  0 < remaining st ->
  loopBody shifts blockedSorted st = Ok st' ->
  aboveLo lo st -> aboveLo lo st'.
Proof.
  intros Hrem H [Hc Hs].
  destruct (loopBody_inv shifts blockedSorted st st' H) as (w & Hw & Hcases).
  cbv zeta in Hcases.
  pose proof (findNextShiftWindow_end_after (cursor st) shifts w shifts_ok Hw) as Hend.
  pose proof (pushOutOfBlocked_ge (Z.max (cursor st) (start w)) blockedSorted) as Hpush.
  set (c3 := Z.max (pushOutOfBlocked (Z.max (cursor st) (start w)) blockedSorted) (start w))
    in *.
  assert (Hc3 : lo <= c3) by lia.
  assert (Hstarted : forall s,
             Some (match scheduledStart st with Some s0 => s0 | None => c3 end) = Some s ->
             lo <= s).
  { intros s [= <-]. destruct (scheduledStart st) as [s0|]; [now apply Hs | exact Hc3]. }
  destruct Hcases as [[_ ->]|[(Hlt & _ & ->)|(Hlt & Hfree & ->)]]; split; simpl; auto.
  - unfold plusMinutes, msPerMinute. lia.
  - pose proof (freeSegmentEnd_bounds c3 (end_ w) blockedSorted Hlt).
    unfold plusMinutes, msPerMinute. lia.
  - match goal with |- _ <= pushOutOfBlocked ?x _ =>
      pose proof (pushOutOfBlocked_ge x blockedSorted) as Hp; revert Hp end.
    unfold plusMinutes, msPerMinute. lia.
Qed.

Lemma allocLoop_aboveLo (fuel : nat) (st st' : LoopState) :
  allocLoop fuel shifts blockedSorted st = Ok st' ->
  aboveLo lo st -> aboveLo lo st'.
Proof.
  revert st. induction fuel as [|fuel IH]; intros st H Hlo; simpl in H.
  - destruct (remaining st >? 0); [discriminate | congruence].
  - destruct (remaining st >? 0) eqn:E; [|congruence].
    apply bind_Ok_inv in H. destruct H as (st1 & H1 & H2).
    apply (IH st1 H2). apply (loopBody_aboveLo st); auto.
    rewrite Z.gtb_ltb in E. now apply Z.ltb_lt.
Qed.

End LowerBound.

Lemma scheduleWithShiftsAndBlocks_start_ge (fuel : nat) (params : DateUtils.Params)
    (span : DateUtils.Span) :
  (forall s, In s (DateUtils.p_shifts params) -> 0 <= endHour s) ->
  DateUtils.scheduleWithShiftsAndBlocks fuel params = Ok span ->
  fromISO (DateUtils.p_startISO params) <= fromISO (DateUtils.startISO span).
Proof.
  intros Hv H. unfold DateUtils.scheduleWithShiftsAndBlocks in H.
  apply bind_Ok_inv in H. destruct H as (st & Hst & [= <-]). simpl.
  apply (allocLoop_aboveLo _ _ Hv (fromISO (DateUtils.p_startISO params))) in Hst.
  - destruct Hst as [_ Hs]. destruct (DateUtils.scheduledStart st) as [s|]; [|lia].
    now apply Hs.
  - split; simpl; [apply pushOutOfBlocked_ge | discriminate].
Qed.

(** ** Blocks that are sorted, proper and apart *)

Lemma nextBlock_sorted (l : list Interval) (c e : DateTime) :
  StronglySorted byStart l ->
  match DateUtils.nextBlock c e l with
  | None => forall b, In b l -> end_ b <= c \/ e <= start b
  | Some b0 =>
      In b0 l /\ c < end_ b0 /\ start b0 < e
      /\ forall b, In b l -> end_ b <= c \/ start b0 <= start b
  end.
Proof.
  induction 1 as [|x l Hl IH Hx]; simpl.
  - intros b [].
  - rewrite Forall_forall in Hx. destruct (end_ x <=? c) eqn:E1.
    + apply Z.leb_le in E1. destruct (DateUtils.nextBlock c e l) as [b0|].
      * destruct IH as (H1 & H2 & H3 & H4).
        split; [now right|]. split; [exact H2|]. split; [exact H3|].
        intros b [<-|Hb]; [now left | now apply H4].
      * intros b [<-|Hb]; [now left | now apply IH].
    + apply Z.leb_gt in E1. destruct (start x >=? e) eqn:E2.
      * rewrite Z.geb_leb in E2. apply Z.leb_le in E2.
        intros b [<-|Hb]; [now right|]. right. specialize (Hx b Hb). unfold byStart in Hx. lia.
      * rewrite Z.geb_leb in E2. apply Z.leb_gt in E2.
        split; [now left|]. split; [exact E1|]. split; [exact E2|].
        intros b [<-|Hb]; [right; lia|]. right. apply (Hx b Hb).
Qed.

Section Blocks.

Import DateUtils.

Variable bs : list Interval.

Hypothesis sorted : StronglySorted byStart bs.
Hypothesis proper : forall b, In b bs -> properBlock b.
Hypothesis apart : apartBlocks bs.

Lemma pushOut_free (c : DateTime) : inBlock bs (pushOutOfBlocked c bs) = false.
Proof.
  apply inBlock_false. intros b Hb Hin.
  destruct (pushOutOfBlocked_cases c bs) as [[Heq Hfree]|(b0 & Hb0 & Hc & Heq)].
  - rewrite Heq in Hin. now apply (Hfree b Hb).
  - rewrite Heq in Hin. destruct (proper b Hb) as (Hp & _). destruct (proper b0 Hb0) as (Hp0 & _).
    destruct (apart b0 b Hb0 Hb) as [[H1 H2]|[H|H]]; lia.
Qed.

Lemma pushOut_blocked (c t : DateTime) :
  c <= t < pushOutOfBlocked c bs -> inBlock bs t = true.
Proof.
  intros Ht. destruct (pushOutOfBlocked_cases c bs) as [[Heq _]|(b0 & Hb0 & Hc & Heq)].
  - lia.
  - apply inBlock_true. exists b0. split; [exact Hb0 | lia].
Qed.

Lemma pushOut_id (c : DateTime) : inBlock bs c = false -> pushOutOfBlocked c bs = c.
Proof.
  intros Hfree. destruct (pushOutOfBlocked_cases c bs) as [[Heq _]|(b0 & Hb0 & Hc & _)].
  - exact Heq.
  - exfalso. rewrite inBlock_false in Hfree. now apply (Hfree b0 Hb0).
Qed.

Lemma pushOut_aligned (c : DateTime) : aligned c -> aligned (pushOutOfBlocked c bs).
Proof.
  intros Hc. destruct (pushOutOfBlocked_cases c bs) as [[-> _]|(b0 & Hb0 & _ & ->)].
  - exact Hc.
  - now destruct (proper b0 Hb0) as (_ & _ & H).
Qed.

(** A cursor that had to be pushed sat in a block. *)
Lemma pushOut_moved (c : DateTime) :
  pushOutOfBlocked c bs <> c ->
  exists b, In b bs /\ start b <= c < end_ b /\ pushOutOfBlocked c bs = end_ b.
Proof.
  intros Hne. destruct (pushOutOfBlocked_cases c bs) as [[Heq _]|H]; [contradiction | exact H].
Qed.

(** From a cursor outside the blocks, the free segment is block-free, ends
    after the cursor and at or before the end of the shift, on a whole
    minute. *)
Lemma freeSegment_facts (c e : DateTime) :
  c < e -> aligned e -> inBlock bs c = false ->
  let freeEnd := freeSegmentEnd c e (nextBlock c e bs) in
  c < freeEnd <= e
  /\ aligned freeEnd
  /\ forall t, c <= t < freeEnd -> inBlock bs t = false.
Proof.
  intros Hce He Hc. cbv zeta. pose proof (nextBlock_sorted bs c e sorted) as Hnext.
  unfold freeSegmentEnd. rewrite inBlock_false in Hc.
  destruct (nextBlock c e bs) as [b0|].
  - destruct Hnext as (Hb0 & H1 & H2 & H3).
    destruct (proper b0 Hb0) as (Hp & Ha & _).
    assert (Hlt : c < start b0).
    { destruct (Z.lt_ge_cases c (start b0)); [assumption|].
      exfalso. apply (Hc b0 Hb0). lia. }
    replace (start b0 >? c) with true by (symmetry; rewrite Z.gtb_ltb; now apply Z.ltb_lt).
    replace (start b0 <? e) with true by (symmetry; now apply Z.ltb_lt).
    split; [lia|]. split; [exact Ha|].
    intros t Ht. apply inBlock_false. intros b Hb Hin.
    destruct (H3 b Hb); lia.
  - split; [lia|]. split; [exact He|].
    intros t Ht. apply inBlock_false. intros b Hb Hin.
    destruct (Hnext b Hb); lia.
Qed.

End Blocks.

(** ** A round of the allocation loop keeps the account of the work *)

Section AllocatorRound.

Import DateUtils.

Variable shifts : list Shift.
Variable bs : list Interval.
Variable startT : DateTime.
Variable d : Z.

Hypothesis hours : forall s, In s shifts -> hourShift s.
Hypothesis shifts_apart : apartShifts shifts.
Hypothesis sorted : StronglySorted byStart bs.
Hypothesis proper : forall b, In b bs -> properBlock b.
Hypothesis blocks_apart : apartBlocks bs.

Lemma loopBody_allocInv (st st' : LoopState) :
  allocInv shifts bs startT d st ->
  0 < remaining st ->
  loopBody shifts bs st = Ok st' ->
  allocInv shifts bs startT d st'.
Proof.
  intros (Hal & Hlo & Hrem & Hsched) Hpos H.
  destruct (loopBody_inv shifts bs st st' H) as (w & Hw & Hcases). cbv zeta in Hcases.
  destruct (window_after (cursor st) shifts w hours Hw) as [Hw1 Hw2].
  destruct (window_aligned (cursor st) shifts w hours Hw Hal) as [Haw1 Haw2].
  replace (Z.max (cursor st) (start w)) with (start w) in Hcases by lia.
  pose proof (pushOutOfBlocked_ge (start w) bs) as Hge.
  set (c2 := pushOutOfBlocked (start w) bs) in *.
  replace (Z.max c2 (start w)) with c2 in Hcases by lia.
  assert (Hc2free : inBlock bs c2 = false) by (apply pushOut_free; assumption).
  assert (Hc2al : aligned c2) by (apply pushOut_aligned; assumption).
  assert (Hidle : forall t, cursor st <= t < c2 -> working shifts bs t = false).
  { intros t Ht. apply working_false. destruct (Z.lt_ge_cases t (start w)).
    - left. apply (window_gap (cursor st) shifts w hours Hw). lia.
    - right. apply (pushOut_blocked bs (start w)). fold c2. lia. }
  destruct Hcases as [[Hskip ->]|[(Hlt & Hfree & _)|(Hlt & Hfree & ->)]].
  - (* pushed to the end of the window or past it *)
    assert (Hidle' : forall t, cursor st <= t < plusMinutes (end_ w) 1 ->
                               working shifts bs t = false).
    { intros t Ht. destruct (Z.lt_ge_cases t c2); [apply Hidle; lia|].
      apply working_false. left.
      apply (window_after_end (cursor st) shifts w hours Hw t shifts_apart).
      unfold plusMinutes, msPerMinute, msPerHour in *. lia. }
    assert (Hnext : cursor st < plusMinutes (end_ w) 1)
      by (unfold plusMinutes, msPerMinute; lia).
    unfold allocInv. cbn [cursor remaining scheduledStart].
    split; [now apply aligned_plusMinutes|]. split; [lia|]. split; [exact Hrem|].
    destruct (scheduledStart st) as [s|].
    + destruct Hsched as (Hs1 & Hs2 & Hs3 & Hs4 & _).
      split; [lia|]. split; [exact Hs2|]. split; [exact Hs3|].
      split; [|intros; lia].
      rewrite (workedMs_split shifts bs s (cursor st)) by lia.
      rewrite (workedMs_none shifts bs (cursor st)) by exact Hidle'. lia.
    + destruct Hsched as [Hd Hnone]. split; [exact Hd|].
      intros t Ht. destruct (Z.lt_ge_cases t (cursor st)); [apply Hnone | apply Hidle']; lia.
  - (* a free segment shorter than a minute cannot occur on whole minutes *)
    exfalso.
    destruct (freeSegment_facts bs sorted proper c2 (end_ w) Hlt Haw2 Hc2free)
      as (Hfe & Hfal & _).
    destruct (aligned_gap c2 _ Hc2al Hfal (proj1 Hfe)). lia.
  - (* minutes are consumed *)
    destruct (freeSegment_facts bs sorted proper c2 (end_ w) Hlt Haw2 Hc2free)
      as (Hfe & Hfal & Hfefree).
    set (freeEnd := freeSegmentEnd c2 (end_ w) (nextBlock c2 (end_ w) bs)) in *.
    destruct (aligned_gap c2 freeEnd Hc2al Hfal (proj1 Hfe)) as [_ Hexact].
    set (used := Z.min (remaining st) (floorDiffMinutes freeEnd c2)) in *.
    assert (Hused : 0 < used <= remaining st /\ used <= floorDiffMinutes freeEnd c2)
      by (unfold used; lia).
    set (c4 := plusMinutes c2 used).
    assert (Hc4 : c2 < c4 <= freeEnd) by (unfold c4, plusMinutes, msPerMinute in *; nia).
    assert (Hc4al : aligned c4) by (now apply aligned_plusMinutes).
    assert (Hwork : forall t, c2 <= t < c4 -> working shifts bs t = true).
    { intros t Ht. apply working_true. split.
      - apply (window_inside (cursor st) shifts w hours Hw). lia.
      - apply Hfefree. lia. }
    pose proof (pushOutOfBlocked_ge c4 bs) as Hge4.
    assert (Hidle4 : forall t, c4 <= t < pushOutOfBlocked c4 bs ->
                               working shifts bs t = false).
    { intros t Ht. apply working_false. right. now apply (pushOut_blocked bs c4). }
    assert (Hworked : workedMs shifts bs c2 (pushOutOfBlocked c4 bs) = used * msPerMinute).
    { rewrite (workedMs_split shifts bs c2 c4) by lia.
      rewrite (workedMs_all shifts bs c2 c4) by (try lia; exact Hwork).
      rewrite (workedMs_none shifts bs c4) by exact Hidle4.
      unfold c4, plusMinutes. lia. }
    assert (Hfin : forall s, s <= c2 -> finishedAt shifts bs s
                     (mkLoopState (pushOutOfBlocked c4 bs) (remaining st - used) (Some s))).
    { intros s Hs. exists c4. cbn [cursor]. split; [lia|].
      split; [apply Hwork; lia|]. split; [exact Hidle4|].
      intros Hnostart. destruct (Z.eq_dec (pushOutOfBlocked c4 bs) c4) as [Heq|Hne];
        [exact Heq|].
      exfalso. destruct (pushOut_moved bs c4 Hne) as (b & Hb & Hin & _).
      destruct (Z.eq_dec (start b) c4) as [Heq|Hne']; [now apply (Hnostart b)|].
      assert (Hfree1 : inBlock bs (c4 - 1) = false) by (apply Hfefree; lia).
      rewrite inBlock_false in Hfree1. apply (Hfree1 b Hb). lia. }
    unfold allocInv. cbn [cursor remaining scheduledStart].
    split; [now apply pushOut_aligned|]. split; [lia|]. split; [lia|].
    destruct (scheduledStart st) as [s|].
    + destruct Hsched as (Hs1 & Hs2 & Hs3 & Hs4 & _).
      split; [lia|]. split; [exact Hs2|]. split; [exact Hs3|]. split.
      * rewrite (workedMs_split shifts bs s (cursor st)) by lia.
        rewrite (workedMs_split shifts bs (cursor st) c2) by lia.
        rewrite (workedMs_none shifts bs (cursor st) c2) by exact Hidle.
        rewrite Hs4, Hworked. lia.
      * intros _. apply Hfin. lia.
    + destruct Hsched as [Hd Hnone].
      split; [lia|]. split; [apply Hwork; lia|]. split.
      * intros t Ht. destruct (Z.lt_ge_cases t (cursor st)); [apply Hnone | apply Hidle]; lia.
      * split; [rewrite Hworked; lia | intros _; apply Hfin; lia].
Qed.

Lemma allocLoop_allocInv (fuel : nat) :
  forall st st',
    allocInv shifts bs startT d st ->
    allocLoop fuel shifts bs st = Ok st' ->
    allocInv shifts bs startT d st' /\ remaining st' = 0.
Proof.
  induction fuel as [|fuel IH]; intros st st' Hinv H; simpl in H.
  - destruct (remaining st >? 0) eqn:E; [discriminate|].
    injection H as <-. split; [exact Hinv|].
    rewrite Z.gtb_ltb in E. apply Z.ltb_ge in E. destruct Hinv as (_ & _ & ? & _). lia.
  - destruct (remaining st >? 0) eqn:E.
    + apply bind_Ok_inv in H. destruct H as (st1 & H1 & H2).
      apply (IH st1 st'); [|exact H2].
      apply (loopBody_allocInv st st1 Hinv); [|exact H1].
      rewrite Z.gtb_ltb in E. now apply Z.ltb_lt.
    + injection H as <-. split; [exact Hinv|].
      rewrite Z.gtb_ltb in E. apply Z.ltb_ge in E. destruct Hinv as (_ & _ & ? & _). lia.
Qed.

End AllocatorRound.

(** ** The contract of the allocator *)

Section Contract.

Import DateUtils.

(** What the allocator keeps of its contract when the blocked intervals and
    the shift windows are apart. Take a call that returns, for a positive duration,
    from a start on a whole minute, with shift hours between 0 and 23 whose
    windows on a day are apart, and with blocked intervals that are non-empty,
    on whole minutes and apart from each other. Then the start of the span is
    the first instant at or after [startISO] that is in a shift window and in
    no blocked interval; the working time in [start, end) is exactly the
    duration; and the work finishes at an instant [e'] that comes right after a
    working instant, with nothing worked from [e'] to the end of the span, the
    end being [e'] itself unless a blocked interval starts at [e']. *)
Theorem scheduleWithShiftsAndBlocks_contract (fuel : nat) (params : Params) (span : Span) :
  (forall s, In s (p_shifts params) -> hourShift s) ->
  apartShifts (p_shifts params) ->
  (forall b, In b (p_blocked params) -> properBlock b) ->
  apartBlocks (p_blocked params) ->
  aligned (fromISO (p_startISO params)) ->
  0 < p_durationMinutes params ->
  scheduleWithShiftsAndBlocks fuel params = Ok span ->
  let usable := working (p_shifts params) (p_blocked params) in
  let s := fromISO (startISO span) in
  let e := fromISO (endISO span) in
  fromISO (p_startISO params) <= s
  /\ usable s = true
  /\ (forall t, fromISO (p_startISO params) <= t < s -> usable t = false)
  /\ workedMs (p_shifts params) (p_blocked params) s e
     = p_durationMinutes params * msPerMinute
  /\ exists e',
       s < e' <= e
       /\ usable (e' - 1) = true
       /\ (forall t, e' <= t < e -> usable t = false)
       /\ ((forall b, In b (p_blocked params) -> start b <> e') -> e = e').
Proof.
  intros Hhours Hsa Hproper Hba Hal Hd H. cbv zeta.
  unfold scheduleWithShiftsAndBlocks in H.
  apply bind_Ok_inv in H. destruct H as (st & Hloop & H). injection H as <-.
  cbn [startISO endISO]. rewrite !fromISO_toISO.
  set (bs := sortIntervals (p_blocked params)) in *.
  set (startT := fromISO (p_startISO params)) in *.
  assert (Hsorted : StronglySorted byStart bs) by apply sortIntervals_sorted.
  assert (Hproper' : forall b, In b bs -> properBlock b).
  { intros b Hb. apply Hproper. now apply sortIntervals_In. }
  assert (Hba' : apartBlocks bs).
  { intros a b Ha Hb. apply Hba; now apply sortIntervals_In. }
  assert (Hinit : allocInv (p_shifts params) bs startT (p_durationMinutes params)
                    (mkLoopState (pushOutOfBlocked startT bs) (p_durationMinutes params) None)).
  { unfold allocInv. cbn [cursor remaining scheduledStart].
    split; [now apply pushOut_aligned|]. split; [apply pushOutOfBlocked_ge|].
    split; [lia|]. split; [reflexivity|].
    intros t Ht. apply working_false. right. now apply (pushOut_blocked bs startT). }
  destruct (allocLoop_allocInv (p_shifts params) bs startT (p_durationMinutes params)
              Hhours Hsa Hsorted Hproper' Hba' fuel _ st Hinit Hloop)
    as [(_ & _ & _ & Hsched) Hzero].
  destruct (scheduledStart st) as [s|]; [|lia].
  destruct Hsched as (Hs1 & Hs2 & Hs3 & Hs4 & Hfin).
  unfold bs in *. rewrite working_sortIntervals in Hs2.
  split; [lia|]. split; [exact Hs2|]. split.
  { intros t Ht. rewrite <- working_sortIntervals. now apply Hs3. }
  split.
  { rewrite <- workedMs_sortIntervals, Hs4, Hzero. lia. }
  destruct (Hfin Hzero) as (e' & He1 & He2 & He3 & He4).
  exists e'. split; [exact He1|]. rewrite working_sortIntervals in He2.
  split; [exact He2|]. split.
  { intros t Ht. rewrite <- working_sortIntervals. now apply He3. }
  intros Hno. apply He4. intros b Hb. apply Hno. now apply sortIntervals_In.
Qed.

Lemma aroundMaintenance_blocks (b : Interval) :
  In b (p_blocked Cases.aroundMaintenance)
  -> b = mkInterval (utc 2026 3 3 10 0) (utc 2026 3 3 13 0) (Some "Planned maintenance"%string).
Proof. intros [<-|[]]. reflexivity. Defined.

Lemma dayShift_hours (s : Shift) : In s Scenarios.dayShift -> hourShift s.
Proof.
  intros H. simpl in H. unfold hourShift.
  repeat destruct H as [<-|H]; simpl; try lia.
Defined.

Lemma dayShift_apart : apartShifts Scenarios.dayShift.
Proof.
  intros s1 s2 H1 H2. simpl in H1, H2.
  repeat destruct H1 as [<-|H1]; try contradiction;
    repeat destruct H2 as [<-|H2]; try contradiction; simpl; intros Hd;
    first [ discriminate Hd | left; split; reflexivity ].
Defined.

Lemma scheduleWithShiftsAndBlocks_contract_witness :
  exists span,
    scheduleWithShiftsAndBlocks 2 Cases.aroundMaintenance = Ok span
    /\ fromISO (startISO span) = utc 2026 3 3 9 30
    /\ fromISO (endISO span) = utc 2026 3 3 15 30
    /\ working Scenarios.dayShift (p_blocked Cases.aroundMaintenance) (utc 2026 3 3 9 30)
       = true
    /\ workedMs Scenarios.dayShift (p_blocked Cases.aroundMaintenance)
         (utc 2026 3 3 9 30) (utc 2026 3 3 15 30)
       = 180 * msPerMinute.
Proof.
  assert (Hrun : scheduleWithShiftsAndBlocks 2 Cases.aroundMaintenance
                 = Ok (mkSpan (toISO (utc 2026 3 3 9 30)) (toISO (utc 2026 3 3 15 30))))
    by (vm_compute; reflexivity).
  eexists. split; [exact Hrun|]. split; [reflexivity|]. split; [reflexivity|].
  assert (Hproper : forall b, In b (p_blocked Cases.aroundMaintenance) -> properBlock b).
  { intros b Hb. rewrite (aroundMaintenance_blocks b Hb).
    unfold properBlock, aligned. simpl. vm_compute. repeat split; reflexivity. }
  assert (Hapart : apartBlocks (p_blocked Cases.aroundMaintenance)).
  { intros a b Ha Hb.
    rewrite (aroundMaintenance_blocks a Ha), (aroundMaintenance_blocks b Hb).
    left. split; reflexivity. }
  destruct (scheduleWithShiftsAndBlocks_contract 2 Cases.aroundMaintenance _
              dayShift_hours dayShift_apart Hproper Hapart
              ltac:(vm_compute; reflexivity) ltac:(vm_compute; reflexivity) Hrun)
    as (_ & H2 & _ & H4 & _).
  split; [exact H2 | exact H4].
Defined.

(** A zero duration returns [startISO] itself as the start, in a shift or
    not: the loop that looks for a shift is not entered. *)
Lemma zeroBeforeShift_start_outside_shift :
  exists span,
    scheduleWithShiftsAndBlocks 0 Cases.zeroBeforeShift = Ok span
    /\ fromISO (startISO span) = utc 2026 3 2 7 0
    /\ working (p_shifts Cases.zeroBeforeShift) (p_blocked Cases.zeroBeforeShift)
         (fromISO (startISO span)) = false.
Proof.
  eexists. split; [vm_compute; reflexivity|]. split; vm_compute; reflexivity.
Qed.

Lemma oneBlock_contractInput (params : Params) (b0 : Interval) :
  0 < p_durationMinutes params ->
  aligned (fromISO (p_startISO params)) ->
  p_blocked params = [b0] ->
  properBlock b0 ->
  contractInput params.
Proof.
  intros Hd Ha Hb Hp. unfold contractInput. rewrite Hb.
  split; [exact Hd|]. split; [exact Ha|]. split.
  - now intros b [<-|[]].
  - intros a b [<-|[]] [<-|[]]. now left.
Qed.

(** C2. The allocator breaks its contract on calls the contract speaks of:
    a positive number of minutes, inputs on whole minutes, blocked intervals
    that do not overlap. An hour of work from 09:00 that ends where a block
    starts (10:00 to 13:00) is given the end of that block as its end: the
    minute before 10:00 is worked, and the last minute before the returned
    end, 13:00, is blocked. Along three blocks in a row (08:00 to 11:00) the cursor is pushed
    out of two of them only, and the start returned lies inside the third.
    And when the cursor is pushed to the very end of a window that the next
    shift continues (12:00), the search resumes a minute later, so that the
    start returned, 12:01, is not the first usable instant. *)
Theorem scheduleWithShiftsAndBlocks_contract_broken :
  (contractInput Cases.hourBeforeBlock
   /\ exists span,
        scheduleWithShiftsAndBlocks 1 Cases.hourBeforeBlock = Ok span
        /\ fromISO (startISO span) = utc 2026 3 3 9 0
        /\ fromISO (endISO span) = utc 2026 3 3 13 0
        /\ working (p_shifts Cases.hourBeforeBlock) (p_blocked Cases.hourBeforeBlock)
             (fromISO (endISO span) - msPerMinute) = false
        /\ working (p_shifts Cases.hourBeforeBlock) (p_blocked Cases.hourBeforeBlock)
             (utc 2026 3 3 10 0 - msPerMinute) = true)
  /\ (contractInput Cases.alongThreeBlocks
      /\ exists span,
           scheduleWithShiftsAndBlocks 1 Cases.alongThreeBlocks = Ok span
           /\ fromISO (startISO span) = utc 2026 3 2 10 0
           /\ fromISO (endISO span) = utc 2026 3 2 11 0
           /\ inBlock (p_blocked Cases.alongThreeBlocks) (fromISO (startISO span)) = true
           /\ working (p_shifts Cases.alongThreeBlocks) (p_blocked Cases.alongThreeBlocks)
                (fromISO (startISO span)) = false)
  /\ (contractInput Cases.morningBlocked
      /\ exists span,
           scheduleWithShiftsAndBlocks 2 Cases.morningBlocked = Ok span
           /\ fromISO (startISO span) = utc 2026 3 2 12 1
           /\ fromISO (p_startISO Cases.morningBlocked) <= utc 2026 3 2 12 0
              < fromISO (startISO span)
           /\ working (p_shifts Cases.morningBlocked) (p_blocked Cases.morningBlocked)
                (utc 2026 3 2 12 0) = true).
Proof.
  split; [|split].
  - split.
    + apply (oneBlock_contractInput _
               (mkInterval (utc 2026 3 3 10 0) (utc 2026 3 3 13 0)
                  (Some "Planned maintenance"%string)));
        [reflexivity | reflexivity | reflexivity |].
      unfold properBlock, aligned. repeat split.
    + eexists. split; [vm_compute; reflexivity|].
      split; [vm_compute; reflexivity|]. split; [vm_compute; reflexivity|].
      split; vm_compute; reflexivity.
  - split.
    + split; [reflexivity|]. split; [reflexivity|]. split.
      * intros b Hb. simpl in Hb. unfold properBlock, aligned.
        repeat destruct Hb as [<-|Hb]; try contradiction; repeat split.
      * intros a b Ha Hb. simpl in Ha, Hb.
        repeat destruct Ha as [<-|Ha]; try contradiction;
          repeat destruct Hb as [<-|Hb]; try contradiction;
          first [ left; reflexivity | right; vm_compute; reflexivity ].
    + eexists. split; [vm_compute; reflexivity|].
      split; [vm_compute; reflexivity|]. split; [vm_compute; reflexivity|].
      split; vm_compute; reflexivity.
  - split.
    + apply (oneBlock_contractInput _
               (mkInterval (utc 2026 3 2 7 0) (utc 2026 3 2 12 0) None));
        [reflexivity | reflexivity | reflexivity |].
      unfold properBlock, aligned. repeat split.
    + eexists. split; [vm_compute; reflexivity|].
      split; [vm_compute; reflexivity|].
      split; [vm_compute; split; [discriminate | reflexivity]|].
      vm_compute; reflexivity.
Qed.

End Contract.

(** ** The two revisions of the allocator *)

Section Revisions.

Import DateUtils.

Lemma findNextShiftWindow_same cursor shifts :
  DateUtilsV1.findNextShiftWindow cursor shifts = findNextShiftWindow cursor shifts.
Proof.
  unfold DateUtilsV1.findNextShiftWindow, findNextShiftWindow.
  destruct shifts as [|s ss]; [reflexivity|].
  generalize (s :: ss) as l, 0, 14%nat. intros l d n. revert d.
  induction n as [|n IH]; intros d; simpl; [reflexivity|].
  change (DateUtilsV1.dayShifts cursor l d) with (dayWindows cursor l d).
  destruct (dayWindows cursor l d); [apply IH|].
  destruct (d =? 0); [|reflexivity].
  change DateUtilsV1.firstEndingAfter with firstEndingAfter.
  destruct (firstEndingAfter cursor (i :: l0)); [reflexivity | apply IH].
Qed.




End Revisions.

(** ** The topological order *)

Section Kahn.

Import Dag.

Lemma degreeOf_set_same inDegree id n : degreeOf (JsMap.set inDegree id n) id = n.
Proof. unfold degreeOf. now rewrite get_set_same. Qed.

Lemma degreeOf_set_other inDegree id id' n :
  id <> id' -> degreeOf (JsMap.set inDegree id n) id' = degreeOf inDegree id'.
Proof. intros H. unfold degreeOf. now rewrite get_set_other. Qed.

(** Ids already emitted or queued have no pending parent, so a child whose
    count drops to zero is new to both lists. *)
Lemma relax_inv (children : list string) :
  forall inDegree queue acc inDegree' queue',
    relax children inDegree queue = (inDegree', queue') ->
    NoDup (acc ++ queue) ->
    (forall x, In x (acc ++ queue) -> degreeOf inDegree x <= 0) ->
    NoDup (acc ++ queue')
    /\ (forall x, In x (acc ++ queue') -> degreeOf inDegree' x <= 0)
    /\ (forall x, In x queue' -> In x queue \/ In x children).
Proof.
  induction children as [|child rest IH]; intros inDegree queue acc inDegree' queue' H Hnd Hdeg;
    simpl in H.
  - injection H as <- <-. auto.
  - fold (degreeOf inDegree child) in H. rewrite get_set_same in H.
    set (inDegree1 := JsMap.set inDegree child (degreeOf inDegree child - 1)) in *.
    assert (Hother : forall x, x <> child -> degreeOf inDegree1 x = degreeOf inDegree x).
    { intros x Hx. apply degreeOf_set_other. congruence. }
    assert (Hsame : degreeOf inDegree1 child = degreeOf inDegree child - 1)
      by apply degreeOf_set_same.
    destruct (Z.eq_dec (degreeOf inDegree child - 1) 0) as [Hz|Hnz].
    + rewrite Hz in H.
      assert (Hfresh : ~ In child (acc ++ queue)).
      { intros Hin. specialize (Hdeg child Hin). lia. }
      destruct (IH inDegree1 (queue ++ [child]) acc inDegree' queue' H) as (H1 & H2 & H3).
      * rewrite app_assoc. apply NoDup_app; [exact Hnd | repeat constructor; intros [] |].
        intros x Hx [<-|[]]. contradiction.
      * intros x Hx. rewrite app_assoc, in_app_iff in Hx.
        destruct Hx as [Hx|[<-|[]]]; [|lia].
        rewrite Hother; [now apply Hdeg | intros ->; contradiction].
      * split; [exact H1|]. split; [exact H2|].
        intros x Hx. destruct (H3 x Hx) as [Hq|Hr]; [|right; now right].
        apply in_app_iff in Hq. destruct Hq as [Hq|[<-|[]]]; [now left | right; now left].
    + assert (H' : relax rest inDegree1 queue = (inDegree', queue')).
      { destruct (degreeOf inDegree child - 1); [congruence | exact H | exact H]. }
      destruct (IH inDegree1 queue acc inDegree' queue' H' Hnd) as (H1 & H2 & H3).
      * intros x Hx. destruct (string_dec x child) as [->|Hne].
        -- specialize (Hdeg child Hx). lia.
        -- rewrite Hother by exact Hne. now apply Hdeg.
      * split; [exact H1|]. split; [exact H2|].
        intros x Hx. destruct (H3 x Hx); [now left | right; now right].
Qed.

Lemma drain_inv (nodes : list string) (adj : JsMap.t (list string)) (fuel : nat) :
  (forall id cs, JsMap.get adj id = Some cs -> incl cs nodes) ->
  forall inDegree queue acc res,
    drain fuel adj inDegree queue acc = Ok res ->
    NoDup (acc ++ queue) ->
    (forall x, In x (acc ++ queue) -> degreeOf inDegree x <= 0) ->
    incl (acc ++ queue) nodes ->
    NoDup res /\ incl res nodes.
Proof.
  intros Hadj. induction fuel as [|fuel IH]; intros inDegree queue acc res H Hnd Hdeg Hincl.
  - destruct queue; simpl in H; [|discriminate].
    injection H as <-. rewrite app_nil_r in *. auto.
  - destruct queue as [|id queue]; simpl in H.
    + injection H as <-. rewrite app_nil_r in *. auto.
    + destruct (JsMap.get adj id) as [children|] eqn:Ec; [|discriminate].
      destruct (relax children inDegree queue) as [inDegree' queue''] eqn:Er.
      assert (Hassoc : acc ++ id :: queue = (acc ++ [id]) ++ queue)
        by (rewrite <- app_assoc; reflexivity).
      rewrite Hassoc in *.
      destruct (relax_inv children inDegree queue (acc ++ [id]) inDegree' queue'' Er Hnd Hdeg)
        as (H1 & H2 & H3).
      apply (IH inDegree' queue'' (acc ++ [id]) res H H1 H2).
      intros x Hx. apply in_app_iff in Hx. destruct Hx as [Hx|Hx].
      * apply Hincl, in_app_iff. now left.
      * destruct (H3 x Hx) as [Hq|Hc].
        -- apply Hincl, in_app_iff. now right.
        -- apply (Hadj id children Ec x Hc).
Qed.

Lemma addParents_ok nodes nodeSet child parents :
  In child nodes ->
  forall g g', addParents nodeSet child parents g = Ok g' ->
               graphOk nodes g -> graphOk nodes g'.
Proof.
  intros Hchild. induction parents as [|p rest IH]; intros g g' H Hg; simpl in H.
  - congruence.
  - destruct (negb (JsMap.has nodeSet p)); [discriminate|].
    destruct (JsMap.get (snd g) p) as [children|] eqn:Ec; [|discriminate].
    cbv zeta in H. apply (IH _ _ H). destruct Hg as (Hg1 & Hg2 & Hg3).
    split; [|split]; simpl.
    + now apply NoDup_keys_set.
    + intros x Hx. apply In_keys_set in Hx. destruct Hx as [->|Hx]; auto.
    + intros id cs Hget. destruct (string_dec p id) as [->|Hne].
      * rewrite get_set_same in Hget. injection Hget as <-.
        intros x Hx. apply in_app_iff in Hx. destruct Hx as [Hx|[<-|[]]]; [|exact Hchild].
        apply (Hg3 id children Ec x Hx).
      * rewrite get_set_other in Hget by exact Hne. now apply (Hg3 id).
Qed.

Lemma addEdges_ok nodes nodeSet workOrders :
  incl (map docId workOrders) nodes ->
  forall g g', addEdges nodeSet workOrders g = Ok g' ->
               graphOk nodes g -> graphOk nodes g'.
Proof.
  induction workOrders as [|wo rest IH]; intros Hincl g g' H Hg; simpl in H.
  - congruence.
  - apply bind_Ok_inv in H. destruct H as (g1 & H1 & H2).
    apply (IH (fun x Hx => Hincl x (or_intror Hx)) g1 g' H2).
    apply (addParents_ok nodes nodeSet (docId wo) (dependsOnWorkOrderIds wo)
             (Hincl _ (or_introl eq_refl)) g g1 H1 Hg).
Qed.

Lemma initGraph_ok (nodeSet : JsMap.t unit) : graphOk (JsMap.keys nodeSet) (initGraph nodeSet).
Proof.
  unfold initGraph.
  assert (H : forall ids g,
             incl ids (JsMap.keys nodeSet) ->
             graphOk (JsMap.keys nodeSet) g ->
             graphOk (JsMap.keys nodeSet)
               (fold_left
                  (fun (g : Graph) id => (JsMap.set (fst g) id 0, JsMap.set (snd g) id []))
                  ids g)).
  { induction ids as [|id ids IH]; intros g Hincl Hg; simpl; [exact Hg|].
    apply IH; [intros x Hx; apply Hincl; now right|].
    destruct Hg as (Hg1 & Hg2 & Hg3). split; [|split]; simpl.
    - now apply NoDup_keys_set.
    - intros x Hx. apply In_keys_set in Hx.
      destruct Hx as [->|Hx]; [apply Hincl; now left | auto].
    - intros id' cs Hget. destruct (string_dec id id') as [->|Hne].
      + rewrite get_set_same in Hget. injection Hget as <-. intros x [].
      + rewrite get_set_other in Hget by exact Hne. now apply (Hg3 id'). }
  apply H; [apply incl_refl|].
  split; [constructor | split; [intros x [] | intros id cs; discriminate]].
Qed.

Lemma initialQueue_ok (inDegree : JsMap.t Z) :
  NoDup (JsMap.keys inDegree) ->
  NoDup (initialQueue inDegree)
  /\ incl (initialQueue inDegree) (JsMap.keys inDegree)
  /\ forall x, In x (initialQueue inDegree) -> degreeOf inDegree x <= 0.
Proof.
  intros Hnd. unfold initialQueue. split; [|split].
  - clear -Hnd. induction inDegree as [|[k n] m IH]; simpl in *; [constructor|].
    inversion Hnd as [|? ? Hnotin Hnd']; subst.
    destruct (n =? 0); simpl; [|now apply IH].
    constructor; [|now apply IH].
    intros Hin. apply Hnotin. apply in_map_iff in Hin.
    destruct Hin as ([k' n'] & <- & Hf). apply filter_In in Hf.
    change (fst (k', n')) with (fst (k', n')). apply in_map, Hf.
  - intros x Hx. apply in_map_iff in Hx. destruct Hx as (e & <- & He).
    apply filter_In in He. apply in_map, He.
  - intros x Hx. apply in_map_iff in Hx. destruct Hx as ([k n] & <- & He).
    apply filter_In in He. destruct He as [He Hz]. simpl in *. apply Z.eqb_eq in Hz.
    unfold degreeOf. rewrite (In_get inDegree k n Hnd He). lia.
Qed.

(** The ids returned by the sort do not repeat, are ids of the work orders, and
    are as many as the work orders. *)
Lemma topoSortWorkOrders_ok (fuel : nat) (workOrders : list WorkOrder) (ids : list string) :
  topoSortWorkOrders fuel workOrders = Ok ids ->
  NoDup ids /\ incl ids (map docId workOrders)
  /\ List.length ids = List.length workOrders.
Proof.
  unfold topoSortWorkOrders. intros H.
  apply bind_Ok_inv in H. destruct H as (g & Hg & H).
  apply bind_Ok_inv in H. destruct H as (res & Hres & H).
  destruct (Nat.eqb (List.length res) (List.length workOrders)) eqn:El; [|discriminate].
  injection H as <-. apply Nat.eqb_eq in El.
  set (nodeSet := nodesOf workOrders) in *.
  assert (Hnodes : forall x, In x (JsMap.keys nodeSet) <-> In x (map docId workOrders)).
  { intros x. unfold nodeSet, nodesOf. rewrite keys_ofEntries, map_map. simpl. tauto. }
  assert (Hok : graphOk (JsMap.keys nodeSet) g).
  { apply (addEdges_ok (JsMap.keys nodeSet) nodeSet workOrders
             (fun x Hx => proj2 (Hnodes x) Hx) (initGraph nodeSet) g Hg).
    apply initGraph_ok. }
  destruct Hok as (Hk1 & Hk2 & Hk3).
  destruct (initialQueue_ok (fst g) Hk1) as (Hq1 & Hq2 & Hq3).
  destruct (drain_inv (JsMap.keys nodeSet) (snd g) fuel Hk3 (fst g) (initialQueue (fst g))
              [] res Hres) as [Hnd Hincl]; simpl; auto.
  - intros x Hx. apply Hk2, Hq2, Hx.
  - split; [exact Hnd|]. split; [|exact El].
    intros x Hx. apply Hnodes, Hincl, Hx.
Qed.

Lemma topoSortWorkOrders_perm (fuel : nat) (workOrders : list WorkOrder) (ids : list string) :
  NoDup (map docId workOrders) ->
  topoSortWorkOrders fuel workOrders = Ok ids ->
  Permutation ids (map docId workOrders).
Proof.
  intros Hnd H. destruct (topoSortWorkOrders_ok fuel workOrders ids H) as (H1 & H2 & H3).
  apply NoDup_Permutation_bis; auto. rewrite length_map. lia.
Qed.

End Kahn.

(** ** One placement *)

Section Placement.

Import Reflow.

Lemma latestParentEnd_inv (st : State) (parents : list string) :
  forall latest e,
    latestParentEnd st parents latest = Ok e ->
    latest <= e
    /\ forall p, In p parents ->
         exists wp, scheduledGet st p = Some wp /\ fromISO (endDate wp) <= e.
Proof.
  induction parents as [|p rest IH]; intros latest e H; simpl in H.
  - injection H as <-. split; [lia | intros p []].
  - destruct (scheduledGet st p) as [wp|] eqn:Ep; [|discriminate].
    apply IH in H. destruct H as [Hle Hall].
    assert (Hmax : latest <= e /\ fromISO (endDate wp) <= e).
    { destruct (fromISO (endDate wp) >? latest) eqn:E.
      - rewrite Z.gtb_ltb in E. apply Z.ltb_lt in E. lia.
      - rewrite Z.gtb_ltb in E. apply Z.ltb_ge in E. lia. }
    split; [tauto|]. intros q [<-|Hq]; [exists wp; tauto | now apply Hall].
Qed.

(** What [placeOrder] does to the state. *)
Lemma placeOrder_inv (fuel : nat) (wcMap : JsMap.t WorkCenter) (st st' : State) (id : string) :
  placeOrder fuel wcMap st id = Ok st' ->
  exists wo wc,
    JsMap.get (woMap st) id = Some wo
    /\ JsMap.get wcMap (workCenterId wo) = Some wc
    /\ ((isMaintenance wo = true
         /\ st' = mkState (woMap st) (centerBooked st) (changesAcc st)
                    (JsMap.set (scheduled st) id tt))
        \/ (isMaintenance wo = false
            /\ exists earliest span,
                 fromISO (startDate wo) <= earliest
                 /\ (forall p, In p (dependsOnWorkOrderIds wo) ->
                       exists wp, scheduledGet st p = Some wp
                                  /\ fromISO (endDate wp) <= earliest)
                 /\ DateUtils.scheduleWithShiftsAndBlocks fuel
                      (DateUtils.mkParams (toISO earliest)
                         (durationMinutes wo
                          + match setupTimeMinutes wo with Some n => n | None => 0 end)
                         (shifts wc)
                         (sortIntervals
                            (match JsMap.get (centerBooked st) (wc_docId wc) with
                             | Some l => l
                             | None => []
                             end)))
                    = Ok span
                 /\ st' = mkState
                            (JsMap.set (woMap st) id
                               (setDates wo (DateUtils.startISO span) (DateUtils.endISO span)))
                            (JsMap.set (centerBooked st) (wc_docId wc)
                               (sortIntervals
                                  ((match JsMap.get (centerBooked st) (wc_docId wc) with
                                    | Some l => l
                                    | None => []
                                    end)
                                   ++ [buildOrderInterval
                                         (setDates wo (DateUtils.startISO span)
                                            (DateUtils.endISO span))])))
                            (changesAcc st
                             ++ changeFor wo
                                  (setDates wo (DateUtils.startISO span)
                                     (DateUtils.endISO span)))
                            (JsMap.set (scheduled st) id tt))).
Proof.
  unfold placeOrder. intros H.
  destruct (JsMap.get (woMap st) id) as [wo|] eqn:Ewo; [|discriminate].
  destruct (JsMap.get wcMap (workCenterId wo)) as [wc|] eqn:Ewc; [|discriminate].
  exists wo, wc. split; [reflexivity|]. split; [exact Ewc|].
  destruct (isMaintenance wo) eqn:Em.
  - left. split; [reflexivity | congruence].
  - right. split; [reflexivity|].
    apply bind_Ok_inv in H. destruct H as (earliest & He & H).
    apply bind_Ok_inv in H. destruct H as (span & Hspan & H).
    exists earliest, span.
    assert (Hearliest : fromISO (startDate wo) <= earliest
                        /\ forall p, In p (dependsOnWorkOrderIds wo) ->
                             exists wp, scheduledGet st p = Some wp
                                        /\ fromISO (endDate wp) <= earliest).
    { destruct (dependsOnWorkOrderIds wo) as [|p ps] eqn:Ed.
      - injection He as <-. split; [lia | intros p []].
      - now apply latestParentEnd_inv in He. }
    destruct Hearliest as [H1 H2].
    split; [exact H1|]. split; [exact H2|]. split; [exact Hspan|].
    injection H as <-. f_equal.
    unfold changeFor. cbn [startDate endDate setDates docId workOrderNumber].
    destruct (negb (iso_eqb (startDate wo) (DateUtils.startISO span))
              || negb (iso_eqb (endDate wo) (DateUtils.endISO span)));
      [reflexivity | now rewrite app_nil_r].
Qed.

End Placement.

Section PlacementInvariant.

Import Reflow.

Variable fuel : nat.
Variable wcMap : JsMap.t WorkCenter.
Variable m0 : JsMap.t WorkOrder.
Variable b0 : JsMap.t (list Interval).

Lemma has_set_unit (sched : JsMap.t unit) (id id' : string) :
  JsMap.has (JsMap.set sched id tt) id' = true <-> id' = id \/ JsMap.has sched id' = true.
Proof. rewrite !has_true. apply In_keys_set. Qed.

Lemma changesOf_app m done id :
  changesOf m0 m (done ++ [id])
  = changesOf m0 m done
    ++ match JsMap.get m0 id, JsMap.get m id with
       | Some o, Some n => changeFor o n
       | _, _ => []
       end.
Proof.
  unfold changesOf. rewrite flat_map_app. simpl. now rewrite app_nil_r.
Qed.

Lemma changesOf_ext m m' done :
  (forall id, In id done -> JsMap.get m' id = JsMap.get m id) ->
  changesOf m0 m' done = changesOf m0 m done.
Proof.
  intros H. unfold changesOf. induction done as [|id done IH]; simpl; [reflexivity|].
  rewrite (H id) by (now left). f_equal. apply IH.
  intros x Hx. apply H. now right.
Qed.

Lemma iso_eqb_refl (a : ISODateString) : iso_eqb a a = true.
Proof. unfold iso_eqb. now rewrite Z.eqb_refl, Nat.eqb_refl. Qed.

Lemma iso_eqb_eq (a b : ISODateString) : iso_eqb a b = true <-> a = b.
Proof.
  unfold iso_eqb. destruct a as [ta sa], b as [tb sb]. simpl.
  rewrite andb_true_iff, Z.eqb_eq, Nat.eqb_eq. split; [intros [-> ->] | intros [= -> ->]]; auto.
Qed.

Lemma changeFor_same (o : WorkOrder) : changeFor o o = [].
Proof. unfold changeFor. now rewrite !iso_eqb_refl. Qed.

Lemma placeOrder_placedInv (done : list string) (st st' : State) (id : string) :
  placedInv m0 b0 done st ->
  ~ In id done ->
  placeOrder fuel wcMap st id = Ok st' ->
  placedInv m0 b0 (done ++ [id]) st'.
Proof.
  intros (I1 & I2 & I3 & I4 & I5 & I6 & I8) Hfresh H.
  destruct (placeOrder_inv fuel wcMap st st' id H) as (wo & wc & Hwo & Hwc & Hcases).
  assert (Hm0 : JsMap.get m0 id = Some wo) by (rewrite <- I2; auto).
  assert (Hne : forall x, In x done -> id <> x) by (intros x Hx ->; contradiction).
  destruct Hcases as [[Hm ->]|(Hm & earliest & span & He1 & He2 & Hspan & ->)];
    unfold placedInv; cbn [woMap centerBooked changesAcc scheduled].
  - (* a maintenance order is recorded as it is *)
    split; [|split; [|split; [|split; [|split; [|split]]]]].
    + exact I1.
    + intros x Hx. apply I2. intros Hin. apply Hx, in_app_iff. now left.
    + exact I3.
    + intros x. rewrite has_set_unit, in_app_iff, I4. simpl. intuition.
    + intros x Hx. apply in_app_iff in Hx.
      destruct Hx as [Hx|[<-|[]]]; [now apply I5 | now exists wo].
    + rewrite changesOf_app, Hm0, Hwo, changeFor_same, app_nil_r.
      exact I6.
    + exact I8.
  - (* a production order gets its new dates *)
    set (wo' := setDates wo (DateUtils.startISO span) (DateUtils.endISO span)) in *.
    split; [|split; [|split; [|split; [|split; [|split]]]]].
    + intros x w Hx. destruct (string_dec id x) as [<-|Hx'].
      * rewrite get_set_same in Hx. injection Hx as <-. exists wo. split; [exact Hm0|].
        reflexivity.
      * rewrite get_set_other in Hx by exact Hx'. now apply I1.
    + intros x Hx. rewrite get_set_other.
      * apply I2. intros Hin. apply Hx, in_app_iff. now left.
      * intros ->. apply Hx, in_app_iff. right. now left.
    + intros x w0 Hx Hmx. destruct (string_dec id x) as [<-|Hx'].
      * congruence.
      * rewrite get_set_other by exact Hx'. now apply I3.
    + intros x. rewrite has_set_unit, in_app_iff, I4. simpl. intuition.
    + intros x Hx. apply in_app_iff in Hx. destruct Hx as [Hx|[<-|[]]].
      * rewrite get_set_other by (now apply Hne). now apply I5.
      * rewrite get_set_same. now exists wo'.
    + rewrite changesOf_app, Hm0, get_set_same.
      rewrite (changesOf_ext (woMap st)); [now rewrite I6|].
      intros x Hx. apply get_set_other. now apply Hne.
    + intros k l0 Hk. destruct (I8 k l0 Hk) as (l & Hl & Hincl).
      destruct (string_dec (wc_docId wc) k) as [<-|Hk'].
      * rewrite get_set_same. eexists. split; [reflexivity|].
        rewrite Hl. intros x Hx. apply sortIntervals_In, in_app_iff. left. now apply Hincl.
      * rewrite get_set_other by exact Hk'. now exists l.
Qed.

Lemma placeAll_placedInv (ids : list string) :
  forall (done : list string) (st st' : State),
    placedInv m0 b0 done st ->
    NoDup (done ++ ids) ->
    placeAll fuel wcMap st ids = Ok st' ->
    placedInv m0 b0 (done ++ ids) st'.
Proof.
  induction ids as [|id ids IH]; intros done st st' Hinv Hnd H; simpl in H.
  - injection H as <-. now rewrite app_nil_r.
  - apply bind_Ok_inv in H. destruct H as (st1 & H1 & H2).
    assert (Hassoc : done ++ id :: ids = (done ++ [id]) ++ ids)
      by (rewrite <- app_assoc; reflexivity).
    rewrite Hassoc in *. apply (IH (done ++ [id]) st1 st'); auto.
    apply (placeOrder_placedInv done st st1 id Hinv); [|exact H1].
    apply NoDup_app_remove_r in Hnd. apply NoDup_remove_2 in Hnd.
    now rewrite app_nil_r in Hnd.
Qed.

Hypothesis shifts_ok :
  forall k wc, JsMap.get wcMap k = Some wc -> forall s, In s (shifts wc) -> 0 <= endHour s.

Lemma placeOrder_parentsInv (done : list string) (st st' : State) (id : string) :
  placedInv m0 b0 done st ->
  parentsInv done st ->
  ~ In id done ->
  placeOrder fuel wcMap st id = Ok st' ->
  parentsInv (done ++ [id]) st'.
Proof.
  intros (I1 & I2 & I3 & I4 & I5 & I6 & I8) I7 Hfresh H.
  destruct (placeOrder_inv fuel wcMap st st' id H) as (wo & wc & Hwo & Hwc & Hcases).
  assert (Hne : forall x, In x done -> id <> x) by (intros x Hx ->; contradiction).
  destruct Hcases as [[Hm ->]|(Hm & earliest & span & He1 & He2 & Hspan & ->)];
    unfold parentsInv; cbn [woMap centerBooked changesAcc scheduled].
  - intros c wc0 Hc Hget Hmc p Hp. apply in_app_iff in Hc.
    destruct Hc as [Hc|[<-|[]]]; [|congruence].
    destruct (I7 c wc0 Hc Hget Hmc p Hp) as [Hin Hwp].
    split; [apply in_app_iff; now left | exact Hwp].
  - set (wo' := setDates wo (DateUtils.startISO span) (DateUtils.endISO span)) in *.
    assert (Hstart : earliest <= fromISO (startDate wo')).
    { apply scheduleWithShiftsAndBlocks_start_ge in Hspan; [exact Hspan|].
      exact (shifts_ok _ wc Hwc). }
    assert (Hparent : forall p, In p (dependsOnWorkOrderIds wo) ->
              In p done /\ exists wp, JsMap.get (woMap st) p = Some wp
                                      /\ fromISO (endDate wp) <= fromISO (startDate wo')).
    { intros p Hp. destruct (He2 p Hp) as (wp & Hget & Hle).
      unfold scheduledGet in Hget.
      destruct (JsMap.has (scheduled st) p) eqn:Ehas; [|discriminate].
      split; [now apply I4|]. exists wp. split; [exact Hget | lia]. }
    intros c wc0 Hc Hget Hmc p Hp. apply in_app_iff in Hc.
    destruct Hc as [Hc|[<-|[]]].
    + rewrite get_set_other in Hget by (now apply Hne).
      destruct (I7 c wc0 Hc Hget Hmc p Hp) as [Hin (wp & Hwp & Hle)].
      split; [apply in_app_iff; now left|].
      exists wp. split; [|exact Hle]. rewrite get_set_other; [exact Hwp | now apply Hne].
    + rewrite get_set_same in Hget. injection Hget as <-.
      destruct (Hparent p Hp) as [Hin (wp & Hwp & Hle)].
      split; [apply in_app_iff; now left|].
      exists wp. split; [|exact Hle]. rewrite get_set_other; [exact Hwp | now apply Hne].
Qed.

Lemma placeAll_parentsInv (ids : list string) :
  forall (done : list string) (st st' : State),
    placedInv m0 b0 done st ->
    parentsInv done st ->
    NoDup (done ++ ids) ->
    placeAll fuel wcMap st ids = Ok st' ->
    parentsInv (done ++ ids) st'.
Proof.
  induction ids as [|id ids IH]; intros done st st' Hinv Hpar Hnd H; simpl in H.
  - injection H as <-. now rewrite app_nil_r.
  - apply bind_Ok_inv in H. destruct H as (st1 & H1 & H2).
    assert (Hassoc : done ++ id :: ids = (done ++ [id]) ++ ids)
      by (rewrite <- app_assoc; reflexivity).
    assert (Hfresh : ~ In id done).
    { rewrite Hassoc in Hnd. apply NoDup_app_remove_r in Hnd.
      apply NoDup_remove_2 in Hnd. now rewrite app_nil_r in Hnd. }
    rewrite Hassoc in *. apply (IH (done ++ [id]) st1 st'); auto.
    + now apply (placeOrder_placedInv done st st1 id).
    + now apply (placeOrder_parentsInv done st st1 id).
Qed.

End PlacementInvariant.

(** ** Runs of the engine on concrete inputs *)

Section Runs.

Import Reflow Scenarios Cases.

Lemma reflow_more_fuel (f n : nat) input r :
  reflow f input = Ok r -> reflow (f + n) input = Ok r.
Proof.
  intros H. rewrite (reflow_fuel f (f + n) input); [exact H | lia | congruence].
Qed.

(** C6, as the code has it. On the delay-cascade scenario the 360 minutes of A
    run from 08:00 to 14:00 on 2026-03-02, B follows from 14:00 to 16:00, and C
    starts at 16:00 and, after the hour left of that shift, ends at 09:00 on
    2026-03-03. *)
Theorem scenario1_delayCascade_schedule (n : nat) :
  exists r,
    reflow (3 + n) scenario1_delayCascade = Ok r
    /\ spans r
       = [ ("A"%string, utc 2026 3 2 8 0, utc 2026 3 2 14 0);
           ("B"%string, utc 2026 3 2 14 0, utc 2026 3 2 16 0);
           ("C"%string, utc 2026 3 2 16 0, utc 2026 3 3 9 0) ].
Proof.
  eexists. split.
  - apply reflow_more_fuel. vm_compute. reflexivity.
  - vm_compute. reflexivity.
Qed.

(** C6, as stated, fails: A does not end at 16:00, nor does B start there or
    C start at 09:00 the next day. *)
Lemma scenario1_delayCascade_counterexample :
  exists r a b c,
    reflow 3 scenario1_delayCascade = Ok r
    /\ updatedWorkOrders r = [a; b; c]
    /\ docId a = "A"%string /\ docId b = "B"%string /\ docId c = "C"%string
    /\ fromISO (endDate a) <> utc 2026 3 2 16 0
    /\ fromISO (startDate b) <> utc 2026 3 2 16 0
    /\ fromISO (startDate c) <> utc 2026 3 3 9 0
    /\ fromISO (endDate c) <> utc 2026 3 3 11 0.
Proof.
  do 4 eexists. split; [vm_compute; reflexivity|].
  split; [reflexivity|].
  repeat split; vm_compute; congruence.
Qed.

(** The second and third sample scenarios come out as described. *)
Lemma scenario2_shiftSpanning_schedule :
  exists r,
    reflow 2 scenario2_shiftSpanning = Ok r
    /\ spans r = [ ("S1"%string, utc 2026 3 2 16 0, utc 2026 3 3 9 0) ].
Proof. eexists. split; vm_compute; reflexivity. Qed.

Lemma scenario3_maintenanceConflict_schedule :
  exists r,
    reflow 2 scenario3_maintenanceConflict = Ok r
    /\ spans r = [ ("M1"%string, utc 2026 3 3 8 30, utc 2026 3 3 9 30);
                   ("P1"%string, utc 2026 3 3 9 30, utc 2026 3 3 15 30) ]
    /\ validateNoWorkCenterOverlaps (updatedWorkOrders r) = Ok tt
    /\ validateMaintenanceRespected (updatedWorkOrders r)
         (workCenters scenario3_maintenanceConflict) = Ok tt.
Proof.
  eexists. split; [vm_compute; reflexivity|].
  split; [vm_compute; reflexivity|].
  split; vm_compute; reflexivity.
Qed.

(** C1 on the code. Four independent one-hour orders that ask for the same
    Monday 08:00 on one center come out as 08:00-09:00, 09:00-10:00,
    10:00-11:00 and 10:00-11:00: the third and the fourth overlap, and the
    engine's own overlap validator rejects the result. *)
Theorem sameStartFour_double_booked :
  exists r x3 x4,
    reflow 4 sameStartFour = Ok r
    /\ spans r
       = [ ("X1"%string, utc 2026 3 2 8 0, utc 2026 3 2 9 0);
           ("X2"%string, utc 2026 3 2 9 0, utc 2026 3 2 10 0);
           ("X3"%string, utc 2026 3 2 10 0, utc 2026 3 2 11 0);
           ("X4"%string, utc 2026 3 2 10 0, utc 2026 3 2 11 0) ]
    /\ In x3 (updatedWorkOrders r) /\ In x4 (updatedWorkOrders r)
    /\ docId x3 <> docId x4
    /\ workCenterId x3 = workCenterId x4
    /\ overlaps (buildOrderInterval x3) (buildOrderInterval x4) = true
    /\ throws (validateNoWorkCenterOverlaps (updatedWorkOrders r)).
Proof.
  do 3 eexists. split; [vm_compute; reflexivity|].
  split; [vm_compute; reflexivity|].
  split; [right; right; left; reflexivity|].
  split; [right; right; right; left; reflexivity|].
  split; [vm_compute; congruence|].
  split; [reflexivity|].
  split; [vm_compute; reflexivity|].
  eexists. vm_compute. reflexivity.
Qed.

(** The span of an order that pauses over an order placed before it encloses
    that order. *)
Lemma pausedAround_overlap :
  exists r x y,
    reflow 2 pausedAround = Ok r
    /\ updatedWorkOrders r = [x; y]
    /\ spans r = [ ("X"%string, utc 2026 3 2 10 0, utc 2026 3 2 11 0);
                   ("Y"%string, utc 2026 3 2 9 0, utc 2026 3 2 12 0) ]
    /\ overlaps (buildOrderInterval x) (buildOrderInterval y) = true
    /\ throws (validateNoWorkCenterOverlaps (updatedWorkOrders r)).
Proof.
  do 3 eexists. split; [vm_compute; reflexivity|].
  split; [reflexivity|].
  split; [vm_compute; reflexivity|].
  split; [vm_compute; reflexivity|].
  eexists. vm_compute. reflexivity.
Qed.

(** C3 on the code. One hour of work from Tuesday 09:00 on a center whose
    maintenance window is 10:00-13:00 is reported as 09:00-13:00: the end lies
    in (m.start, m.end], and the engine's own maintenance validator rejects the
    result. *)
Theorem endsAtMaintenance_end_inside :
  exists r q m,
    reflow 1 endsAtMaintenance = Ok r
    /\ updatedWorkOrders r = [q]
    /\ isMaintenance q = false
    /\ In m (maintenanceWindows wc1)
    /\ workCenterId q = wc_docId wc1
    /\ fromISO (startDate q) = utc 2026 3 3 9 0
    /\ fromISO (endDate q) = utc 2026 3 3 13 0
    /\ fromISO (mw_startDate m) < fromISO (endDate q) <= fromISO (mw_endDate m)
    /\ throws (validateMaintenanceRespected (updatedWorkOrders r)
                 (workCenters endsAtMaintenance)).
Proof.
  do 3 eexists. split; [vm_compute; reflexivity|].
  split; [reflexivity|].
  split; [reflexivity|].
  split; [left; reflexivity|].
  split; [reflexivity|].
  split; [vm_compute; reflexivity|].
  split; [vm_compute; reflexivity|].
  split; [vm_compute; split; congruence|].
  eexists. vm_compute. reflexivity.
Qed.

(** An order pushed twice along a chain of blocks starts inside the
    maintenance window the chain leads to, and its hour is worked there. *)
Lemma startsInMaintenance_start_inside :
  exists r m1 m2 t m,
    reflow 3 startsInMaintenance = Ok r
    /\ updatedWorkOrders r = [m1; m2; t]
    /\ isMaintenance t = false
    /\ In m (maintenanceWindows wc1)
    /\ fromISO (startDate t) = utc 2026 3 3 10 0
    /\ fromISO (endDate t) = utc 2026 3 3 13 0
    /\ fromISO (mw_startDate m) <= fromISO (startDate t) < fromISO (mw_endDate m)
    /\ throws (validateMaintenanceRespected (updatedWorkOrders r)
                 (workCenters startsInMaintenance)).
Proof.
  do 5 eexists. split; [vm_compute; reflexivity|].
  split; [reflexivity|].
  split; [reflexivity|].
  split; [left; reflexivity|].
  split; [vm_compute; reflexivity|].
  split; [vm_compute; reflexivity|].
  split; [vm_compute; split; congruence|].
  eexists. vm_compute. reflexivity.
Qed.

(** C4, as stated, fails for a maintenance order that names a parent: the
    maintenance order stays at 09:00 while its parent ends at 10:30. *)
Lemma maintenanceChild_counterexample :
  exists r p m,
    reflow 2 maintenanceChild = Ok r
    /\ updatedWorkOrders r = [p; m]
    /\ In (docId p) (dependsOnWorkOrderIds m)
    /\ isMaintenance m = true
    /\ fromISO (startDate m) = utc 2026 3 2 9 0
    /\ fromISO (endDate p) = utc 2026 3 2 10 30
    /\ ~ (fromISO (startDate m) >= fromISO (endDate p)).
Proof.
  do 3 eexists. split; [vm_compute; reflexivity|].
  split; [reflexivity|].
  split; [left; reflexivity|].
  split; [reflexivity|].
  split; [vm_compute; reflexivity|].
  split; [vm_compute; reflexivity|].
  vm_compute. intros H. apply H. reflexivity.
Qed.

(** A change record may carry a negative delta, and an order that stays at its
    instants is still recorded when the input spells them differently from
    [toISO]. *)
Lemma endsEarlier_negative_delta :
  exists r c,
    reflow 1 endsEarlier = Ok r /\ changes r = [c] /\ deltaMinutes c = -180.
Proof.
  do 2 eexists. split; [vm_compute; reflexivity|].
  split; vm_compute; reflexivity.
Qed.

Lemma alreadyInPlace_recorded :
  exists r k c,
    reflow 1 alreadyInPlace = Ok r
    /\ updatedWorkOrders r = [k] /\ changes r = [c]
    /\ fromISO (oldStart c) = fromISO (newStart c)
    /\ fromISO (oldEnd c) = fromISO (newEnd c)
    /\ oldStart c <> newStart c
    /\ deltaMinutes c = 0.
Proof.
  do 3 eexists. split; [vm_compute; reflexivity|].
  split; [reflexivity|]. split; [reflexivity|].
  split; [reflexivity|]. split; [reflexivity|].
  split; [vm_compute; congruence | vm_compute; reflexivity].
Qed.

End Runs.

(** ** The driver *)

Section InputMaps.

Variable ws : list WorkOrder.

Lemma get_entries (id : string) :
  JsMap.get (map (fun w => (docId w, w)) ws) id
  = find (fun w => String.eqb (docId w) id) ws.
Proof.
  induction ws as [|w l IH]; simpl; [reflexivity|].
  destruct (String.eqb (docId w) id); [reflexivity | exact IH].
Qed.

Lemma get_entries_docId (id : string) (w : WorkOrder) :
  JsMap.get (map (fun w => (docId w, w)) ws) id = Some w -> In w ws /\ docId w = id.
Proof.
  rewrite get_entries. intros H. apply find_some in H.
  destruct H as [H1 H2]. apply String.eqb_eq in H2. auto.
Qed.

Lemma get_entries_In (w : WorkOrder) :
  NoDup (map docId ws) -> In w ws ->
  JsMap.get (map (fun w => (docId w, w)) ws) (docId w) = Some w.
Proof.
  intros Hnd Hin. apply In_get.
  - unfold JsMap.keys. rewrite map_map. exact Hnd.
  - apply in_map_iff. now exists w.
Qed.

Lemma ofEntries_orders :
  NoDup (map docId ws) ->
  JsMap.ofEntries (map (fun w => (docId w, w)) ws) = map (fun w => (docId w, w)) ws.
Proof. intros H. apply ofEntries_NoDup. now rewrite map_map. Qed.

Lemma values_entries : JsMap.values (map (fun w => (docId w, w)) ws) = ws.
Proof. unfold JsMap.values. rewrite map_map. apply map_id. Qed.

End InputMaps.

Section Locking.

Import Reflow.

Lemma lockMaintenance_grows (orders : list WorkOrder) :
  forall booked booked',
    lockMaintenance orders booked = Ok booked' ->
    forall k l, JsMap.get booked k = Some l ->
      exists l', JsMap.get booked' k = Some l' /\ incl l l'.
Proof.
  induction orders as [|wo rest IH]; intros booked booked' H k l Hk; simpl in H.
  - injection H as <-. exists l. split; [exact Hk | apply incl_refl].
  - destruct (negb (isMaintenance wo)); [now apply (IH booked booked' H)|].
    destruct (JsMap.get booked (workCenterId wo)) as [l0|] eqn:E; [|discriminate].
    destruct (string_dec (workCenterId wo) k) as [Heq|Hne].
    + subst k. rewrite Hk in E. injection E as <-.
      destruct (IH _ booked' H (workCenterId wo) _ (get_set_same _ _ _)) as (l' & Hl' & Hincl).
      exists l'. split; [exact Hl'|].
      intros x Hx. apply Hincl, sortIntervals_In, in_app_iff. now left.
    + apply (IH _ booked' H). now rewrite get_set_other.
Qed.

(** After the locking loop, the bookings of each maintenance order's center
    hold its span. *)
Lemma lockMaintenance_In (orders : list WorkOrder) :
  forall booked booked',
    lockMaintenance orders booked = Ok booked' ->
    forall wo, In wo orders -> isMaintenance wo = true ->
      exists l, JsMap.get booked' (workCenterId wo) = Some l
                /\ In (buildOrderInterval wo) l.
Proof.
  induction orders as [|x rest IH]; intros booked booked' H wo Hin Hm; simpl in H;
    [contradiction|].
  destruct Hin as [->|Hin].
  - rewrite Hm in H. simpl in H.
    destruct (JsMap.get booked (workCenterId wo)) as [l0|] eqn:E; [|discriminate].
    destruct (lockMaintenance_grows rest _ booked' H (workCenterId wo) _ (get_set_same _ _ _))
      as (l' & Hl' & Hincl).
    exists l'. split; [exact Hl'|].
    apply Hincl, sortIntervals_In, in_app_iff. right. now left.
  - destruct (negb (isMaintenance x)); [now apply (IH booked booked' H)|].
    destruct (JsMap.get booked (workCenterId x)) as [l0|] eqn:E; [|discriminate].
    now apply (IH _ booked' H).
Qed.

End Locking.

Section Collected.

Import Reflow.

Variable ws : list WorkOrder.
Variable b0 : JsMap.t (list Interval).
Variable done : list string.
Variable st : State.

Hypothesis inv : placedInv (map (fun w => (docId w, w)) ws) b0 done st.

Lemma In_collectUpdated (ids : list string) (w : WorkOrder) :
  In w (collectUpdated st ids) <-> exists id, In id ids /\ scheduledGet st id = Some w.
Proof.
  unfold collectUpdated. rewrite in_flat_map. split.
  - intros (id & Hid & Hw). exists id. split; [exact Hid|].
    destruct (scheduledGet st id); [destruct Hw as [->|[]]; reflexivity | contradiction].
  - intros (id & Hid & Hw). exists id. split; [exact Hid|]. rewrite Hw. now left.
Qed.

Lemma placed_scheduledGet (id : string) :
  In id done -> exists w, scheduledGet st id = Some w.
Proof.
  destruct inv as (_ & _ & _ & I4 & I5 & _).
  intros Hid. destruct (I5 id Hid) as [w Hw]. exists w.
  unfold scheduledGet. apply I4 in Hid. now rewrite Hid.
Qed.

Lemma scheduledGet_get (id : string) (w : WorkOrder) :
  scheduledGet st id = Some w -> JsMap.get (woMap st) id = Some w.
Proof.
  unfold scheduledGet. destruct (JsMap.has (scheduled st) id); [auto | discriminate].
Qed.

(** A placed order is an order of the input, but for its dates. *)
Lemma placed_origin (id : string) (w : WorkOrder) :
  JsMap.get (woMap st) id = Some w ->
  exists w0, In w0 ws /\ docId w0 = id
             /\ find (fun x => String.eqb (docId x) id) ws = Some w0
             /\ w = setDates w0 (startDate w) (endDate w).
Proof.
  destruct inv as (I1 & _).
  intros H. destruct (I1 id w H) as (w0 & H0 & Hw).
  destruct (get_entries_docId ws id w0 H0) as [Hin Hid].
  exists w0. rewrite <- get_entries. auto.
Qed.

Lemma placed_docId (id : string) (w : WorkOrder) :
  JsMap.get (woMap st) id = Some w -> docId w = id.
Proof.
  intros H. destruct (placed_origin id w H) as (w0 & _ & Hid & _ & ->). exact Hid.
Qed.

Lemma collectUpdated_docIds (ids : list string) :
  incl ids done -> map docId (collectUpdated st ids) = ids.
Proof.
  induction ids as [|id ids IH]; intros Hincl; simpl; [reflexivity|].
  destruct (placed_scheduledGet id (Hincl id (or_introl eq_refl))) as [w Hw].
  rewrite Hw. simpl. rewrite (placed_docId id w (scheduledGet_get id w Hw)).
  f_equal. apply IH. intros x Hx. apply Hincl. now right.
Qed.

Lemma changesOf_collected (ids : list string) :
  incl ids done ->
  changesOf (map (fun w => (docId w, w)) ws) (woMap st) ids
  = flat_map
      (fun n =>
         match find (fun x => String.eqb (docId x) (docId n)) ws with
         | Some o => changeFor o n
         | None => []
         end)
      (collectUpdated st ids).
Proof.
  induction ids as [|id ids IH]; intros Hincl; simpl; [reflexivity|].
  destruct (placed_scheduledGet id (Hincl id (or_introl eq_refl))) as [w Hw].
  pose proof (scheduledGet_get id w Hw) as Hget.
  destruct (placed_origin id w Hget) as (w0 & _ & _ & Hfind & _).
  rewrite Hw, Hget, get_entries, Hfind. simpl.
  rewrite (placed_docId id w Hget), Hfind. f_equal.
  apply IH. intros x Hx. apply Hincl. now right.
Qed.

End Collected.

Section Driver.

Import Reflow.

Variable fuel : nat.
Variable input : ReflowInput.
Variable r : ReflowResult.

Hypothesis run : reflow fuel input = Ok r.
Hypothesis ids_unique : uniqueIds input.

Lemma placedInv_init (booked : JsMap.t (list Interval)) :
  placedInv (ordersById input) booked [] (mkState (ordersById input) booked [] []).
Proof.
  unfold placedInv. cbn [woMap centerBooked changesAcc scheduled].
  split; [|split; [|split; [|split; [|split; [|split]]]]].
  - intros id w H. exists w. split; [exact H | now destruct w].
  - reflexivity.
  - auto.
  - intros id. split; [discriminate | intros []].
  - intros id [].
  - reflexivity.
  - intros k l0 H. exists l0. split; [exact H | apply incl_refl].
Qed.

(** The stages of a run that returns. *)
Lemma reflow_stages :
  exists topoIds booked st,
    NoDup topoIds
    /\ Permutation topoIds (map docId (workOrders input))
    /\ lockMaintenance (workOrders input) (seedBooked (workCenters input)) = Ok booked
    /\ placeAll fuel (centersById input) (mkState (ordersById input) booked [] []) topoIds = Ok st
    /\ placedInv (ordersById input) booked topoIds st
    /\ updatedWorkOrders r = collectUpdated st topoIds
    /\ changes r = changesAcc st.
Proof.
  pose proof run as H. unfold reflow in H.
  rewrite (ofEntries_orders (workOrders input) ids_unique), values_entries in H.
  apply bind_Ok_inv in H. destruct H as (topoIds & Htopo & H).
  apply bind_Ok_inv in H. destruct H as (booked & Hlock & H).
  apply bind_Ok_inv in H. destruct H as (st & Hplace & H).
  injection H as <-.
  destruct (topoSortWorkOrders_ok fuel _ _ Htopo) as (Hnd & _ & _).
  exists topoIds, booked, st.
  split; [exact Hnd|].
  split; [now apply (topoSortWorkOrders_perm fuel)|].
  split; [exact Hlock|].
  split; [exact Hplace|].
  split; [|split; reflexivity].
  apply (placeAll_placedInv fuel (centersById input) (ordersById input) booked topoIds [] _ st (placedInv_init booked));
    auto.
Qed.

Lemma wcMap_In (k : string) (wc : WorkCenter) :
  JsMap.get (centersById input) k = Some wc -> In wc (workCenters input).
Proof.
  intros H. apply get_ofEntries_In, in_map_iff in H.
  destruct H as (w & [= _ ->] & Hin). exact Hin.
Qed.

(** C4, as the code has it. In the result, every order that is not a
    maintenance order starts at or after the end of each order it depends on,
    whatever the work centers of the two; each id it depends on is an order of
    the result. *)
Theorem reflow_dependencies_respected :
  validShifts input ->
  forall c pid,
    In c (updatedWorkOrders r) ->
    isMaintenance c = false ->
    In pid (dependsOnWorkOrderIds c) ->
    (exists p, In p (updatedWorkOrders r) /\ docId p = pid)
    /\ (forall p, In p (updatedWorkOrders r) -> docId p = pid ->
                  fromISO (endDate p) <= fromISO (startDate c)).
Proof.
  intros Hshifts c pid Hc Hm Hpid.
  destruct reflow_stages as (topoIds & booked & st & Hnd & _ & _ & Hplace & Hinv & Hupd & _).
  assert (Hpar : parentsInv topoIds st).
  { apply (placeAll_parentsInv fuel (centersById input) (ordersById input) booked) with (done := [])
                                                           (st := mkState (ordersById input) booked [] []);
      auto.
    - intros k wc Hk s Hs. apply wcMap_In in Hk.
      destruct (Hshifts wc Hk s Hs) as (_ & ? & ? & _). lia.
    - apply placedInv_init.
    - intros x wx []. }
  rewrite Hupd in *.
  apply (In_collectUpdated st) in Hc. destruct Hc as (cid & Hcid & Hcget).
  apply scheduledGet_get in Hcget.
  destruct (Hpar cid c Hcid Hcget Hm pid Hpid) as [Hpin (wp & Hwp & Hle)].
  split.
  - exists wp. split.
    + apply (In_collectUpdated st). exists pid. split; [exact Hpin|].
      destruct (placed_scheduledGet _ _ _ _ Hinv pid Hpin) as [w Hw].
      rewrite Hw. apply scheduledGet_get in Hw. congruence.
    + apply (placed_docId _ _ _ _ Hinv pid wp Hwp).
  - intros p Hp Hpd. apply (In_collectUpdated st) in Hp.
    destruct Hp as (pid' & _ & Hpget). apply scheduledGet_get in Hpget.
    pose proof (placed_docId _ _ _ _ Hinv pid' p Hpget) as Hd.
    assert (pid' = pid) by congruence. subst pid'.
    assert (p = wp) by congruence. subst p. exact Hle.
Qed.

(** C5. A maintenance order of the input is in the result as it was given,
    dates included, and is the only order of the result with its id; no change
    record names it; and the placement loop starts from bookings in which the
    locking loop has put its span on its center, where the span still is when
    the loop ends. *)
Theorem reflow_maintenance_pinned :
  forall wo,
    In wo (workOrders input) ->
    isMaintenance wo = true ->
    In wo (updatedWorkOrders r)
    /\ (forall w, In w (updatedWorkOrders r) -> docId w = docId wo ->
                  w = wo /\ startDate w = startDate wo /\ endDate w = endDate wo)
    /\ (forall c, In c (changes r) -> ch_workOrderId c <> docId wo)
    /\ exists booked topoIds st,
         lockMaintenance (workOrders input) (seedBooked (workCenters input)) = Ok booked
         /\ (exists l, JsMap.get booked (workCenterId wo) = Some l
                       /\ In (buildOrderInterval wo) l)
         /\ placeAll fuel (centersById input)
              (mkState (ordersById input) booked [] []) topoIds = Ok st
         /\ updatedWorkOrders r = collectUpdated st topoIds
         /\ (exists l, JsMap.get (centerBooked st) (workCenterId wo) = Some l
                       /\ In (buildOrderInterval wo) l).
Proof.
  intros wo Hin Hm.
  destruct reflow_stages
    as (topoIds & booked & st & Hnd & Hperm & Hlock & Hplace & Hinv & Hupd & Hch).
  pose proof Hinv as (I1 & I2 & I3 & I4 & I5 & I6 & I8).
  assert (Hid : In (docId wo) topoIds).
  { apply (Permutation_in _ (Permutation_sym Hperm)). now apply in_map. }
  assert (Hget : JsMap.get (woMap st) (docId wo) = Some wo).
  { apply I3; [|exact Hm]. now apply get_entries_In. }
  assert (Hsame : forall w, In w (updatedWorkOrders r) -> docId w = docId wo -> w = wo).
  { intros w Hw Hd. rewrite Hupd in Hw. apply (In_collectUpdated st) in Hw.
    destruct Hw as (id & _ & Hw). apply scheduledGet_get in Hw.
    pose proof (placed_docId _ _ _ _ Hinv id w Hw) as Hd'.
    assert (id = docId wo) by congruence. subst id. congruence. }
  split; [|split; [|split]].
  - rewrite Hupd. apply (In_collectUpdated st). exists (docId wo). split; [exact Hid|].
    destruct (placed_scheduledGet _ _ _ _ Hinv _ Hid) as [w Hw].
    rewrite Hw. apply scheduledGet_get in Hw. congruence.
  - intros w Hw Hd. rewrite (Hsame w Hw Hd). auto.
  - intros c Hc Heq. rewrite Hch, I6 in Hc. unfold changesOf in Hc.
    apply in_flat_map in Hc. destruct Hc as (id & _ & Hc).
    destruct (JsMap.get (ordersById input) id) as [o|] eqn:Eo; [|contradiction].
    destruct (JsMap.get (woMap st) id) as [n|] eqn:En; [|contradiction].
    pose proof (placed_docId _ _ _ _ Hinv id n En) as Hd.
    unfold changeFor in Hc.
    destruct (negb (iso_eqb (startDate o) (startDate n))
              || negb (iso_eqb (endDate o) (endDate n))) eqn:Emoved; [|contradiction].
    destruct Hc as [<-|[]]. simpl in Heq.
    assert (id = docId wo) by congruence. subst id.
    assert (o = wo).
    { pose proof (get_entries_In _ wo ids_unique Hin) as Hwo. fold (ordersById input) in Hwo. congruence. }
    assert (n = wo) by congruence. subst o n.
    rewrite !iso_eqb_refl in Emoved. discriminate.
  - exists booked, topoIds, st.
    destruct (lockMaintenance_In _ _ _ Hlock wo Hin Hm) as (l & Hl & Hlin).
    split; [exact Hlock|]. split; [now exists l|]. split; [exact Hplace|].
    split; [exact Hupd|].
    destruct (I8 _ l Hl) as (l' & Hl' & Hincl). exists l'. auto.
Qed.

(** C8. The change list is, in the order of the result, the one record of each
    order whose start or end string differs from the one it came with, and
    nothing for the others; each order of the input is in the result once; and
    the [deltaMinutes] of a record is the floor of the minutes from its old to
    its new end, which can be negative. *)
Theorem reflow_changes_exact :
  changes r
  = flat_map
      (fun n =>
         match inputOrder input (docId n) with
         | Some o => changeFor o n
         | None => []
         end)
      (updatedWorkOrders r)
  /\ Permutation (map docId (updatedWorkOrders r)) (map docId (workOrders input))
  /\ (forall n, In n (updatedWorkOrders r) ->
        exists o, inputOrder input (docId n) = Some o /\ In o (workOrders input))
  /\ (forall c, In c (changes r) ->
        deltaMinutes c = (fromISO (newEnd c) - fromISO (oldEnd c)) / msPerMinute)
  /\ (exists f' input' r' c',
        reflow f' input' = Ok r' /\ uniqueIds input' /\ In c' (changes r')
        /\ deltaMinutes c' < 0).
Proof.
  destruct reflow_stages
    as (topoIds & booked & st & Hnd & Hperm & Hlock & Hplace & Hinv & Hupd & Hch).
  pose proof Hinv as (I1 & I2 & I3 & I4 & I5 & I6 & I8).
  assert (Hchanges : changes r
                     = flat_map
                         (fun n =>
                            match inputOrder input (docId n) with
                            | Some o => changeFor o n
                            | None => []
                            end)
                         (updatedWorkOrders r)).
  { rewrite Hch, I6, Hupd.
    apply (changesOf_collected _ _ _ _ Hinv topoIds), incl_refl. }
  split; [exact Hchanges|]. split; [|split; [|split]].
  - rewrite Hupd, (collectUpdated_docIds _ _ _ _ Hinv topoIds (incl_refl _)). exact Hperm.
  - intros n Hn. rewrite Hupd in Hn. apply (In_collectUpdated st) in Hn.
    destruct Hn as (id & _ & Hn). apply scheduledGet_get in Hn.
    destruct (placed_origin _ _ _ _ Hinv id n Hn) as (w0 & Hin & _ & Hfind & _).
    rewrite (placed_docId _ _ _ _ Hinv id n Hn). exists w0. auto.
  - intros c Hc. rewrite Hchanges in Hc. apply in_flat_map in Hc.
    destruct Hc as (n & _ & Hc).
    destruct (inputOrder input (docId n)) as [o|]; [|contradiction].
    unfold changeFor in Hc.
    destruct (negb (iso_eqb (startDate o) (startDate n))
              || negb (iso_eqb (endDate o) (endDate n))); [|contradiction].
    destruct Hc as [<-|[]]. reflexivity.
  - destruct endsEarlier_negative_delta as (r' & c' & H1 & H2 & H3).
    exists 1%nat, Cases.endsEarlier, r', c'. split; [exact H1|].
    split; [repeat constructor; intros []|].
    split; [rewrite H2; now left | lia].
Qed.

End Driver.

(** ** The driver on the sample scenarios *)

Section DriverWitnesses.

Import Reflow Scenarios.

Lemma scenario1_uniqueIds : uniqueIds scenario1_delayCascade.
Proof.
  unfold uniqueIds. simpl.
  repeat (constructor; [simpl; intros H; repeat destruct H as [H|H]; try discriminate H;
                        exact H|]).
  constructor.
Defined.

Lemma scenario3_uniqueIds : uniqueIds scenario3_maintenanceConflict.
Proof.
  unfold uniqueIds. simpl.
  repeat (constructor; [simpl; intros H; repeat destruct H as [H|H]; try discriminate H;
                        exact H|]).
  constructor.
Defined.

Lemma dayShift_valid (s : Shift) : In s dayShift -> validShift s.
Proof.
  intros H. simpl in H. unfold validShift.
  repeat destruct H as [<-|H]; simpl; try lia.
Defined.

Lemma scenario1_validShifts : validShifts scenario1_delayCascade.
Proof.
  intros wc [<-|[]] s Hs. now apply dayShift_valid.
Defined.

Lemma reflow_dependencies_respected_witness :
  exists r,
    reflow 3 scenario1_delayCascade = Ok r
    /\ uniqueIds scenario1_delayCascade
    /\ validShifts scenario1_delayCascade
    /\ forall c pid,
         In c (updatedWorkOrders r) ->
         isMaintenance c = false ->
         In pid (dependsOnWorkOrderIds c) ->
         (exists p, In p (updatedWorkOrders r) /\ docId p = pid)
         /\ (forall p, In p (updatedWorkOrders r) -> docId p = pid ->
                       fromISO (endDate p) <= fromISO (startDate c)).
Proof.
  assert (E : exists r, reflow 3 scenario1_delayCascade = Ok r)
    by (eexists; vm_compute; reflexivity).
  destruct E as [r Hrun]. exists r.
  split; [exact Hrun|]. split; [exact scenario1_uniqueIds|].
  split; [exact scenario1_validShifts|].
  exact (reflow_dependencies_respected 3 scenario1_delayCascade r Hrun
           scenario1_uniqueIds scenario1_validShifts).
Defined.

Lemma reflow_maintenance_pinned_witness :
  exists r m1,
    reflow 2 scenario3_maintenanceConflict = Ok r
    /\ uniqueIds scenario3_maintenanceConflict
    /\ In m1 (workOrders scenario3_maintenanceConflict)
    /\ isMaintenance m1 = true
    /\ In m1 (updatedWorkOrders r)
    /\ forall c, In c (changes r) -> ch_workOrderId c <> docId m1.
Proof.
  assert (E : exists r, reflow 2 scenario3_maintenanceConflict = Ok r)
    by (eexists; vm_compute; reflexivity).
  destruct E as [r Hrun].
  exists r, (wo "M1" "M1" "wc1" (isoZ 2026 3 3 8 30) (isoZ 2026 3 3 9 30) 60 true []).
  split; [exact Hrun|]. split; [exact scenario3_uniqueIds|].
  split; [left; reflexivity|]. split; [reflexivity|].
  destruct (reflow_maintenance_pinned 2 scenario3_maintenanceConflict r Hrun
              scenario3_uniqueIds
              (wo "M1" "M1" "wc1" (isoZ 2026 3 3 8 30) (isoZ 2026 3 3 9 30) 60 true [])
              (or_introl eq_refl) eq_refl) as (H1 & _ & H3 & _).
  split; [exact H1 | exact H3].
Defined.

Lemma reflow_changes_exact_witness :
  exists r,
    reflow 3 scenario1_delayCascade = Ok r
    /\ uniqueIds scenario1_delayCascade
    /\ changes r
       = flat_map
           (fun n =>
              match inputOrder scenario1_delayCascade (docId n) with
              | Some o => changeFor o n
              | None => []
              end)
           (updatedWorkOrders r).
Proof.
  assert (E : exists r, reflow 3 scenario1_delayCascade = Ok r)
    by (eexists; vm_compute; reflexivity).
  destruct E as [r Hrun]. exists r.
  split; [exact Hrun|]. split; [exact scenario1_uniqueIds|].
  exact (proj1 (reflow_changes_exact 3 scenario1_delayCascade r Hrun scenario1_uniqueIds)).
Defined.

End DriverWitnesses.

(** * Further properties *)

(** ** Intervals: order, overlap and the push out of a block *)

Section IntervalsFurther.

Lemma sortIntervals_sorted_id (l : list Interval) :
  StronglySorted byStart l -> sortIntervals l = l.
Proof.
  induction 1 as [|x l Hs IH Hx]; [reflexivity|].
  unfold sortIntervals in *. simpl. rewrite IH.
  destruct l as [|y l']; [reflexivity|]. simpl.
  inversion Hx as [|? ? Hxy _]; subst. unfold byStart in Hxy.
  destruct (start y <? start x) eqn:E; [apply Z.ltb_lt in E; lia | reflexivity].
Qed.

Lemma insertByStart_filter (v : DateTime) (x : Interval) (l : list Interval) :
  filter (fun i => start i =? v) (insertByStart x l)
  = filter (fun i => start i =? v) (x :: l).
Proof.
  induction l as [|y l IH]; [reflexivity|].
  cbn [insertByStart]. destruct (start y <? start x) eqn:E; [|reflexivity].
  apply Z.ltb_lt in E. cbn [filter] in *. rewrite IH.
  destruct (start x =? v) eqn:Ex; destruct (start y =? v) eqn:Ey; try reflexivity.
  apply Z.eqb_eq in Ex, Ey. lia.
Qed.

Lemma sortIntervals_filter (v : DateTime) (l : list Interval) :
  filter (fun i => start i =? v) (sortIntervals l) = filter (fun i => start i =? v) l.
Proof.
  induction l as [|x l IH]; [reflexivity|].
  change (sortIntervals (x :: l)) with (insertByStart x (sortIntervals l)).
  rewrite insertByStart_filter. cbn [filter]. now rewrite IH.
Qed.

(** X1. [sortIntervals] returns the intervals it was given, ordered by
    start; intervals that start at the same instant keep the order they came
    in, and sorting a sorted list changes nothing. *)
Theorem sortIntervals_stable_sort (l : list Interval) :
  Permutation (sortIntervals l) l
  /\ StronglySorted byStart (sortIntervals l)
  /\ (forall v, filter (fun i => start i =? v) (sortIntervals l)
                = filter (fun i => start i =? v) l)
  /\ sortIntervals (sortIntervals l) = sortIntervals l.
Proof.
  split; [apply sortIntervals_perm|].
  split; [apply sortIntervals_sorted|].
  split; [intros v; apply sortIntervals_filter|].
  apply sortIntervals_sorted_id, sortIntervals_sorted.
Qed.

(** X2. Two non-empty intervals overlap exactly when some instant lies in
    both, the start included and the end excluded; the test does not depend
    on the order of its arguments. *)
Theorem overlaps_shared_instant (a b : Interval) :
  start a < end_ a ->
  start b < end_ b ->
  overlaps a b = overlaps b a
  /\ (overlaps a b = true
      <-> exists t, start a <= t < end_ a /\ start b <= t < end_ b).
Proof.
  intros Ha Hb. unfold overlaps. split; [apply andb_comm|].
  rewrite andb_true_iff, !Z.ltb_lt. split.
  - intros [H1 H2]. exists (Z.max (start a) (start b)). lia.
  - intros (t & H1 & H2). lia.
Qed.

Lemma overlaps_shared_instant_witness :
  overlaps (mkInterval 0 10 None) (mkInterval 5 15 None)
  = overlaps (mkInterval 5 15 None) (mkInterval 0 10 None)
  /\ (overlaps (mkInterval 0 10 None) (mkInterval 5 15 None) = true
      <-> exists t, 0 <= t < 10 /\ 5 <= t < 15).
Proof.
  apply (overlaps_shared_instant (mkInterval 0 10 None) (mkInterval 5 15 None));
    simpl; lia.
Defined.

Lemma pushOutOfBlocked_first (cursor : DateTime) (blocked : list Interval) :
  inBlock blocked cursor = true ->
  exists pre b post,
    blocked = pre ++ b :: post
    /\ inBlock pre cursor = false
    /\ start b <= cursor < end_ b
    /\ pushOutOfBlocked cursor blocked = end_ b.
Proof.
  induction blocked as [|b bs IH]; [discriminate|].
  cbn [inBlock existsb pushOutOfBlocked]. unfold inWindow at 1.
  rewrite Z.geb_leb.
  destruct ((start b <=? cursor) && (cursor <? end_ b)) eqn:E.
  - intros _. exists [], b, bs. apply andb_true_iff in E.
    rewrite Z.leb_le, Z.ltb_lt in E. repeat split; try reflexivity; lia.
  - cbn [orb]. intros H. destruct (IH H) as (pre & b0 & post & -> & Hpre & Hin & Heq).
    exists (b :: pre), b0, post. repeat split; try lia; try assumption.
    cbn [inBlock existsb]. unfold inWindow at 1. rewrite E. exact Hpre.
Qed.

(** X3. [pushOutOfBlocked] never moves the cursor back; it leaves the cursor
    where it is exactly when no blocked interval holds it, and otherwise
    returns the end of the first interval of the list that holds it. *)
Theorem pushOutOfBlocked_first_holder (cursor : DateTime) (blocked : list Interval) :
  cursor <= pushOutOfBlocked cursor blocked
  /\ (pushOutOfBlocked cursor blocked = cursor <-> inBlock blocked cursor = false)
  /\ (inBlock blocked cursor = true ->
      exists pre b post,
        blocked = pre ++ b :: post
        /\ inBlock pre cursor = false
        /\ start b <= cursor < end_ b
        /\ pushOutOfBlocked cursor blocked = end_ b).
Proof.
  split; [apply pushOutOfBlocked_ge|].
  split; [|apply pushOutOfBlocked_first].
  destruct (pushOutOfBlocked_cases cursor blocked) as [[Heq Hfree]|(b & Hb & Hin & Heq)].
  - split; [intros _|intros _; exact Heq]. apply inBlock_false. exact Hfree.
  - split.
    + intros H. lia.
    + intros H. rewrite inBlock_false in H. exfalso. now apply (H b Hb).
Qed.

Lemma pushOut_apart_free (cursor : DateTime) (blocked : list Interval) :
  apartBlocks blocked -> inBlock blocked (pushOutOfBlocked cursor blocked) = false.
Proof.
  intros Hap. apply inBlock_false. intros b Hb Hin.
  destruct (pushOutOfBlocked_cases cursor blocked) as [[Heq Hfree]|(b0 & Hb0 & Hc & Heq)].
  - rewrite Heq in Hin. now apply (Hfree b Hb).
  - rewrite Heq in Hin. destruct (Hap b0 b Hb0 Hb) as [[H1 H2]|[H|H]]; lia.
Qed.

(** X4. When the blocked intervals are apart from each other (no two of them
    overlap or touch, unless they are the same), the instant
    [pushOutOfBlocked] returns lies in no blocked interval, a second push
    does not move it, and every instant passed over was blocked. *)
Theorem pushOutOfBlocked_apart (cursor : DateTime) (blocked : list Interval) :
  apartBlocks blocked ->
  inBlock blocked (pushOutOfBlocked cursor blocked) = false
  /\ pushOutOfBlocked (pushOutOfBlocked cursor blocked) blocked
     = pushOutOfBlocked cursor blocked
  /\ forall t, cursor <= t < pushOutOfBlocked cursor blocked -> inBlock blocked t = true.
Proof.
  intros Hap. pose proof (pushOut_apart_free cursor blocked Hap) as Hfree.
  split; [exact Hfree|]. split.
  - destruct (pushOutOfBlocked_cases (pushOutOfBlocked cursor blocked) blocked)
      as [[Heq _]|(b & Hb & Hin & _)]; [exact Heq|].
    rewrite inBlock_false in Hfree. exfalso. now apply (Hfree b Hb).
  - intros t Ht.
    destruct (pushOutOfBlocked_cases cursor blocked) as [[Heq _]|(b0 & Hb0 & Hc & Heq)].
    + lia.
    + apply inBlock_true. exists b0. split; [exact Hb0 | lia].
Qed.

Lemma pushOutOfBlocked_apart_witness :
  inBlock (buildMaintenanceIntervals Scenarios.wc1)
    (pushOutOfBlocked (utc 2026 3 3 11 0) (buildMaintenanceIntervals Scenarios.wc1)) = false
  /\ pushOutOfBlocked
       (pushOutOfBlocked (utc 2026 3 3 11 0) (buildMaintenanceIntervals Scenarios.wc1))
       (buildMaintenanceIntervals Scenarios.wc1)
     = pushOutOfBlocked (utc 2026 3 3 11 0) (buildMaintenanceIntervals Scenarios.wc1)
  /\ forall t,
       utc 2026 3 3 11 0 <= t
       < pushOutOfBlocked (utc 2026 3 3 11 0) (buildMaintenanceIntervals Scenarios.wc1) ->
       inBlock (buildMaintenanceIntervals Scenarios.wc1) t = true.
Proof.
  apply (pushOutOfBlocked_apart (utc 2026 3 3 11 0) (buildMaintenanceIntervals Scenarios.wc1)).
  intros a b [<-|[]] [<-|[]]. left. split; reflexivity.
Defined.

End IntervalsFurther.

(** ** What a search within the range builds *)

Section SearchRange.

Import DateUtils.

Variable cursor : DateTime.
Variable shifts : list Shift.

(** The window a search within the range returns has bounds the library
    represents. *)
Lemma findNextShiftWindow_valid (w : Interval) :
  searchInRange cursor shifts = true ->
  findNextShiftWindow cursor shifts = Ok w ->
  validInstant (start w) = true /\ validInstant (end_ w) = true.
Proof.
  intros Hr H. pose proof Hr as Hc. unfold searchInRange in Hc.
  apply andb_true_iff in Hc. destruct Hc as [Hc _].
  destruct (findNextShiftWindow_inv cursor shifts w H)
    as [(pre & v & post & Hday & _ & _ & ->)|(k & v & rest & Hk & _ & _ & Hday & ->)].
  - destruct (searchInRange_days cursor shifts 0 Hr ltac:(lia)) as [_ Hw].
    destruct (Hw v) as [H1 H2]; [rewrite Hday; apply in_or_app; right; now left|].
    cbn [start end_]. split; [|exact H2].
    destruct (Z.max_spec cursor (start v)) as [[_ ->]|[_ ->]]; assumption.
  - destruct (searchInRange_days cursor shifts k Hr ltac:(lia)) as [_ Hw].
    apply (Hw v). rewrite Hday. now left.
Qed.

(** A search is within the range when the cursor is, the fourteenth day
    after the cursor's is not past the range, and the hours of the shifts are
    hours of a day. *)
Lemma searchInRange_horizon :
  validInstant cursor = true ->
  startOfDay cursor + 14 * msPerDay <= maxInstant ->
  (forall s, In s shifts -> 0 <= startHour s <= 24 /\ 0 <= endHour s <= 24) ->
  searchInRange cursor shifts = true.
Proof.
  intros Hc Hh Hs. unfold searchInRange. rewrite Hc. cbn [andb].
  apply forallb_forall. intros d Hd. apply in_map_iff in Hd.
  destruct Hd as (n & <- & Hn). apply in_seq in Hn.
  apply validInstant_true in Hc.
  assert (Hday : - maxInstant <= startOfDay (plusDays cursor (Z.of_nat n))
                 /\ startOfDay (plusDays cursor (Z.of_nat n)) + msPerDay <= maxInstant).
  { unfold startOfDay, plusDays, maxInstant, msPerDay in *.
    Z.div_mod_to_equations. lia. }
  apply andb_true_iff. split.
  - apply validInstant_true. unfold startOfDay, plusDays, maxInstant, msPerDay in *.
    Z.div_mod_to_equations. lia.
  - apply forallb_forall. intros w Hw. apply dayWindows_In in Hw.
    destruct Hw as (s & Hin & _ & ->). destruct (Hs s Hin) as [H1 H2].
    unfold Ranged.validBounds, shiftIntervalForDay. cbn [start end_]. unfold setHour.
    rewrite startOfDay_idem.
    apply andb_true_iff. split; apply validInstant_true;
      unfold msPerHour, msPerDay in *; lia.
Qed.

End SearchRange.

(** ** The shift window resolver on any table *)

Section ResolverTotal.

Import DateUtils.

Variable cursor : DateTime.
Variable shifts : list Shift.

Lemma weekday_reached (dow : Z) :
  0 <= dow <= 6 ->
  exists k, 1 <= k <= 7 /\ weekday (startOfDay (plusDays cursor k)) mod 7 = dow.
Proof.
  intros Hd.
  assert (Hw : forall k, weekday (startOfDay (plusDays cursor k)) mod 7
                         = (cursor / msPerDay + k + 4) mod 7).
  { intros k. rewrite startOfDay_plusDays. unfold weekday, startOfDay, msPerDay.
    rewrite <- Z.mul_add_distr_r, Z.div_mul by lia.
    set (q := cursor / 86400000).
    rewrite Zplus_mod_idemp_l. f_equal. lia. }
  set (r := (cursor / msPerDay + 4) mod 7).
  assert (Hr : 0 <= r < 7) by (apply Z.mod_pos_bound; lia).
  exists (if r <? dow then dow - r else dow - r + 7).
  rewrite Hw. destruct (r <? dow) eqn:E.
  - apply Z.ltb_lt in E. split; [lia|].
    replace (cursor / msPerDay + (dow - r) + 4) with ((cursor / msPerDay + 4) + (dow - r)) by lia.
    rewrite <- Zplus_mod_idemp_l. fold r.
    replace (r + (dow - r)) with dow by lia. apply Z.mod_small. lia.
  - apply Z.ltb_ge in E. split; [lia|].
    replace (cursor / msPerDay + (dow - r + 7) + 4)
      with ((cursor / msPerDay + 4) + (dow - r + 7)) by lia.
    rewrite <- Zplus_mod_idemp_l. fold r.
    replace (r + (dow - r + 7)) with (dow + 1 * 7) by lia.
    rewrite Z.mod_add by lia. apply Z.mod_small. lia.
Qed.

Lemma searchDays_outcome (n : nat) :
  forall d, returns (searchDays cursor shifts d n) \/ throws (searchDays cursor shifts d n).
Proof.
  induction n as [|n IH]; intros d; simpl.
  - right. eexists. reflexivity.
  - destruct (dayWindows cursor shifts d) as [|w0 ws]; [apply IH|].
    destruct (d =? 0).
    + destruct (firstEndingAfter cursor (w0 :: ws)); [left; eexists; reflexivity | apply IH].
    + left. eexists. reflexivity.
Qed.

Lemma findNextShiftWindow_returns :
  (exists s, In s shifts /\ 0 <= dayOfWeek s <= 6) ->
  returns (findNextShiftWindow cursor shifts).
Proof.
  intros (s & Hs & Hd).
  rewrite findNextShiftWindow_unfold by (intros ->; contradiction).
  change 14%nat with (S 13). rewrite searchDays_today.
  destruct (firstEndingAfter cursor (dayWindows cursor shifts 0)) as [w|];
    [eexists; reflexivity|].
  destruct (searchDays_outcome 13 1) as [H|H]; [exact H|].
  exfalso. destruct (weekday_reached (dayOfWeek s) Hd) as (k & Hk & Hw).
  pose proof (searchDays_future_throws cursor shifts 13 1 ltac:(lia) H k ltac:(lia)) as Hnil.
  pose proof (dayWindows_In_conv cursor shifts k s Hs (eq_sym Hw)) as Hin.
  rewrite Hnil in Hin. exact Hin.
Qed.

Lemma findNextShiftWindow_weekday (w : Interval) :
  findNextShiftWindow cursor shifts = Ok w ->
  exists s, In s shifts /\ 0 <= dayOfWeek s <= 6.
Proof.
  intros H.
  assert (Hin : exists k v, In v (dayWindows cursor shifts k)).
  { destruct (findNextShiftWindow_inv cursor shifts w H)
      as [(pre & v & post & Heq & _)|(k & v & rest & _ & _ & _ & Heq & _)].
    - exists 0, v. rewrite Heq. apply in_or_app. right. now left.
    - exists k, v. rewrite Heq. now left. }
  destruct Hin as (k & v & Hv).
  destruct (dayWindows_In cursor shifts k v Hv) as (s & Hs & Hd & _).
  exists s. split; [exact Hs|]. rewrite Hd.
  pose proof (Z.mod_pos_bound (weekday (startOfDay (plusDays cursor k))) 7). lia.
Qed.

Lemma dayWindows_noWeekday (d : Z) : noWeekday shifts -> dayWindows cursor shifts d = [].
Proof.
  intros Hno. destruct (dayWindows cursor shifts d) as [|v vs] eqn:E; [reflexivity|].
  exfalso. destruct (dayWindows_In cursor shifts d v) as (s & Hs & Hd & _).
  { rewrite E. now left. }
  apply (Hno s Hs). rewrite Hd.
  pose proof (Z.mod_pos_bound (weekday (startOfDay (plusDays cursor d))) 7). lia.
Qed.

Lemma findNextShiftWindow_noWeekday :
  noWeekday shifts -> findNextShiftWindow cursor shifts = Throw (noWindowMessage shifts).
Proof.
  intros Hno. destruct shifts as [|s0 ss] eqn:Es; [reflexivity|]. rewrite <- Es in *.
  rewrite findNextShiftWindow_unfold by (rewrite Es; discriminate).
  change 14%nat with (S 13). rewrite searchDays_today.
  rewrite (dayWindows_noWeekday 0 Hno). cbn [firstEndingAfter].
  rewrite searchDays_future_empty; [now rewrite Es | lia |].
  intros j _. now apply dayWindows_noWeekday.
Qed.

End ResolverTotal.

(** ** The shift window resolver with the range written out *)

Section RangedResolver.

Variable cursor : DateTime.
Variable shifts : list Shift.

Lemma searchDays_ranged_window (n : nat) :
  forall d w,
    Ranged.searchDays cursor shifts d n = Some (Ok w) ->
    exists j v, In v (DateUtils.dayWindows cursor shifts j).
Proof.
  induction n as [|n IH]; intros d w H; simpl in H; [discriminate|].
  destruct (validInstant (plusDays cursor d)); [|now apply (IH (d + 1) w)].
  destruct (forallb Ranged.validBounds (DateUtils.dayWindows cursor shifts d));
    [|discriminate].
  destruct (DateUtils.dayWindows cursor shifts d) as [|w0 ws] eqn:E;
    [now apply (IH (d + 1) w)|].
  exists d, w0. rewrite E. now left.
Qed.

Lemma findNextShiftWindow_ranged_weekday (w : Interval) :
  Ranged.findNextShiftWindow cursor shifts = Some (Ok w) ->
  exists s, In s shifts /\ 0 <= dayOfWeek s <= 6.
Proof.
  unfold Ranged.findNextShiftWindow. intros H.
  destruct shifts as [|s0 ss] eqn:Es; [discriminate|]. rewrite <- Es in *.
  destruct (validInstant cursor); [|discriminate].
  destruct (searchDays_ranged_window 14 0 w H) as (k & v & Hv).
  destruct (dayWindows_In cursor shifts k v Hv) as (s & Hs & Hd & _).
  exists s. split; [exact Hs|]. rewrite Hd.
  pose proof (Z.mod_pos_bound (weekday (startOfDay (plusDays cursor k))) 7). lia.
Qed.

Lemma searchDays_ranged_noWeekday (n : nat) :
  noWeekday shifts ->
  forall d, Ranged.searchDays cursor shifts d n
            = Some (Throw "No shift window found in search horizon.").
Proof.
  intros Hno. induction n as [|n IH]; intros d; simpl; [reflexivity|].
  rewrite (dayWindows_noWeekday cursor shifts d Hno). cbn [forallb].
  destruct (validInstant (plusDays cursor d)); apply IH.
Qed.

Lemma findNextShiftWindow_ranged_noWeekday :
  validInstant cursor = true ->
  noWeekday shifts ->
  Ranged.findNextShiftWindow cursor shifts = Some (Throw (noWindowMessage shifts)).
Proof.
  intros Hc Hno. unfold Ranged.findNextShiftWindow, noWindowMessage.
  destruct shifts as [|s0 ss] eqn:Es; [reflexivity|]. rewrite <- Es in *.
  rewrite Hc. now apply searchDays_ranged_noWeekday.
Qed.

End RangedResolver.

(** X5. [findNextShiftWindow] returns a window only when the table has a
    shift on a day of the week (0 to 6), and it returns one whenever the table
    has such a shift and the fourteen days of the search and their windows
    are instants the date library represents; on a table without such a shift
    it throws, with the message for the empty table when the table is empty
    and the one for the search horizon otherwise. *)
Theorem findNextShiftWindow_total (cursor : DateTime) (shifts : list Shift) :
  ((exists w, Ranged.findNextShiftWindow cursor shifts = Some (Ok w)) ->
   exists s, In s shifts /\ 0 <= dayOfWeek s <= 6)
  /\ (searchInRange cursor shifts = true ->
      (exists s, In s shifts /\ 0 <= dayOfWeek s <= 6) ->
      exists w, Ranged.findNextShiftWindow cursor shifts = Some (Ok w))
  /\ (validInstant cursor = true ->
      (forall s, In s shifts -> ~ 0 <= dayOfWeek s <= 6) ->
      Ranged.findNextShiftWindow cursor shifts
      = Some (Throw (match shifts with
                     | [] => "No shifts defined for work center."
                     | _ => "No shift window found in search horizon."
                     end))).
Proof.
  split; [|split].
  - intros [w Hw]. now apply (findNextShiftWindow_ranged_weekday cursor shifts w).
  - intros Hr Hs. rewrite (findNextShiftWindow_ranged cursor shifts Hr).
    destruct (findNextShiftWindow_returns cursor shifts Hs) as [w Hw].
    exists w. now rewrite Hw.
  - intros Hc Hno. now apply findNextShiftWindow_ranged_noWeekday.
Qed.

Lemma findNextShiftWindow_total_witness :
  searchInRange (utc 2026 3 6 17 0) Scenarios.dayShift = true
  /\ exists w,
       Ranged.findNextShiftWindow (utc 2026 3 6 17 0) Scenarios.dayShift = Some (Ok w).
Proof.
  split; [vm_compute; reflexivity|].
  apply (proj1 (proj2 (findNextShiftWindow_total (utc 2026 3 6 17 0) Scenarios.dayShift))).
  - vm_compute. reflexivity.
  - exists (mkShift 1 8 17). split; [now left | simpl; lia].
Defined.



(** X7. The two revisions of the date utilities resolve shift windows alike:
    the interval of a shift on a day, the window found from a cursor and the
    next block of a segment are the same in both. *)
Theorem resolver_revisions_agree (cursor shiftEnd : DateTime) (shifts : list Shift)
    (shift : Shift) (blockedSorted : list Interval) :
  DateUtilsV1.shiftIntervalForDay cursor shift = DateUtils.shiftIntervalForDay cursor shift
  /\ DateUtilsV1.findNextShiftWindow cursor shifts
     = DateUtils.findNextShiftWindow cursor shifts
  /\ DateUtilsV1.nextBlock cursor shiftEnd blockedSorted
     = DateUtils.nextBlock cursor shiftEnd blockedSorted.
Proof.
  split; [reflexivity|]. split; [apply findNextShiftWindow_same|].
  induction blockedSorted as [|b bs IH]; [reflexivity|]. simpl. now rewrite IH.
Qed.

(** ** The span the allocator returns, for any blocked intervals *)

Section AllocatorBounds.

Import DateUtils.

Variable shifts : list Shift.
Variable bs : list Interval.

Lemma allocLoop_exit (fuel : nat) :
  forall st st', allocLoop fuel shifts bs st = Ok st' -> remaining st' <= 0.
Proof.
  induction fuel as [|fuel IH]; intros st st' H; simpl in H;
    destruct (remaining st >? 0) eqn:E; try discriminate.
  - injection H as <-. rewrite Z.gtb_ltb in E. apply Z.ltb_ge in E. exact E.
  - apply bind_Ok_inv in H. destruct H as (st1 & _ & H2). now apply (IH st1).
  - injection H as <-. rewrite Z.gtb_ltb in E. apply Z.ltb_ge in E. exact E.
Qed.

Lemma allocLoop_induct (P : LoopState -> Prop) :
  (forall st st', 0 < remaining st -> loopBody shifts bs st = Ok st' -> P st -> P st') ->
  forall fuel st st', allocLoop fuel shifts bs st = Ok st' -> P st -> P st'.
Proof.
  intros Hstep fuel. induction fuel as [|fuel IH]; intros st st' H HP; simpl in H.
  - destruct (remaining st >? 0); [discriminate | congruence].
  - destruct (remaining st >? 0) eqn:E; [|congruence].
    apply bind_Ok_inv in H. destruct H as (st1 & H1 & H2).
    apply (IH st1 st' H2). apply (Hstep st); auto.
    rewrite Z.gtb_ltb in E. now apply Z.ltb_lt.
Qed.

Variable lo : DateTime.
Variable d : Z.

Lemma loopBody_spanInv (st st' : LoopState) :
  (forall s, In s shifts -> 0 <= endHour s) ->
  0 < remaining st ->
  loopBody shifts bs st = Ok st' ->
  spanInv lo d st -> spanInv lo d st'.
Proof.
  intros shifts_ok Hrem H [Hc Hs].
  destruct (loopBody_inv shifts bs st st' H) as (w & Hw & Hcases).
  cbv zeta in Hcases.
  pose proof (findNextShiftWindow_end_after (cursor st) shifts w shifts_ok Hw) as Hend.
  pose proof (pushOutOfBlocked_ge (Z.max (cursor st) (start w)) bs) as Hpush.
  set (c3 := Z.max (pushOutOfBlocked (Z.max (cursor st) (start w)) bs) (start w)) in *.
  assert (Hc3 : cursor st <= c3) by lia.
  destruct Hcases as [[_ ->]|[(Hlt & _ & ->)|(Hlt & Hfree & ->)]];
    unfold spanInv; cbn [cursor remaining scheduledStart].
  - unfold plusMinutes, msPerMinute in *. destruct (scheduledStart st); lia.
  - pose proof (freeSegmentEnd_bounds c3 (end_ w) bs Hlt).
    unfold plusMinutes, msPerMinute in *. destruct (scheduledStart st); lia.
  - set (free := floorDiffMinutes
                   (freeSegmentEnd c3 (end_ w) (nextBlock c3 (end_ w) bs)) c3) in *.
    match goal with |- context [pushOutOfBlocked ?x bs] =>
      pose proof (pushOutOfBlocked_ge x bs) as Hp end.
    unfold plusMinutes, msPerMinute in *. destruct (scheduledStart st); lia.
Qed.

Lemma loopBody_startInv (st st' : LoopState) :
  (forall s, In s shifts -> hourShift s) ->
  loopBody shifts bs st = Ok st' ->
  startInv shifts d st -> startInv shifts d st'.
Proof.
  intros hours H Hs.
  destruct (loopBody_inv shifts bs st st' H) as (w & Hw & Hcases).
  cbv zeta in Hcases.
  pose proof (pushOutOfBlocked_ge (Z.max (cursor st) (start w)) bs) as Hpush.
  set (c3 := Z.max (pushOutOfBlocked (Z.max (cursor st) (start w)) bs) (start w)) in *.
  assert (Hin : c3 < end_ w -> inShift shifts c3 = true).
  { intros Hlt. apply (window_inside (cursor st) shifts w hours Hw). lia. }
  unfold startInv in *.
  destruct Hcases as [[_ ->]|[(Hlt & _ & ->)|(Hlt & Hfree & ->)]];
    cbn [cursor remaining scheduledStart]; destruct (scheduledStart st); auto.
Qed.

Lemma allocLoop_spanInv (fuel : nat) (st st' : LoopState) :
  (forall s, In s shifts -> 0 <= endHour s) ->
  allocLoop fuel shifts bs st = Ok st' ->
  spanInv lo d st -> spanInv lo d st' /\ remaining st' <= 0.
Proof.
  intros Hv H Hinv. split; [|now apply (allocLoop_exit fuel st)].
  apply (allocLoop_induct (spanInv lo d)) with (fuel := fuel) (st := st); auto.
  intros st0 st1 Hrem Hbody. now apply loopBody_spanInv.
Qed.

Lemma allocLoop_startInv (fuel : nat) (st st' : LoopState) :
  (forall s, In s shifts -> hourShift s) ->
  allocLoop fuel shifts bs st = Ok st' ->
  startInv shifts d st -> startInv shifts d st' /\ remaining st' <= 0.
Proof.
  intros Hh H Hinv. split; [|now apply (allocLoop_exit fuel st)].
  apply (allocLoop_induct (startInv shifts d)) with (fuel := fuel) (st := st); auto.
  intros st0 st1 _ Hbody. now apply loopBody_startInv.
Qed.

End AllocatorBounds.

(** X8. Whatever the blocked intervals, the span the allocator returns does
    not start before [startISO] and is at least as long as the minutes asked
    for: the end is [durationMinutes] minutes after the start or later. *)
Theorem scheduleWithShiftsAndBlocks_span_bounds (fuel : nat) (params : DateUtils.Params)
    (span : DateUtils.Span) :
  (forall s, In s (DateUtils.p_shifts params) -> 0 <= endHour s) ->
  DateUtils.scheduleWithShiftsAndBlocks fuel params = Ok span ->
  fromISO (DateUtils.p_startISO params) <= fromISO (DateUtils.startISO span)
  /\ fromISO (DateUtils.startISO span) + DateUtils.p_durationMinutes params * msPerMinute
     <= fromISO (DateUtils.endISO span).
Proof.
  intros Hv H. unfold DateUtils.scheduleWithShiftsAndBlocks in H.
  apply bind_Ok_inv in H. destruct H as (st & Hst & [= <-]). simpl.
  apply (allocLoop_spanInv _ _ (fromISO (DateUtils.p_startISO params))
           (DateUtils.p_durationMinutes params)) in Hst; [|exact Hv|].
  - destruct Hst as [[Hc Hs] Hexit]. unfold msPerMinute in *.
    destruct (DateUtils.scheduledStart st) as [s|]; lia.
  - split; simpl; [apply pushOutOfBlocked_ge | reflexivity].
Qed.

Lemma scheduleWithShiftsAndBlocks_span_bounds_witness :
  fromISO (DateUtils.p_startISO Cases.aroundMaintenance) <= utc 2026 3 3 9 30
  /\ utc 2026 3 3 9 30 + DateUtils.p_durationMinutes Cases.aroundMaintenance * msPerMinute
     <= utc 2026 3 3 15 30.
Proof.
  apply (scheduleWithShiftsAndBlocks_span_bounds 2 Cases.aroundMaintenance
           (DateUtils.mkSpan (toISO (utc 2026 3 3 9 30)) (toISO (utc 2026 3 3 15 30)))).
  - intros s Hs. pose proof (dayShift_hours s Hs) as Hh. unfold hourShift in Hh. lia.
  - vm_compute. reflexivity.
Defined.

(** X9. Whatever the blocked intervals, a call for a positive number of
    minutes returns a span whose start lies inside a shift window. *)
Theorem scheduleWithShiftsAndBlocks_start_in_shift (fuel : nat) (params : DateUtils.Params)
    (span : DateUtils.Span) :
  (forall s, In s (DateUtils.p_shifts params) -> hourShift s) ->
  0 < DateUtils.p_durationMinutes params ->
  DateUtils.scheduleWithShiftsAndBlocks fuel params = Ok span ->
  inShift (DateUtils.p_shifts params) (fromISO (DateUtils.startISO span)) = true.
Proof.
  intros Hh Hd H. unfold DateUtils.scheduleWithShiftsAndBlocks in H.
  apply bind_Ok_inv in H. destruct H as (st & Hst & [= <-]). simpl.
  apply (allocLoop_startInv _ _ (DateUtils.p_durationMinutes params)) in Hst;
    [|exact Hh|reflexivity].
  destruct Hst as [Hs Hexit]. unfold startInv in Hs.
  destruct (DateUtils.scheduledStart st) as [s|]; [exact Hs | lia].
Qed.

Lemma scheduleWithShiftsAndBlocks_start_in_shift_witness :
  inShift (DateUtils.p_shifts Cases.alongThreeBlocks) (utc 2026 3 2 10 0) = true.
Proof.
  apply (scheduleWithShiftsAndBlocks_start_in_shift 1 Cases.alongThreeBlocks
           (DateUtils.mkSpan (toISO (utc 2026 3 2 10 0)) (toISO (utc 2026 3 2 11 0)))).
  - apply dayShift_hours.
  - vm_compute. reflexivity.
  - vm_compute. reflexivity.
Defined.

(** ** The allocation loop comes to an end *)

Lemma minutesTo_step (h c c' : Z) :
  c + msPerMinute <= c' -> c < h ->
  Z.max 0 ((h - c' + (msPerMinute - 1)) / msPerMinute) + 1
  <= Z.max 0 ((h - c + (msPerMinute - 1)) / msPerMinute).
Proof. unfold msPerMinute. intros H1 H2. Z.div_mod_to_equations. lia. Qed.

Lemma minutesTo_past (h c : Z) :
  h <= c -> Z.max 0 ((h - c + (msPerMinute - 1)) / msPerMinute) = 0.
Proof. unfold msPerMinute. intros H1. Z.div_mod_to_equations. lia. Qed.

Lemma offMinute_bounds (c : Z) : 0 <= (if c mod msPerMinute =? 0 then 0 else 1) <= 1.
Proof. destruct (c mod msPerMinute =? 0); lia. Qed.

Lemma offMinute_aligned (c : Z) :
  aligned c -> (if c mod msPerMinute =? 0 then 0 else 1) = 0.
Proof. unfold aligned. intros ->. reflexivity. Qed.

Lemma offMinute_not_aligned (c : Z) :
  ~ aligned c -> (if c mod msPerMinute =? 0 then 0 else 1) = 1.
Proof.
  unfold aligned. intros H. destruct (c mod msPerMinute =? 0) eqn:E; [|reflexivity].
  apply Z.eqb_eq in E. contradiction.
Qed.

Lemma offMinute_plusMinutes (c m : Z) :
  (if plusMinutes c m mod msPerMinute =? 0 then 0 else 1)
  = (if c mod msPerMinute =? 0 then 0 else 1).
Proof. unfold plusMinutes. rewrite Z.mod_add by (unfold msPerMinute; lia). reflexivity. Qed.

Lemma lastEnd_ge (blocked : list Interval) (c : DateTime) :
  c <= lastEnd blocked c /\ forall b, In b blocked -> end_ b <= lastEnd blocked c.
Proof.
  induction blocked as [|b0 bs [IH1 IH2]]; simpl.
  - split; [lia | intros b []].
  - split; [lia|]. intros b [<-|Hb]; [lia|]. specialize (IH2 b Hb). lia.
Qed.

Section AllocatorTermination.

Import DateUtils.

Variable shifts : list Shift.
Variable bs : list Interval.
Variable h : DateTime.

Hypothesis hours : forall s, In s shifts -> hourShift s.
Hypothesis weekdayShift : exists s, In s shifts /\ 0 <= dayOfWeek s <= 6.
Hypothesis ends : forall b, In b bs -> end_ b <= h.

Lemma loopBody_returns (st : LoopState) : returns (loopBody shifts bs st).
Proof.
  destruct (findNextShiftWindow_returns (cursor st) shifts weekdayShift) as [w Hw].
  unfold loopBody. rewrite Hw, bind_Ok. cbv zeta.
  repeat match goal with
         | |- returns (if ?b then _ else _) => destruct b
         | |- returns (match ?x with Some _ => _ | None => _ end) => destruct x
         end; eexists; reflexivity.
Qed.

Lemma push_past (c : DateTime) : h <= c -> pushOutOfBlocked c bs = c.
Proof.
  intros Hc. destruct (pushOutOfBlocked_cases c bs) as [[Heq _]|(b & Hb & Hin & _)];
    [exact Heq|]. specialize (ends b Hb). lia.
Qed.

Lemma nextBlock_past (c e : DateTime) : h <= c -> nextBlock c e bs = None.
Proof.
  intros Hc. destruct (nextBlock c e bs) as [b|] eqn:E; [|reflexivity].
  apply nextBlock_Some in E. destruct E as (Hb & Hlt & _). specialize (ends b Hb). lia.
Qed.

Lemma window_minutes (c : DateTime) (w : Interval) :
  findNextShiftWindow c shifts = Ok w ->
  aligned (end_ w) /\ (start w = c \/ aligned (start w)).
Proof.
  intros Hw. destruct (found_window c shifts w hours Hw) as (k & w0 & Hk & Hin & Hst & Hen & _).
  apply dayWindows_In in Hin. destruct Hin as (s & _ & _ & ->).
  rewrite Hst, Hen. simpl. split; [apply aligned_setHour|].
  destruct (Z.max_spec c (setHour (startOfDay (plusDays c k)) (startHour s)))
    as [[_ ->]|[_ ->]]; [right; apply aligned_setHour | now left].
Qed.

Lemma loopBody_roundsLeft (st st' : LoopState) :
  0 < remaining st ->
  loopBody shifts bs st = Ok st' ->
  roundsLeft h st' + 1 <= roundsLeft h st.
Proof.
  intros Hrem H.
  destruct (loopBody_inv shifts bs st st' H) as (w & Hw & Hcases).
  cbv zeta in Hcases.
  pose proof (window_after (cursor st) shifts w hours Hw) as Hwa.
  destruct (window_minutes (cursor st) w Hw) as [Hae Has].
  replace (Z.max (cursor st) (start w)) with (start w) in Hcases by lia.
  pose proof (pushOutOfBlocked_ge (start w) bs) as Hpush.
  replace (Z.max (pushOutOfBlocked (start w) bs) (start w))
    with (pushOutOfBlocked (start w) bs) in Hcases by lia.
  set (c3 := pushOutOfBlocked (start w) bs) in *.
  set (freeEnd := freeSegmentEnd c3 (end_ w) (nextBlock c3 (end_ w) bs)) in *.
  set (free := floorDiffMinutes freeEnd c3) in *.
  unfold roundsLeft.
  pose proof (offMinute_bounds (cursor st)) as HU.
  pose proof (offMinute_bounds (cursor st')) as HU'.
  destruct (Z_lt_le_dec (cursor st) h) as [Hlt|Hge].
  - (* before the last block end: the cursor gains a minute or more *)
    assert (Hgain : cursor st + msPerMinute <= cursor st' /\ remaining st' <= remaining st).
    { destruct Hcases as [[Hle ->]|[(Hlt3 & _ & ->)|(Hlt3 & Hfree & ->)]];
        cbn [cursor remaining].
      - unfold plusMinutes, msPerMinute. lia.
      - pose proof (freeSegmentEnd_bounds c3 (end_ w) bs Hlt3). fold freeEnd in H0.
        unfold plusMinutes, msPerMinute. lia.
      - match goal with |- context [pushOutOfBlocked ?x bs] =>
          pose proof (pushOutOfBlocked_ge x bs) as Hp end.
        unfold plusMinutes, msPerMinute in *. lia. }
    destruct Hgain as [Hg1 Hg2].
    pose proof (minutesTo_step h (cursor st) (cursor st') Hg1 Hlt). lia.
  - (* past every block: nothing pushes the cursor any more *)
    assert (Hc3 : c3 = start w) by (apply push_past; lia).
    rewrite (minutesTo_past h (cursor st)) by lia.
    assert (Hnb : nextBlock c3 (end_ w) bs = None) by (apply nextBlock_past; lia).
    assert (HfreeEnd : freeEnd = end_ w) by (unfold freeEnd; rewrite Hnb; reflexivity).
    destruct Hcases as [[Hle ->]|[(Hlt3 & Hfree & ->)|(Hlt3 & Hfree & ->)]];
      cbn [cursor remaining] in *.
    + lia.
    + assert (Hna : ~ aligned c3).
      { intros Ha. destruct (aligned_gap c3 (end_ w) Ha Hae Hlt3) as [Hpos _].
        unfold free in Hfree. rewrite HfreeEnd in Hfree. lia. }
      assert (Hcur : start w = cursor st).
      { destruct Has as [Hs|Hs]; [exact Hs|]. rewrite Hc3 in Hna. contradiction. }
      rewrite (offMinute_not_aligned (cursor st)) by (rewrite <- Hcur, <- Hc3; exact Hna).
      rewrite offMinute_plusMinutes, HfreeEnd, (offMinute_aligned (end_ w) Hae).
      rewrite minutesTo_past by (unfold plusMinutes, msPerMinute; lia). lia.
    + set (used := Z.min (remaining st) free) in *.
      assert (Hused : 1 <= used) by (unfold used; lia).
      rewrite push_past in * by (unfold plusMinutes, msPerMinute; lia).
      rewrite offMinute_plusMinutes.
      rewrite minutesTo_past by (unfold plusMinutes, msPerMinute; lia).
      assert (HU3 : (if c3 mod msPerMinute =? 0 then 0 else 1)
                    <= (if cursor st mod msPerMinute =? 0 then 0 else 1)).
      { rewrite Hc3. destruct Has as [->|Ha]; [lia|]. rewrite (offMinute_aligned _ Ha). lia. }
      lia.
Qed.

Lemma allocLoop_returns (fuel : nat) :
  forall st, roundsLeft h st <= Z.of_nat fuel -> returns (allocLoop fuel shifts bs st).
Proof.
  induction fuel as [|fuel IH]; intros st Hle.
  - rewrite allocLoop_done; [eexists; reflexivity|].
    unfold roundsLeft in Hle. pose proof (offMinute_bounds (cursor st)). lia.
  - destruct (Z_lt_le_dec 0 (remaining st)) as [Hpos|Hdone];
      [|rewrite allocLoop_done by exact Hdone; eexists; reflexivity].
    cbn [allocLoop]. replace (remaining st >? 0) with true
      by (symmetry; rewrite Z.gtb_ltb; now apply Z.ltb_lt).
    destruct (loopBody_returns st) as [st1 H1]. rewrite H1, bind_Ok.
    apply IH. pose proof (loopBody_roundsLeft st st1 Hpos H1). lia.
Qed.

End AllocatorTermination.

Lemma allocator_rounds (params : DateUtils.Params) :
  (forall s, In s (DateUtils.p_shifts params) -> hourShift s) ->
  (exists s, In s (DateUtils.p_shifts params) /\ 0 <= dayOfWeek s <= 6) ->
  returns (DateUtils.scheduleWithShiftsAndBlocks (roundsBound params) params).
Proof.
  intros Hh Hw. set (fuel := roundsBound params).
  assert (Hfuel : (roundsBound params <= fuel)%nat) by apply Nat.le_refl.
  set (s := fromISO (DateUtils.p_startISO params)).
  set (h := lastEnd (DateUtils.p_blocked params) s).
  destruct (lastEnd_ge (DateUtils.p_blocked params) s) as [Hs Hends]. fold h in Hs, Hends.
  unfold DateUtils.scheduleWithShiftsAndBlocks. cbv zeta. fold s.
  destruct (allocLoop_returns (DateUtils.p_shifts params)
              (sortIntervals (DateUtils.p_blocked params)) h Hh Hw
              ltac:(intros b Hb; apply Hends; now apply sortIntervals_In)
              fuel
              (DateUtils.mkLoopState
                 (pushOutOfBlocked s (sortIntervals (DateUtils.p_blocked params)))
                 (DateUtils.p_durationMinutes params) None)) as [st Hst].
  - unfold roundsLeft. cbn [DateUtils.cursor DateUtils.remaining].
    pose proof (pushOutOfBlocked_ge s (sortIntervals (DateUtils.p_blocked params))) as Hp.
    pose proof (offMinute_bounds
                  (pushOutOfBlocked s (sortIntervals (DateUtils.p_blocked params)))) as HU.
    assert (HT : Z.max 0
                   ((h - pushOutOfBlocked s (sortIntervals (DateUtils.p_blocked params))
                     + (msPerMinute - 1)) / msPerMinute)
                 <= (h - s) / msPerMinute + 1).
    { unfold msPerMinute. Z.div_mod_to_equations. lia. }
    unfold roundsBound in Hfuel. fold s h in Hfuel.
    assert (0 <= (h - s) / msPerMinute).
    { apply Z.div_pos; [lia | unfold msPerMinute; lia]. }
    lia.
  - rewrite Hst, bind_Ok. eexists. reflexivity.
Qed.

(** ** The allocator with the range written out *)

(** The round of the loop of [DateUtils] is the search followed by the rest
    of the round. *)
Lemma loopBody_restOfRound (shifts : list Shift) (blockedSorted : list Interval)
    (st : DateUtils.LoopState) :
  DateUtils.loopBody shifts blockedSorted st
  = bind (DateUtils.findNextShiftWindow (DateUtils.cursor st) shifts)
      (fun w => Ok (Ranged.restOfRound w blockedSorted st)).
Proof.
  unfold DateUtils.loopBody, Ranged.restOfRound.
  destruct (DateUtils.findNextShiftWindow (DateUtils.cursor st) shifts) as [w|m|];
    [|reflexivity|reflexivity].
  cbn [bind]. cbv zeta.
  repeat match goal with
         | |- context [if ?c then _ else _] => destruct c
         | |- context [match ?x with Some _ => _ | None => _ end] => destruct x
         end; reflexivity.
Qed.

Lemma loopBody_ranged (shifts : list Shift) (blockedSorted : list Interval)
    (st : DateUtils.LoopState) :
  searchInRange (DateUtils.cursor st) shifts = true ->
  Ranged.loopBody shifts blockedSorted st
  = Some (DateUtils.loopBody shifts blockedSorted st).
Proof.
  intros H. unfold Ranged.loopBody.
  rewrite (findNextShiftWindow_ranged _ _ H), loopBody_restOfRound.
  now apply andThen_Some.
Qed.

Lemma allocLoop_ranged (shifts : list Shift) (blockedSorted : list Interval) (fuel : nat) :
  forall st,
    forallb (fun c => searchInRange c shifts) (searchedFrom fuel shifts blockedSorted st)
    = true ->
    Ranged.allocLoop fuel shifts blockedSorted st
    = Some (DateUtils.allocLoop fuel shifts blockedSorted st).
Proof.
  induction fuel as [|fuel IH]; intros st H; simpl in *;
    destruct (DateUtils.remaining st >? 0); try reflexivity.
  cbn [forallb] in H. apply andb_true_iff in H. destruct H as [Hc H].
  rewrite (loopBody_ranged _ _ _ Hc). apply andThen_Some. intros st' E.
  rewrite E in H. now apply IH.
Qed.

Lemma scheduleWithShiftsAndBlocks_ranged (fuel : nat) (params : DateUtils.Params) :
  allocatorInRange fuel params = true ->
  Ranged.scheduleWithShiftsAndBlocks fuel params
  = Some (DateUtils.scheduleWithShiftsAndBlocks fuel params).
Proof.
  unfold allocatorInRange. intros H. apply andb_true_iff in H. destruct H as [H1 H2].
  unfold Ranged.scheduleWithShiftsAndBlocks, DateUtils.scheduleWithShiftsAndBlocks.
  cbv zeta. rewrite H1, (allocLoop_ranged _ _ _ _ H2). now apply andThen_Some.
Qed.

(** X10. On a shift table with hours as the data model has them and a shift
    on some day of the week, the allocator returns a span for every start,
    every duration and every list of blocked intervals for which the run
    stays among the instants the date library represents
    ([allocatorInRange]): it neither throws nor runs on for ever, and the
    rounds of its loop number at most the minutes asked for, plus two for
    each minute from the start to the last end of a blocked interval, plus
    three. *)
Theorem scheduleWithShiftsAndBlocks_returns (fuel : nat) (params : DateUtils.Params) :
  (forall s, In s (DateUtils.p_shifts params) -> hourShift s) ->
  (exists s, In s (DateUtils.p_shifts params) /\ 0 <= dayOfWeek s <= 6) ->
  (roundsBound params <= fuel)%nat ->
  allocatorInRange fuel params = true ->
  exists span, Ranged.scheduleWithShiftsAndBlocks fuel params = Some (Ok span).
Proof.
  intros Hh Hw Hfuel Hr. rewrite (scheduleWithShiftsAndBlocks_ranged fuel params Hr).
  destruct (allocator_rounds params Hh Hw) as [span Hspan].
  exists span. f_equal.
  rewrite (scheduleWithShiftsAndBlocks_fuel (roundsBound params) fuel params Hfuel);
    [exact Hspan | congruence].
Qed.

Lemma scheduleWithShiftsAndBlocks_returns_witness :
  exists span,
    Ranged.scheduleWithShiftsAndBlocks 603 Cases.aroundMaintenance = Some (Ok span).
Proof.
  apply (scheduleWithShiftsAndBlocks_returns 603 Cases.aroundMaintenance).
  - apply dayShift_hours.
  - exists (mkShift 1 8 17). split; [now left | simpl; lia].
  - apply Nat.leb_le. vm_compute. reflexivity.
  - vm_compute. reflexivity.
Defined.

(** ** What the allocator throws *)

Section AllocatorThrows.

Import DateUtils.

Variable shifts : list Shift.
Variable bs : list Interval.

Lemma loopBody_Throw (st : LoopState) (msg : string) :
  loopBody shifts bs st = Throw msg -> findNextShiftWindow (cursor st) shifts = Throw msg.
Proof.
  unfold loopBody. destruct (findNextShiftWindow (cursor st) shifts) as [w|m|];
    [|now intros [= ->]|discriminate].
  rewrite bind_Ok. cbv zeta.
  repeat match goal with
         | |- (if ?b then _ else _) = _ -> _ => destruct b
         | |- (match ?x with Some _ => _ | None => _ end) = _ -> _ => destruct x
         end; discriminate.
Qed.

Lemma allocLoop_Throw (fuel : nat) (msg : string) :
  forall st, allocLoop fuel shifts bs st = Throw msg ->
             0 < remaining st /\ exists c, findNextShiftWindow c shifts = Throw msg.
Proof.
  induction fuel as [|fuel IH]; intros st H; simpl in H;
    destruct (remaining st >? 0) eqn:E; try discriminate.
  rewrite Z.gtb_ltb in E. apply Z.ltb_lt in E. split; [exact E|].
  destruct (loopBody shifts bs st) as [st1|m|] eqn:E1; [| |discriminate].
  - rewrite bind_Ok in H. now destruct (IH st1 H).
  - simpl in H. injection H as ->. exists (cursor st). now apply loopBody_Throw.
Qed.

End AllocatorThrows.

Lemma allocator_Throw (fuel : nat) (params : DateUtils.Params) (msg : string) :
  DateUtils.scheduleWithShiftsAndBlocks fuel params = Throw msg ->
  0 < DateUtils.p_durationMinutes params
  /\ noWeekday (DateUtils.p_shifts params)
  /\ msg = noWindowMessage (DateUtils.p_shifts params).
Proof.
  intros H. unfold DateUtils.scheduleWithShiftsAndBlocks in H. cbv zeta in H.
  match type of H with bind ?r _ = _ => destruct r as [st|m|] eqn:E end;
    [discriminate | | discriminate].
  simpl in H. injection H as ->.
  apply allocLoop_Throw in E. destruct E as (Hd & c & Hc). cbn in Hd.
  assert (Hno : noWeekday (DateUtils.p_shifts params)).
  { intros s Hs Hday.
    destruct (findNextShiftWindow_returns c (DateUtils.p_shifts params)) as [w Hw];
      [now exists s | congruence]. }
  split; [exact Hd|]. split; [exact Hno|].
  rewrite (findNextShiftWindow_noWeekday c _ Hno) in Hc. now injection Hc.
Qed.

Section RangedAllocator.

Lemma pushOutOfBlocked_valid (c : DateTime) (blocked : list Interval) :
  validInstant c = true ->
  forallb Ranged.validBounds blocked = true ->
  validInstant (pushOutOfBlocked c blocked) = true.
Proof.
  intros Hc Hb. destruct (pushOutOfBlocked_cases c blocked) as [[-> _]|(b & Hin & _ & ->)];
    [exact Hc|].
  rewrite forallb_forall in Hb. apply Hb in Hin. unfold Ranged.validBounds in Hin.
  now apply andb_true_iff in Hin.
Qed.

Lemma scheduleWithShiftsAndBlocks_ranged_Throw (fuel : nat) (params : DateUtils.Params)
    (msg : string) :
  Ranged.scheduleWithShiftsAndBlocks fuel params = Some (Throw msg) ->
  0 < DateUtils.p_durationMinutes params.
Proof.
  unfold Ranged.scheduleWithShiftsAndBlocks. cbv zeta. intros H.
  destruct (validInstant (fromISO (DateUtils.p_startISO params))
            && forallb Ranged.validBounds (DateUtils.p_blocked params)); [|discriminate].
  destruct (DateUtils.p_durationMinutes params >? 0) eqn:E.
  - rewrite Z.gtb_ltb in E. now apply Z.ltb_lt.
  - exfalso. destruct fuel; simpl in H; rewrite E in H; discriminate.
Qed.

Lemma scheduleWithShiftsAndBlocks_ranged_noWeekday (fuel : nat) (params : DateUtils.Params) :
  0 < DateUtils.p_durationMinutes params ->
  noWeekday (DateUtils.p_shifts params) ->
  validInstant (fromISO (DateUtils.p_startISO params)) = true ->
  forallb Ranged.validBounds (DateUtils.p_blocked params) = true ->
  Ranged.scheduleWithShiftsAndBlocks (S fuel) params
  = Some (Throw (noWindowMessage (DateUtils.p_shifts params))).
Proof.
  intros Hd Hno Hs Hb. unfold Ranged.scheduleWithShiftsAndBlocks. cbv zeta.
  rewrite Hs, Hb. cbn [andb Ranged.allocLoop DateUtils.remaining].
  replace (DateUtils.p_durationMinutes params >? 0) with true
    by (symmetry; rewrite Z.gtb_ltb; now apply Z.ltb_lt).
  unfold Ranged.loopBody. cbn [DateUtils.cursor].
  rewrite findNextShiftWindow_ranged_noWeekday; [reflexivity | | exact Hno].
  apply pushOutOfBlocked_valid; [exact Hs|].
  apply forallb_forall. intros b Hin. rewrite sortIntervals_In in Hin.
  rewrite forallb_forall in Hb. now apply Hb.
Qed.

End RangedAllocator.

(** X11. The allocator throws only on a call for a positive number of
    minutes. A call whose run stays among the instants the date library
    represents ([allocatorInRange]) throws only when the shift table has no
    shift on a day of the week, and then the error of the shift search: for
    the empty table the one that names the missing shifts, otherwise the one
    of the search horizon. And the allocator throws that error on every
    call for a positive number of minutes on such a table, from a start and
    with blocked intervals that the library represents, in its first round. *)
Theorem scheduleWithShiftsAndBlocks_throws (fuel : nat) (params : DateUtils.Params) :
  (forall msg,
      Ranged.scheduleWithShiftsAndBlocks fuel params = Some (Throw msg) ->
      0 < DateUtils.p_durationMinutes params)
  /\ (forall msg,
        Ranged.scheduleWithShiftsAndBlocks fuel params = Some (Throw msg) ->
        allocatorInRange fuel params = true ->
        noWeekday (DateUtils.p_shifts params)
        /\ msg = noWindowMessage (DateUtils.p_shifts params))
  /\ (0 < DateUtils.p_durationMinutes params ->
      noWeekday (DateUtils.p_shifts params) ->
      validInstant (fromISO (DateUtils.p_startISO params)) = true ->
      forallb Ranged.validBounds (DateUtils.p_blocked params) = true ->
      Ranged.scheduleWithShiftsAndBlocks (S fuel) params
      = Some (Throw (noWindowMessage (DateUtils.p_shifts params)))).
Proof.
  split; [|split].
  - intros msg H. now apply (scheduleWithShiftsAndBlocks_ranged_Throw fuel params msg).
  - intros msg H Hr. rewrite (scheduleWithShiftsAndBlocks_ranged fuel params Hr) in H.
    injection H as H.
    now destruct (allocator_Throw fuel params msg H) as (_ & Hno & Hm).
  - apply scheduleWithShiftsAndBlocks_ranged_noWeekday.
Qed.

Lemma scheduleWithShiftsAndBlocks_throws_witness :
  Ranged.scheduleWithShiftsAndBlocks 1 FurtherCases.sundayAsSeven
  = Some (Throw "No shift window found in search horizon.")
  /\ allocatorInRange 1 FurtherCases.sundayAsSeven = true
  /\ noWeekday (DateUtils.p_shifts FurtherCases.sundayAsSeven).
Proof.
  assert (Hrun : Ranged.scheduleWithShiftsAndBlocks 1 FurtherCases.sundayAsSeven
                 = Some (Throw "No shift window found in search horizon."))
    by (vm_compute; reflexivity).
  assert (Hin : allocatorInRange 1 FurtherCases.sundayAsSeven = true)
    by (vm_compute; reflexivity).
  split; [exact Hrun|]. split; [exact Hin|].
  exact (proj1 (proj1 (proj2 (scheduleWithShiftsAndBlocks_throws 1
                                FurtherCases.sundayAsSeven))
                  _ Hrun Hin)).
Defined.

(** Out of the range the allocator throws on a table with shifts on the days
    of the week as well: two hours of work asked for on the last Friday of the
    range at 16:00 get their first hour, and the search for the second finds
    no shift, the days after the Friday being past the range. *)
Lemma lastFridayAfternoon_throws :
  Ranged.scheduleWithShiftsAndBlocks 2 FurtherCases.lastFridayAfternoon
  = Some (Throw "No shift window found in search horizon.")
  /\ allocatorInRange 2 FurtherCases.lastFridayAfternoon = false
  /\ exists s, In s (DateUtils.p_shifts FurtherCases.lastFridayAfternoon)
               /\ 0 <= dayOfWeek s <= 6.
Proof.
  split; [vm_compute; reflexivity|]. split; [vm_compute; reflexivity|].
  exists (mkShift 1 8 17). split; [now left | simpl; lia].
Qed.

(** ** The dependency graph and its counts *)

Section Counts.

Variable edges : list (string * string).

Lemma mem_In (x : string) (l : list string) : mem x l = true <-> In x l.
Proof.
  unfold mem. rewrite existsb_exists. split.
  - intros (y & Hy & He). apply String.eqb_eq in He. now subst.
  - intros H. exists x. split; [exact H | apply String.eqb_refl].
Qed.

Lemma mem_false (x : string) (l : list string) : mem x l = false <-> ~ In x l.
Proof. rewrite <- mem_In. destruct (mem x l); split; congruence. Qed.

Lemma mem_app (x : string) (l1 l2 : list string) : mem x (l1 ++ l2) = mem x l1 || mem x l2.
Proof. unfold mem. apply existsb_app. Qed.

Lemma pending_nonneg (acc : list string) (x : string) : 0 <= pending edges acc x.
Proof. unfold pending. lia. Qed.

Lemma pending_zero (acc : list string) (x : string) :
  pending edges acc x = 0 <-> forall p, In (p, x) edges -> In p acc.
Proof.
  unfold pending. induction edges as [|[p c] es IH]; simpl.
  - split; [intros _ p [] | reflexivity].
  - destruct (String.eqb c x) eqn:Ec; simpl.
    + apply String.eqb_eq in Ec. subst c. destruct (mem p acc) eqn:Em; simpl.
      * rewrite IH. apply mem_In in Em. split.
        -- intros H q [[= <-]|Hq]; auto.
        -- intros H q Hq. apply H. now right.
      * apply mem_false in Em. split; [lia|]. intros H. exfalso. apply Em, H. now left.
    + apply String.eqb_neq in Ec. rewrite IH. split.
      * intros H q [[= _ Hc]|Hq]; [contradiction | auto].
      * intros H q Hq. apply H. now right.
Qed.

Lemma pending_pop (acc : list string) (id x : string) :
  ~ In id acc ->
  pending edges acc x
  = pending edges (acc ++ [id]) x
    + Z.of_nat (count_occ string_dec (childrenOf edges id) x).
Proof.
  intros Hid. unfold pending, childrenOf.
  induction edges as [|[p c] es IH]; [reflexivity|]. cbn [filter fst snd].
  rewrite mem_app. cbn [mem existsb]. rewrite orb_false_r.
  destruct (String.eqb p id) eqn:Ep.
  - apply String.eqb_eq in Ep. subst p.
    replace (mem id acc) with false by (symmetry; now apply mem_false).
    cbn [negb orb andb]. rewrite andb_true_r, andb_false_r. cbn [map snd count_occ].
    destruct (String.eqb c x) eqn:Ec.
    + apply String.eqb_eq in Ec. subst c. destruct (string_dec x x); [|contradiction].
      cbn [List.length]. lia.
    + apply String.eqb_neq in Ec. destruct (string_dec c x); [contradiction|]. exact IH.
  - rewrite orb_false_r.
    destruct (String.eqb c x && negb (mem p acc)); cbn [List.length]; lia.
Qed.

Lemma pending_grow (acc : list string) (id x : string) :
  pending edges (acc ++ [id]) x <= pending edges acc x.
Proof.
  unfold pending. induction edges as [|[p c] es IH]; [reflexivity|]. cbn [filter fst snd].
  rewrite mem_app.
  destruct (String.eqb c x); destruct (mem p acc); destruct (mem p [id]);
    cbn [negb orb andb List.length]; lia.
Qed.

Lemma childrenOf_In (p c : string) : In c (childrenOf edges p) <-> In (p, c) edges.
Proof.
  unfold childrenOf. rewrite in_map_iff. split.
  - intros ([p' c'] & <- & H). apply filter_In in H. destruct H as [H He].
    apply String.eqb_eq in He. simpl in *. now subst.
  - intros H. exists (p, c). split; [reflexivity|]. apply filter_In. split; [exact H|].
    apply String.eqb_refl.
Qed.

End Counts.

Lemma pending_app_edge (edges : list (string * string)) (p c x : string) :
  pending (edges ++ [(p, c)]) [] x = pending edges [] x + (if String.eqb c x then 1 else 0).
Proof.
  unfold pending. rewrite filter_app, length_app. cbn [filter fst snd mem existsb negb].
  rewrite andb_true_r. destruct (String.eqb c x); cbn [List.length]; lia.
Qed.

Lemma childrenOf_app_edge (edges : list (string * string)) (p c q : string) :
  childrenOf (edges ++ [(p, c)]) q
  = childrenOf edges q ++ (if String.eqb p q then [c] else []).
Proof.
  unfold childrenOf. rewrite filter_app, map_app. cbn [filter fst snd].
  destruct (String.eqb p q); reflexivity.
Qed.

Lemma before_In (ids : list string) (p c : string) : before ids p c -> In p ids /\ In c ids.
Proof.
  intros (l1 & l2 & -> & Hp). split; apply in_or_app; [now left | right; now left].
Qed.

Lemma before_app (ids more : list string) (p c : string) :
  before ids p c -> before (ids ++ more) p c.
Proof.
  intros (l1 & l2 & -> & Hp). exists l1, (l2 ++ more). split; [|exact Hp].
  now rewrite <- app_assoc.
Qed.

Lemma split_unique (b : string) (l1 : list string) :
  forall l2 n1 n2,
    NoDup (l1 ++ b :: l2) -> l1 ++ b :: l2 = n1 ++ b :: n2 -> l1 = n1.
Proof.
  induction l1 as [|x l1 IH]; intros l2 n1 n2 Hnd E.
  - destruct n1 as [|y n1]; [reflexivity|]. exfalso.
    simpl in E, Hnd. injection E as Hy E. apply NoDup_cons_iff in Hnd.
    destruct Hnd as [Hnot _]. apply Hnot. rewrite E. apply in_or_app. right. now left.
  - simpl in Hnd. apply NoDup_cons_iff in Hnd. destruct Hnd as [Hnot Hnd].
    destruct n1 as [|y n1].
    + exfalso. simpl in E. injection E as Hx E. apply Hnot. rewrite Hx.
      apply in_or_app. right. now left.
    + simpl in E. injection E as Hx E. rewrite Hx. f_equal. now apply (IH l2 n1 n2).
Qed.

Lemma before_trans (ids : list string) (a b c : string) :
  NoDup ids -> before ids a b -> before ids b c -> before ids a c.
Proof.
  intros Hnd (l1 & l2 & E1 & Ha) (m1 & m2 & E2 & Hb).
  exists m1, m2. split; [exact E2|].
  apply in_split in Hb. destruct Hb as (n1 & n2 & ->).
  rewrite E1 in E2, Hnd. rewrite <- app_assoc in E2. cbn [app] in E2.
  rewrite (split_unique b l1 l2 n1 (n2 ++ c :: m2) Hnd E2) in Ha.
  apply in_or_app. now left.
Qed.

Lemma before_irrefl (ids : list string) (c : string) : NoDup ids -> ~ before ids c c.
Proof.
  intros Hnd (l1 & l2 & -> & Hc). apply NoDup_remove_2 in Hnd. apply Hnd.
  apply in_or_app. now left.
Qed.

(** ** The loop that drains the queue *)

Section KahnRounds.

Import Dag.

Variable nodes : list string.
Variable edges : list (string * string).
Variable adj : JsMap.t (list string).

Hypothesis adj_ok : forall q, In q nodes -> JsMap.get adj q = Some (childrenOf edges q).
Hypothesis children_ok : forall p c, In (p, c) edges -> In c nodes.

Lemma relax_counts (acc : list string) (children : list string) :
  forall inDegree queue inDegree' queue',
    relax children inDegree queue = (inDegree', queue') ->
    (forall x, degreeOf inDegree x
               = pending edges acc x + Z.of_nat (count_occ string_dec children x)) ->
    (forall x, degreeOf inDegree' x = pending edges acc x)
    /\ (forall x, In x queue' -> In x queue \/ pending edges acc x = 0)
    /\ (exists new, queue' = queue ++ new)
    /\ (forall x, degreeOf inDegree' x = 0 -> degreeOf inDegree x = 0 \/ In x queue').
Proof.
  induction children as [|child rest IH]; intros inDegree queue inDegree' queue' H Hpre;
    simpl in H.
  - injection H as <- <-. split; [|split; [|split]].
    + intros x. rewrite Hpre. simpl. lia.
    + intros x Hx. now left.
    + exists []. now rewrite app_nil_r.
    + intros x Hx. now left.
  - fold (degreeOf inDegree child) in H. rewrite get_set_same in H.
    set (inDegree1 := JsMap.set inDegree child (degreeOf inDegree child - 1)) in *.
    assert (Hother : forall x, x <> child -> degreeOf inDegree1 x = degreeOf inDegree x).
    { intros x Hx. apply degreeOf_set_other. congruence. }
    assert (Hsame : degreeOf inDegree1 child = degreeOf inDegree child - 1)
      by apply degreeOf_set_same.
    assert (Hpre1 : forall x, degreeOf inDegree1 x
                              = pending edges acc x
                                + Z.of_nat (count_occ string_dec rest x)).
    { intros x. destruct (string_dec child x) as [<-|Hne].
      - rewrite Hsame, Hpre. rewrite count_occ_cons_eq by reflexivity. lia.
      - rewrite Hother by congruence. rewrite Hpre.
        rewrite count_occ_cons_neq by exact Hne. reflexivity. }
    destruct (Z.eq_dec (degreeOf inDegree child - 1) 0) as [Hz|Hnz].
    + rewrite Hz in H.
      destruct (IH inDegree1 (queue ++ [child]) inDegree' queue' H Hpre1)
        as (H1 & H2 & (new & H3) & H4).
      split; [exact H1|]. split; [|split].
      * intros x Hx. destruct (H2 x Hx) as [Hq|Hp]; [|now right].
        apply in_app_iff in Hq. destruct Hq as [Hq|[<-|[]]]; [now left|]. right.
        specialize (Hpre1 child). rewrite Hsame, Hz in Hpre1.
        pose proof (pending_nonneg edges acc child). lia.
      * exists ([child] ++ new). now rewrite app_assoc.
      * intros x Hx. destruct (H4 x Hx) as [Hd|Hq]; [|now right].
        destruct (string_dec x child) as [->|Hne].
        -- right. rewrite H3. apply in_or_app. left. apply in_or_app. right. now left.
        -- left. now rewrite <- Hother.
    + assert (H' : relax rest inDegree1 queue = (inDegree', queue')).
      { destruct (degreeOf inDegree child - 1); [congruence | exact H | exact H]. }
      destruct (IH inDegree1 queue inDegree' queue' H' Hpre1) as (H1 & H2 & H3 & H4).
      split; [exact H1|]. split; [exact H2|]. split; [exact H3|].
      intros x Hx. destruct (H4 x Hx) as [Hd|Hq]; [|now right].
      destruct (string_dec x child) as [->|Hne]; [lia|]. left. now rewrite <- Hother.
Qed.

Lemma kahn_round (inDegree inDegree' : JsMap.t Z) (id : string)
    (queue queue' acc : list string) :
  kahnInv nodes edges inDegree (id :: queue) acc ->
  relax (childrenOf edges id) inDegree queue = (inDegree', queue') ->
  kahnInv nodes edges inDegree' queue' (acc ++ [id]).
Proof.
  intros (Hnd & Hincl & Hdeg & Hq & Hord & Hzero) Hr.
  assert (Hassoc : acc ++ id :: queue = (acc ++ [id]) ++ queue)
    by (rewrite <- app_assoc; reflexivity).
  assert (Hid : ~ In id acc).
  { apply NoDup_remove_2 in Hnd. intros H. apply Hnd. apply in_or_app. now left. }
  assert (Hacc : forall x, In x acc -> pending edges acc x = 0).
  { intros x Hx. apply pending_zero. intros p Hp.
    now destruct (before_In acc p x (Hord x p Hx Hp)). }
  destruct (relax_inv (childrenOf edges id) inDegree queue (acc ++ [id]) inDegree' queue' Hr)
    as (N1 & _ & N3).
  { now rewrite <- Hassoc. }
  { intros x Hx. rewrite <- Hassoc in Hx. rewrite Hdeg.
    apply in_app_iff in Hx. destruct Hx as [Hx|Hx]; [rewrite (Hacc x Hx) | rewrite (Hq x Hx)];
      lia. }
  destruct (relax_counts (acc ++ [id]) (childrenOf edges id) inDegree queue inDegree' queue' Hr)
    as (C1 & C2 & (new & C3) & C4).
  { intros x. rewrite Hdeg. now apply pending_pop. }
  split; [exact N1|]. split; [|split; [exact C1|split; [|split]]].
  - intros x Hx. apply in_app_iff in Hx. destruct Hx as [Hx|Hx].
    + apply Hincl. rewrite Hassoc. apply in_or_app. now left.
    + destruct (N3 x Hx) as [Hx'|Hx'].
      * apply Hincl. rewrite Hassoc. apply in_or_app. now right.
      * apply childrenOf_In in Hx'. now apply (children_ok id x).
  - intros x Hx. destruct (C2 x Hx) as [Hx'|Hx']; [|exact Hx'].
    pose proof (pending_grow edges acc id x). pose proof (pending_nonneg edges (acc ++ [id]) x).
    specialize (Hq x (or_intror Hx')). lia.
  - intros c p Hc Hp. apply in_app_iff in Hc. destruct Hc as [Hc|[<-|[]]].
    + apply before_app. now apply Hord.
    + exists acc, []. split; [reflexivity|].
      assert (Hz : pending edges acc id = 0) by (apply Hq; now left).
      rewrite pending_zero in Hz. now apply Hz.
  - intros x Hx Hd. destruct (C4 x Hd) as [Hd0|Hin].
    + specialize (Hzero x Hx Hd0). rewrite Hassoc in Hzero.
      apply in_app_iff in Hzero. apply in_or_app. destruct Hzero as [H|H]; [now left|].
      right. rewrite C3. apply in_or_app. now left.
    + apply in_or_app. now right.
Qed.

Lemma drain_kahn (fuel : nat) :
  forall inDegree queue acc res,
    drain fuel adj inDegree queue acc = Ok res ->
    kahnInv nodes edges inDegree queue acc ->
    (exists rest, res = acc ++ queue ++ rest)
    /\ exists inDegree', kahnInv nodes edges inDegree' [] res.
Proof.
  induction fuel as [|fuel IH]; intros inDegree queue acc res H Hinv.
  - destruct queue; simpl in H; [|discriminate]. injection H as <-.
    split; [exists []; now rewrite !app_nil_r | now exists inDegree].
  - destruct queue as [|id queue]; simpl in H.
    + injection H as <-. split; [exists []; now rewrite !app_nil_r | now exists inDegree].
    + assert (Hin : In id nodes).
      { destruct Hinv as (_ & Hincl & _). apply Hincl. apply in_or_app. right. now left. }
      rewrite (adj_ok id Hin) in H.
      destruct (relax (childrenOf edges id) inDegree queue) as [inDegree' queue'] eqn:Er.
      pose proof (kahn_round inDegree inDegree' id queue queue' acc Hinv Er) as Hinv'.
      destruct (relax_counts (acc ++ [id]) (childrenOf edges id) inDegree queue inDegree'
                  queue' Er) as (_ & _ & (new & Hnew) & _).
      { intros x. destruct Hinv as (Hnd & _ & Hdeg & _). rewrite Hdeg. apply pending_pop.
        apply NoDup_remove_2 in Hnd. intros Hx. apply Hnd. apply in_or_app. now left. }
      destruct (IH inDegree' queue' (acc ++ [id]) res H Hinv') as ((rest & Hrest) & Hfin).
      split; [|exact Hfin]. exists (new ++ rest). rewrite Hrest, Hnew.
      rewrite <- !app_assoc. reflexivity.
Qed.

Lemma drain_returns (fuel : nat) :
  forall inDegree queue acc,
    kahnInv nodes edges inDegree queue acc ->
    (List.length nodes <= fuel + List.length acc)%nat ->
    returns (drain fuel adj inDegree queue acc).
Proof.
  induction fuel as [|fuel IH]; intros inDegree queue acc Hinv Hfuel.
  - destruct queue as [|id queue]; [eexists; reflexivity|]. exfalso.
    destruct Hinv as (Hnd & Hincl & _).
    pose proof (NoDup_incl_length Hnd Hincl) as Hlen.
    rewrite length_app in Hlen. simpl in *. lia.
  - destruct queue as [|id queue]; [eexists; reflexivity|]. simpl.
    assert (Hin : In id nodes).
    { destruct Hinv as (_ & Hincl & _). apply Hincl. apply in_or_app. right. now left. }
    rewrite (adj_ok id Hin).
    destruct (relax (childrenOf edges id) inDegree queue) as [inDegree' queue'] eqn:Er.
    apply IH; [now apply (kahn_round inDegree inDegree' id queue queue' acc)|].
    rewrite length_app. simpl. lia.
Qed.

Lemma drain_not_Throw (fuel : nat) :
  forall inDegree queue acc msg,
    kahnInv nodes edges inDegree queue acc ->
    drain fuel adj inDegree queue acc <> Throw msg.
Proof.
  induction fuel as [|fuel IH]; intros inDegree queue acc msg Hinv.
  - destruct queue; simpl; discriminate.
  - destruct queue as [|id queue]; simpl; [discriminate|].
    assert (Hin : In id nodes).
    { destruct Hinv as (_ & Hincl & _). apply Hincl. apply in_or_app. right. now left. }
    rewrite (adj_ok id Hin).
    destruct (relax (childrenOf edges id) inDegree queue) as [inDegree' queue'] eqn:Er.
    apply IH. now apply (kahn_round inDegree inDegree' id queue queue' acc).
Qed.

End KahnRounds.

(** ** Building the dependency graph *)

Lemma find_app_first {A : Type} (f : A -> bool) (l1 l2 : list A) :
  find f (l1 ++ l2) = match find f l1 with Some x => Some x | None => find f l2 end.
Proof. induction l1 as [|x l1 IH]; simpl; [reflexivity|]. now destruct (f x). Qed.

Lemma find_same {A : Type} (f g : A -> bool) (l : list A) :
  (forall x, f x = g x) -> find f l = find g l.
Proof. intros H. induction l as [|x l IH]; simpl; [reflexivity|]. now rewrite H, IH. Qed.

Section GraphBuilding.

Import Dag.

Variable nodeSet : JsMap.t unit.

Lemma addParents_counts (child : string) (parents : list string) :
  JsMap.has nodeSet child = true ->
  forall E g,
    graphCounts nodeSet E g ->
    match find (fun p => negb (JsMap.has nodeSet p)) parents with
    | Some p =>
        addParents nodeSet child parents g
        = Throw ("Dependency references missing work order: " ++ p)%string
    | None =>
        exists g',
          addParents nodeSet child parents g = Ok g'
          /\ graphCounts nodeSet (E ++ map (fun p => (p, child)) parents) g'
          /\ JsMap.keys (fst g') = JsMap.keys (fst g)
    end.
Proof.
  intros Hchild. induction parents as [|p rest IH]; intros E g Hg; cbn [find addParents map].
  - exists g. rewrite app_nil_r. auto.
  - destruct (JsMap.has nodeSet p) eqn:Ep; cbn [negb]; [|reflexivity].
    destruct Hg as [Hdeg Hadj].
    destruct (Hadj p Ep) as [_ Hget]. rewrite Hget. cbv zeta.
    fold (degreeOf (fst g) child).
    set (g1 := (JsMap.set (fst g) child (degreeOf (fst g) child + 1),
                JsMap.set (snd g) p (childrenOf E p ++ [child]))).
    assert (Hg1 : graphCounts nodeSet (E ++ [(p, child)]) g1).
    { split.
      - intros x. rewrite pending_app_edge. unfold g1. cbn [fst].
        destruct (String.eqb child x) eqn:Ex.
        + apply String.eqb_eq in Ex. subst x. rewrite degreeOf_set_same, Hdeg. reflexivity.
        + apply String.eqb_neq in Ex. rewrite degreeOf_set_other by exact Ex.
          rewrite Hdeg. lia.
      - intros q Hq. destruct (Hadj q Hq) as [Hk Hgq]. unfold g1. cbn [fst snd]. split.
        + apply In_keys_set. now right.
        + rewrite childrenOf_app_edge. destruct (String.eqb p q) eqn:Eq.
          * apply String.eqb_eq in Eq. subst q. apply get_set_same.
          * apply String.eqb_neq in Eq. rewrite get_set_other by exact Eq.
            now rewrite app_nil_r. }
    specialize (IH (E ++ [(p, child)]) g1 Hg1).
    destruct (find (fun p0 => negb (JsMap.has nodeSet p0)) rest) as [p'|]; [exact IH|].
    destruct IH as (g' & H1 & H2 & H3). exists g'. split; [exact H1|]. split.
    + rewrite <- app_assoc in H2. exact H2.
    + rewrite H3. unfold g1. cbn [fst]. apply keys_set_present.
      now destruct (Hadj child Hchild).
Qed.

Lemma addEdges_counts (workOrders : list WorkOrder) :
  (forall wo, In wo workOrders -> JsMap.has nodeSet (docId wo) = true) ->
  forall E g,
    graphCounts nodeSet E g ->
    match find (fun p => negb (JsMap.has nodeSet p))
            (flat_map dependsOnWorkOrderIds workOrders) with
    | Some p =>
        addEdges nodeSet workOrders g
        = Throw ("Dependency references missing work order: " ++ p)%string
    | None =>
        exists g',
          addEdges nodeSet workOrders g = Ok g'
          /\ graphCounts nodeSet (E ++ edgesOf workOrders) g'
          /\ JsMap.keys (fst g') = JsMap.keys (fst g)
    end.
Proof.
  induction workOrders as [|wo rest IH]; intros Hnodes E g Hg;
    cbn [flat_map find addEdges].
  - exists g. unfold edgesOf. cbn [flat_map]. rewrite app_nil_r. auto.
  - rewrite find_app_first.
    pose proof (addParents_counts (docId wo) (dependsOnWorkOrderIds wo)
                  (Hnodes wo (or_introl eq_refl)) E g Hg) as Hp.
    destruct (find (fun p => negb (JsMap.has nodeSet p)) (dependsOnWorkOrderIds wo))
      as [p|]; [now rewrite Hp|].
    destruct Hp as (g1 & H1 & H2 & H3). rewrite H1, bind_Ok.
    specialize (IH (fun w Hw => Hnodes w (or_intror Hw)) _ g1 H2).
    destruct (find (fun p => negb (JsMap.has nodeSet p))
                (flat_map dependsOnWorkOrderIds rest)) as [p|]; [exact IH|].
    destruct IH as (g' & G1 & G2 & G3). exists g'. split; [exact G1|]. split.
    + unfold edgesOf in *. cbn [flat_map]. now rewrite app_assoc.
    + now rewrite G3.
Qed.

Lemma initGraph_fold (ids : list string) :
  forall d a,
    NoDup ids ->
    (forall k, In k ids -> ~ In k (JsMap.keys d) /\ ~ In k (JsMap.keys a)) ->
    fold_left
      (fun (g : Graph) id => (JsMap.set (fst g) id 0, JsMap.set (snd g) id []))
      ids (d, a)
    = (d ++ map (fun k => (k, 0)) ids, a ++ map (fun k => (k, [])) ids).
Proof.
  induction ids as [|id ids IH]; intros d a Hnd Hfresh; cbn [fold_left map].
  - now rewrite !app_nil_r.
  - cbn [fst snd]. inversion Hnd as [|? ? Hnot Hnd']; subst.
    destruct (Hfresh id (or_introl eq_refl)) as [Hd Ha].
    rewrite (set_fresh d id 0 Hd), (set_fresh a id [] Ha).
    rewrite IH; [now rewrite <- !app_assoc | exact Hnd' |].
    intros k Hk. destruct (Hfresh k (or_intror Hk)) as [Hkd Hka].
    unfold JsMap.keys in *. rewrite !map_app, !in_app_iff. cbn [map fst In].
    split; intros [H|[H|[]]]; try contradiction; subst; contradiction.
Qed.

Lemma initGraph_explicit :
  NoDup (JsMap.keys nodeSet) ->
  initGraph nodeSet
  = (map (fun k => (k, 0)) (JsMap.keys nodeSet), map (fun k => (k, [])) (JsMap.keys nodeSet)).
Proof.
  intros Hnd. unfold initGraph. rewrite initGraph_fold; [reflexivity | exact Hnd |].
  intros k _. split; intros [].
Qed.

Lemma get_const_map {V : Type} (v : V) (ks : list string) (k : string) :
  JsMap.get (map (fun k => (k, v)) ks) k = if mem k ks then Some v else None.
Proof.
  induction ks as [|k0 ks IH]; [reflexivity|]. cbn [map JsMap.get mem existsb].
  rewrite String.eqb_sym. destruct (String.eqb k k0); [reflexivity | exact IH].
Qed.

Lemma initGraph_counts :
  NoDup (JsMap.keys nodeSet) -> graphCounts nodeSet [] (initGraph nodeSet).
Proof.
  intros Hnd. rewrite (initGraph_explicit Hnd). split; cbn [fst snd].
  - intros x. unfold degreeOf. rewrite get_const_map. now destruct (mem x (JsMap.keys nodeSet)).
  - intros q Hq. apply has_true in Hq. split.
    + unfold JsMap.keys at 1. rewrite map_map. cbn [fst]. now rewrite map_id.
    + rewrite get_const_map. replace (mem q (JsMap.keys nodeSet)) with true; [reflexivity|].
      symmetry. now apply mem_In.
Qed.

End GraphBuilding.

Lemma initialQueue_filter (inDegree : JsMap.t Z) :
  NoDup (JsMap.keys inDegree) ->
  Dag.initialQueue inDegree
  = filter (fun k => degreeOf inDegree k =? 0) (JsMap.keys inDegree).
Proof.
  unfold Dag.initialQueue, JsMap.keys.
  induction inDegree as [|[k n] m IH]; intros Hnd; [reflexivity|].
  cbn [map filter fst snd] in *. inversion Hnd as [|? ? Hnot Hnd']; subst.
  unfold degreeOf at 1. cbn [JsMap.get]. rewrite String.eqb_refl.
  assert (Hext : filter (fun k0 => degreeOf ((k, n) :: m) k0 =? 0) (map fst m)
                 = filter (fun k0 => degreeOf m k0 =? 0) (map fst m)).
  { apply filter_ext_in. intros k0 Hk0. unfold degreeOf. cbn [JsMap.get].
    destruct (String.eqb k k0) eqn:E; [|reflexivity].
    apply String.eqb_eq in E. subst. contradiction. }
  rewrite Hext, <- (IH Hnd'). destruct (n =? 0); reflexivity.
Qed.

(** ** The sort as a whole *)

Section TopologicalSort.

Import Dag.

Variable workOrders : list WorkOrder.

Lemma nodesOf_keys (x : string) :
  In x (JsMap.keys (nodesOf workOrders)) <-> In x (map docId workOrders).
Proof. unfold nodesOf. rewrite keys_ofEntries, map_map. simpl. tauto. Qed.

Lemma nodesOf_has (x : string) :
  JsMap.has (nodesOf workOrders) x = mem x (map docId workOrders).
Proof.
  destruct (mem x (map docId workOrders)) eqn:E.
  - apply has_true, nodesOf_keys, mem_In, E.
  - apply not_true_is_false. intros H. apply has_true, nodesOf_keys, mem_In in H. congruence.
Qed.

Lemma edgesOf_In (p c : string) :
  In (p, c) (edgesOf workOrders)
  <-> exists wo, In wo workOrders /\ docId wo = c /\ In p (dependsOnWorkOrderIds wo).
Proof.
  unfold edgesOf. rewrite in_flat_map. split.
  - intros (wo & Hwo & Hin). apply in_map_iff in Hin. destruct Hin as (p' & [= <- <-] & Hp).
    now exists wo.
  - intros (wo & Hwo & <- & Hp). exists wo. split; [exact Hwo|].
    apply in_map_iff. now exists p.
Qed.

(** The graph and the first queue, when every dependency names a work order. *)
Lemma graph_built :
  match firstUnknownParent workOrders with
  | Some p =>
      addEdges (nodesOf workOrders) workOrders (initGraph (nodesOf workOrders))
      = Throw ("Dependency references missing work order: " ++ p)%string
  | None =>
      exists g,
        addEdges (nodesOf workOrders) workOrders (initGraph (nodesOf workOrders)) = Ok g
        /\ (forall q, In q (JsMap.keys (nodesOf workOrders)) ->
                      JsMap.get (snd g) q = Some (childrenOf (edgesOf workOrders) q))
        /\ JsMap.keys (fst g) = JsMap.keys (nodesOf workOrders)
        /\ (forall x, degreeOf (fst g) x = pending (edgesOf workOrders) [] x)
        /\ kahnInv (JsMap.keys (nodesOf workOrders)) (edgesOf workOrders) (fst g)
             (initialQueue (fst g)) []
  end.
Proof.
  set (nodeSet := nodesOf workOrders).
  assert (Hnd : NoDup (JsMap.keys nodeSet)) by apply NoDup_keys_ofEntries.
  pose proof (addEdges_counts nodeSet workOrders) as H.
  specialize (H (fun wo Hwo => proj2 (has_true nodeSet (docId wo))
                                 (proj2 (nodesOf_keys (docId wo)) (in_map docId _ _ Hwo)))).
  specialize (H [] (initGraph nodeSet) (initGraph_counts nodeSet Hnd)).
  unfold firstUnknownParent.
  rewrite (find_same (fun p => negb (mem p (map docId workOrders)))
             (fun p => negb (JsMap.has nodeSet p)))
    by (intros p; unfold nodeSet; now rewrite nodesOf_has).
  destruct (find (fun p => negb (JsMap.has nodeSet p))
              (flat_map dependsOnWorkOrderIds workOrders)) as [p|]; [exact H|].
  destruct H as (g & Hg & [Hdeg Hadj] & Hkeys). cbn [app] in *.
  exists g. split; [exact Hg|].
  rewrite (initGraph_explicit nodeSet Hnd) in Hkeys. cbn [fst] in Hkeys.
  assert (Hk : JsMap.keys (fst g) = JsMap.keys nodeSet).
  { rewrite Hkeys. unfold JsMap.keys at 1. rewrite map_map. cbn [fst]. apply map_id. }
  split; [intros q Hq; apply Hadj; now apply has_true|].
  split; [exact Hk|]. split; [exact Hdeg|].
  assert (Hndg : NoDup (JsMap.keys (fst g))) by now rewrite Hk.
  destruct (initialQueue_ok (fst g) Hndg) as (Q1 & Q2 & Q3).
  split; [exact Q1|]. split; [now rewrite <- Hk|]. split; [exact Hdeg|].
  split; [|split].
  - intros x Hx. specialize (Q3 x Hx). rewrite Hdeg in Q3.
    pose proof (pending_nonneg (edgesOf workOrders) [] x). lia.
  - intros c p [].
  - intros x Hx Hz. cbn [app]. rewrite (initialQueue_filter (fst g) Hndg).
    apply filter_In. split; [now rewrite Hk | now apply Z.eqb_eq].
Qed.

Lemma children_are_nodes (p c : string) :
  In (p, c) (edgesOf workOrders) -> In c (JsMap.keys (nodesOf workOrders)).
Proof.
  intros H. apply edgesOf_In in H. destruct H as (wo & Hwo & <- & _).
  apply nodesOf_keys. now apply in_map.
Qed.

(** The run of the sort, stage by stage, when it returns. *)
Lemma topoSortWorkOrders_stages (fuel : nat) (ids : list string) :
  topoSortWorkOrders fuel workOrders = Ok ids ->
  firstUnknownParent workOrders = None
  /\ exists (g : Graph) inDegree',
       JsMap.keys (fst g) = JsMap.keys (nodesOf workOrders)
       /\ (forall x, degreeOf (fst g) x = pending (edgesOf workOrders) [] x)
       /\ (exists rest, ids = initialQueue (fst g) ++ rest)
       /\ kahnInv (JsMap.keys (nodesOf workOrders)) (edgesOf workOrders) inDegree' [] ids.
Proof.
  unfold topoSortWorkOrders. intros H. pose proof graph_built as Hb.
  apply bind_Ok_inv in H. destruct H as (g & Hg & H).
  destruct (firstUnknownParent workOrders) as [p|]; [congruence|].
  split; [reflexivity|].
  destruct Hb as (g' & Hg' & Hadj & Hk & Hdeg & Hinv).
  assert (g' = g) by congruence. subst g'.
  apply bind_Ok_inv in H. destruct H as (res & Hres & H).
  destruct (negb (Nat.eqb (List.length res) (List.length workOrders))); [discriminate|].
  injection H as <-.
  destruct (drain_kahn (JsMap.keys (nodesOf workOrders)) (edgesOf workOrders) (snd g)
              Hadj children_are_nodes fuel (fst g) (initialQueue (fst g)) [] res Hres Hinv)
    as ((rest & Hrest) & (deg' & Hfin)).
  exists g, deg'. split; [exact Hk|]. split; [exact Hdeg|].
  split; [now exists rest | exact Hfin].
Qed.

Lemma topoSortWorkOrders_before (fuel : nat) (ids : list string) :
  topoSortWorkOrders fuel workOrders = Ok ids ->
  forall wo p,
    In wo workOrders -> In p (dependsOnWorkOrderIds wo) -> before ids p (docId wo).
Proof.
  intros H. destruct (topoSortWorkOrders_ok fuel workOrders ids H) as (Hnd & Hincl & Hlen).
  assert (Hperm : Permutation ids (map docId workOrders)).
  { apply NoDup_Permutation_bis; auto. rewrite length_map. lia. }
  destruct (topoSortWorkOrders_stages fuel ids H)
    as (_ & g & deg' & _ & _ & _ & (_ & _ & _ & _ & Hord & _)).
  intros wo p Hwo Hp. apply Hord.
  - apply (Permutation_in _ (Permutation_sym Hperm)). now apply in_map.
  - apply edgesOf_In. now exists wo.
Qed.

(** X12. The ids [topoSortWorkOrders] returns are the ids of the work
    orders, each once, and every order comes after each of the orders it
    depends on. *)
Theorem topoSortWorkOrders_parents_first (fuel : nat) (ids : list string) :
  topoSortWorkOrders fuel workOrders = Ok ids ->
  NoDup ids
  /\ Permutation ids (map docId workOrders)
  /\ forall wo p,
       In wo workOrders -> In p (dependsOnWorkOrderIds wo) -> before ids p (docId wo).
Proof.
  intros H. destruct (topoSortWorkOrders_ok fuel workOrders ids H) as (Hnd & Hincl & Hlen).
  split; [exact Hnd|]. split; [|now apply (topoSortWorkOrders_before fuel)].
  apply NoDup_Permutation_bis; auto. rewrite length_map. lia.
Qed.

End TopologicalSort.

Lemma topoSortWorkOrders_parents_first_witness :
  NoDup ["A"%string; "B"%string; "C"%string]
  /\ Permutation ["A"%string; "B"%string; "C"%string]
       (map docId (workOrders Scenarios.scenario1_delayCascade))
  /\ forall wo p,
       In wo (workOrders Scenarios.scenario1_delayCascade) ->
       In p (dependsOnWorkOrderIds wo) ->
       before ["A"%string; "B"%string; "C"%string] p (docId wo).
Proof.
  apply (topoSortWorkOrders_parents_first (workOrders Scenarios.scenario1_delayCascade) 3).
  vm_compute. reflexivity.
Defined.

Lemma NoDup_map_eq {A B : Type} (f : A -> B) (l : list A) (a b : A) :
  NoDup (map f l) -> In a l -> In b l -> f a = f b -> a = b.
Proof.
  induction l as [|x l IH]; intros Hnd Ha Hb Hf; [contradiction|].
  simpl in Hnd. apply NoDup_cons_iff in Hnd. destruct Hnd as [Hnot Hnd].
  destruct Ha as [<-|Ha]; destruct Hb as [<-|Hb]; try reflexivity.
  - exfalso. apply Hnot. rewrite Hf. now apply in_map.
  - exfalso. apply Hnot. rewrite <- Hf. now apply in_map.
  - now apply IH.
Qed.

Lemma filter_map_swap {A B : Type} (f : A -> B) (P : B -> bool) (l : list A) :
  filter P (map f l) = map f (filter (fun x => P (f x)) l).
Proof.
  induction l as [|x l IH]; [reflexivity|]. simpl. rewrite IH. now destruct (P (f x)).
Qed.

Section TopologicalSortOutcome.

Import Dag.

Variable workOrders : list WorkOrder.

Lemma nodesOf_unique :
  NoDup (map docId workOrders) -> JsMap.keys (nodesOf workOrders) = map docId workOrders.
Proof.
  intros Hnd. unfold nodesOf. rewrite ofEntries_NoDup.
  - unfold JsMap.keys. rewrite map_map. reflexivity.
  - rewrite map_map. exact Hnd.
Qed.

Lemma nodesOf_length :
  (List.length (JsMap.keys (nodesOf workOrders)) <= List.length workOrders)%nat.
Proof.
  rewrite <- (length_map docId workOrders). apply NoDup_incl_length.
  - apply NoDup_keys_ofEntries.
  - intros x Hx. now apply nodesOf_keys.
Qed.

Lemma firstUnknownParent_None :
  firstUnknownParent workOrders = None
  <-> forall wo p, In wo workOrders -> In p (dependsOnWorkOrderIds wo) ->
                   In p (map docId workOrders).
Proof.
  unfold firstUnknownParent. split.
  - intros H wo p Hwo Hp.
    pose proof (find_none _ _ H p) as Hn. cbv beta in Hn.
    apply mem_In. apply negb_false_iff. apply Hn.
    apply in_flat_map. now exists wo.
  - intros H.
    destruct (find (fun p => negb (mem p (map docId workOrders)))
                (flat_map dependsOnWorkOrderIds workOrders)) as [p|] eqn:E; [|reflexivity].
    apply find_some in E. destruct E as [Hin Hm]. apply in_flat_map in Hin.
    destruct Hin as (wo & Hwo & Hp). apply negb_true_iff, mem_false in Hm.
    exfalso. apply Hm. now apply (H wo).
Qed.

(** The loop that drains the queue returns once it has a round for each
    work order. *)
Lemma drained (fuel : nat) :
  firstUnknownParent workOrders = None ->
  (List.length workOrders <= fuel)%nat ->
  exists (g : Graph) res inDegree',
    addEdges (nodesOf workOrders) workOrders (initGraph (nodesOf workOrders)) = Ok g
    /\ drain fuel (snd g) (fst g) (initialQueue (fst g)) [] = Ok res
    /\ kahnInv (JsMap.keys (nodesOf workOrders)) (edgesOf workOrders) inDegree' [] res.
Proof.
  intros Hknown Hfuel. pose proof (graph_built workOrders) as Hb. rewrite Hknown in Hb.
  destruct Hb as (g & Hg & Hadj & Hk & Hdeg & Hinv).
  destruct (drain_returns (JsMap.keys (nodesOf workOrders)) (edgesOf workOrders) (snd g)
              Hadj (children_are_nodes workOrders) fuel (fst g) (initialQueue (fst g)) []
              Hinv) as [res Hres].
  { pose proof nodesOf_length. simpl. lia. }
  destruct (drain_kahn (JsMap.keys (nodesOf workOrders)) (edgesOf workOrders) (snd g)
              Hadj (children_are_nodes workOrders) fuel (fst g) (initialQueue (fst g)) []
              res Hres Hinv) as (_ & (deg' & Hfin)).
  now exists g, res, deg'.
Qed.

End TopologicalSortOutcome.

(** What the sort throws: the error of the first unknown dependency, or
    else the error of the circular dependency. *)
Lemma topoSortWorkOrders_Throw (fuel : nat) (workOrders : list WorkOrder) (msg : string) :
  Dag.topoSortWorkOrders fuel workOrders = Throw msg ->
  (exists p, firstUnknownParent workOrders = Some p
             /\ msg = ("Dependency references missing work order: " ++ p)%string)
  \/ (firstUnknownParent workOrders = None
      /\ msg = "Circular dependency detected (graph is not a DAG)."%string).
Proof.
  intros H. unfold Dag.topoSortWorkOrders in H. pose proof (graph_built workOrders) as Hb.
  destruct (firstUnknownParent workOrders) as [p|].
  - rewrite Hb in H. simpl in H. injection H as <-. left. now exists p.
  - right. split; [reflexivity|].
    destruct Hb as (g & Hg & Hadj & _ & _ & Hinv). rewrite Hg, bind_Ok in H.
    pose proof (drain_not_Throw (JsMap.keys (Dag.nodesOf workOrders)) (edgesOf workOrders)
                  (snd g) Hadj (children_are_nodes workOrders) fuel (fst g)
                  (Dag.initialQueue (fst g)) [] msg Hinv) as Hnt.
    destruct (Dag.drain fuel (snd g) (fst g) (Dag.initialQueue (fst g)) []) as [res|m|];
      [|simpl in H; congruence|discriminate].
    rewrite bind_Ok in H.
    destruct (negb (Nat.eqb (List.length res) (List.length workOrders)));
      [now injection H | discriminate].
Qed.

(** ** What a sort that stops short has left *)

Section Cycles.

Variable edges : list (string * string).

Lemma pending_pos (acc : list string) (x : string) :
  pending edges acc x <> 0 -> exists p, In (p, x) edges /\ ~ In p acc.
Proof.
  unfold pending. induction edges as [|[p c] es IH]; simpl; [intros H; now contradiction H|].
  destruct (String.eqb c x) eqn:Ec; simpl.
  - apply String.eqb_eq in Ec. subst c. destruct (mem p acc) eqn:Em; simpl.
    + intros H. destruct (IH H) as (q & Hq & Hn). exists q. split; [now right | exact Hn].
    + intros _. exists p. split; [now left | now apply mem_false].
  - intros H. destruct (IH H) as (q & Hq & Hn). exists q. split; [now right | exact Hn].
Qed.

Lemma chain_app_r (l1 l2 : list string) : chain edges (l1 ++ l2) -> chain edges l2.
Proof.
  induction l1 as [|a l1 IH]; [trivial|]. intros H. apply IH.
  destruct l1 as [|b l1]; simpl in H.
  - destruct l2; [exact I | now destruct H].
  - now destruct H.
Qed.

Lemma chain_path (l2 l3 : list string) :
  forall a b, chain edges (a :: l2 ++ b :: l3) ->
              clos_trans string (fun p c => In (p, c) edges) a b.
Proof.
  induction l2 as [|x l2 IH]; intros a b H.
  - apply t_step. now destruct H.
  - destruct H as [H1 H2]. apply t_trans with x; [now apply t_step | now apply IH].
Qed.

Lemma repeated (l : list string) :
  ~ NoDup l -> exists a l1 l2 l3, l = l1 ++ a :: l2 ++ a :: l3.
Proof.
  induction l as [|h t IH]; intros H; [exfalso; apply H; constructor|].
  destruct (in_dec string_dec h t) as [Hin|Hout].
  - apply in_split in Hin. destruct Hin as (l2 & l3 & ->). now exists h, [], l2, l3.
  - destruct IH as (a & l1 & l2 & l3 & ->).
    + intros Hnd. apply H. now constructor.
    + now exists a, (h :: l1), l2, l3.
Qed.

(** In a set of ids each of which has a parent in the set, some id depends
    on itself through a chain of dependencies. *)
Lemma closed_set_cycle (nodes : list string) (inS : string -> Prop) (x : string) :
  (forall y, inS y -> In y nodes) ->
  (forall y, inS y -> exists p, In (p, y) edges /\ inS p) ->
  inS x ->
  exists y, clos_trans string (fun p c => In (p, c) edges) y y.
Proof.
  intros Hnodes Hparent Hx.
  assert (Hgrow : forall n, exists h t,
             List.length (h :: t) = S n /\ chain edges (h :: t)
             /\ forall y, In y (h :: t) -> inS y).
  { induction n as [|n (h & t & Hlen & Hch & Hall)].
    - exists x, []. split; [reflexivity|]. split; [exact I|]. now intros y [<-|[]].
    - destruct (Hparent h (Hall h (or_introl eq_refl))) as (p & Hp & HpS).
      exists p, (h :: t). split; [simpl in *; lia|]. split; [now split|].
      intros y [<-|Hy]; [exact HpS | now apply Hall]. }
  destruct (Hgrow (List.length nodes)) as (h & t & Hlen & Hch & Hall).
  destruct (repeated (h :: t)) as (a & l1 & l2 & l3 & E).
  - intros Hnd. assert (Hle : (List.length (h :: t) <= List.length nodes)%nat).
    { apply NoDup_incl_length; [exact Hnd|]. intros y Hy. now apply Hnodes, Hall. }
    lia.
  - exists a. rewrite E in Hch. apply chain_app_r in Hch. now apply (chain_path l2 l3).
Qed.

End Cycles.

(** When the ids are unique and every dependency names a work order, the
    sort throws only on work orders some of which depend on themselves
    through a chain of dependencies. *)
Lemma topoSortWorkOrders_stuck (fuel : nat) (workOrders : list WorkOrder) (msg : string) :
  NoDup (map docId workOrders) ->
  firstUnknownParent workOrders = None ->
  Dag.topoSortWorkOrders fuel workOrders = Throw msg ->
  exists x, clos_trans string (fun p c => In (p, c) (edgesOf workOrders)) x x.
Proof.
  intros Hu Hknown H. unfold Dag.topoSortWorkOrders in H.
  pose proof (graph_built workOrders) as Hb. rewrite Hknown in Hb.
  destruct Hb as (g & Hg & Hadj & _ & _ & Hinv). rewrite Hg, bind_Ok in H.
  destruct (Dag.drain fuel (snd g) (fst g) (Dag.initialQueue (fst g)) []) as [res|m|] eqn:Hres;
    [|exfalso; now apply (drain_not_Throw (JsMap.keys (Dag.nodesOf workOrders))
                            (edgesOf workOrders) (snd g) Hadj (children_are_nodes workOrders)
                            fuel (fst g) (Dag.initialQueue (fst g)) [] m Hinv)
     |discriminate].
  rewrite bind_Ok in H.
  destruct (Nat.eqb (List.length res) (List.length workOrders)) eqn:El; [discriminate|].
  apply Nat.eqb_neq in El.
  destruct (drain_kahn (JsMap.keys (Dag.nodesOf workOrders)) (edgesOf workOrders) (snd g)
              Hadj (children_are_nodes workOrders) fuel (fst g) (Dag.initialQueue (fst g)) []
              res Hres Hinv) as (_ & (deg' & Hfin)).
  destruct Hfin as (Hnd & Hincl & Hdeg & _ & _ & Hzero). rewrite app_nil_r in *.
  rewrite (nodesOf_unique workOrders Hu) in *.
  (* some id is not in the result *)
  assert (Hleft : exists x, In x (map docId workOrders) /\ ~ In x res).
  { destruct (forallb (fun x => mem x res) (map docId workOrders)) eqn:Eall.
    - exfalso. rewrite forallb_forall in Eall. apply El.
      rewrite <- (length_map docId workOrders). apply Nat.le_antisymm.
      + now apply NoDup_incl_length.
      + apply NoDup_incl_length; [exact Hu|]. intros x Hx. now apply mem_In, Eall.
    - assert (Hex : existsb (fun x => negb (mem x res)) (map docId workOrders) = true).
      { clear - Eall. induction (map docId workOrders) as [|a l IH]; [discriminate|].
        simpl in *. destruct (mem a res); simpl in *; [now apply IH | reflexivity]. }
      apply existsb_exists in Hex. destruct Hex as (x & Hx & Hm). exists x.
      split; [exact Hx|]. now apply mem_false, negb_true_iff. }
  destruct Hleft as (x & Hx & Hout).
  apply (closed_set_cycle (edgesOf workOrders) (map docId workOrders)
           (fun y => In y (map docId workOrders) /\ ~ In y res) x); [tauto| |tauto].
  intros y [Hy Hny].
  destruct (pending_pos (edgesOf workOrders) res y) as (p & Hp & Hnp).
  - rewrite <- Hdeg. intros Hz. now apply Hny, Hzero.
  - exists p. split; [exact Hp|]. split; [|exact Hnp].
    apply edgesOf_In in Hp. destruct Hp as (wo & Hwo & _ & Hdep).
    now apply (proj1 (firstUnknownParent_None workOrders) Hknown wo p).
Qed.

(** X13. When some work order depends on an id that no work order has,
    [topoSortWorkOrders] throws before it sorts anything, and the error names
    the first such id in the order of the input. *)
Theorem topoSortWorkOrders_missing_dependency (workOrders : list WorkOrder) :
  (exists wo q, In wo workOrders /\ In q (dependsOnWorkOrderIds wo)
                /\ ~ In q (map docId workOrders)) ->
  exists p,
    firstUnknownParent workOrders = Some p
    /\ ~ In p (map docId workOrders)
    /\ forall fuel,
         Dag.topoSortWorkOrders fuel workOrders
         = Throw ("Dependency references missing work order: " ++ p)%string.
Proof.
  intros (wo & q & Hwo & Hq & Hno).
  destruct (firstUnknownParent workOrders) as [p|] eqn:E.
  - exists p. split; [reflexivity|]. split.
    + unfold firstUnknownParent in E. apply find_some in E. destruct E as [_ Hm].
      now apply negb_true_iff, mem_false in Hm.
    + intros fuel. unfold Dag.topoSortWorkOrders. pose proof (graph_built workOrders) as Hb.
      rewrite E in Hb. rewrite Hb. reflexivity.
  - exfalso. rewrite firstUnknownParent_None in E. apply Hno. now apply (E wo).
Qed.

Lemma topoSortWorkOrders_missing_dependency_witness :
  exists p,
    firstUnknownParent FurtherCases.danglingParent = Some p
    /\ ~ In p (map docId FurtherCases.danglingParent)
    /\ forall fuel,
         Dag.topoSortWorkOrders fuel FurtherCases.danglingParent
         = Throw ("Dependency references missing work order: " ++ p)%string.
Proof.
  apply (topoSortWorkOrders_missing_dependency FurtherCases.danglingParent).
  exists (Scenarios.wo "B" "B" "wc1" (isoZ 2026 3 2 9 0) (isoZ 2026 3 2 10 0) 60 false
            ["A"%string; "Z"%string]), "Z"%string.
  split; [right; left; reflexivity|]. split; [right; left; reflexivity|].
  simpl. intros [H|[H|[]]]; discriminate H.
Defined.

Lemma ranked_sort_rounds (workOrders : list WorkOrder) (rank : string -> nat) :
  NoDup (map docId workOrders) ->
  (forall wo p, In wo workOrders -> In p (dependsOnWorkOrderIds wo) ->
                In p (map docId workOrders) /\ (rank p < rank (docId wo))%nat) ->
  returns (Dag.topoSortWorkOrders (List.length workOrders) workOrders).
Proof.
  intros Hnd Hdeps. set (fuel := List.length workOrders).
  assert (Hfuel : (List.length workOrders <= fuel)%nat) by apply Nat.le_refl.
  assert (Hknown : firstUnknownParent workOrders = None).
  { apply firstUnknownParent_None. intros wo p Hwo Hp. now destruct (Hdeps wo p Hwo Hp). }
  destruct (drained workOrders fuel Hknown Hfuel) as (g & res & deg' & Hg & Hres & Hfin).
  destruct Hfin as (Hndr & Hincl & Hdeg & _ & _ & Hzero). rewrite app_nil_r in *.
  assert (Hall : forall n x, (rank x < n)%nat ->
                             In x (JsMap.keys (Dag.nodesOf workOrders)) -> In x res).
  { induction n as [|n IH]; intros x Hr Hx; [lia|].
    apply Hzero; [exact Hx|]. rewrite Hdeg. apply pending_zero. intros p Hp.
    apply edgesOf_In in Hp. destruct Hp as (wo & Hwo & <- & Hp).
    destruct (Hdeps wo p Hwo Hp) as [Hin Hlt].
    apply IH; [lia | now apply nodesOf_keys]. }
  assert (Hlen : List.length res = List.length workOrders).
  { rewrite <- (length_map docId workOrders), <- (nodesOf_unique workOrders Hnd).
    apply Nat.le_antisymm.
    - now apply NoDup_incl_length.
    - apply NoDup_incl_length; [apply NoDup_keys_ofEntries|].
      intros x Hx. apply (Hall (S (rank x))); [lia | exact Hx]. }
  unfold Dag.topoSortWorkOrders. rewrite Hg, bind_Ok, Hres, bind_Ok.
  rewrite Hlen, Nat.eqb_refl. eexists. reflexivity.
Qed.

(** X14. When the ids of the work orders are unique, every dependency names
    a work order and the dependencies have a ranking (each order ranks above
    the orders it depends on), [topoSortWorkOrders] returns an order, within
    one round of its loop for each work order. *)
Theorem topoSortWorkOrders_returns (fuel : nat) (workOrders : list WorkOrder)
    (rank : string -> nat) :
  NoDup (map docId workOrders) ->
  (forall wo p, In wo workOrders -> In p (dependsOnWorkOrderIds wo) ->
                In p (map docId workOrders) /\ (rank p < rank (docId wo))%nat) ->
  (List.length workOrders <= fuel)%nat ->
  returns (Dag.topoSortWorkOrders fuel workOrders).
Proof.
  intros Hnd Hdeps Hfuel. destruct (ranked_sort_rounds workOrders rank Hnd Hdeps) as [ids Hids].
  exists ids.
  rewrite (topoSortWorkOrders_fuel (List.length workOrders) fuel workOrders Hfuel);
    [exact Hids | congruence].
Qed.

Lemma topoSortWorkOrders_returns_witness :
  returns (Dag.topoSortWorkOrders 3 (workOrders Scenarios.scenario1_delayCascade)).
Proof.
  apply (topoSortWorkOrders_returns 3 (workOrders Scenarios.scenario1_delayCascade)
           FurtherCases.chainRank).
  - vm_compute. repeat constructor; simpl; intuition discriminate.
  - intros wo p [<-|[<-|[<-|[]]]] Hp; simpl in Hp; try contradiction;
      destruct Hp as [<-|[]]; (split; [simpl; tauto | vm_compute; lia]).
  - simpl. lia.
Defined.

(** X15. When every dependency names a work order and some order depends on
    itself through a chain of dependencies, [topoSortWorkOrders] throws the
    circular dependency error, within one round of its loop for each work
    order. *)
Theorem topoSortWorkOrders_circular (fuel : nat) (workOrders : list WorkOrder) (x : string) :
  firstUnknownParent workOrders = None ->
  clos_trans string (fun p c => In (p, c) (edgesOf workOrders)) x x ->
  (List.length workOrders <= fuel)%nat ->
  Dag.topoSortWorkOrders fuel workOrders
  = Throw "Circular dependency detected (graph is not a DAG).".
Proof.
  intros Hknown Hcycle Hfuel.
  destruct (drained workOrders fuel Hknown Hfuel) as (g & res & deg' & Hg & Hres & Hfin).
  unfold Dag.topoSortWorkOrders. rewrite Hg, bind_Ok, Hres, bind_Ok.
  destruct (Nat.eqb (List.length res) (List.length workOrders)) eqn:El; [|reflexivity].
  exfalso. apply Nat.eqb_eq in El.
  destruct Hfin as (Hnd & Hincl & _ & _ & Hord & _). rewrite app_nil_r in *.
  assert (Hin : forall c, In c (map docId workOrders) -> In c res).
  { assert (Hperm : Permutation res (map docId workOrders)).
    { apply NoDup_Permutation_bis; [exact Hnd | rewrite length_map; lia |].
      intros y Hy. now apply nodesOf_keys, Hincl. }
    intros c Hc. now apply (Permutation_in _ (Permutation_sym Hperm)). }
  assert (Hbefore : forall a b,
             clos_trans string (fun p c => In (p, c) (edgesOf workOrders)) a b ->
             before res a b).
  { intros a b Hab. induction Hab as [a b Hab|a b c _ IH1 _ IH2].
    - apply Hord; [|exact Hab]. apply Hin. apply edgesOf_In in Hab.
      destruct Hab as (wo & Hwo & <- & _). now apply in_map.
    - now apply (before_trans res a b c). }
  exact (before_irrefl res x Hnd (Hbefore x x Hcycle)).
Qed.

Lemma topoSortWorkOrders_circular_witness :
  Dag.topoSortWorkOrders 2 FurtherCases.mutualWait
  = Throw "Circular dependency detected (graph is not a DAG).".
Proof.
  apply (topoSortWorkOrders_circular 2 FurtherCases.mutualWait "A"%string).
  - vm_compute. reflexivity.
  - apply t_trans with (y := "B"%string); apply t_step; simpl; tauto.
  - simpl. lia.
Defined.

(** X16. When the ids of the work orders are unique, the order
    [topoSortWorkOrders] returns begins with the work orders that depend on
    nothing, in the order of the input. *)
Theorem topoSortWorkOrders_roots_first (fuel : nat) (workOrders : list WorkOrder)
    (ids : list string) :
  NoDup (map docId workOrders) ->
  Dag.topoSortWorkOrders fuel workOrders = Ok ids ->
  exists rest, ids = map docId (filter isRoot workOrders) ++ rest.
Proof.
  intros Hnd H.
  destruct (topoSortWorkOrders_stages workOrders fuel ids H)
    as (_ & g & deg' & Hk & Hdeg & (rest & Hrest) & _).
  exists rest. rewrite Hrest. f_equal.
  rewrite initialQueue_filter by (rewrite Hk; apply NoDup_keys_ofEntries).
  rewrite Hk, (nodesOf_unique workOrders Hnd), filter_map_swap. f_equal.
  apply filter_ext_in. intros wo Hwo. rewrite Hdeg. unfold isRoot.
  destruct (dependsOnWorkOrderIds wo) as [|p ps] eqn:Ed.
  - apply Z.eqb_eq, pending_zero. intros p Hp. apply edgesOf_In in Hp.
    destruct Hp as (wo' & Hwo' & Hid & Hp).
    rewrite (NoDup_map_eq docId workOrders wo' wo Hnd Hwo' Hwo Hid), Ed in Hp. contradiction.
  - apply Z.eqb_neq. intros Hz. rewrite pending_zero in Hz.
    apply (Hz p). apply edgesOf_In. exists wo. rewrite Ed. split; [exact Hwo|].
    split; [reflexivity | now left].
Qed.

Lemma topoSortWorkOrders_roots_first_witness :
  exists rest,
    ["A"%string; "B"%string; "C"%string]
    = map docId (filter isRoot (workOrders Scenarios.scenario1_delayCascade)) ++ rest.
Proof.
  apply (topoSortWorkOrders_roots_first 3 (workOrders Scenarios.scenario1_delayCascade)).
  - vm_compute. repeat constructor; simpl; intuition discriminate.
  - vm_compute. reflexivity.
Defined.

(** ** The overlap validator *)

Section OrdPairs.

Context {A : Type}.

Lemma ForallOrdPairs_perm (R : A -> A -> Prop) (l l' : list A) :
  (forall a b, R a b -> R b a) ->
  Permutation l l' -> ForallOrdPairs R l -> ForallOrdPairs R l'.
Proof.
  intros Hsym Hp. induction Hp as [|x l l' Hp IH|x y l|l l' l'' _ IH1 _ IH2]; intros H.
  - exact H.
  - inversion H as [|? ? Hx Hl]; subst. constructor; [|now apply IH].
    now apply (Permutation_Forall Hp).
  - inversion H as [|? ? Hy Hl]; subst. inversion Hl as [|? ? Hx Hl']; subst.
    inversion Hy as [|? ? Hyx Hy']; subst.
    constructor; [constructor; [now apply Hsym | exact Hx]|].
    constructor; assumption.
  - auto.
Qed.

Lemma ForallOrdPairs_filter (R : A -> A -> Prop) (f : A -> bool) (l : list A) :
  ForallOrdPairs R l -> ForallOrdPairs R (filter f l).
Proof.
  induction 1 as [|x l Hx Hl IH]; simpl; [constructor|].
  destruct (f x); [|exact IH]. constructor; [|exact IH].
  rewrite Forall_forall in *. intros y Hy. apply filter_In in Hy. now apply Hx.
Qed.

Lemma ForallOrdPairs_weaken (R R' : A -> A -> Prop) (l : list A) :
  (forall a b, In a l -> In b l -> R a b -> R' a b) ->
  ForallOrdPairs R l -> ForallOrdPairs R' l.
Proof.
  intros Himp H. induction H as [|x l Hx Hl IH]; [constructor|].
  constructor.
  - rewrite Forall_forall in *. intros y Hy. apply Himp; [now left | now right | now apply Hx].
  - apply IH. intros a b Ha Hb. apply Himp; now right.
Qed.

Lemma ForallOrdPairs_map {B : Type} (f : A -> B) (R : B -> B -> Prop) (l : list A) :
  ForallOrdPairs R (map f l) <-> ForallOrdPairs (fun a b => R (f a) (f b)) l.
Proof.
  induction l as [|x l IH]; simpl.
  - split; constructor.
  - split; intros H; inversion H as [|? ? Hx Hl]; subst; constructor;
      try (now apply IH); rewrite Forall_forall in *.
    + intros y Hy. apply Hx. now apply in_map.
    + intros y Hy. apply in_map_iff in Hy. destruct Hy as (a & <- & Ha). now apply Hx.
Qed.

End OrdPairs.

Section OverlapValidator.

(** On intervals sorted by start and not empty, the scan of the neighbours
    finds an overlap whenever two of the intervals overlap. *)
Lemma firstConsecutiveOverlap_None (l : list Interval) :
  StronglySorted byStart l ->
  (forall i, In i l -> start i < end_ i) ->
  firstConsecutiveOverlap l = None ->
  ForallOrdPairs (fun a b => overlaps a b = false) l.
Proof.
  induction l as [|a l IH]; intros Hs Hne H; [constructor|].
  inversion Hs as [|? ? Hs' Ha]; subst.
  destruct l as [|b l]; [repeat constructor|].
  cbn [firstConsecutiveOverlap] in H. destruct (overlaps a b) eqn:Eab; [discriminate|].
  constructor; [|apply IH; auto; intros i Hi; apply Hne; now right].
  rewrite Forall_forall in *. intros c Hc.
  assert (Hab : end_ a <= start b).
  { unfold overlaps in Eab. apply andb_false_iff in Eab.
    pose proof (Ha b (or_introl eq_refl)) as Hle. unfold byStart in Hle.
    pose proof (Hne b (or_intror (or_introl eq_refl))) as Hb.
    destruct Eab as [E|E]; apply Z.ltb_ge in E; lia. }
  destruct Hc as [<-|Hc]; [exact Eab|].
  inversion Hs' as [|? ? _ Hb]; subst. rewrite Forall_forall in Hb.
  specialize (Hb c Hc). unfold byStart in Hb.
  unfold overlaps. apply andb_false_iff. right. apply Z.ltb_ge. lia.
Qed.

Lemma firstConsecutiveOverlap_free (l : list Interval) :
  ForallOrdPairs (fun a b => overlaps a b = false) l -> firstConsecutiveOverlap l = None.
Proof.
  induction 1 as [|a l Ha Hl IH]; [reflexivity|].
  destruct l as [|b l]; [reflexivity|]. cbn [firstConsecutiveOverlap].
  inversion Ha as [|? ? Hab _]; subst. rewrite Hab. exact IH.
Qed.

Lemma overlaps_sym (a b : Interval) : overlaps a b = overlaps b a.
Proof. unfold overlaps. apply andb_comm. Qed.

Lemma groupByCenter_fold (workOrders : list WorkOrder) :
  forall (m : JsMap.t (list WorkOrder)) (k : string),
    JsMap.get
      (fold_left
         (fun byCenter wo =>
            let list_ := match JsMap.get byCenter (workCenterId wo) with
                         | Some l => l
                         | None => []
                         end in
            JsMap.set byCenter (workCenterId wo) (list_ ++ [wo]))
         workOrders m) k
    = match JsMap.get m k, onCenter k workOrders with
      | Some l, os => Some (l ++ os)
      | None, [] => None
      | None, os => Some os
      end.
Proof.
  induction workOrders as [|wo rest IH]; intros m k; cbn [fold_left onCenter filter].
  - destruct (JsMap.get m k); [now rewrite app_nil_r | reflexivity].
  - rewrite IH. fold (onCenter k rest). cbv zeta.
    destruct (String.eqb (workCenterId wo) k) eqn:E.
    + apply String.eqb_eq in E. subst k. rewrite get_set_same.
      destruct (JsMap.get m (workCenterId wo)); [now rewrite <- app_assoc | reflexivity].
    + apply String.eqb_neq in E. rewrite get_set_other by exact E. reflexivity.
Qed.

Lemma groupByCenter_get (workOrders : list WorkOrder) (k : string) :
  JsMap.get (groupByCenter workOrders) k
  = match onCenter k workOrders with [] => None | os => Some os end.
Proof. unfold groupByCenter. rewrite groupByCenter_fold. reflexivity. Qed.

Lemma groupByCenter_NoDup (workOrders : list WorkOrder) :
  NoDup (JsMap.keys (groupByCenter workOrders)).
Proof.
  unfold groupByCenter.
  assert (H : forall m : JsMap.t (list WorkOrder),
             NoDup (JsMap.keys m) ->
             NoDup (JsMap.keys
                      (fold_left
                         (fun byCenter wo =>
                            let list_ := match JsMap.get byCenter (workCenterId wo) with
                                         | Some l => l
                                         | None => []
                                         end in
                            JsMap.set byCenter (workCenterId wo) (list_ ++ [wo]))
                         workOrders m))).
  { induction workOrders as [|wo rest IH]; intros m Hm; simpl; [exact Hm|].
    apply IH. now apply NoDup_keys_set. }
  apply H. constructor.
Qed.

Lemma checkCenters_Ok (groups : list (string * list WorkOrder)) :
  checkCenters groups = Ok tt
  <-> forall k os, In (k, os) groups ->
        firstConsecutiveOverlap (sortIntervals (map buildOrderInterval os)) = None.
Proof.
  induction groups as [|[k os] rest IH]; cbn [checkCenters].
  - split; [intros _ k os [] | reflexivity].
  - destruct (firstConsecutiveOverlap (sortIntervals (map buildOrderInterval os)))
      as [[a b]|] eqn:E.
    + split; [discriminate|]. intros H. specialize (H k os (or_introl eq_refl)). congruence.
    + rewrite IH. split.
      * intros H k' os' [[= <- <-]|Hin]; [exact E | exact (H k' os' Hin)].
      * intros H k' os' Hin. apply (H k' os'). now right.
Qed.

Lemma validateNoWorkCenterOverlaps_centers (workOrders : list WorkOrder) :
  validateNoWorkCenterOverlaps workOrders = Ok tt
  <-> forall k,
        firstConsecutiveOverlap
          (sortIntervals (map buildOrderInterval (onCenter k workOrders))) = None.
Proof.
  unfold validateNoWorkCenterOverlaps. rewrite checkCenters_Ok. split.
  - intros H k. destruct (onCenter k workOrders) as [|o os] eqn:E; [reflexivity|].
    apply (H k). apply get_In. rewrite groupByCenter_get, E. reflexivity.
  - intros H k os Hin.
    apply (In_get (groupByCenter workOrders) k os (groupByCenter_NoDup workOrders)) in Hin.
    rewrite groupByCenter_get in Hin. specialize (H k).
    destruct (onCenter k workOrders); [discriminate|]. injection Hin as <-. exact H.
Qed.

Lemma overlapFree_centers (workOrders : list WorkOrder) :
  overlapFree workOrders
  <-> forall k,
        ForallOrdPairs
          (fun a b => overlaps (buildOrderInterval a) (buildOrderInterval b) = false)
          (onCenter k workOrders).
Proof.
  unfold overlapFree. split.
  - intros H k. apply (ForallOrdPairs_filter _ (fun wo => String.eqb (workCenterId wo) k)) in H.
    revert H. apply ForallOrdPairs_weaken. intros a b Ha Hb Hab.
    apply filter_In in Ha, Hb. destruct Ha as [_ Ha]. destruct Hb as [_ Hb].
    apply String.eqb_eq in Ha, Hb. apply Hab. congruence.
  - intros H. induction workOrders as [|a l IH]; [constructor|].
    constructor.
    + rewrite Forall_forall. intros b Hb Heq.
      specialize (H (workCenterId a)). unfold onCenter in H. cbn [filter] in H.
      rewrite String.eqb_refl in H. inversion H as [|? ? Ha _]; subst.
      rewrite Forall_forall in Ha. apply Ha. apply filter_In. split; [exact Hb|].
      apply String.eqb_eq. congruence.
    + apply IH. intros k. specialize (H k). unfold onCenter in *. cbn [filter] in H.
      destruct (String.eqb (workCenterId a) k); [|exact H]. now inversion H.
Qed.

End OverlapValidator.

(** X17. On work orders whose spans are not empty,
    [validateNoWorkCenterOverlaps] returns exactly when no two orders on the
    same work center overlap: comparing the neighbours in the order of the
    starts misses no pair. *)
Theorem validateNoWorkCenterOverlaps_exact (workOrders : list WorkOrder) :
  (forall wo, In wo workOrders -> fromISO (startDate wo) < fromISO (endDate wo)) ->
  validateNoWorkCenterOverlaps workOrders = Ok tt <-> overlapFree workOrders.
Proof.
  intros Hne. rewrite validateNoWorkCenterOverlaps_centers, overlapFree_centers.
  split; intros H k; specialize (H k).
  - apply (ForallOrdPairs_map buildOrderInterval (fun a b => overlaps a b = false)).
    apply (ForallOrdPairs_perm _ (sortIntervals (map buildOrderInterval (onCenter k workOrders)))).
    + intros a b Hab. now rewrite overlaps_sym.
    + apply sortIntervals_perm.
    + apply firstConsecutiveOverlap_None; [apply sortIntervals_sorted | | exact H].
      intros i Hi. apply sortIntervals_In, in_map_iff in Hi.
      destruct Hi as (wo & <- & Hwo). apply filter_In in Hwo. simpl. now apply Hne.
  - apply firstConsecutiveOverlap_free.
    apply (ForallOrdPairs_perm _ (map buildOrderInterval (onCenter k workOrders))).
    + intros a b Hab. now rewrite overlaps_sym.
    + apply Permutation_sym, sortIntervals_perm.
    + now apply (ForallOrdPairs_map buildOrderInterval (fun a b => overlaps a b = false)).
Qed.

Lemma validateNoWorkCenterOverlaps_exact_witness :
  validateNoWorkCenterOverlaps FurtherCases.apartOrders = Ok tt
  <-> overlapFree FurtherCases.apartOrders.
Proof.
  apply (validateNoWorkCenterOverlaps_exact FurtherCases.apartOrders).
  intros wo [<-|[<-|[<-|[]]]]; vm_compute; reflexivity.
Defined.

(** ** The maintenance validator *)

Section LastEntry.

Context {V : Type}.

Lemma fold_set_last (es : list (string * V)) :
  forall m k,
    JsMap.get (fold_left (fun m kv => JsMap.set m (fst kv) (snd kv)) es m) k
    = match find (fun e => String.eqb (fst e) k) (rev es) with
      | Some e => Some (snd e)
      | None => JsMap.get m k
      end.
Proof.
  induction es as [|e es IH]; intros m k; cbn [fold_left rev]; [reflexivity|].
  rewrite IH, find_app_first. destruct (find (fun e0 => String.eqb (fst e0) k) (rev es));
    [reflexivity|]. cbn [find]. destruct (String.eqb (fst e) k) eqn:E.
  - apply String.eqb_eq in E. subst k. apply get_set_same.
  - apply String.eqb_neq in E. now apply get_set_other.
Qed.

End LastEntry.

Lemma centersById_get (workCenters : list WorkCenter) (k : string) :
  JsMap.get (JsMap.ofEntries (map (fun w => (wc_docId w, w)) workCenters)) k
  = centerOf workCenters k.
Proof.
  unfold JsMap.ofEntries, centerOf. rewrite fold_set_last. cbn [JsMap.get].
  rewrite <- map_rev. induction (rev workCenters) as [|w l IH]; [reflexivity|].
  cbn [map find fst snd]. destruct (String.eqb (wc_docId w) k); [reflexivity | exact IH].
Qed.

Lemma boundaryInside_false (s e : DateTime) (mw : MaintenanceWindow) :
  boundaryInside s e mw = false
  <-> ~ (fromISO (mw_startDate mw) <= s < fromISO (mw_endDate mw))
      /\ ~ (fromISO (mw_startDate mw) < e <= fromISO (mw_endDate mw)).
Proof.
  unfold boundaryInside. cbv zeta. rewrite orb_false_iff, !andb_false_iff.
  rewrite Z.geb_leb, Z.gtb_ltb, !Z.leb_gt, !Z.ltb_ge. lia.
Qed.

Lemma existsb_false {A : Type} (f : A -> bool) (l : list A) :
  existsb f l = false <-> forall x, In x l -> f x = false.
Proof.
  induction l as [|y l IH]; simpl.
  - split; [intros _ x [] | reflexivity].
  - rewrite orb_false_iff, IH. split.
    + intros [Hy Hl] x [<-|Hx]; auto.
    + intros H. split; [apply H; now left | intros x Hx; apply H; now right].
Qed.

Lemma validateMaintenanceLoop_Ok (wcMap : JsMap.t WorkCenter) (workOrders : list WorkOrder) :
  validateMaintenanceLoop wcMap workOrders = Ok tt
  <-> forall wo, In wo workOrders ->
        exists wc,
          JsMap.get wcMap (workCenterId wo) = Some wc
          /\ forall mw, In mw (maintenanceWindows wc) ->
               boundaryInside (fromISO (startDate wo)) (fromISO (endDate wo)) mw = false.
Proof.
  induction workOrders as [|wo rest IH]; cbn [validateMaintenanceLoop].
  - split; [intros _ wo [] | reflexivity].
  - destruct (JsMap.get wcMap (workCenterId wo)) as [wc|] eqn:Eg.
    + cbv zeta.
      destruct (existsb (boundaryInside (fromISO (startDate wo)) (fromISO (endDate wo)))
                  (maintenanceWindows wc)) eqn:Ee.
      * split; [discriminate|]. intros H.
        destruct (H wo (or_introl eq_refl)) as (wc' & Hwc & Hno).
        assert (wc' = wc) by congruence. subst wc'.
        rewrite <- existsb_false in Hno. congruence.
      * rewrite IH. split.
        -- intros H w [<-|Hw]; [|now apply H]. exists wc. split; [exact Eg|].
           now apply existsb_false.
        -- intros H w Hw. apply H. now right.
    + split; [discriminate|]. intros H.
      destruct (H wo (or_introl eq_refl)) as (wc & Hwc & _). congruence.
Qed.

(** X18. [validateMaintenanceRespected] returns exactly when every work
    order is on a work center of the list (the last one with its id) and
    neither starts inside one of that center's maintenance windows, the
    window's start included, nor ends inside one, the window's end
    included. A window that lies strictly inside the span is accepted. *)
Theorem validateMaintenanceRespected_exact (workOrders : list WorkOrder)
    (workCenters : list WorkCenter) :
  validateMaintenanceRespected workOrders workCenters = Ok tt
  <-> forall wo, In wo workOrders ->
        exists wc,
          centerOf workCenters (workCenterId wo) = Some wc
          /\ forall mw, In mw (maintenanceWindows wc) ->
               ~ (fromISO (mw_startDate mw) <= fromISO (startDate wo)
                  < fromISO (mw_endDate mw))
               /\ ~ (fromISO (mw_startDate mw) < fromISO (endDate wo)
                     <= fromISO (mw_endDate mw)).
Proof.
  unfold validateMaintenanceRespected. rewrite validateMaintenanceLoop_Ok.
  split; intros H wo Hwo; destruct (H wo Hwo) as (wc & Hwc & Hno); exists wc.
  - rewrite centersById_get in Hwc. split; [exact Hwc|].
    intros mw Hmw. apply boundaryInside_false. now apply Hno.
  - rewrite centersById_get. split; [exact Hwc|].
    intros mw Hmw. apply boundaryInside_false. now apply Hno.
Qed.

Lemma validateMaintenanceLoopV1_Ok (wcMap : JsMap.t WorkCenter) (workOrders : list WorkOrder) :
  ConstraintCheckerV1.validateMaintenanceLoop wcMap workOrders = Ok tt
  <-> forall wo, In wo workOrders ->
        exists wc,
          JsMap.get wcMap (workCenterId wo) = Some wc
          /\ forall m, In m (buildMaintenanceIntervals wc) ->
               overlaps (buildOrderInterval wo) m = false.
Proof.
  induction workOrders as [|wo rest IH]; cbn [ConstraintCheckerV1.validateMaintenanceLoop].
  - split; [intros _ wo [] | reflexivity].
  - destruct (JsMap.get wcMap (workCenterId wo)) as [wc|] eqn:Eg.
    + cbv zeta.
      destruct (existsb (fun m => overlaps (buildOrderInterval wo) m)
                  (buildMaintenanceIntervals wc)) eqn:Ee.
      * split; [discriminate|]. intros H.
        destruct (H wo (or_introl eq_refl)) as (wc' & Hwc & Hno).
        assert (wc' = wc) by congruence. subst wc'.
        rewrite <- (existsb_false (fun m => overlaps (buildOrderInterval wo) m)) in Hno.
        congruence.
      * rewrite IH. split.
        -- intros H w [<-|Hw]; [|now apply H]. exists wc. split; [exact Eg|].
           now apply (existsb_false (fun m => overlaps (buildOrderInterval wo) m)).
        -- intros H w Hw. apply H. now right.
    + split; [discriminate|]. intros H.
      destruct (H wo (or_introl eq_refl)) as (wc & Hwc & _). congruence.
Qed.

(** X19. The maintenance check of the later revision is weaker than the one
    it replaced: for work orders whose spans are not empty, whatever the
    earlier check accepted (no span overlaps a maintenance window of its
    center) the later one accepts. *)
Theorem validateMaintenanceRespected_weaker (workOrders : list WorkOrder)
    (workCenters : list WorkCenter) :
  (forall wo, In wo workOrders -> fromISO (startDate wo) < fromISO (endDate wo)) ->
  ConstraintCheckerV1.validateMaintenanceRespected workOrders workCenters = Ok tt ->
  validateMaintenanceRespected workOrders workCenters = Ok tt.
Proof.
  unfold ConstraintCheckerV1.validateMaintenanceRespected, validateMaintenanceRespected.
  rewrite validateMaintenanceLoopV1_Ok, validateMaintenanceLoop_Ok.
  intros Hne H wo Hwo. destruct (H wo Hwo) as (wc & Hwc & Hno). exists wc.
  split; [exact Hwc|]. intros mw Hmw. apply boundaryInside_false.
  specialize (Hno _ (in_map _ _ mw Hmw)). specialize (Hne wo Hwo).
  unfold overlaps in Hno. cbn [start end_ buildOrderInterval] in Hno.
  apply andb_false_iff in Hno. rewrite !Z.ltb_ge in Hno. lia.
Qed.

Lemma validateMaintenanceRespected_weaker_witness :
  validateMaintenanceRespected FurtherCases.apartOrders [Scenarios.wc1; Scenarios.wc2] = Ok tt.
Proof.
  apply (validateMaintenanceRespected_weaker FurtherCases.apartOrders
           [Scenarios.wc1; Scenarios.wc2]).
  - intros wo [<-|[<-|[<-|[]]]]; vm_compute; reflexivity.
  - vm_compute. reflexivity.
Defined.

(** ** What the placement loop does to each production order *)

Section PlacedSpans.

Import Reflow.

Variable fuel : nat.
Variable wcMap : JsMap.t WorkCenter.
Variable m0 : JsMap.t WorkOrder.
Variable b0 : JsMap.t (list Interval).
Variable Q : WorkOrder -> WorkCenter -> DateUtils.Span -> Prop.

Hypothesis allocated :
  forall o wc earliest blocked span,
    JsMap.get wcMap (workCenterId o) = Some wc ->
    fromISO (startDate o) <= earliest ->
    DateUtils.scheduleWithShiftsAndBlocks fuel
      (DateUtils.mkParams (toISO earliest) (totalMinutes o) (shifts wc) blocked) = Ok span ->
    Q o wc span.

Lemma placeOrder_woMap (st st' : State) (id id' : string) :
  placeOrder fuel wcMap st id = Ok st' ->
  id' <> id -> JsMap.get (woMap st') id' = JsMap.get (woMap st) id'.
Proof.
  intros H Hne. destruct (placeOrder_inv fuel wcMap st st' id H) as (wo & wc & _ & _ & Hc).
  destruct Hc as [[_ ->]|(_ & earliest & span & _ & _ & _ & ->)]; cbn [woMap];
    [reflexivity|]. apply get_set_other. congruence.
Qed.

Lemma placeOrder_spansInv (done : list string) (st st' : State) (id : string) :
  placedInv m0 b0 done st ->
  spansInv Q wcMap m0 done st ->
  ~ In id done ->
  placeOrder fuel wcMap st id = Ok st' ->
  spansInv Q wcMap m0 (done ++ [id]) st'.
Proof.
  intros Hinv Hsp Hid H id' n Hin Hget Hm.
  destruct (string_dec id' id) as [->|Hne].
  - destruct (placeOrder_inv fuel wcMap st st' id H) as (wo & wc & Hwo & Hwc & Hc).
    destruct Hinv as (_ & I2 & _). rewrite (I2 id Hid) in Hwo.
    destruct Hc as [[Hmt ->]|(_ & earliest & span & Hle & _ & Hsch & ->)]; cbn [woMap] in Hget.
    + rewrite (I2 id Hid) in Hget. congruence.
    + rewrite get_set_same in Hget. injection Hget as <-. exists wo, wc.
      split; [exact Hwo|]. split; [exact Hwc|]. cbn [setDates startDate endDate].
      destruct span as [s e]. cbn [DateUtils.startISO DateUtils.endISO].
      apply (allocated wo wc earliest _ _ Hwc Hle Hsch).
  - rewrite (placeOrder_woMap st st' id id' H Hne) in Hget.
    apply in_app_iff in Hin. destruct Hin as [Hin|[->|[]]]; [|contradiction].
    now apply (Hsp id' n).
Qed.

Lemma placeAll_spansInv (ids : list string) :
  forall (done : list string) (st st' : State),
    placedInv m0 b0 done st ->
    spansInv Q wcMap m0 done st ->
    NoDup (done ++ ids) ->
    placeAll fuel wcMap st ids = Ok st' ->
    spansInv Q wcMap m0 (done ++ ids) st'.
Proof.
  induction ids as [|id ids IH]; intros done st st' Hinv Hsp Hnd H; simpl in H.
  - injection H as <-. now rewrite app_nil_r.
  - apply bind_Ok_inv in H. destruct H as (st1 & H1 & H2).
    assert (Hid : ~ In id done).
    { apply NoDup_remove_2 in Hnd. intros Hin. apply Hnd. apply in_or_app. now left. }
    replace (done ++ id :: ids) with ((done ++ [id]) ++ ids) in *
      by (rewrite <- app_assoc; reflexivity).
    apply (IH (done ++ [id]) st1 st'); auto.
    + now apply (placeOrder_placedInv fuel wcMap m0 b0 done st st1 id).
    + now apply (placeOrder_spansInv done st st1 id).
Qed.

End PlacedSpans.

Section DriverRun.

Import Reflow.

Variable fuel : nat.
Variable input : ReflowInput.
Variable r : ReflowResult.

Hypothesis run : reflow fuel input = Ok r.
Hypothesis ids_unique : uniqueIds input.

(** The stages of a run that returns, with the order the sort gave. *)
Lemma reflow_run :
  exists topoIds booked st,
    Dag.topoSortWorkOrders fuel (workOrders input) = Ok topoIds
    /\ NoDup topoIds
    /\ lockMaintenance (workOrders input) (seedBooked (workCenters input)) = Ok booked
    /\ placeAll fuel (centersById input) (mkState (ordersById input) booked [] []) topoIds
       = Ok st
    /\ placedInv (ordersById input) booked topoIds st
    /\ updatedWorkOrders r = collectUpdated st topoIds
    /\ map docId (updatedWorkOrders r) = topoIds.
Proof.
  pose proof run as H. unfold reflow in H.
  rewrite (ofEntries_orders (workOrders input) ids_unique), values_entries in H.
  apply bind_Ok_inv in H. destruct H as (topoIds & Htopo & H).
  apply bind_Ok_inv in H. destruct H as (booked & Hlock & H).
  apply bind_Ok_inv in H. destruct H as (st & Hplace & H).
  injection H as <-.
  destruct (topoSortWorkOrders_ok fuel _ _ Htopo) as (Hnd & _ & _).
  assert (Hinv : placedInv (ordersById input) booked topoIds st).
  { apply (placeAll_placedInv fuel (centersById input) (ordersById input) booked topoIds []
             _ st (placedInv_init input booked)); auto. }
  exists topoIds, booked, st. cbn [updatedWorkOrders].
  split; [exact Htopo|]. split; [exact Hnd|]. split; [exact Hlock|].
  split; [exact Hplace|]. split; [exact Hinv|]. split; [reflexivity|].
  apply (collectUpdated_docIds _ _ _ _ Hinv topoIds (incl_refl _)).
Qed.

(** The order of the result an id stands for, and the order of the input
    it came from. *)
Lemma updated_origin (n : WorkOrder) :
  In n (updatedWorkOrders r) ->
  exists o,
    In o (workOrders input)
    /\ inputOrder input (docId n) = Some o
    /\ docId o = docId n
    /\ n = setDates o (startDate n) (endDate n).
Proof.
  destruct reflow_run as (topoIds & booked & st & _ & _ & _ & _ & Hinv & Hupd & _).
  intros Hn. rewrite Hupd in Hn. apply (In_collectUpdated st) in Hn.
  destruct Hn as (id & _ & Hn). apply scheduledGet_get in Hn.
  destruct (placed_origin _ _ _ _ Hinv id n Hn) as (w0 & Hin & Hid & Hfind & Heq).
  pose proof (placed_docId _ _ _ _ Hinv id n Hn) as Hd.
  exists w0. unfold inputOrder. rewrite Hd. split; [exact Hin|]. split; [exact Hfind|].
  split; [congruence | exact Heq].
Qed.

Lemma reflow_spansInv (Q : WorkOrder -> WorkCenter -> DateUtils.Span -> Prop) :
  (forall o wc earliest blocked span,
      JsMap.get (centersById input) (workCenterId o) = Some wc ->
      fromISO (startDate o) <= earliest ->
      DateUtils.scheduleWithShiftsAndBlocks fuel
        (DateUtils.mkParams (toISO earliest) (totalMinutes o) (shifts wc) blocked) = Ok span ->
      Q o wc span) ->
  forall n,
    In n (updatedWorkOrders r) -> isMaintenance n = false ->
    exists o wc,
      inputOrder input (docId n) = Some o
      /\ JsMap.get (centersById input) (workCenterId o) = Some wc
      /\ Q o wc (DateUtils.mkSpan (startDate n) (endDate n)).
Proof.
  intros HQ n Hn Hm.
  destruct reflow_run as (topoIds & booked & st & _ & Hnd & _ & Hplace & Hinv & Hupd & _).
  assert (Hsp : spansInv Q (centersById input) (ordersById input) topoIds st).
  { apply (placeAll_spansInv fuel (centersById input) (ordersById input) booked Q HQ topoIds []
             (mkState (ordersById input) booked [] []) st (placedInv_init input booked)); auto.
    intros id n0 []. }
  rewrite Hupd in Hn. apply (In_collectUpdated st) in Hn.
  destruct Hn as (id & Hid & Hn). apply scheduledGet_get in Hn.
  destruct (Hsp id n Hid Hn Hm) as (o & wc & Ho & Hwc & HQn).
  exists o, wc. split; [|split; [exact Hwc | exact HQn]].
  rewrite (placed_docId _ _ _ _ Hinv id n Hn). unfold inputOrder, ordersById in *.
  now rewrite <- get_entries.
Qed.

End DriverRun.

(** What the allocator returns to the driver, whatever is booked. *)
Lemma placed_span (fuel : nat) (earliest minutes : Z) (shifts_ : list Shift)
    (blocked : list Interval) (span : DateUtils.Span) :
  DateUtils.scheduleWithShiftsAndBlocks fuel
    (DateUtils.mkParams (toISO earliest) minutes shifts_ blocked) = Ok span ->
  ((forall s, In s shifts_ -> 0 <= endHour s) ->
   earliest <= fromISO (DateUtils.startISO span)
   /\ fromISO (DateUtils.startISO span) + minutes * msPerMinute
      <= fromISO (DateUtils.endISO span))
  /\ ((forall s, In s shifts_ -> hourShift s) -> 0 < minutes ->
      inShift shifts_ (fromISO (DateUtils.startISO span)) = true).
Proof.
  intros H. unfold DateUtils.scheduleWithShiftsAndBlocks in H.
  apply bind_Ok_inv in H. destruct H as (st & Hst & [= <-]).
  cbn [DateUtils.p_startISO DateUtils.p_durationMinutes DateUtils.p_shifts
       DateUtils.p_blocked DateUtils.startISO DateUtils.endISO fromISO toISO iso_instant]
    in *.
  split.
  - intros Hv. apply (allocLoop_spanInv _ _ earliest minutes) in Hst; [|exact Hv|].
    + destruct Hst as [[Hc Hs] Hexit]. unfold msPerMinute in *.
      destruct (DateUtils.scheduledStart st) as [s|]; lia.
    + split; simpl; [apply pushOutOfBlocked_ge | reflexivity].
  - intros Hh Hpos. apply (allocLoop_startInv _ _ minutes) in Hst; [|exact Hh|reflexivity].
    destruct Hst as [Hs Hexit]. unfold startInv in Hs.
    destruct (DateUtils.scheduledStart st) as [s|]; [exact Hs | lia].
Qed.

(** X20. In the result of [reflow], the orders stand in dependency order:
    every order, a maintenance order too, comes after each of the orders it
    depends on. *)
Theorem reflow_parents_first (fuel : nat) (input : ReflowInput) (r : ReflowResult) :
  Reflow.reflow fuel input = Ok r ->
  uniqueIds input ->
  forall c pid,
    In c (updatedWorkOrders r) ->
    In pid (dependsOnWorkOrderIds c) ->
    before (map docId (updatedWorkOrders r)) pid (docId c).
Proof.
  intros Hrun Hu c pid Hc Hpid.
  destruct (reflow_run fuel input r Hrun Hu)
    as (topoIds & booked & st & Htopo & _ & _ & _ & _ & _ & Hids).
  destruct (updated_origin fuel input r Hrun Hu c Hc) as (o & Ho & _ & Hd & Heq).
  rewrite Hids, <- Hd.
  apply (topoSortWorkOrders_before (workOrders input) fuel topoIds Htopo o pid Ho).
  rewrite Heq in Hpid. exact Hpid.
Qed.

Lemma reflow_parents_first_witness :
  exists r,
    Reflow.reflow 3 Scenarios.scenario1_delayCascade = Ok r
    /\ forall c pid,
         In c (updatedWorkOrders r) ->
         In pid (dependsOnWorkOrderIds c) ->
         before (map docId (updatedWorkOrders r)) pid (docId c).
Proof.
  assert (E : exists r, Reflow.reflow 3 Scenarios.scenario1_delayCascade = Ok r)
    by (eexists; vm_compute; reflexivity).
  destruct E as [r Hrun]. exists r. split; [exact Hrun|].
  exact (reflow_parents_first 3 Scenarios.scenario1_delayCascade r Hrun scenario1_uniqueIds).
Defined.

(** X21. [reflow] changes nothing of a production order but its two dates;
    it never moves the start before the start the order came with, and the
    span it gives is at least as long as the order's working minutes (the
    duration and the setup time). *)
Theorem reflow_production_spans (fuel : nat) (input : ReflowInput) (r : ReflowResult) :
  Reflow.reflow fuel input = Ok r ->
  uniqueIds input ->
  validShifts input ->
  forall n,
    In n (updatedWorkOrders r) -> isMaintenance n = false ->
    exists o,
      inputOrder input (docId n) = Some o
      /\ n = Reflow.setDates o (startDate n) (endDate n)
      /\ fromISO (startDate o) <= fromISO (startDate n)
      /\ fromISO (startDate n) + totalMinutes o * msPerMinute <= fromISO (endDate n).
Proof.
  intros Hrun Hu Hv n Hn Hm.
  destruct (updated_origin fuel input r Hrun Hu n Hn) as (o & _ & Ho & _ & Heq).
  destruct (reflow_spansInv fuel input r Hrun Hu
              (fun o wc span =>
                 fromISO (startDate o) <= fromISO (DateUtils.startISO span)
                 /\ fromISO (DateUtils.startISO span) + totalMinutes o * msPerMinute
                    <= fromISO (DateUtils.endISO span)))
    with (n := n) as (o' & wc & Ho' & _ & Hq1 & Hq2); auto.
  - intros o1 wc1 earliest blocked span Hwc Hle Hs.
    assert (Hends : forall s, In s (shifts wc1) -> 0 <= endHour s).
    { intros s Hin. apply (wcMap_In input) in Hwc.
      destruct (Hv wc1 Hwc s Hin) as (_ & ? & ? & _). lia. }
    destruct (proj1 (placed_span fuel earliest (totalMinutes o1) (shifts wc1) blocked
                       span Hs) Hends) as [H1 H2].
    lia.
  - exists o. assert (o' = o) by congruence. subst o'.
    cbn [DateUtils.startISO DateUtils.endISO] in *. auto.
Qed.

Lemma reflow_production_spans_witness :
  exists r,
    Reflow.reflow 3 Scenarios.scenario1_delayCascade = Ok r
    /\ forall n,
         In n (updatedWorkOrders r) -> isMaintenance n = false ->
         exists o,
           inputOrder Scenarios.scenario1_delayCascade (docId n) = Some o
           /\ n = Reflow.setDates o (startDate n) (endDate n)
           /\ fromISO (startDate o) <= fromISO (startDate n)
           /\ fromISO (startDate n) + totalMinutes o * msPerMinute <= fromISO (endDate n).
Proof.
  assert (E : exists r, Reflow.reflow 3 Scenarios.scenario1_delayCascade = Ok r)
    by (eexists; vm_compute; reflexivity).
  destruct E as [r Hrun]. exists r. split; [exact Hrun|].
  exact (reflow_production_spans 3 Scenarios.scenario1_delayCascade r Hrun
           scenario1_uniqueIds scenario1_validShifts).
Defined.

(** X22. With shift hours as the data model has them, every production
    order of the result that asks for a positive number of working minutes
    starts inside a shift window of its work center. *)
Theorem reflow_starts_in_shift (fuel : nat) (input : ReflowInput) (r : ReflowResult) :
  Reflow.reflow fuel input = Ok r ->
  uniqueIds input ->
  (forall wc, In wc (workCenters input) -> forall s, In s (shifts wc) -> hourShift s) ->
  forall n,
    In n (updatedWorkOrders r) -> isMaintenance n = false -> 0 < totalMinutes n ->
    exists wc,
      centerOf (workCenters input) (workCenterId n) = Some wc
      /\ inShift (shifts wc) (fromISO (startDate n)) = true.
Proof.
  intros Hrun Hu Hh n Hn Hm Hpos.
  destruct (updated_origin fuel input r Hrun Hu n Hn) as (o & _ & Ho & _ & Heq).
  destruct (reflow_spansInv fuel input r Hrun Hu
              (fun o wc span =>
                 0 < totalMinutes o ->
                 inShift (shifts wc) (fromISO (DateUtils.startISO span)) = true))
    with (n := n) as (o' & wc & Ho' & Hwc & Hq); auto.
  - intros o1 wc1 earliest blocked span Hwc Hle Hs Hpos1.
    apply (proj2 (placed_span fuel earliest (totalMinutes o1) (shifts wc1) blocked
                    span Hs)); [|exact Hpos1].
    intros s Hin. apply (wcMap_In input) in Hwc. now apply (Hh wc1 Hwc).
  - assert (o' = o) by congruence. subst o'. exists wc.
    assert (Hc : workCenterId n = workCenterId o) by (rewrite Heq; reflexivity).
    assert (Ht : totalMinutes n = totalMinutes o) by (rewrite Heq; reflexivity).
    unfold centersById in Hwc. rewrite centersById_get in Hwc.
    split; [now rewrite Hc|]. apply Hq. now rewrite <- Ht.
Qed.

Lemma reflow_starts_in_shift_witness :
  exists r,
    Reflow.reflow 3 Scenarios.scenario1_delayCascade = Ok r
    /\ forall n,
         In n (updatedWorkOrders r) -> isMaintenance n = false -> 0 < totalMinutes n ->
         exists wc,
           centerOf (workCenters Scenarios.scenario1_delayCascade) (workCenterId n) = Some wc
           /\ inShift (shifts wc) (fromISO (startDate n)) = true.
Proof.
  assert (E : exists r, Reflow.reflow 3 Scenarios.scenario1_delayCascade = Ok r)
    by (eexists; vm_compute; reflexivity).
  destruct E as [r Hrun]. exists r. split; [exact Hrun|].
  apply (reflow_starts_in_shift 3 Scenarios.scenario1_delayCascade r Hrun scenario1_uniqueIds).
  intros wc [<-|[]] s Hs. now apply dayShift_hours.
Defined.

(** ** What the driver throws, and when it returns *)

Section LockingOutcome.

Import Reflow.

Lemma lockMaintenance_keys (orders : list WorkOrder) :
  forall booked booked',
    lockMaintenance orders booked = Ok booked' ->
    forall k, In k (JsMap.keys booked') <-> In k (JsMap.keys booked).
Proof.
  induction orders as [|wo rest IH]; intros booked booked' H k; simpl in H.
  - injection H as <-. tauto.
  - destruct (negb (isMaintenance wo)); [now apply IH|].
    destruct (JsMap.get booked (workCenterId wo)) as [l|] eqn:E; [|discriminate].
    rewrite (IH _ _ H k), In_keys_set. split; [|tauto].
    intros [->|Hk]; [now apply (get_Some_keys booked _ l) | exact Hk].
Qed.

Lemma lockMaintenance_returns (orders : list WorkOrder) :
  forall booked,
    (forall wo, In wo orders -> isMaintenance wo = true ->
                In (workCenterId wo) (JsMap.keys booked)) ->
    returns (lockMaintenance orders booked).
Proof.
  induction orders as [|wo rest IH]; intros booked Hk; simpl; [eexists; reflexivity|].
  destruct (isMaintenance wo) eqn:Em; cbn [negb].
  - destruct (keys_get booked _ (Hk wo (or_introl eq_refl) Em)) as [l Hl]. rewrite Hl.
    apply IH. intros w Hw Hm. apply In_keys_set. right. apply Hk; [now right | exact Hm].
  - apply IH. intros w Hw Hm. apply Hk; [now right | exact Hm].
Qed.

Lemma lockMaintenance_Throw (orders : list WorkOrder) (msg : string) :
  forall booked,
    lockMaintenance orders booked = Throw msg ->
    exists wo,
      In wo orders /\ isMaintenance wo = true
      /\ ~ In (workCenterId wo) (JsMap.keys booked)
      /\ msg = ("Missing center bookings: " ++ workCenterId wo)%string.
Proof.
  induction orders as [|wo rest IH]; intros booked H; simpl in H; [discriminate|].
  destruct (isMaintenance wo) eqn:Em; cbn [negb] in H.
  - destruct (JsMap.get booked (workCenterId wo)) as [l|] eqn:E.
    + destruct (IH _ H) as (w & Hw & Hm & Hk & Hmsg). exists w.
      split; [now right|]. split; [exact Hm|]. split; [|exact Hmsg].
      intros Hin. apply Hk. apply In_keys_set. now right.
    + injection H as <-. exists wo. split; [now left|]. split; [exact Em|].
      split; [now apply get_None_keys | reflexivity].
  - destruct (IH _ H) as (w & Hw & Hm & Hk & Hmsg). exists w.
    split; [now right | auto].
Qed.

Lemma seedBooked_keys (workCenters : list WorkCenter) (k : string) :
  In k (JsMap.keys (seedBooked workCenters)) <-> In k (map wc_docId workCenters).
Proof.
  unfold seedBooked.
  assert (H : forall m : JsMap.t (list Interval),
             In k (JsMap.keys
                     (fold_left
                        (fun m wc => JsMap.set m (wc_docId wc) (buildMaintenanceIntervals wc))
                        workCenters m))
             <-> In k (map wc_docId workCenters) \/ In k (JsMap.keys m)).
  { induction workCenters as [|wc rest IH]; intros m; simpl; [tauto|].
    rewrite IH, In_keys_set. intuition. }
  rewrite H. simpl. tauto.
Qed.

Lemma centerOf_None (workCenters : list WorkCenter) (k : string) :
  centerOf workCenters k = None <-> ~ In k (map wc_docId workCenters).
Proof.
  unfold centerOf. split.
  - intros H Hin. apply in_map_iff in Hin. destruct Hin as (wc & <- & Hwc).
    assert (Hr : In wc (rev workCenters)) by now apply in_rev in Hwc.
    pose proof (find_none _ _ H wc Hr) as Hf. cbv beta in Hf.
    now rewrite String.eqb_refl in Hf.
  - intros H. destruct (find (fun w => String.eqb (wc_docId w) k) (rev workCenters))
      as [wc|] eqn:E; [|reflexivity].
    apply find_some in E. destruct E as [Hin He]. apply String.eqb_eq in He.
    exfalso. apply H. apply in_map_iff. exists wc. split; [exact He | now apply in_rev].
Qed.

End LockingOutcome.

Section PlacementOutcome.

Import Reflow.

Variable input : ReflowInput.
Variable b0 : JsMap.t (list Interval).

Lemma latestParentEnd_returns (st : State) (parents : list string) :
  (forall p, In p parents -> exists w, scheduledGet st p = Some w) ->
  forall latest, returns (latestParentEnd st parents latest).
Proof.
  induction parents as [|p ps IH]; intros H latest; simpl; [eexists; reflexivity|].
  destruct (H p (or_introl eq_refl)) as [w Hw]. rewrite Hw.
  apply IH. intros q Hq. apply H. now right.
Qed.

(** A placement whose order and parents are in place throws for a missing
    work center, and otherwise does what the allocator does. *)
Lemma placeOrder_outcome (done : list string) (st : State) (id : string) (o : WorkOrder) :
  placedInv (ordersById input) b0 done st ->
  ~ In id done ->
  JsMap.get (ordersById input) id = Some o ->
  (forall p, In p (dependsOnWorkOrderIds o) -> In p done) ->
  match JsMap.get (centersById input) (workCenterId o) with
  | None =>
      forall f, placeOrder f (centersById input) st id
                = Throw ("Work center missing: " ++ workCenterId o)%string
  | Some wc =>
      if isMaintenance o then
        exists st', forall f, placeOrder f (centersById input) st id = Ok st'
      else
        exists params (F : DateUtils.Span -> State),
          DateUtils.p_shifts params = shifts wc
          /\ DateUtils.p_durationMinutes params = totalMinutes o
          /\ forall f, placeOrder f (centersById input) st id
                       = bind (DateUtils.scheduleWithShiftsAndBlocks f params)
                           (fun span => Ok (F span))
  end.
Proof.
  intros Hinv Hid Ho Hpar. pose proof Hinv as (_ & I2 & _).
  rewrite <- (I2 id Hid) in Ho.
  destruct (JsMap.get (centersById input) (workCenterId o)) as [wc|] eqn:Hwc.
  - destruct (isMaintenance o) eqn:Hm.
    + eexists. intros f. unfold placeOrder. rewrite Ho, Hwc, Hm. reflexivity.
    + assert (Hsched : forall p, In p (dependsOnWorkOrderIds o) ->
                                 exists w, scheduledGet st p = Some w).
      { intros p Hp. apply (placed_scheduledGet (workOrders input) b0 done st Hinv).
        now apply Hpar. }
      destruct (latestParentEnd_returns st (dependsOnWorkOrderIds o) Hsched
                  (fromISO (startDate o))) as [e He].
      destruct (dependsOnWorkOrderIds o) as [|p0 ps] eqn:Ed.
      * exists (DateUtils.mkParams (toISO (fromISO (startDate o))) (totalMinutes o) (shifts wc)
                  (sortIntervals
                     (match JsMap.get (centerBooked st) (wc_docId wc) with
                      | Some l => l
                      | None => []
                      end))).
        eexists. split; [reflexivity|]. split; [reflexivity|].
        intros f. unfold placeOrder. rewrite Ho, Hwc, Hm, Ed, bind_Ok. cbv zeta.
        reflexivity.
      * exists (DateUtils.mkParams (toISO e) (totalMinutes o) (shifts wc)
                  (sortIntervals
                     (match JsMap.get (centerBooked st) (wc_docId wc) with
                      | Some l => l
                      | None => []
                      end))).
        eexists. split; [reflexivity|]. split; [reflexivity|].
        intros f. unfold placeOrder. rewrite Ho, Hwc, Hm, Ed, He, bind_Ok. cbv zeta.
        reflexivity.
  - intros f. unfold placeOrder. rewrite Ho, Hwc. reflexivity.
Qed.

Variable all : list string.

Hypothesis all_unique : NoDup all.
Hypothesis all_ordered : parentsEarlier (ordersById input) all.
Hypothesis all_orders : forall id, In id all -> exists o, JsMap.get (ordersById input) id = Some o.

Lemma next_in_line (done ids : list string) (id : string) :
  all = done ++ id :: ids ->
  ~ In id done
  /\ exists o, JsMap.get (ordersById input) id = Some o
               /\ In o (workOrders input)
               /\ forall p, In p (dependsOnWorkOrderIds o) -> In p done.
Proof.
  intros Hall. split.
  - pose proof all_unique as Hnd. rewrite Hall in Hnd. apply NoDup_remove_2 in Hnd.
    intros Hin. apply Hnd. apply in_or_app. now left.
  - destruct (all_orders id) as [o Ho].
    { rewrite Hall. apply in_or_app. right. now left. }
    exists o. split; [exact Ho|]. split.
    + now destruct (get_entries_docId (workOrders input) id o Ho).
    + intros p Hp. now apply (all_ordered done id ids o p).
Qed.

Lemma placeAll_Throw (f : nat) (msg : string) (ids : list string) :
  forall done st,
    all = done ++ ids ->
    placedInv (ordersById input) b0 done st ->
    placeAll f (centersById input) st ids = Throw msg ->
    centerFault input msg.
Proof.
  induction ids as [|id ids IH]; intros done st Hall Hinv H; simpl in H; [discriminate|].
  destruct (next_in_line done ids id Hall) as (Hid & o & Ho & Hin & Hpar).
  pose proof (placeOrder_outcome done st id o Hinv Hid Ho Hpar) as Hout.
  assert (Hnext : forall st1, placeOrder f (centersById input) st id = Ok st1 ->
                              centerFault input msg).
  { intros st1 H1. rewrite H1, bind_Ok in H. apply (IH (done ++ [id]) st1).
    - rewrite Hall, <- app_assoc. reflexivity.
    - now apply (placeOrder_placedInv f (centersById input) (ordersById input) b0 done st st1 id).
    - exact H. }
  destruct (JsMap.get (centersById input) (workCenterId o)) as [wc|] eqn:Hwc.
  - unfold centersById in Hwc. rewrite centersById_get in Hwc.
    destruct (isMaintenance o) eqn:Hm.
    + destruct Hout as [st1 H1]. now apply (Hnext st1).
    + destruct Hout as (params & F & Hs & Hd & Hp).
      destruct (DateUtils.scheduleWithShiftsAndBlocks f params) as [span|m|] eqn:Es.
      * apply (Hnext (F span)). now rewrite Hp, Es.
      * rewrite Hp, Es in H. simpl in H. injection H as ->.
        destruct (allocator_Throw f params msg Es) as (Hpos & Hno & Hmsg).
        exists o. split; [exact Hin|]. right. exists wc.
        rewrite Hs in Hno, Hmsg. rewrite Hd in Hpos. auto.
      * rewrite Hp, Es in H. discriminate.
  - rewrite Hout in H. simpl in H. injection H as <-.
    exists o. split; [exact Hin|]. left. unfold centersById in Hwc.
    rewrite centersById_get in Hwc. auto.
Qed.

Hypothesis centers_known :
  forall o, In o (workOrders input) -> centerOf (workCenters input) (workCenterId o) <> None.
Hypothesis served : servedShifts input.

Lemma placeAll_returns (ids : list string) :
  forall done st,
    all = done ++ ids ->
    placedInv (ordersById input) b0 done st ->
    exists f0 st', forall f, (f0 <= f)%nat -> placeAll f (centersById input) st ids = Ok st'.
Proof.
  induction ids as [|id ids IH]; intros done st Hall Hinv.
  - exists 0%nat, st. reflexivity.
  - destruct (next_in_line done ids id Hall) as (Hid & o & Ho & Hin & Hpar).
    pose proof (placeOrder_outcome done st id o Hinv Hid Ho Hpar) as Hout.
    assert (Hstep : exists f1 st1,
               forall f, (f1 <= f)%nat -> placeOrder f (centersById input) st id = Ok st1).
    { pose proof (centers_known o Hin) as Hc.
      destruct (JsMap.get (centersById input) (workCenterId o)) as [wc|] eqn:Hwc.
      - destruct (isMaintenance o).
        + destruct Hout as [st1 H1]. exists 0%nat, st1. intros f _. apply H1.
        + destruct Hout as (params & F & Hs & Hd & Hp).
          destruct (served wc (wcMap_In input _ wc Hwc)) as [Hh Hw].
          rewrite <- Hs in Hh, Hw.
          destruct (allocator_rounds params Hh Hw) as [span Hspan].
          exists (roundsBound params), (F span). intros f Hf.
          rewrite Hp, (scheduleWithShiftsAndBlocks_fuel (roundsBound params) f params Hf),
            Hspan; [reflexivity | congruence].
      - exfalso. apply Hc. unfold centersById in Hwc. now rewrite centersById_get in Hwc. }
    destruct Hstep as (f1 & st1 & H1).
    destruct (IH (done ++ [id]) st1) as (f2 & st' & H2).
    + rewrite Hall, <- app_assoc. reflexivity.
    + apply (placeOrder_placedInv f1 (centersById input) (ordersById input) b0 done st st1 id);
        auto.
    + exists (Nat.max f1 f2), st'. intros f Hf. simpl.
      rewrite (H1 f) by lia. rewrite bind_Ok. apply H2. lia.
Qed.

End PlacementOutcome.

Lemma sorted_parentsEarlier (fuel : nat) (input : ReflowInput) (topoIds : list string) :
  Dag.topoSortWorkOrders fuel (workOrders input) = Ok topoIds ->
  parentsEarlier (ordersById input) topoIds.
Proof.
  intros Htopo l1 c l2 o p Hall Ho Hp.
  destruct (topoSortWorkOrders_ok fuel _ _ Htopo) as (Hnd & _ & _).
  destruct (get_entries_docId (workOrders input) c o Ho) as [Hin Hd].
  destruct (topoSortWorkOrders_before (workOrders input) fuel topoIds Htopo o p Hin Hp)
    as (l1' & l2' & E & Hp').
  rewrite Hd in E. rewrite E in Hall, Hnd.
  now rewrite <- (split_unique c l1' l2' l1 l2 Hnd Hall).
Qed.

Lemma sorted_orders (fuel : nat) (input : ReflowInput) (topoIds : list string) :
  uniqueIds input ->
  Dag.topoSortWorkOrders fuel (workOrders input) = Ok topoIds ->
  forall id, In id topoIds -> exists o, JsMap.get (ordersById input) id = Some o.
Proof.
  intros Hu Htopo id Hid.
  destruct (topoSortWorkOrders_ok fuel _ _ Htopo) as (_ & Hincl & _).
  apply Hincl, in_map_iff in Hid. destruct Hid as (o & <- & Ho). exists o.
  now apply get_entries_In.
Qed.

(** ** The driver with the range written out *)

Section DriverWithinRange.

Variable fuel : nat.
Variable wcMap : JsMap.t WorkCenter.

Lemma placeOrder_ranged (st : Reflow.State) (id : string) :
  (forall params, allocatorCall wcMap st id = Some params ->
                  allocatorInRange fuel params = true) ->
  Ranged.placeOrder fuel wcMap st id = Some (Reflow.placeOrder fuel wcMap st id).
Proof.
  unfold allocatorCall, Ranged.placeOrder, Reflow.placeOrder. intros H.
  destruct (JsMap.get (Reflow.woMap st) id) as [wo|]; [|reflexivity].
  destruct (JsMap.get wcMap (workCenterId wo)) as [wc|]; [|reflexivity].
  destruct (isMaintenance wo); [reflexivity|]. cbv zeta.
  apply andThen_Some. intros earliest He.
  assert (Hl : Reflow.latestParentEnd st (dependsOnWorkOrderIds wo) (fromISO (startDate wo))
               = Ok earliest).
  { destruct (dependsOnWorkOrderIds wo); [exact He | exact He]. }
  rewrite Hl in H. specialize (H _ eq_refl). unfold totalMinutes, bookedOn in H.
  rewrite (scheduleWithShiftsAndBlocks_ranged _ _ H). now apply andThen_Some.
Qed.

Lemma placeAll_ranged (topoIds : list string) :
  forall st,
    forallb (allocatorInRange fuel) (allocatorCalls fuel wcMap st topoIds) = true ->
    Ranged.placeAll fuel wcMap st topoIds = Some (Reflow.placeAll fuel wcMap st topoIds).
Proof.
  induction topoIds as [|id rest IH]; intros st H; [reflexivity|].
  cbn [Ranged.placeAll Reflow.placeAll allocatorCalls] in *.
  rewrite forallb_app in H. apply andb_true_iff in H. destruct H as [H1 H2].
  rewrite placeOrder_ranged.
  - apply andThen_Some. intros st' E. rewrite E in H2. now apply IH.
  - intros params E. rewrite E in H1. cbn [forallb] in H1.
    now apply andb_true_iff in H1.
Qed.

End DriverWithinRange.

Lemma reflow_ranged (fuel : nat) (input : ReflowInput) :
  reflowInRange fuel input = true ->
  Ranged.reflow fuel input = Some (Reflow.reflow fuel input).
Proof.
  unfold reflowInRange, reflowCalls, Ranged.reflow, Reflow.reflow. cbv zeta. intros H.
  apply andThen_Some. intros topoIds Htopo. rewrite Htopo in H.
  apply andThen_Some. intros booked Hlock. rewrite Hlock in H.
  rewrite (placeAll_ranged _ _ _ _ H). now apply andThen_Some.
Qed.

(** What the driver of [Reflow] throws. *)
Lemma reflow_Throw (fuel : nat) (input : ReflowInput) (msg : string) :
  Reflow.reflow fuel input = Throw msg ->
  uniqueIds input ->
  (exists p, firstUnknownParent (workOrders input) = Some p
             /\ msg = ("Dependency references missing work order: " ++ p)%string)
  \/ (msg = "Circular dependency detected (graph is not a DAG)."%string
      /\ exists x,
           clos_trans string (fun p c => In (p, c) (edgesOf (workOrders input))) x x)
  \/ (exists o, In o (workOrders input) /\ isMaintenance o = true
                /\ centerOf (workCenters input) (workCenterId o) = None
                /\ msg = ("Missing center bookings: " ++ workCenterId o)%string)
  \/ centerFault input msg.
Proof.
  intros H Hu. unfold Reflow.reflow in H.
  rewrite (ofEntries_orders (workOrders input) Hu), values_entries in H.
  destruct (Dag.topoSortWorkOrders fuel (workOrders input)) as [topoIds|m|] eqn:Htopo;
    [|simpl in H; injection H as ->|discriminate].
  - rewrite bind_Ok in H.
    destruct (Reflow.lockMaintenance (workOrders input) (Reflow.seedBooked (workCenters input)))
      as [booked|m|] eqn:Hlock; [|simpl in H; injection H as ->|discriminate].
    + rewrite bind_Ok in H. right. right. right.
      destruct (Reflow.placeAll fuel
                  (JsMap.ofEntries (map (fun w => (wc_docId w, w)) (workCenters input)))
                  (Reflow.mkState (map (fun w => (docId w, w)) (workOrders input)) booked [] [])
                  topoIds) as [st|m|] eqn:Hplace; [discriminate| |discriminate].
      simpl in H. injection H as ->.
      destruct (topoSortWorkOrders_ok fuel _ _ Htopo) as (Hnd & _ & _).
      apply (placeAll_Throw input booked topoIds Hnd
               (sorted_parentsEarlier fuel input topoIds Htopo)
               (sorted_orders fuel input topoIds Hu Htopo)
               fuel msg topoIds [] _ eq_refl (placedInv_init input booked) Hplace).
    + right. right. left.
      destruct (lockMaintenance_Throw _ _ _ Hlock) as (o & Ho & Hm & Hk & Hmsg).
      exists o. split; [exact Ho|]. split; [exact Hm|]. split; [|exact Hmsg].
      apply centerOf_None. intros Hin. apply Hk. now apply seedBooked_keys.
  - destruct (topoSortWorkOrders_Throw fuel _ _ Htopo) as [(p & Hp & Hmsg)|[Hknown Hmsg]].
    + left. now exists p.
    + right. left. split; [exact Hmsg|].
      now apply (topoSortWorkOrders_stuck fuel (workOrders input) msg Hu Hknown).
Qed.

(** X23. A run of [reflow] on work orders with unique ids that stays among
    the instants the date library represents ([reflowInRange]) throws for four
    faults of its input only: a dependency that names no work order; a
    circular dependency, some order depending on itself through a chain of
    dependencies; an order on a work center the input does not hold (one
    error for a maintenance order, another for a production order); a
    production order that asks for working minutes on a center whose shift
    table has no shift on a day of the week. The error of the ordering
    violation is never thrown. *)
Theorem reflow_throws (fuel : nat) (input : ReflowInput) (msg : string) :
  Ranged.reflow fuel input = Some (Throw msg) ->
  uniqueIds input ->
  reflowInRange fuel input = true ->
  (exists p, firstUnknownParent (workOrders input) = Some p
             /\ msg = ("Dependency references missing work order: " ++ p)%string)
  \/ (msg = "Circular dependency detected (graph is not a DAG)."%string
      /\ exists x,
           clos_trans string (fun p c => In (p, c) (edgesOf (workOrders input))) x x)
  \/ (exists o, In o (workOrders input) /\ isMaintenance o = true
                /\ centerOf (workCenters input) (workCenterId o) = None
                /\ msg = ("Missing center bookings: " ++ workCenterId o)%string)
  \/ centerFault input msg.
Proof.
  intros H Hu Hr. rewrite (reflow_ranged fuel input Hr) in H. injection H as H.
  now apply (reflow_Throw fuel input msg).
Qed.

Lemma reflow_throws_witness :
  Ranged.reflow 2 FurtherCases.mutualWaitInput
  = Some (Throw "Circular dependency detected (graph is not a DAG).")
  /\ reflowInRange 2 FurtherCases.mutualWaitInput = true
  /\ exists x,
       clos_trans string
         (fun p c => In (p, c) (edgesOf (workOrders FurtherCases.mutualWaitInput))) x x.
Proof.
  assert (Hrun : Ranged.reflow 2 FurtherCases.mutualWaitInput
                 = Some (Throw "Circular dependency detected (graph is not a DAG)."))
    by (vm_compute; reflexivity).
  assert (Hin : reflowInRange 2 FurtherCases.mutualWaitInput = true)
    by (vm_compute; reflexivity).
  assert (Hu : uniqueIds FurtherCases.mutualWaitInput).
  { unfold uniqueIds. simpl.
    repeat (constructor; [simpl; intros H; repeat destruct H as [H|H]; try discriminate H;
                          exact H|]).
    constructor. }
  split; [exact Hrun|]. split; [exact Hin|].
  destruct (reflow_throws 2 FurtherCases.mutualWaitInput _ Hrun Hu Hin)
    as [(p & Hp & _)|[[_ Hc]|[(o & _ & _ & _ & Hm)|(o & _ & [[_ Hm]|(wc & _ & _ & _ & _ & Hm)])]]].
  - vm_compute in Hp. discriminate Hp.
  - exact Hc.
  - discriminate Hm.
  - discriminate Hm.
  - unfold noWindowMessage in Hm. destruct (shifts wc); discriminate Hm.
Defined.

Lemma centerOf_known (workCenters : list WorkCenter) (k : string) :
  centerOf workCenters k <> None -> In k (map wc_docId workCenters).
Proof.
  unfold centerOf. intros H.
  destruct (find (fun w => String.eqb (wc_docId w) k) (rev workCenters)) as [wc|] eqn:E;
    [|contradiction].
  apply find_some in E. destruct E as [Hin He]. apply String.eqb_eq in He.
  apply in_map_iff. exists wc. split; [exact He | now apply in_rev].
Qed.

(** The rounds that suffice for the driver of [Reflow]. *)
Lemma reflow_rounds (input : ReflowInput) (rank : string -> nat) :
  uniqueIds input ->
  (forall wo p, In wo (workOrders input) -> In p (dependsOnWorkOrderIds wo) ->
                In p (map docId (workOrders input)) /\ (rank p < rank (docId wo))%nat) ->
  (forall o, In o (workOrders input) ->
             centerOf (workCenters input) (workCenterId o) <> None) ->
  servedShifts input ->
  exists fuel, forall f, (fuel <= f)%nat -> returns (Reflow.reflow f input).
Proof.
  intros Hu Hrank Hcenters Hserved.
  set (n := List.length (workOrders input)).
  destruct (ranked_sort_rounds (workOrders input) rank Hu Hrank) as [topoIds Htopo].
  fold n in Htopo.
  destruct (lockMaintenance_returns (workOrders input) (Reflow.seedBooked (workCenters input)))
    as [booked Hlock].
  { intros wo Hwo _. apply seedBooked_keys, centerOf_known. now apply Hcenters. }
  destruct (topoSortWorkOrders_ok n _ _ Htopo) as (Hnd & _ & _).
  destruct (placeAll_returns input booked topoIds Hnd
              (sorted_parentsEarlier n input topoIds Htopo)
              (sorted_orders n input topoIds Hu Htopo) Hcenters Hserved
              topoIds [] (Reflow.mkState (ordersById input) booked [] []) eq_refl
              (placedInv_init input booked)) as (f0 & st & Hplace).
  exists (Nat.max n f0). intros f Hf. unfold Reflow.reflow.
  rewrite (ofEntries_orders (workOrders input) Hu), values_entries.
  rewrite (topoSortWorkOrders_fuel n f (workOrders input)) by (try lia; congruence).
  rewrite Htopo, bind_Ok, Hlock, bind_Ok.
  fold (ordersById input). fold (centersById input).
  rewrite (Hplace f) by lia. rewrite bind_Ok. eexists. reflexivity.
Qed.

(** X24. [reflow] returns a schedule, given fuel enough, on every input
    whose ids are unique, whose dependencies name work orders and have a
    ranking, whose orders are on work centers of the input, and whose work
    centers have shift hours as the data model has them and a shift on some
    day of the week: whatever the durations, the dates and the maintenance
    windows for which the run stays among the instants the date library
    represents ([reflowInRange]). *)
Theorem reflow_returns (input : ReflowInput) (rank : string -> nat) :
  uniqueIds input ->
  (forall wo p, In wo (workOrders input) -> In p (dependsOnWorkOrderIds wo) ->
                In p (map docId (workOrders input)) /\ (rank p < rank (docId wo))%nat) ->
  (forall o, In o (workOrders input) ->
             centerOf (workCenters input) (workCenterId o) <> None) ->
  servedShifts input ->
  exists fuel,
    forall f, (fuel <= f)%nat -> reflowInRange f input = true ->
              exists r, Ranged.reflow f input = Some (Ok r).
Proof.
  intros Hu Hrank Hcenters Hserved.
  destruct (reflow_rounds input rank Hu Hrank Hcenters Hserved) as [fuel Hfuel].
  exists fuel. intros f Hf Hr. rewrite (reflow_ranged f input Hr).
  destruct (Hfuel f Hf) as [r Hrun]. exists r. now rewrite Hrun.
Qed.

Lemma reflow_returns_witness :
  reflowInRange 3 Scenarios.scenario1_delayCascade = true
  /\ exists fuel,
       forall f, (fuel <= f)%nat ->
                 reflowInRange f Scenarios.scenario1_delayCascade = true ->
                 exists r, Ranged.reflow f Scenarios.scenario1_delayCascade = Some (Ok r).
Proof.
  split; [vm_compute; reflexivity|].
  apply (reflow_returns Scenarios.scenario1_delayCascade FurtherCases.chainRank).
  - exact scenario1_uniqueIds.
  - intros wo p [<-|[<-|[<-|[]]]] Hp; simpl in Hp; try contradiction;
      destruct Hp as [<-|[]]; (split; [simpl; tauto | vm_compute; lia]).
  - intros o [<-|[<-|[<-|[]]]]; vm_compute; discriminate.
  - intros wc [<-|[]]. split; [apply dayShift_hours|].
    exists (mkShift 1 8 17). split; [now left | simpl; lia].
Defined.

(** ** The metrics of a result *)

Lemma sumDelays_fold (changes : list Change) :
  forall a,
    fold_left (fun sum c => sum + Z.max 0 (deltaMinutes c)) changes a
    = a + fold_right (fun c s => Z.max 0 (deltaMinutes c) + s) 0 changes.
Proof.
  induction changes as [|c cs IH]; intros a; simpl; [lia|]. rewrite IH. lia.
Qed.

Lemma delays_bounds (changes : list Change) :
  0 <= fold_right (fun c s => Z.max 0 (deltaMinutes c) + s) 0 changes
  /\ (forall c, In c changes ->
        deltaMinutes c <= fold_right (fun c s => Z.max 0 (deltaMinutes c) + s) 0 changes)
  /\ (fold_right (fun c s => Z.max 0 (deltaMinutes c) + s) 0 changes = 0
      <-> forall c, In c changes -> deltaMinutes c <= 0).
Proof.
  induction changes as [|c cs (IH1 & IH2 & IH3)]; simpl.
  - split; [lia|]. split; [intros c []|]. split; [intros _ c [] | reflexivity].
  - split; [lia|]. split; [|split].
    + intros c' [<-|Hc]; [lia|]. specialize (IH2 c' Hc). lia.
    + intros H c' [<-|Hc]; [lia|]. apply IH3; [lia | exact Hc].
    + intros H. pose proof (H c (or_introl eq_refl)).
      assert (Hz : fold_right (fun c0 s => Z.max 0 (deltaMinutes c0) + s) 0 cs = 0).
      { apply IH3. intros c' Hc. apply H. now right. }
      lia.
Qed.

(** X25. In a result of [reflow], [movedCount] is the number of change
    records and [totalDelayMinutes] is the sum of their [deltaMinutes] with
    the negative ones counted as zero: it is never negative, it is at least
    the [deltaMinutes] of every record, and it is zero exactly when no order
    ends later than it did. *)
Theorem reflow_metrics (fuel : nat) (input : ReflowInput) (r : ReflowResult) :
  Reflow.reflow fuel input = Ok r ->
  movedCount (metrics r) = Z.of_nat (List.length (changes r))
  /\ totalDelayMinutes (metrics r)
     = fold_right (fun c s => Z.max 0 (deltaMinutes c) + s) 0 (changes r)
  /\ 0 <= totalDelayMinutes (metrics r)
  /\ (forall c, In c (changes r) -> deltaMinutes c <= totalDelayMinutes (metrics r))
  /\ (totalDelayMinutes (metrics r) = 0
      <-> forall c, In c (changes r) -> deltaMinutes c <= 0).
Proof.
  intros H. unfold Reflow.reflow in H.
  apply bind_Ok_inv in H. destruct H as (topoIds & _ & H).
  apply bind_Ok_inv in H. destruct H as (booked & _ & H).
  apply bind_Ok_inv in H. destruct H as (st & _ & H).
  injection H as <-. cbn [metrics changes movedCount totalDelayMinutes].
  unfold Reflow.sumDelays. rewrite sumDelays_fold, Z.add_0_l.
  destruct (delays_bounds (Reflow.changesAcc st)) as (H1 & H2 & H3).
  split; [reflexivity|]. split; [reflexivity|]. auto.
Qed.

Lemma reflow_metrics_witness :
  exists r,
    Reflow.reflow 3 Scenarios.scenario1_delayCascade = Ok r
    /\ movedCount (metrics r) = 3
    /\ totalDelayMinutes (metrics r) = 240 + 240 + 1140
    /\ forall c, In c (changes r) -> deltaMinutes c <= totalDelayMinutes (metrics r).
Proof.
  assert (E : exists r, Reflow.reflow 3 Scenarios.scenario1_delayCascade = Ok r
                        /\ movedCount (metrics r) = 3
                        /\ totalDelayMinutes (metrics r) = 240 + 240 + 1140)
    by (eexists; split; [vm_compute; reflexivity | split; vm_compute; reflexivity]).
  destruct E as (r & Hrun & Hm & Ht). exists r.
  split; [exact Hrun|]. split; [exact Hm|]. split; [exact Ht|].
  exact (proj1 (proj2 (proj2 (proj2 (reflow_metrics 3 Scenarios.scenario1_delayCascade r
                                         Hrun))))).
Defined.

(** ** Inputs that repeat an id *)

Section RepeatedIds.

Variable input : ReflowInput.

Lemma ordersById_entries :
  forall k w,
    In (k, w) (JsMap.ofEntries (map (fun w => (docId w, w)) (workOrders input))) ->
    docId w = k.
Proof.
  intros k w H.
  apply (In_get _ _ _ (NoDup_keys_ofEntries _)) in H.
  apply get_ofEntries_In, in_map_iff in H. destruct H as (w' & [= <- <-] & _). reflexivity.
Qed.

Lemma entries_of_values (m : JsMap.t WorkOrder) :
  (forall k w, In (k, w) m -> docId w = k) ->
  map (fun w => (docId w, w)) (JsMap.values m) = m.
Proof.
  induction m as [|[k w] m IH]; intros H; [reflexivity|]. cbn [JsMap.values map snd].
  rewrite (H k w (or_introl eq_refl)). f_equal. apply IH.
  intros k' w' Hin. apply H. now right.
Qed.

Lemma ordersKept_entries :
  map (fun w => (docId w, w)) (ordersKept input)
  = JsMap.ofEntries (map (fun w => (docId w, w)) (workOrders input)).
Proof. unfold ordersKept. apply entries_of_values, ordersById_entries. Qed.

Lemma ordersKept_unique : NoDup (map docId (ordersKept input)).
Proof.
  replace (map docId (ordersKept input))
    with (JsMap.keys (map (fun w => (docId w, w)) (ordersKept input)))
    by (unfold JsMap.keys; rewrite map_map; reflexivity).
  rewrite ordersKept_entries. apply NoDup_keys_ofEntries.
Qed.

Lemma ordersKept_In (w : WorkOrder) :
  In w (ordersKept input)
  <-> find (fun x => String.eqb (docId x) (docId w)) (rev (workOrders input)) = Some w.
Proof.
  set (es := map (fun w => (docId w, w)) (workOrders input)).
  assert (Hget : forall k,
             JsMap.get (JsMap.ofEntries es) k
             = find (fun x => String.eqb (docId x) k) (rev (workOrders input))).
  { intros k. unfold JsMap.ofEntries, es. rewrite fold_set_last. cbn [JsMap.get].
    rewrite <- map_rev. induction (rev (workOrders input)) as [|x l IH]; [reflexivity|].
    cbn [map find fst snd]. destruct (String.eqb (docId x) k); [reflexivity | exact IH]. }
  rewrite <- Hget. unfold ordersKept. fold es. split.
  - intros H. unfold JsMap.values in H. apply in_map_iff in H.
    destruct H as ([k w'] & Hw & Hin). simpl in Hw. subst w'.
    rewrite (ordersById_entries k w Hin).
    now apply (In_get _ _ _ (NoDup_keys_ofEntries es)).
  - intros H. apply get_In in H. unfold JsMap.values.
    apply in_map_iff. now exists (docId w, w).
Qed.

End RepeatedIds.

(** X26. [reflow] reads the work orders by id: of the orders that share an
    id it keeps the one given last and drops the others without an error.
    Its outcome is the outcome on the orders kept, whose ids are unique; an
    input with unique ids is kept whole. *)
Theorem reflow_repeated_ids (fuel : nat) (input : ReflowInput) :
  Reflow.reflow fuel input
  = Reflow.reflow fuel (mkReflowInput (ordersKept input) (workCenters input))
  /\ uniqueIds (mkReflowInput (ordersKept input) (workCenters input))
  /\ (forall w,
        In w (ordersKept input)
        <-> find (fun x => String.eqb (docId x) (docId w)) (rev (workOrders input)) = Some w)
  /\ (uniqueIds input -> ordersKept input = workOrders input).
Proof.
  split; [|split; [|split]].
  - unfold Reflow.reflow. cbn [workOrders workCenters].
    rewrite (ordersKept_entries input).
    rewrite (ofEntries_NoDup (JsMap.ofEntries (map (fun w => (docId w, w)) (workOrders input))))
      by apply NoDup_keys_ofEntries.
    reflexivity.
  - apply ordersKept_unique.
  - apply ordersKept_In.
  - intros Hu. unfold ordersKept. rewrite (ofEntries_orders (workOrders input) Hu).
    apply values_entries.
Qed.

(** ** Schedules on whole minutes *)

Section WholeMinutes.

Import DateUtils.

Variable shifts : list Shift.
Variable bs : list Interval.

Hypothesis hours : forall s, In s shifts -> hourShift s.
Hypothesis blocks_aligned : forall b, In b bs -> alignedInterval b.

Lemma push_aligned (c : DateTime) : aligned c -> aligned (pushOutOfBlocked c bs).
Proof.
  intros Hc. destruct (pushOutOfBlocked_cases c bs) as [[-> _]|(b & Hb & _ & ->)];
    [exact Hc | now destruct (blocks_aligned b Hb)].
Qed.

Lemma freeSegmentEnd_aligned (c e : DateTime) :
  aligned e -> aligned (freeSegmentEnd c e (nextBlock c e bs)).
Proof.
  intros He. unfold freeSegmentEnd. destruct (nextBlock c e bs) as [b|] eqn:E; [|exact He].
  apply nextBlock_Some in E. destruct E as (Hb & _).
  destruct (start b >? c); [|exact He].
  destruct (start b <? e); [now destruct (blocks_aligned b Hb) | exact He].
Qed.

Lemma loopBody_alignedState (st st' : LoopState) :
  loopBody shifts bs st = Ok st' -> alignedState st -> alignedState st'.
Proof.
  intros H [Hc Hs].
  destruct (loopBody_inv shifts bs st st' H) as (w & Hw & Hcases). cbv zeta in Hcases.
  destruct (window_aligned (cursor st) shifts w hours Hw Hc) as [Hws Hwe].
  assert (Hc3 : aligned (Z.max (pushOutOfBlocked (Z.max (cursor st) (start w)) bs) (start w))).
  { apply aligned_max; [|exact Hws]. apply push_aligned. now apply aligned_max. }
  set (c3 := Z.max (pushOutOfBlocked (Z.max (cursor st) (start w)) bs) (start w)) in *.
  assert (Hstarted : forall s,
             Some (match scheduledStart st with Some s0 => s0 | None => c3 end) = Some s ->
             aligned s).
  { intros s [= <-]. destruct (scheduledStart st) as [s0|]; [now apply Hs | exact Hc3]. }
  destruct Hcases as [[_ ->]|[(_ & _ & ->)|(_ & _ & ->)]]; split;
    cbn [cursor scheduledStart]; auto.
  - now apply aligned_plusMinutes.
  - apply aligned_plusMinutes. now apply freeSegmentEnd_aligned.
  - apply push_aligned. now apply aligned_plusMinutes.
Qed.

Lemma allocLoop_alignedState (fuel : nat) (st st' : LoopState) :
  allocLoop fuel shifts bs st = Ok st' -> alignedState st -> alignedState st'.
Proof.
  apply (allocLoop_induct shifts bs alignedState).
  intros st0 st1 _. apply loopBody_alignedState.
Qed.

End WholeMinutes.

(** X27. When [startISO] and the bounds of the blocked intervals are on
    whole minutes, the minutes asked for are a whole number (as the durations
    of this development are: a duration of 90.5 minutes would end on a half
    minute), and the shift hours are as the data model has them, the span
    the allocator returns starts and ends on whole minutes: neither the
    pushes out of blocked intervals nor the steps of one minute past the end
    of a window leave the minute grid. *)
Theorem scheduleWithShiftsAndBlocks_whole_minutes (fuel : nat) (params : DateUtils.Params)
    (span : DateUtils.Span) :
  (forall s, In s (DateUtils.p_shifts params) -> hourShift s) ->
  aligned (fromISO (DateUtils.p_startISO params)) ->
  (forall b, In b (DateUtils.p_blocked params) -> aligned (start b) /\ aligned (end_ b)) ->
  DateUtils.scheduleWithShiftsAndBlocks fuel params = Ok span ->
  aligned (fromISO (DateUtils.startISO span)) /\ aligned (fromISO (DateUtils.endISO span)).
Proof.
  intros Hh Hs Hb H. unfold DateUtils.scheduleWithShiftsAndBlocks in H.
  apply bind_Ok_inv in H. destruct H as (st & Hst & [= <-]). simpl.
  assert (Hbs : forall b, In b (sortIntervals (DateUtils.p_blocked params)) ->
                          alignedInterval b).
  { intros b Hin. apply Hb. now apply sortIntervals_In. }
  apply (allocLoop_alignedState _ _ Hh Hbs) in Hst.
  - destruct Hst as [Hc Hst]. split; [|exact Hc].
    destruct (DateUtils.scheduledStart st) as [s|]; [now apply Hst | exact Hs].
  - split; simpl; [now apply push_aligned | discriminate].
Qed.

Lemma scheduleWithShiftsAndBlocks_whole_minutes_witness :
  aligned (utc 2026 3 3 9 30) /\ aligned (utc 2026 3 3 15 30).
Proof.
  apply (scheduleWithShiftsAndBlocks_whole_minutes 2 Cases.aroundMaintenance
           (DateUtils.mkSpan (toISO (utc 2026 3 3 9 30)) (toISO (utc 2026 3 3 15 30)))).
  - apply dayShift_hours.
  - vm_compute. reflexivity.
  - intros b Hb. rewrite (aroundMaintenance_blocks b Hb). split; vm_compute; reflexivity.
  - vm_compute. reflexivity.
Defined.

(** ** One placement, exactly *)

Section PlacementExact.

Import Reflow.

Lemma latestParentEnd_exact (st : State) (parents : list string) :
  forall latest e,
    latestParentEnd st parents latest = Ok e -> e = latestEnd st parents latest.
Proof.
  unfold latestEnd.
  induction parents as [|p ps IH]; intros latest e H; simpl in *; [congruence|].
  destruct (scheduledGet st p) as [w|]; [|discriminate].
  rewrite (IH _ _ H). f_equal.
  destruct (fromISO (endDate w) >? latest) eqn:E; rewrite Z.gtb_ltb in E;
    [apply Z.ltb_lt in E | apply Z.ltb_ge in E]; lia.
Qed.

(** What [placeOrder] does with a production order: one call of the
    allocator, from the latest of the order's start and its parents' ends,
    against the bookings of the center. *)
Lemma placeOrder_exact (fuel : nat) (wcMap : JsMap.t WorkCenter) (st st' : State)
    (id : string) (wo : WorkOrder) :
  placeOrder fuel wcMap st id = Ok st' ->
  JsMap.get (woMap st) id = Some wo ->
  isMaintenance wo = false ->
  exists wc span,
    JsMap.get wcMap (workCenterId wo) = Some wc
    /\ DateUtils.scheduleWithShiftsAndBlocks fuel
         (DateUtils.mkParams
            (toISO (latestEnd st (dependsOnWorkOrderIds wo) (fromISO (startDate wo))))
            (totalMinutes wo) (shifts wc) (sortIntervals (bookedOn st wc)))
       = Ok span
    /\ woMap st'
       = JsMap.set (woMap st) id
           (setDates wo (DateUtils.startISO span) (DateUtils.endISO span))
    /\ centerBooked st'
       = JsMap.set (centerBooked st) (wc_docId wc)
           (sortIntervals
              (bookedOn st wc
               ++ [buildOrderInterval
                     (setDates wo (DateUtils.startISO span) (DateUtils.endISO span))])).
Proof.
  unfold placeOrder. intros H Hwo Hm. rewrite Hwo in H.
  destruct (JsMap.get wcMap (workCenterId wo)) as [wc|] eqn:Ewc; [|discriminate].
  rewrite Hm in H.
  apply bind_Ok_inv in H. destruct H as (earliest & He & H).
  apply bind_Ok_inv in H. destruct H as (span & Hspan & H).
  assert (Hearliest : earliest
                      = latestEnd st (dependsOnWorkOrderIds wo) (fromISO (startDate wo))).
  { destruct (dependsOnWorkOrderIds wo) as [|p ps] eqn:Ed.
    - injection He as <-. reflexivity.
    - now apply latestParentEnd_exact in He. }
  subst earliest. exists wc, span. split; [reflexivity|]. split; [exact Hspan|].
  injection H as <-. split; reflexivity.
Qed.

End PlacementExact.

(** ** Runs on whole minutes *)

Section WholeMinuteRun.

Import Reflow.

Variable fuel : nat.
Variable wcMap : JsMap.t WorkCenter.

Hypothesis hours :
  forall k wc, JsMap.get wcMap k = Some wc -> forall s, In s (shifts wc) -> hourShift s.

Lemma latestEnd_aligned (st : State) (parents : list string) :
  (forall id w, JsMap.get (woMap st) id = Some w -> alignedOrder w) ->
  forall latest, aligned latest -> aligned (latestEnd st parents latest).
Proof.
  intros Hw. unfold latestEnd.
  induction parents as [|p ps IH]; intros latest Hl; simpl; [exact Hl|].
  apply IH. destruct (scheduledGet st p) as [w|] eqn:E; [|exact Hl].
  apply scheduledGet_get in E. apply aligned_max; [exact Hl|].
  now destruct (Hw p w E).
Qed.

Lemma placeOrder_alignedRun (st st' : State) (id : string) :
  placeOrder fuel wcMap st id = Ok st' -> alignedRun st -> alignedRun st'.
Proof.
  intros H [Hw Hb].
  destruct (placeOrder_inv fuel wcMap st st' id H) as (wo & wc0 & Hwo & Hwc0 & Hc).
  destruct Hc as [[_ ->]|(Hm & _)]; [split; assumption|].
  destruct (placeOrder_exact fuel wcMap st st' id wo H Hwo Hm)
    as (wc & span & Hwc & Hspan & Hmap & Hbook).
  assert (Hl : forall b, In b (bookedOn st wc) -> alignedInterval b).
  { unfold bookedOn. destruct (JsMap.get (centerBooked st) (wc_docId wc)) as [l|] eqn:E;
      [now apply (Hb (wc_docId wc)) | intros b []]. }
  assert (Hs : alignedOrder (setDates wo (DateUtils.startISO span) (DateUtils.endISO span))).
  { unfold alignedOrder. cbn [setDates startDate endDate].
    unfold DateUtils.scheduleWithShiftsAndBlocks in Hspan.
    apply bind_Ok_inv in Hspan. destruct Hspan as (ls & Hls & [= <-]).
    cbn [DateUtils.p_startISO DateUtils.p_durationMinutes DateUtils.p_shifts
         DateUtils.p_blocked DateUtils.startISO DateUtils.endISO fromISO toISO iso_instant]
      in *.
    assert (He : aligned (latestEnd st (dependsOnWorkOrderIds wo) (fromISO (startDate wo)))).
    { apply latestEnd_aligned; [exact Hw | now destruct (Hw id wo Hwo)]. }
    assert (Hbs : forall b, In b (sortIntervals (sortIntervals (bookedOn st wc))) ->
                            alignedInterval b).
    { intros b Hin. rewrite !sortIntervals_In in Hin. now apply Hl. }
    apply (allocLoop_alignedState _ _ (hours _ wc Hwc) Hbs) in Hls.
    - destruct Hls as [Hc Hst]. split; [|exact Hc].
      destruct (DateUtils.scheduledStart ls) as [s|]; [now apply Hst | exact He].
    - split; simpl; [now apply push_aligned | discriminate]. }
  split.
  - intros id' w Hget. rewrite Hmap in Hget. destruct (string_dec id id') as [<-|Hne].
    + rewrite get_set_same in Hget. now injection Hget as <-.
    + rewrite get_set_other in Hget by exact Hne. now apply (Hw id').
  - intros k l Hget b Hin. rewrite Hbook in Hget.
    destruct (string_dec (wc_docId wc) k) as [<-|Hne].
    + rewrite get_set_same in Hget. injection Hget as <-.
      apply sortIntervals_In, in_app_iff in Hin. destruct Hin as [Hin|[<-|[]]];
        [now apply Hl | exact Hs].
    + rewrite get_set_other in Hget by exact Hne. now apply (Hb k l).
Qed.

Lemma placeAll_alignedRun (ids : list string) :
  forall st st', placeAll fuel wcMap st ids = Ok st' -> alignedRun st -> alignedRun st'.
Proof.
  induction ids as [|id ids IH]; intros st st' H Hal; simpl in H; [congruence|].
  apply bind_Ok_inv in H. destruct H as (st1 & H1 & H2).
  apply (IH st1 st' H2). now apply (placeOrder_alignedRun st st1 id).
Qed.

End WholeMinuteRun.

Section WholeMinuteBookings.

Import Reflow.

Lemma seedBooked_aligned (workCenters : list WorkCenter) :
  (forall wc, In wc workCenters -> forall mw, In mw (maintenanceWindows wc) ->
     aligned (fromISO (mw_startDate mw)) /\ aligned (fromISO (mw_endDate mw))) ->
  forall k l, JsMap.get (seedBooked workCenters) k = Some l ->
    forall b, In b l -> alignedInterval b.
Proof.
  intros Hmw. unfold seedBooked.
  assert (H : forall (wcs : list WorkCenter) (m : JsMap.t (list Interval)),
             incl wcs workCenters ->
             (forall k l, JsMap.get m k = Some l -> forall b, In b l -> alignedInterval b) ->
             forall k l,
               JsMap.get
                 (fold_left
                    (fun m wc => JsMap.set m (wc_docId wc) (buildMaintenanceIntervals wc))
                    wcs m) k = Some l ->
               forall b, In b l -> alignedInterval b).
  { induction wcs as [|wc wcs IH]; intros m Hincl Hm k l Hget b Hb; simpl in Hget.
    - now apply (Hm k l).
    - apply (IH _ (fun x Hx => Hincl x (or_intror Hx))) with (k := k) (l := l) (b := b)
        in Hget; auto.
      intros k' l' Hget' b' Hb'. destruct (string_dec (wc_docId wc) k') as [<-|Hne].
      + rewrite get_set_same in Hget'. injection Hget' as <-.
        unfold buildMaintenanceIntervals in Hb'. apply in_map_iff in Hb'.
        destruct Hb' as (mw & <- & Hin). apply (Hmw wc (Hincl wc (or_introl eq_refl)) mw Hin).
      + rewrite get_set_other in Hget' by exact Hne. now apply (Hm k' l'). }
  apply H; [apply incl_refl | discriminate].
Qed.

Lemma lockMaintenance_aligned (orders : list WorkOrder) :
  (forall wo, In wo orders -> alignedOrder wo) ->
  forall booked booked',
    lockMaintenance orders booked = Ok booked' ->
    (forall k l, JsMap.get booked k = Some l -> forall b, In b l -> alignedInterval b) ->
    forall k l, JsMap.get booked' k = Some l -> forall b, In b l -> alignedInterval b.
Proof.
  induction orders as [|wo rest IH]; intros Hal booked booked' H Hb; simpl in H.
  - now injection H as <-.
  - assert (Hrest : forall w, In w rest -> alignedOrder w) by (intros w Hw; apply Hal; now right).
    destruct (negb (isMaintenance wo)); [now apply (IH Hrest booked booked')|].
    destruct (JsMap.get booked (workCenterId wo)) as [l0|] eqn:E; [|discriminate].
    apply (IH Hrest _ booked' H).
    intros k l Hget b Hin. destruct (string_dec (workCenterId wo) k) as [<-|Hne].
    + rewrite get_set_same in Hget. injection Hget as <-.
      apply sortIntervals_In, in_app_iff in Hin. destruct Hin as [Hin|[<-|[]]].
      * now apply (Hb (workCenterId wo) l0).
      * apply (Hal wo). now left.
    + rewrite get_set_other in Hget by exact Hne. now apply (Hb k l).
Qed.

End WholeMinuteBookings.

(** X28. When the dates of the work orders and the bounds of the maintenance
    windows are on whole minutes, the durations and setup times are whole
    numbers of minutes (as the durations of this development are), and the
    shift hours are as the data model has them, every date of the result of
    [reflow] is on a whole minute. *)
Theorem reflow_whole_minutes (fuel : nat) (input : ReflowInput) (r : ReflowResult) :
  Reflow.reflow fuel input = Ok r ->
  uniqueIds input ->
  (forall wc, In wc (workCenters input) -> forall s, In s (shifts wc) -> hourShift s) ->
  (forall wo, In wo (workOrders input) ->
     aligned (fromISO (startDate wo)) /\ aligned (fromISO (endDate wo))) ->
  (forall wc, In wc (workCenters input) -> forall mw, In mw (maintenanceWindows wc) ->
     aligned (fromISO (mw_startDate mw)) /\ aligned (fromISO (mw_endDate mw))) ->
  forall n, In n (updatedWorkOrders r) ->
    aligned (fromISO (startDate n)) /\ aligned (fromISO (endDate n)).
Proof.
  intros Hrun Hu Hh Hwo Hmw n Hn.
  destruct (reflow_run fuel input r Hrun Hu)
    as (topoIds & booked & st & _ & _ & Hlock & Hplace & _ & Hupd & _).
  assert (Hal : alignedRun st).
  { apply (placeAll_alignedRun fuel (centersById input)) with (2 := Hplace).
    - intros k wc Hk. apply Hh. now apply (wcMap_In input k).
    - split; cbn [Reflow.woMap Reflow.centerBooked].
      + intros id w Hget. apply Hwo.
        now destruct (get_entries_docId (workOrders input) id w Hget).
      + apply (lockMaintenance_aligned (workOrders input) Hwo _ booked Hlock).
        now apply seedBooked_aligned. }
  rewrite Hupd in Hn. apply (In_collectUpdated st) in Hn.
  destruct Hn as (id & _ & Hget). apply scheduledGet_get in Hget.
  now apply (proj1 Hal id n).
Qed.

Lemma reflow_whole_minutes_witness :
  exists r,
    Reflow.reflow 3 Scenarios.scenario1_delayCascade = Ok r
    /\ forall n, In n (updatedWorkOrders r) ->
         aligned (fromISO (startDate n)) /\ aligned (fromISO (endDate n)).
Proof.
  assert (E : exists r, Reflow.reflow 3 Scenarios.scenario1_delayCascade = Ok r)
    by (eexists; vm_compute; reflexivity).
  destruct E as [r Hrun]. exists r. split; [exact Hrun|].
  apply (reflow_whole_minutes 3 Scenarios.scenario1_delayCascade r Hrun scenario1_uniqueIds).
  - intros wc [<-|[]] s Hs. now apply dayShift_hours.
  - intros wo [<-|[<-|[<-|[]]]]; split; vm_compute; reflexivity.
  - intros wc [<-|[]] mw [<-|[]]; split; vm_compute; reflexivity.
Defined.

(** ** The placements, one by one *)

Section Bookings.

Import Reflow.



End Bookings.

Section Greedy.

Import Reflow.

Variable fuel : nat.
Variable input : ReflowInput.
Variable b0 : JsMap.t (list Interval).

Hypothesis centers_booked :
  forall k wc, JsMap.get (centersById input) k = Some wc ->
    wc_docId wc = k /\ exists l0, JsMap.get b0 k = Some l0.









End Greedy.



